(* ===== verification/_CoqProject ===== *)
-Q . S2P
Prelude.v
PhysAddr.v
VirtAddr.v
PageTableEntry.v
Memory.v
BootInfo.v
MemoryMap.v
FrameAllocator.v
FrameInit.v
FrameSource.v
Vmm.v
PageWalk.v
VmmSpec.v
VmmCorrect.v
VmmTheorems.v
HeapMemory.v
LinkedListAllocator.v
FreeBlocks.v
FreeListSpec.v
FreeListAlloc.v
FreeListTheorems.v
SpinLock.v
Mmu.v
Heap.v
HeapGrowth.v
HeapSpec.v
HeapTheorems.v
HeapTermination.v
Serial.v
Gdt.v
Idt.v
Exceptions.v
SelfTest.v
VmmSelfTest.v
GlobalAlloc.v
AllocCrate.v
HeapClient.v
HeapSelfTest.v
InterruptTest.v
KernelMain.v
ByteTyping.v
BootMachine.v
UnitTests.v
BootDefs.v
Firmware.v
BootPaging.v
BootTables.v
BootMemoryMap.v
Elf.v
KernelLoader.v
BootSerial.v
Bootloader.v
BootloaderTheorems.v
BootHandoff.v
KernelStub.v
BootChain.v
BootLiveness.v
DemoFirmware.v
