(* ===== verification/Prelude.v ===== *)
(** XyronOS: a verification library of its kernel and its bootloader.

    The bootloader (C, under src/boot) reads the kernel's file with the
    services of the UEFI firmware, lays its image out in memory, builds the
    page tables it starts on, takes the memory map, leaves the firmware and
    jumps. The kernel (Rust, under src/kernel/src) is entered with a handoff
    structure, builds a physical frame allocator from the firmware's memory
    map, takes over the page tables, grows a heap on top of both, and then
    loads its descriptor tables and exception handlers. Every step reports over
    the serial port and is followed by a self-test; any failure halts the
    machine. This library models that code as executable functions and proves
    what each part promises to the next.

    * How the code is translated

    A Rust function is a function into [outcome] (a value, a panic, undefined
    behaviour, or a loop that ran out of fuel); a method that changes its
    object passes the object along ([M], a state monad over [outcome]).
    Machine integers are integers [Z] with their width written out: plain
    [+], [-] and [*] of the source are [add64], [sub64] and [mul64], which
    panic or wrap according to the build profile ([BuildProfile], the dev and
    release profiles of Cargo), [checked_add] and the like are options, and
    bit operations are those of [Z].  Every theorem holds for both profiles
    unless it says otherwise.  Raw memory is a finite map from addresses to
    bytes (Memory); an access to an absent, null or misaligned address is
    [Undef], so a theorem that a function returns also says that it makes no
    wild access.  Privileged instructions act on explicit machine state.

    * The files

    - Prelude: outcomes, the state monad, machine arithmetic, loops, bit
      lemmas, the hint databases [kernel] and [kernel_bits] and the tactics.
    - PhysAddr, VirtAddr, PageTableEntry: mm/phys_addr.rs, mm/virt_addr.rs,
      mm/page_table_entry.rs, one definition per method.
    - Memory: little-endian loads and stores on byte maps.
    - BootInfo, MemoryMap: boot_info.rs and mm/memory_map.rs, the structure
      and the descriptors read from memory byte by byte.
    - FrameAllocator, FrameInit: mm/frame_allocator.rs, the bitmap operations
      with the abstract allocator they refine (a set of free frames), and the
      three-pass construction [init].
    - FrameSource: the interface (a class with laws) through which the memory
      manager and the heap use the frame allocator.
    - Vmm, PageWalk, VmmSpec, VmmCorrect, VmmTheorems: mm/vmm.rs over a
      machine with physical memory, TLB, EFER and CR3; PageWalk is the
      reference walk of the processor and the shape of a sound table tree,
      VmmSpec and VmmCorrect the invariant and the branches of [map] and
      [unmap], VmmTheorems the properties.
    - HeapMemory, LinkedListAllocator, FreeBlocks, FreeListSpec,
      FreeListAlloc, FreeListTheorems: mm/linked_list_allocator.rs over an
      interface of word memory; FreeBlocks is the theory of sorted lists of
      blocks, FreeListSpec relates the nodes in memory to such a list.
    - SpinLock: sync/spinlock.rs, sequentially and as a step relation on
      interleaved processors.
    - Mmu, Heap, HeapGrowth, HeapSpec, HeapTheorems: mm/heap.rs; the free
      list lives in memory reached through the page tables the heap itself
      extends (Mmu makes that memory an instance of HeapMemory).
    - Serial: arch/x86_64/serial.rs over a 16550 register file.
    - Gdt, Idt, Exceptions: arch/x86_64/gdt.rs, idt.rs and exceptions.rs over
      the segment state of the processor and the bytes of the tables.
    - SelfTest, VmmSelfTest: the self-tests of the frame allocator and of the
      memory manager in main.rs.
    - GlobalAlloc, AllocCrate: the interface of a global allocator (a class of
      operations and a class of laws, with blocks a client owns and a credit
      of pages, with memory that may or may not run out), and the parts of
      Rust's alloc crate the kernel uses (Box, Vec, the vec! macro), specified
      against that interface by the judgement [ends] of this file: a run
      returns, or panics with a cause that is named.
    - HeapClient: the kernel heap is a lawful global allocator.
    - HeapSelfTest, InterruptTest: the self-tests of the heap and of the
      exceptions in main.rs; the latter delivers exceptions through the loaded
      tables.
    - KernelMain: kernel_main, halt and the panic handler, which compose all
      of the above.
    - ByteTyping: every operation that writes memory keeps bytes bytes, by a
      judgement that follows the structure of the code.
    - HeapTermination: when the calls of the heap come to an end.
    - BootMachine: a complete boot state, byte by byte, on which the theorems
      about the start are applied.
    - UnitTests: the unit tests of the kernel's sources (the tests modules),
      run on the model.
    - BootDefs: boot/include/boot_defs.h.
    - Firmware: the boot services, a class of functions on the firmware's
      state and on memory (BootServices), what the UEFI specification promises
      of them (FirmwareLaws), and the bootloader's state with its open buffers
      and files; a call after the exit, a double free and an access to a freed
      buffer are undefined behaviour.
    - BootPaging, BootTables: boot/paging.c, and the walks of the processor
      through the tables it builds.
    - BootMemoryMap: boot/memory_map.c.
    - Elf, KernelLoader: boot/include/elf.h and boot/kernel_loader.c, the file
      as a list of bytes with its fields at their offsets, and the loading.
    - BootSerial: boot/serial.c, on the register file of Serial.
    - Bootloader, BootloaderTheorems: boot/main.c, phase by phase, and
      boot/trampoline.asm as the four values it jumps with.
    - BootHandoff: what is in memory at the jump, in the kernel's terms.
    - KernelStub: tests/kernel_stub/kernel_stub.c, the program the bootloader is
      tested with, on what the bootloader hands over.
    - BootChain: the two programs together.
    - BootLiveness: a firmware that cooperates (Cooperative), on which the
      bootloader reaches the kernel.
    - DemoFirmware: a firmware that keeps all promises, with a kernel file, on
      which the theorems about the bootloader are applied, from power-on to
      the end of kernel_main.

    * What is shown

    Frame allocator: the invariant (one bit per frame, counter equal to the
    number of clear bits, hint in range) is kept by every operation; any
    sequence of requests refines the abstract set of free frames; [init]
    frees exactly the usable frames of the map minus its own bitmap, names the
    cause of each failure, and is undefined in exactly one case, a bitmap at
    physical address 0.  Page tables: [map] and [unmap] are exact on
    every branch, [translate] and [flags_at] compute the reference walk, the
    TLB never goes stale.  Free list: insertion coalesces completely, [alloc]
    is first fit, clients never share a byte.  Heap: allocation and growth
    are correct on every branch, including the frames a failed growth loses.
    Serial port: nothing is lost or reordered and the driver returns on a
    line that drains.  Descriptor tables: the processor finds every
    descriptor, gate, stack and handler it needs, and every exception is
    reported and stops the machine except the breakpoint.  Kernel heap as a
    global allocator: owned blocks keep their bytes, and an allocation backed
    by credit succeeds.  Boot: from a sound handoff with enough memory
    [kernel_main] passes every self-test, panics nowhere and ends in the
    intended page fault; from a sound handoff with any amount of memory it does
    nothing undefined, comes to an end, and every way it can end is known;
    from an unusable handoff it halts untouched with the reason as its last
    output.  Bootloader: the image in memory is what the
    file says, the page tables translate every canonical address as meant, the
    memory map is the firmware's at the exit and offers no page the loader
    holds, every buffer and file is given back, and boot services are never
    called after they have gone; on a cooperating firmware it reaches the
    kernel, and the kernel it reaches is safe and boots; the stub it is tested
    with reports what it was given.  Two limits of it are theorems:
    page tables at or above 4 GiB stop the kernel, and an image whose lowest
    segment is not at the kernel's base is mapped at the wrong addresses; so
    is the read past a truncated file.

    * Fuel

    Loops whose bound the source does not write down have fuel: the free-list
    walks (enough: one more than the number of blocks), the spin lock (one
    attempt when the lock is free), the status poll of the serial port (three
    more than the longest transmission of a byte).  The theorems state the
    bound and prove that the run returns; counted loops are structural.  The
    boot theorem asks for a sixteenth of the heap range below the read-only
    test page, which bounds the free list since a block has 16 bytes or more.

    * Memory the boot needs

    Mapping a page takes at most four frames (the page and three tables).
    The heap self-test is charged 2336 pages: each allocation is charged the
    pages a growth for it would map, whether the free list serves it or not.
    With the three tables of the memory manager's test and the read-only page
    that makes 9353 frames below the identity-map limit, about 37 MiB: a bound
    that is enough, not the least.  Below it a boot may end in a panic of the
    heap test or of the mapping of the read-only page, and in nothing worse.

    * Not modelled

    The firmware, which is a parameter; hardware interrupts, which the kernel
    leaves disabled; the memory order of atomics (acquire and
    release are taken as the order they enforce); the accessed and dirty bits
    the processor sets in page tables; the build files. Whether the processor
    enforces read-only pages in ring 0 (CR0.WP) is a parameter, since nothing
    in the repository sets it; so are the addresses the linker gives to statics
    and handlers and the time the serial line takes. The handoff and the page
    tables are reached through the bootloader's identity mapping, so their
    addresses are taken as physical. In the bootloader, pool buffers are lists
    of bytes beside memory, handles and protocol pointers are numbers, and the
    fields of a program header may be read at any offset, as the processor
    allows. A kernel file is taken to be well formed (kernel_file_ok) where the
    loader does not check it; Elf shows what happens otherwise. *)
From stdpp Require Import base numbers option gmap list_numbers list.
From Stdlib Require Import ZArith Lia.

#[global] Open Scope Z_scope.

(** * Outcomes of running Rust code

    [Ret a]: normal return.  [Panic p]: a Rust panic (the kernel's panic
    handler halts the machine).  [Undef]: the run leaves defined behaviour
    (an unmapped, null or misaligned raw-pointer access).  [NoFuel]: a loop
    of the model used up its fuel; it stands for a run that does not
    return. *)
Inductive panic : Type :=
| ArithOverflow
| IndexOutOfBounds
| AssertFailed
| ExpectFailed
| CapacityOverflow
| AllocFailed.

Inductive outcome (A : Type) : Type :=
| Ret (a : A)
| Panic (p : panic)
| Undef
| NoFuel.
Arguments Ret {A} a.
Arguments Panic {A} p.
Arguments Undef {A}.
Arguments NoFuel {A}.

#[global] Instance outcome_ret : MRet outcome := λ A a, Ret a.
#[global] Instance outcome_bind : MBind outcome := λ A B f m,
  match m with
  | Ret a => f a
  | Panic p => Panic p
  | Undef => Undef
  | NoFuel => NoFuel
  end.

(** Rust's [Result]. *)
Inductive result (A E : Type) : Type :=
| Ok (a : A)
| Err (e : E).
Arguments Ok {A E} a.
Arguments Err {A E} e.

(** Option to outcome, for the raw accesses that must succeed. *)
Definition defined {A} (o : option A) : outcome A :=
  match o with Some a => Ret a | None => Undef end.

(** * State passing: a computation over a state that may also panic. *)
Definition M (S A : Type) : Type := S → outcome (A * S).

#[global] Instance M_ret {S} : MRet (M S) := λ A a s, Ret (a, s).
#[global] Instance M_bind {S} : MBind (M S) := λ A B f m s,
  match m s with
  | Ret (a, s') => f a s'
  | Panic p => Panic p
  | Undef => Undef
  | NoFuel => NoFuel
  end.

(** An outcome that does not touch the state, and Rust's [?] on a
    [Result]-returning computation: stop with the error, keep the state. *)
Definition lift {S A} (o : outcome A) : M S A :=
  λ s, match o with
       | Ret a => Ret (a, s)
       | Panic p => Panic p
       | Undef => Undef
       | NoFuel => NoFuel
       end.
Definition try_bind {S A B E} (m : M S (result A E)) (k : A → M S (result B E)) :
    M S (result B E) :=
  r ← m; match r with Ok a => k a | Err e => mret (Err e) end.

Declare Scope kernel_scope.
Delimit Scope kernel_scope with kernel.
Notation "x ←? m ; k" := (try_bind m (λ x, k))
  (at level 20, m at level 100, k at level 200, only parsing) : kernel_scope.

(** * Machine integers

    [u8], [u16], [u32], [u64] and [usize] (64 bits on this target) are [Z]
    with their ranges written out.  Arithmetic operators follow the build
    profile: with overflow checks (dev profile) an operation out of range
    panics, without (release profile) it wraps around. *)
Class BuildProfile : Type := overflow_checks : bool.
Definition dev_profile : BuildProfile := true.
Definition release_profile : BuildProfile := false.

Definition u64 (x : Z) : Prop := 0 ≤ x < 2 ^ 64.
Definition u64b (x : Z) : bool := (0 <=? x) && (x <? 2 ^ 64).
Definition wrap64 (x : Z) : Z := x mod 2 ^ 64.

Definition arith64 {P : BuildProfile} (x : Z) : outcome Z :=
  if u64b x then Ret x
  else if overflow_checks then Panic ArithOverflow else Ret (wrap64 x).
Definition add64 {P : BuildProfile} (a b : Z) : outcome Z := arith64 (a + b).
Definition sub64 {P : BuildProfile} (a b : Z) : outcome Z := arith64 (a - b).
Definition mul64 {P : BuildProfile} (a b : Z) : outcome Z := arith64 (a * b).

Definition checked_add (a b : Z) : option Z := if u64b (a + b) then Some (a + b) else None.
Definition checked_mul (a b : Z) : option Z := if u64b (a * b) then Some (a * b) else None.
Definition saturating_add (a b : Z) : Z := Z.min (a + b) (2 ^ 64 - 1).
Definition div_ceil (a b : Z) : Z := if 0 <? a mod b then a / b + 1 else a / b.

(** Bitwise not at a width, as Rust's [!] on an unsigned integer. *)
Definition not_w (w x : Z) : Z := Z.land (Z.lnot x) (Z.ones w).

(** Slice indexing: Rust checks the bound and panics. *)
Definition index {A} (l : list A) (i : Z) : outcome A :=
  if i <? 0 then Panic IndexOutOfBounds
  else match l !! Z.to_nat i with Some x => Ret x | None => Panic IndexOutOfBounds end.
Definition index_set {A} (l : list A) (i : Z) (x : A) : outcome (list A) :=
  if (0 <=? i) && (i <? Z.of_nat (length l)) then Ret (<[Z.to_nat i := x]> l)
  else Panic IndexOutOfBounds.

(** * Loops

    [for_range n i body s] is Rust's [for j in i..i+n]: the body returns the
    new state and whether it left the loop ([break] or [return]). *)
Fixpoint for_range {S} (n : nat) (i : Z) (body : Z → S → outcome (S * bool)) (s : S) :
    outcome S :=
  match n with
  | O => Ret s
  | S n =>
    r ← body i s;
    let '(s', brk) := r : S * bool in
    if brk then Ret s' else for_range n (i + 1) body s'
  end.

(** * Lemmas and automation shared by the components *)

Create HintDb kernel.
Create Rewrite HintDb kernel_bits.

Lemma u64b_spec x : u64b x = true ↔ u64 x.
Proof. unfold u64b, u64. lia. Qed.

Lemma arith64_ok {P : BuildProfile} x : u64 x → arith64 x = Ret x.
Proof. intros Hx%u64b_spec. unfold arith64. by rewrite Hx. Qed.

Lemma add64_ok {P : BuildProfile} a b : u64 (a + b) → add64 a b = Ret (a + b).
Proof. apply arith64_ok. Qed.
Lemma sub64_ok {P : BuildProfile} a b : u64 (a - b) → sub64 a b = Ret (a - b).
Proof. apply arith64_ok. Qed.
Lemma mul64_ok {P : BuildProfile} a b : u64 (a * b) → mul64 a b = Ret (a * b).
Proof. apply arith64_ok. Qed.

Lemma checked_add_Some a b c : checked_add a b = Some c ↔ c = a + b ∧ u64 (a + b).
Proof.
  unfold checked_add. pose proof (u64b_spec (a + b)) as Hs.
  destruct (u64b (a + b)); naive_solver.
Qed.
Lemma checked_mul_Some a b c : checked_mul a b = Some c ↔ c = a * b ∧ u64 (a * b).
Proof.
  unfold checked_mul. pose proof (u64b_spec (a * b)) as Hs.
  destruct (u64b (a * b)); naive_solver.
Qed.
Lemma checked_add_ok a b : u64 (a + b) → checked_add a b = Some (a + b).
Proof. intros. by apply checked_add_Some. Qed.

(** [div_ceil] is the least multiple count that covers [a]. *)
Lemma div_ceil_spec a b : 0 < b → a ≤ div_ceil a b * b < a + b.
Proof.
  intros Hb. unfold div_ceil. pose proof (Z.mod_pos_bound a b Hb).
  pose proof (Z.div_mod a b). case_match; nia.
Qed.
Lemma div_ceil_nonneg a b : 0 < b → 0 ≤ a → 0 ≤ div_ceil a b.
Proof. intros Hb Ha. pose proof (div_ceil_spec a b Hb). nia. Qed.
Lemma div_ceil_mono a b n : 0 < b → a ≤ n * b → div_ceil a b ≤ n.
Proof. intros Hb Ha. pose proof (div_ceil_spec a b Hb). nia. Qed.

(** Binds: how a sequence that returned was run. *)
Lemma bind_Ret {A B} (m : outcome A) (f : A → outcome B) b :
  (x ← m; f x) = Ret b ↔ ∃ a, m = Ret a ∧ f a = Ret b.
Proof. destruct m; cbn; naive_solver. Qed.

Lemma M_bind_Ret {S A B} (m : M S A) (k : A → M S B) s r :
  (x ← m; k x) s = Ret r ↔ ∃ a s', m s = Ret (a, s') ∧ k a s' = Ret r.
Proof. unfold mbind, M_bind. destruct (m s) as [[a s']| | |]; naive_solver. Qed.

(** A sequence whose steps keep their results keeps its result. *)
Lemma M_bind_mono {S A B} (m m' : M S A) (k k' : A → M S B) s r :
  (∀ a s', m s = Ret (a, s') → m' s = Ret (a, s')) →
  (∀ a s', k a s' = Ret r → k' a s' = Ret r) →
  (x ← m; k x) s = Ret r → (x ← m'; k' x) s = Ret r.
Proof. intros Hm Hk. rewrite !M_bind_Ret. naive_solver. Qed.

(** Running the first statement of a sequence. *)
Lemma M_run {S A B} (m : M S A) (k : A → M S B) s a s' : m s = Ret (a, s') → (x ← m; k x) s = k a s'.
Proof. unfold mbind, M_bind. by intros ->. Qed.

(** ** Runs that may panic

    [ends err o Q]: the run [o] returned with [Q], or panicked with a cause
    [err] allows; it is neither undefined nor out of fuel. *)
Definition ends {S A} (err : panic → Prop) (o : outcome (A * S)) (Q : A → S → Prop) : Prop :=
  match o with Ret (a, s) => Q a s | Panic p => err p | Undef | NoFuel => False end.

Lemma ends_ret {S A} err (o : outcome (A * S)) a s (Q : A → S → Prop) : o = Ret (a, s) → Q a s → ends err o Q.
Proof. by intros ->. Qed.
Lemma ends_mono {S A} (err err' : panic → Prop) (o : outcome (A * S)) (Q R : A → S → Prop) :
  ends err o Q → (∀ p, err p → err' p) → (∀ a s, Q a s → R a s) → ends err' o R.
Proof. destruct o as [[a s]| | |]; cbn; auto. Qed.
Lemma ends_bind {S A B} err (m : M S A) (k : A → M S B) s (Q : A → S → Prop) (R : B → S → Prop) :
  ends err (m s) Q → (∀ a s', Q a s' → ends err (k a s') R) → ends err ((x ← m; k x) s) R.
Proof. unfold mbind, M_bind. destruct (m s) as [[a s']| | |]; cbn; auto. Qed.
Lemma ends_sure {S A} (o : outcome (A * S)) (err : panic → Prop) (Q : A → S → Prop) :
  ends err o Q → (∀ p, ¬ err p) → ∃ a s, o = Ret (a, s) ∧ Q a s.
Proof. destruct o as [[a s]|p| |]; cbn; [eauto|intros H Hn; by destruct (Hn p)|done|done]. Qed.

Lemma lift_run {S A B} (a : A) (o : outcome A) (k : A → M S B) s : o = Ret a → (x ← lift o; k x) s = k a s.
Proof. by intros ->. Qed.

Lemma index_ok {A} (l : list A) i x :
  0 ≤ i → l !! Z.to_nat i = Some x → index l i = Ret x.
Proof. intros Hi Hx. unfold index. rewrite Hx. by destruct (Z.ltb_spec i 0); [lia|]. Qed.
Lemma index_Ret {A} (l : list A) i x :
  index l i = Ret x ↔ 0 ≤ i ∧ l !! Z.to_nat i = Some x.
Proof.
  unfold index. destruct (Z.ltb_spec i 0).
  - split; [done|lia].
  - destruct (l !! Z.to_nat i); naive_solver.
Qed.
Lemma index_set_ok {A} (l : list A) i x :
  0 ≤ i < Z.of_nat (length l) → index_set l i x = Ret (<[Z.to_nat i := x]> l).
Proof.
  intros Hi. unfold index_set.
  by destruct (Z.leb_spec 0 i), (Z.ltb_spec i (Z.of_nat (length l))); try lia.
Qed.

(** Total correctness of a counted loop: an invariant that every iteration
    re-establishes or leaves the loop with the postcondition. *)
Lemma for_range_total {S} (I : Z → S → Prop) (Q : S → Prop) n i body s :
  I i s →
  (∀ j t, i ≤ j < i + Z.of_nat n → I j t →
     ∃ t' b, body j t = Ret (t', b) ∧ if (b : bool) then Q t' else I (j + 1) t') →
  (∀ t, I (i + Z.of_nat n) t → Q t) →
  ∃ s', for_range n i body s = Ret s' ∧ Q s'.
Proof.
  revert i s. induction n as [|n IH]; intros i s HI Hstep Hend; cbn [for_range].
  - exists s. split; [done|]. apply Hend. by rewrite Z.add_0_r.
  - destruct (Hstep i s) as (t & b & Hb & Ht); [lia|done|].
    rewrite Hb. cbn. destruct b; [by eexists|].
    apply IH; [done|..].
    + intros j u Hj. apply Hstep. lia.
    + intros u Hu. apply Hend. by replace (i + Z.of_nat (Datatypes.S n)) with (i + 1 + Z.of_nat n) by lia.
Qed.

(** ** Sizes of finite sets of integers *)
Lemma size_remove (X : gset Z) x :
  Z.of_nat (size (X ∖ {[x]})) = Z.of_nat (size X) - (if decide (x ∈ X) then 1 else 0).
Proof.
  case_decide.
  - assert (Hx : {[x]} ⊆ X) by set_solver.
    rewrite size_difference by done. apply subseteq_size in Hx.
    rewrite size_singleton in *. lia.
  - replace (X ∖ {[x]}) with X by set_solver. lia.
Qed.
Lemma size_insert (X : gset Z) x :
  Z.of_nat (size ({[x]} ∪ X)) = Z.of_nat (size X) + (if decide (x ∈ X) then 0 else 1).
Proof.
  case_decide.
  - replace ({[x]} ∪ X) with X by set_solver. lia.
  - rewrite size_union, size_singleton by set_solver. lia.
Qed.
Lemma size_elem_pos (X : gset Z) x : x ∈ X → 0 < Z.of_nat (size X).
Proof.
  intros Hx. assert (Hs : {[x]} ⊆ X) by set_solver.
  apply subseteq_size in Hs. rewrite size_singleton in Hs. lia.
Qed.

(** ** Bits *)
Lemma testbit_high x w i : 0 ≤ x < 2 ^ w → 0 ≤ w ≤ i → Z.testbit x i = false.
Proof.
  intros Hx Hi. destruct (decide (x = 0)) as [->|]; [by rewrite Z.testbit_0_l|].
  apply Z.bits_above_log2; [lia|].
  assert (Z.log2 x < w) by (apply Z.log2_lt_pow2; lia). lia.
Qed.

Lemma testbit_range x w :
  0 ≤ w → 0 ≤ x → (∀ i, w ≤ i → Z.testbit x i = false) → x < 2 ^ w.
Proof.
  intros Hw Hx Hhi. destruct (decide (x = 0)) as [->|]; [lia|].
  apply Z.log2_lt_pow2; [lia|]. apply Z.nle_gt. intros Hle.
  pose proof (Z.bit_log2 x) as Hb. rewrite Hhi in Hb by done.
  assert (0 < x) by lia. naive_solver.
Qed.

Lemma testbit_ones n i : 0 ≤ n → Z.testbit (Z.ones n) i = (0 <=? i) && (i <? n).
Proof. intros. by apply Z.testbit_ones. Qed.

Lemma testbit_pow2 n i : 0 ≤ n → Z.testbit (2 ^ n) i = (i =? n).
Proof.
  intros. destruct (Z.eqb_spec i n) as [->|]; [by apply Z.pow2_bits_true|].
  apply Z.pow2_bits_false. done.
Qed.

Lemma testbit_shiftl_one k i : 0 ≤ k → Z.testbit (Z.shiftl 1 k) i = (i =? k).
Proof. intros. rewrite Z.shiftl_1_l. by apply testbit_pow2. Qed.

Lemma testbit_not_w w x i :
  0 ≤ w → 0 ≤ i → Z.testbit (not_w w x) i = negb (Z.testbit x i) && (i <? w).
Proof.
  intros. unfold not_w. rewrite Z.land_spec, Z.lnot_spec, testbit_ones by done.
  destruct (Z.leb_spec 0 i); [done|lia].
Qed.

(** Masking one bit out and comparing with zero reads that bit. *)
Lemma land_one_bit x k : 0 ≤ k → (Z.land x (Z.shiftl 1 k) =? 0) = negb (Z.testbit x k).
Proof.
  intros Hk. destruct (Z.testbit x k) eqn:Hb; cbn.
  - apply Z.eqb_neq. intros H0. apply (f_equal (λ z, Z.testbit z k)) in H0.
    rewrite Z.land_spec, testbit_shiftl_one, Hb, Z.eqb_refl, Z.testbit_0_l in H0 by done.
    done.
  - apply Z.eqb_eq, Z.bits_inj'. intros i Hi.
    rewrite Z.land_spec, testbit_shiftl_one, Z.testbit_0_l by done.
    destruct (Z.eqb_spec i k) as [->|]; [by rewrite Hb|by rewrite andb_false_r].
Qed.

(** A [w]-bit field cut out at bit [k] and put back there. *)
Lemma testbit_field x k w i :
  0 ≤ k → 0 ≤ w → 0 ≤ i →
  Z.testbit (Z.shiftl (Z.land (Z.shiftr x k) (Z.ones w)) k) i =
  Z.testbit x i && ((k <=? i) && (i <? k + w)).
Proof.
  intros. rewrite Z.shiftl_spec by done. destruct (Z.leb_spec k i); cbn.
  - rewrite Z.land_spec, Z.shiftr_spec, testbit_ones, Z.sub_add by lia. f_equal.
    destruct (Z.leb_spec 0 (i - k)), (Z.ltb_spec (i - k) w), (Z.ltb_spec i (k + w)); try lia; done.
  - by rewrite Z.testbit_neg_r, andb_false_r by lia.
Qed.

(** An element of a list that has a property throughout. *)
Lemma Forall_elem {A} (Φ : A → Prop) l x : Forall Φ l → x ∈ l → Φ x.
Proof. intros HF [i Hi]%list_elem_of_lookup. by eapply Forall_lookup_1. Qed.

(** Rounding with a mask. *)
Lemma div_ceil_floor a b : 0 < b → div_ceil a b = (a + b - 1) / b.
Proof.
  intros Hb. pose proof (div_ceil_spec a b Hb). pose proof (Z.div_mod (a + b - 1) b).
  pose proof (Z.mod_pos_bound (a + b - 1) b Hb). nia.
Qed.
Lemma mask_low x k : 0 ≤ k ≤ 64 → 0 ≤ x < 2 ^ 64 → Z.land x (not_w 64 (2 ^ k - 1)) = x / 2 ^ k * 2 ^ k.
Proof.
  intros Hk Hx. rewrite <- Z.shiftr_div_pow2, <- Z.shiftl_mul_pow2 by lia.
  replace (2 ^ k - 1) with (Z.ones k) by (rewrite Z.ones_equiv; lia).
  apply Z.bits_inj'. intros i Hi. rewrite Z.land_spec, testbit_not_w, testbit_ones by lia.
  rewrite Z.shiftl_spec by lia. destruct (Z.leb_spec 0 i); [|lia].
  destruct (Z.ltb_spec i k); cbn.
  - by rewrite andb_false_r, Z.testbit_neg_r by lia.
  - rewrite Z.shiftr_spec, Z.sub_add by lia.
    destruct (Z.ltb_spec i 64); [by rewrite andb_true_r|]. by rewrite (testbit_high x 64) by lia.
Qed.

(** Or-ing a value below [2^k] into a multiple of [2^k] adds it. *)
Lemma lor_add a b k : 0 ≤ k → a mod 2 ^ k = 0 → 0 ≤ b < 2 ^ k → Z.lor a b = a + b.
Proof.
  intros Hk Ha Hb.
  assert (Hand : Z.land a b = 0).
  { apply Z.bits_inj'. intros i Hi. rewrite Z.land_spec, Z.testbit_0_l.
    destruct (Z.ltb_spec i k); [|by rewrite (testbit_high b k), andb_false_r by lia].
    apply (f_equal (λ z, Z.testbit z i)) in Ha.
    by rewrite Z.mod_pow2_bits_low, Z.testbit_0_l in Ha by lia; rewrite Ha. }
  by rewrite <- Z.lxor_lor, Z.add_nocarry_lxor.
Qed.

(** Setting and clearing one bit of a byte. *)
Lemma set_bit8 b k :
  0 ≤ b < 256 → 0 ≤ k < 8 → 0 ≤ Z.lor b (Z.shiftl 1 k) < 256.
Proof.
  intros Hb Hk.
  assert (0 ≤ Z.lor b (Z.shiftl 1 k)) by (apply Z.lor_nonneg; rewrite Z.shiftl_nonneg; lia).
  split; [done|]. apply (testbit_range _ 8); [done..|]. intros i Hi.
  rewrite Z.lor_spec, testbit_shiftl_one, (testbit_high b 8) by lia.
  destruct (Z.eqb_spec i k); [lia|done].
Qed.
Lemma testbit_set_bit b k j :
  0 ≤ k → Z.testbit (Z.lor b (Z.shiftl 1 k)) j = if decide (j = k) then true else Z.testbit b j.
Proof.
  intros. rewrite Z.lor_spec, testbit_shiftl_one by done.
  case_decide; destruct (Z.eqb_spec j k); try done; by rewrite ?orb_true_r, ?orb_false_r.
Qed.
Lemma clear_bit8 b k :
  0 ≤ b < 256 → 0 ≤ k < 8 → 0 ≤ Z.land b (not_w 8 (Z.shiftl 1 k)) < 256.
Proof.
  intros Hb Hk.
  assert (0 ≤ Z.land b (not_w 8 (Z.shiftl 1 k))) by (apply Z.land_nonneg; lia).
  split; [done|]. apply (testbit_range _ 8); [done..|]. intros i Hi.
  by rewrite Z.land_spec, (testbit_high b 8) by lia.
Qed.
Lemma testbit_clear_bit b k j :
  0 ≤ j < 8 → 0 ≤ k →
  Z.testbit (Z.land b (not_w 8 (Z.shiftl 1 k))) j =
  if decide (j = k) then false else Z.testbit b j.
Proof.
  intros. rewrite Z.land_spec, testbit_not_w, testbit_shiftl_one by lia.
  case_decide; destruct (Z.eqb_spec j k), (Z.ltb_spec j 8); try lia; cbn;
    by rewrite ?andb_true_r, ?andb_false_r.
Qed.

#[export] Hint Rewrite Z.land_spec Z.lor_spec Z.lxor_spec Z.ldiff_spec
  Z.testbit_0_l : kernel_bits.
#[export] Hint Rewrite Z.shiftr_spec Z.shiftl_spec Z.lnot_spec testbit_ones
  testbit_pow2 testbit_shiftl_one testbit_not_w using lia : kernel_bits.

(** Equality of two integers bit by bit, splitting on the comparisons the
    bit specifications introduce. *)
Ltac bits_split :=
  repeat match goal with
  | |- context [?a <? ?b] => destruct (Z.ltb_spec a b)
  | |- context [?a <=? ?b] => destruct (Z.leb_spec a b)
  | |- context [?a =? ?b] => destruct (Z.eqb_spec a b)
  end; try lia.
Ltac bits_eq :=
  apply Z.bits_inj'; let i := fresh "i" in let Hi := fresh "Hi" in intros i Hi;
  autorewrite with kernel_bits; bits_split.

(** Linear arithmetic with division and modulo by constants. *)
Ltac dlia := Z.to_euclidean_division_equations; lia.

(** Range arithmetic side conditions. *)
Ltac u64_solve := unfold u64 in *; lia.
#[export] Hint Extern 1 (u64 _) => u64_solve : kernel.

(** Run the arithmetic of a monadic definition whose ranges are known. *)
Ltac run_arith :=
  repeat first
    [ rewrite add64_ok by u64_solve
    | rewrite sub64_ok by u64_solve
    | rewrite mul64_ok by u64_solve ];
  cbn [mbind outcome_bind mret outcome_ret].

(** Booleans and their propositions in hypotheses. *)
Ltac bool_hyps :=
  repeat match goal with
  | H : (_ && _) = true |- _ => apply andb_true_iff in H; destruct H
  | H : (_ || _) = false |- _ => apply orb_false_iff in H; destruct H
  | H : negb _ = true |- _ => apply negb_true_iff in H
  | H : negb _ = false |- _ => apply negb_false_iff in H
  | H : (_ <? _) = true |- _ => apply Z.ltb_lt in H
  | H : (_ <? _) = false |- _ => apply Z.ltb_ge in H
  | H : (_ <=? _) = true |- _ => apply Z.leb_le in H
  | H : (_ <=? _) = false |- _ => apply Z.leb_gt in H
  | H : (_ =? _) = true |- _ => apply Z.eqb_eq in H
  | H : (_ =? _) = false |- _ => apply Z.eqb_neq in H
  end.
