(* ===== verification/PhysAddr.v ===== *)
(** Physical addresses: [kernel/src/mm/phys_addr.rs].

    [PhysAddr] is the newtype around a [u64]; the conversions between an
    address and its 4 KiB frame number are the ones the frame allocator
    uses to index its bitmap. *)
From stdpp Require Import base numbers option gmap list_numbers list.
From S2P Require Import Prelude.

Definition FRAME_SIZE : Z := 4096.

Record PhysAddr : Type := mkPhysAddr { phys_0 : Z }.

#[global] Instance PhysAddr_eq_dec : EqDecision PhysAddr.
Proof. solve_decision. Defined.

Definition new (addr : Z) : PhysAddr := mkPhysAddr addr.
Definition as_u64 (self : PhysAddr) : Z := phys_0 self.
Definition frame_number (self : PhysAddr) : Z := phys_0 self / FRAME_SIZE.
Definition from_frame_number {P : BuildProfile} (frame : Z) : outcome PhysAddr :=
  a ← mul64 frame FRAME_SIZE; Ret (mkPhysAddr a).
Definition is_frame_aligned (self : PhysAddr) : bool := phys_0 self mod FRAME_SIZE =? 0.

(** The value range of the wrapped [u64]. *)
Definition valid (a : PhysAddr) : Prop := u64 (as_u64 a).

(** ** Lemmas *)
Lemma PhysAddr_eta a : new (as_u64 a) = a.
Proof. by destruct a. Qed.
Lemma as_u64_inj a b : as_u64 a = as_u64 b → a = b.
Proof. destruct a, b; cbn. congruence. Qed.

Lemma is_frame_aligned_spec a : is_frame_aligned a = true ↔ as_u64 a mod FRAME_SIZE = 0.
Proof. apply Z.eqb_eq. Qed.

Lemma from_frame_number_ok {P : BuildProfile} f :
  0 ≤ f < 2 ^ 52 → from_frame_number f = Ret (new (f * FRAME_SIZE)).
Proof. intros. unfold from_frame_number, FRAME_SIZE. by run_arith. Qed.

Lemma frame_number_new f : frame_number (new (f * FRAME_SIZE)) = f.
Proof. unfold frame_number, new, FRAME_SIZE; cbn. apply Z.div_mul. lia. Qed.

Lemma frame_number_range a : valid a → 0 ≤ frame_number a < 2 ^ 52.
Proof. unfold valid, u64, as_u64, frame_number, FRAME_SIZE. dlia. Qed.

Lemma aligned_frame_number a :
  is_frame_aligned a = true → as_u64 a = frame_number a * FRAME_SIZE.
Proof.
  rewrite is_frame_aligned_spec. unfold as_u64, frame_number, FRAME_SIZE. dlia.
Qed.

(** ** Properties *)

(** The two conversions are inverse to each other: every frame number
    that has a 64-bit address survives the trip through its address, which
    is frame-aligned, and every aligned address is rebuilt from its frame
    number. *)
Theorem frame_number_roundtrip {P : BuildProfile} (f : Z) (a : PhysAddr) :
  0 ≤ f < 2 ^ 52 → valid a → is_frame_aligned a = true →
  (∃ b, from_frame_number f = Ret b ∧ valid b ∧ is_frame_aligned b = true ∧ frame_number b = f)
  ∧ from_frame_number (frame_number a) = Ret a.
Proof.
  intros Hf Hv Ha. split.
  - exists (new (f * FRAME_SIZE)). rewrite from_frame_number_ok by done.
    split_and!; [done|..|apply frame_number_new].
    + unfold valid, u64, as_u64, new, FRAME_SIZE; cbn. lia.
    + apply is_frame_aligned_spec. apply Z.mod_mul. done.
  - rewrite from_frame_number_ok by (by apply frame_number_range).
    rewrite <- aligned_frame_number by done. by rewrite PhysAddr_eta.
Qed.

Lemma frame_number_roundtrip_witness :
  (∃ b, from_frame_number (P := dev_profile) 0x123 = Ret b ∧ valid b ∧
        is_frame_aligned b = true ∧ frame_number b = 0x123)
  ∧ from_frame_number (P := dev_profile) (frame_number (new 0x123000)) = Ret (new 0x123000).
Proof.
  apply (frame_number_roundtrip (P := dev_profile) 0x123 (new 0x123000));
    [lia|unfold valid, u64; cbn; lia|reflexivity].
Defined.
