(* ===== verification/VirtAddr.v ===== *)
(** Virtual addresses: [kernel/src/mm/virt_addr.rs].

    The newtype around a [u64] and its split into the four 9-bit table
    indices and the 12-bit page offset of x86_64 four-level paging. *)
From stdpp Require Import base numbers option gmap list_numbers list.
From S2P Require Import Prelude PhysAddr.

Record VirtAddr : Type := mkVirtAddr { virt_0 : Z }.

#[global] Instance VirtAddr_eq_dec : EqDecision VirtAddr.
Proof. solve_decision. Defined.

Definition new (addr : Z) : VirtAddr := mkVirtAddr addr.
Definition as_u64 (self : VirtAddr) : Z := virt_0 self.
Definition is_page_aligned (self : VirtAddr) : bool := virt_0 self mod FRAME_SIZE =? 0.
Definition pml4_index (self : VirtAddr) : Z := Z.land (Z.shiftr (virt_0 self) 39) 0x1FF.
Definition pdpt_index (self : VirtAddr) : Z := Z.land (Z.shiftr (virt_0 self) 30) 0x1FF.
Definition pd_index (self : VirtAddr) : Z := Z.land (Z.shiftr (virt_0 self) 21) 0x1FF.
Definition pt_index (self : VirtAddr) : Z := Z.land (Z.shiftr (virt_0 self) 12) 0x1FF.
Definition page_offset (self : VirtAddr) : Z := Z.land (virt_0 self) 0xFFF.

(** The value range of the wrapped [u64], and the 36-bit page number the
    four indices spell: paging ignores bits 63:48. *)
Definition valid (v : VirtAddr) : Prop := u64 (as_u64 v).
Definition page (v : VirtAddr) : Z := (as_u64 v mod 2 ^ 48) / FRAME_SIZE.

(** ** Lemmas *)
Lemma index_arith x k : 0 ≤ k → Z.land (Z.shiftr x k) 0x1FF = (x / 2 ^ k) mod 512.
Proof.
  intros. change 0x1FF with (Z.ones 9). by rewrite Z.land_ones, Z.shiftr_div_pow2.
Qed.
Lemma page_offset_arith v : page_offset v = as_u64 v mod FRAME_SIZE.
Proof. unfold page_offset. change 0xFFF with (Z.ones 12). by rewrite Z.land_ones. Qed.

Lemma index_bounds v :
  (0 ≤ pml4_index v < 512) ∧ (0 ≤ pdpt_index v < 512) ∧
  (0 ≤ pd_index v < 512) ∧ (0 ≤ pt_index v < 512) ∧ (0 ≤ page_offset v < 4096).
Proof.
  rewrite page_offset_arith. unfold pml4_index, pdpt_index, pd_index, pt_index, FRAME_SIZE.
  rewrite !index_arith by done. dlia.
Qed.

(** The page number in base 512. *)
Lemma page_digits v :
  page v = pml4_index v * 2 ^ 27 + pdpt_index v * 2 ^ 18 + pd_index v * 2 ^ 9 + pt_index v.
Proof.
  unfold page, pml4_index, pdpt_index, pd_index, pt_index, FRAME_SIZE, as_u64.
  rewrite !index_arith by done. dlia.
Qed.

Lemma page_range v : 0 ≤ page v < 2 ^ 36.
Proof. unfold page, FRAME_SIZE. dlia. Qed.

Lemma page_eq_indices v w :
  page v = page w ↔
  pml4_index v = pml4_index w ∧ pdpt_index v = pdpt_index w ∧
  pd_index v = pd_index w ∧ pt_index v = pt_index w.
Proof.
  rewrite !page_digits. pose proof (index_bounds v). pose proof (index_bounds w). lia.
Qed.

(** ** Properties *)

(** The index split loses nothing below bit 48: shifting the four
    indices and the page offset back into place rebuilds the address modulo
    [2^48], and each index is a valid slot of a 512-entry table. *)
Theorem recombine_indices (v : VirtAddr) :
  Z.lor (Z.lor (Z.lor (Z.lor
    (Z.shiftl (pml4_index v) 39) (Z.shiftl (pdpt_index v) 30))
    (Z.shiftl (pd_index v) 21)) (Z.shiftl (pt_index v) 12)) (page_offset v)
  = as_u64 v mod 2 ^ 48
  ∧ (0 ≤ pml4_index v < 512) ∧ (0 ≤ pdpt_index v < 512) ∧
    (0 ≤ pd_index v < 512) ∧ (0 ≤ pt_index v < 512) ∧ (0 ≤ page_offset v < 4096).
Proof.
  split; [|apply index_bounds].
  unfold pml4_index, pdpt_index, pd_index, pt_index, page_offset, as_u64.
  change 0x1FF with (Z.ones 9). change 0xFFF with (Z.ones 12).
  rewrite <- Z.land_ones by done.
  apply Z.bits_inj'. intros i Hi. rewrite !Z.lor_spec, !testbit_field, !Z.land_spec, !testbit_ones by done.
  destruct (Z.testbit (virt_0 v) i); cbn; [|done].
  bits_split; reflexivity.
Qed.
