(* ===== verification/PageTableEntry.v ===== *)
(** Page-table entries: [kernel/src/mm/page_table_entry.rs].

    The raw [u64] entry format of x86_64: present (bit 0), writable (bit 1),
    page size (bit 7), address (bits 51:12), no-execute (bit 63). *)
From stdpp Require Import base numbers option gmap list_numbers list.
From S2P Require Import Prelude PhysAddr.

Definition FLAG_PRESENT : Z := Z.shiftl 1 0.
Definition FLAG_WRITABLE : Z := Z.shiftl 1 1.
Definition FLAG_NO_EXECUTE : Z := Z.shiftl 1 63.
Definition ADDR_MASK : Z := 0x000FFFFFFFFFF000.

Record PageFlags : Type := mkPageFlags { writable : bool; no_execute : bool }.

#[global] Instance PageFlags_eq_dec : EqDecision PageFlags.
Proof. solve_decision. Defined.

Definition read_write : PageFlags := {| writable := true; no_execute := false |}.

Record PageTableEntry : Type := mkEntry { entry_0 : Z }.

Definition is_present (self : PageTableEntry) : bool :=
  negb (Z.land (entry_0 self) FLAG_PRESENT =? 0).
Definition raw_has_flag (self : PageTableEntry) (flag : Z) : bool :=
  negb (Z.land (entry_0 self) flag =? 0).
Definition addr (self : PageTableEntry) : PhysAddr :=
  PhysAddr.new (Z.land (entry_0 self) ADDR_MASK).
Definition is_writable (self : PageTableEntry) : bool :=
  negb (Z.land (entry_0 self) FLAG_WRITABLE =? 0).
Definition is_no_execute (self : PageTableEntry) : bool :=
  negb (Z.land (entry_0 self) FLAG_NO_EXECUTE =? 0).
Definition new_table_pointer (a : PhysAddr) : PageTableEntry :=
  mkEntry (Z.lor (Z.lor (Z.land (PhysAddr.as_u64 a) ADDR_MASK) FLAG_PRESENT) FLAG_WRITABLE).
Definition new_leaf (a : PhysAddr) (flags : PageFlags) : PageTableEntry :=
  let bits := Z.lor (Z.land (PhysAddr.as_u64 a) ADDR_MASK) FLAG_PRESENT in
  let bits := if writable flags then Z.lor bits FLAG_WRITABLE else bits in
  let bits := if no_execute flags then Z.lor bits FLAG_NO_EXECUTE else bits in
  mkEntry bits.
Definition cleared : PageTableEntry := mkEntry 0.

(** ** Lemmas *)
Lemma ADDR_MASK_testbit i : 0 ≤ i → Z.testbit ADDR_MASK i = (12 <=? i) && (i <? 52).
Proof.
  intros. change ADDR_MASK with (Z.shiftl (Z.land (Z.shiftr (-1) 12) (Z.ones 40)) 12).
  by rewrite testbit_field, Z.bits_m1 by done.
Qed.
#[export] Hint Rewrite ADDR_MASK_testbit using lia : kernel_bits.

Lemma raw_has_flag_bit e k :
  0 ≤ k → raw_has_flag e (Z.shiftl 1 k) = Z.testbit (entry_0 e) k.
Proof. intros. unfold raw_has_flag. by rewrite land_one_bit, negb_involutive. Qed.
Lemma is_present_bit e : is_present e = Z.testbit (entry_0 e) 0.
Proof. by apply (raw_has_flag_bit e 0). Qed.
Lemma is_writable_bit e : is_writable e = Z.testbit (entry_0 e) 1.
Proof. by apply (raw_has_flag_bit e 1). Qed.
Lemma is_no_execute_bit e : is_no_execute e = Z.testbit (entry_0 e) 63.
Proof. by apply (raw_has_flag_bit e 63). Qed.

(** Masking keeps a frame-aligned address below [2^52] as it is. *)
Lemma addr_mask_id a :
  0 ≤ a < 2 ^ 52 → a mod FRAME_SIZE = 0 → Z.land a ADDR_MASK = a.
Proof.
  intros Ha Hm. apply Z.bits_inj'. intros i Hi. autorewrite with kernel_bits.
  destruct (Z.leb_spec 12 i); cbn.
  - destruct (Z.ltb_spec i 52); [by rewrite andb_true_r|].
    by rewrite andb_false_r, (testbit_high a 52) by lia.
  - rewrite andb_false_r. change FRAME_SIZE with (2 ^ 12) in Hm.
    apply (f_equal (λ z, Z.testbit z i)) in Hm.
    by rewrite Z.mod_pow2_bits_low, Z.testbit_0_l in Hm by lia.
Qed.

Lemma addr_mask_range a : 0 ≤ Z.land a ADDR_MASK < 2 ^ 52.
Proof.
  assert (0 ≤ Z.land a ADDR_MASK) by (apply Z.land_nonneg; right; done).
  split; [done|]. apply testbit_range; [done..|]. intros i Hi.
  autorewrite with kernel_bits. destruct (Z.ltb_spec i 52); [lia|]. by rewrite !andb_false_r.
Qed.
Lemma addr_mask_aligned a : Z.land a ADDR_MASK mod FRAME_SIZE = 0.
Proof.
  change FRAME_SIZE with (2 ^ 12). rewrite <- Z.land_ones by done.
  bits_eq; by rewrite ?andb_false_r.
Qed.

Lemma addr_valid e : PhysAddr.valid (addr e).
Proof.
  unfold PhysAddr.valid, u64, addr; cbn.
  pose proof (addr_mask_range (entry_0 e)). lia.
Qed.
Lemma addr_aligned e : PhysAddr.as_u64 (addr e) mod FRAME_SIZE = 0.
Proof. apply addr_mask_aligned. Qed.

(** Bits of a leaf and of a table pointer. *)
Lemma new_leaf_testbit a fl i :
  0 ≤ i →
  Z.testbit (entry_0 (new_leaf a fl)) i =
  (Z.testbit (PhysAddr.as_u64 a) i && ((12 <=? i) && (i <? 52)))
  || (i =? 0) || (writable fl && (i =? 1)) || (no_execute fl && (i =? 63)).
Proof.
  intros. unfold new_leaf, FLAG_PRESENT, FLAG_WRITABLE, FLAG_NO_EXECUTE.
  destruct (writable fl), (no_execute fl); cbn [entry_0 andb]; autorewrite with kernel_bits;
    by rewrite ?orb_false_r.
Qed.
Lemma new_table_pointer_leaf a : new_table_pointer a = new_leaf a read_write.
Proof. done. Qed.

Lemma new_leaf_present a fl : is_present (new_leaf a fl) = true.
Proof. rewrite is_present_bit, new_leaf_testbit by done. cbn. by rewrite orb_true_r. Qed.
Lemma new_leaf_writable a fl : is_writable (new_leaf a fl) = writable fl.
Proof.
  rewrite is_writable_bit, new_leaf_testbit by done. cbn.
  by rewrite !andb_false_r, andb_true_r, orb_false_r.
Qed.
Lemma new_leaf_no_execute a fl : is_no_execute (new_leaf a fl) = no_execute fl.
Proof.
  rewrite is_no_execute_bit, new_leaf_testbit by done. cbn.
  by rewrite !andb_false_r, andb_true_r.
Qed.
Lemma new_leaf_not_huge a fl : raw_has_flag (new_leaf a fl) (Z.shiftl 1 7) = false.
Proof.
  rewrite raw_has_flag_bit, new_leaf_testbit by done. cbn. by rewrite !andb_false_r.
Qed.
Lemma new_leaf_addr_mask a fl :
  addr (new_leaf a fl) = PhysAddr.new (Z.land (PhysAddr.as_u64 a) ADDR_MASK).
Proof.
  unfold addr. f_equal. apply Z.bits_inj'. intros i Hi.
  rewrite !Z.land_spec, new_leaf_testbit, ADDR_MASK_testbit by done.
  bits_split; by rewrite ?andb_false_r, ?andb_true_r, ?orb_false_r, ?orb_true_r.
Qed.
Lemma new_leaf_addr a fl :
  is_frame_aligned a = true → 0 ≤ PhysAddr.as_u64 a < 2 ^ 52 → addr (new_leaf a fl) = a.
Proof.
  intros Hal%is_frame_aligned_spec Hr. rewrite new_leaf_addr_mask, addr_mask_id by done.
  apply PhysAddr_eta.
Qed.
Lemma new_leaf_u64 a fl : u64 (entry_0 (new_leaf a fl)).
Proof.
  assert (0 ≤ entry_0 (new_leaf a fl)) by
    (unfold new_leaf; cbn; repeat case_match; rewrite ?Z.lor_nonneg; split_and?;
     first [done | apply Z.land_nonneg; right; done]).
  split; [done|]. apply testbit_range; [done..|]. intros i Hi.
  rewrite new_leaf_testbit by lia. bits_split; by rewrite ?andb_false_r.
Qed.
#[export] Hint Resolve new_leaf_present new_leaf_writable new_leaf_no_execute
  new_leaf_not_huge new_leaf_u64 new_leaf_addr_mask new_leaf_addr : kernel.

(** ** Properties *)

(** A leaf entry decodes to what it was built from: it is present, its
    permission bits are the requested flags, its page-size bit is clear and
    it is a 64-bit value; its address is the given one as soon as that is a
    frame address of the 52-bit physical space, and in general the given
    address with the bits outside 51:12 dropped. *)
Theorem new_leaf_decode (a : PhysAddr) (fl : PageFlags) :
  let e := new_leaf a fl in
  is_present e = true ∧ is_writable e = writable fl ∧ is_no_execute e = no_execute fl ∧
  raw_has_flag e (Z.shiftl 1 7) = false ∧ u64 (entry_0 e) ∧
  addr e = PhysAddr.new (Z.land (PhysAddr.as_u64 a) ADDR_MASK) ∧
  (is_frame_aligned a = true → 0 ≤ PhysAddr.as_u64 a < 2 ^ 52 → addr e = a).
Proof. split_and!; eauto with kernel. Qed.

Lemma new_leaf_decode_witness :
  addr (new_leaf (PhysAddr.new 0xABCDE000) {| writable := false; no_execute := true |})
  = PhysAddr.new 0xABCDE000.
Proof.
  pose proof (new_leaf_decode (PhysAddr.new 0xABCDE000)
                {| writable := false; no_execute := true |}) as (_ & _ & _ & _ & _ & _ & H).
  apply H; [reflexivity|cbn; lia].
Defined.
