(* ===== verification/Memory.v ===== *)
(** Byte-addressed memory and the raw accesses the kernel makes to it.

    Physical memory is a finite map from addresses to bytes; an address that
    is not in the map is not backed by anything, so touching it is undefined
    behaviour.  Multi-byte accesses are little-endian, as on x86_64.  Loads
    are written against a byte-load function, so that they also apply to a
    memory seen through an overlay (a slice the kernel holds exclusively). *)
From stdpp Require Import base numbers option gmap list_numbers list.
From S2P Require Import Prelude.

Abbreviation mem := (gmap Z Z).

Fixpoint load_le (n : nat) (rd : Z → option Z) (a : Z) : option Z :=
  match n with
  | O => Some 0
  | S n => b ← rd a; r ← load_le n rd (a + 1); Some (b + 256 * r)
  end.

Fixpoint store_le (n : nat) (m : mem) (a v : Z) : option mem :=
  match n with
  | O => Some m
  | S n => _ ← m !! a; store_le n (<[a := v mod 256]> m) (a + 1) (v / 256)
  end.

(** [core::ptr::read_volatile] and [write_volatile] on [*mut u64]: the
    pointer must be non-null and 8-byte aligned. *)
Definition volatile_ok (p : Z) : bool := negb (p =? 0) && (p mod 8 =? 0).
Definition read_volatile_u64 (m : mem) (p : Z) : outcome Z :=
  if volatile_ok p then defined (load_le 8 (λ a, m !! a) p) else Undef.
Definition write_volatile_u64 (m : mem) (p v : Z) : outcome mem :=
  if volatile_ok p then defined (store_le 8 m p v) else Undef.

(** Every byte of [a, a+n) exists. *)
Definition mapped (m : mem) (a n : Z) : Prop := ∀ i, a ≤ i < a + n → is_Some (m !! i).
(** Every byte holds an 8-bit value. *)
Definition bytes_ok (m : mem) : Prop := map_Forall (λ _ b, 0 ≤ b < 256) m.

(** ** Lemmas *)
Lemma load_le_ext n rd rd' a :
  (∀ i, a ≤ i < a + Z.of_nat n → rd i = rd' i) → load_le n rd a = load_le n rd' a.
Proof.
  revert a. induction n as [|n IH]; intros a Hrd; cbn; [done|].
  rewrite (Hrd a), (IH (a + 1)); [done|intros; apply Hrd; lia|lia].
Qed.

Lemma load_le_range n rd a v :
  (∀ i b, rd i = Some b → 0 ≤ b < 256) → load_le n rd a = Some v → 0 ≤ v < 2 ^ (8 * Z.of_nat n).
Proof.
  intros Hb. revert a v. induction n as [|n IH]; intros a v; cbn [load_le].
  - intros [= <-]. cbn. lia.
  - destruct (rd a) as [b|] eqn:Ha; cbn; [|done].
    destruct (load_le n rd (a + 1)) as [r|] eqn:Hr; cbn; [|done]. intros [= <-].
    apply Hb in Ha. apply IH in Hr.
    replace (8 * Z.of_nat (S n)) with (8 + 8 * Z.of_nat n) by lia.
    rewrite Z.pow_add_r by lia. lia.
Qed.

Lemma load_le_Some n rd a :
  (∀ i, a ≤ i < a + Z.of_nat n → is_Some (rd i)) → is_Some (load_le n rd a).
Proof.
  revert a. induction n as [|n IH]; intros a Hrd; cbn; [by eexists|].
  destruct (Hrd a) as [b ->]; [lia|]. cbn.
  destruct (IH (a + 1)) as [r ->]; [intros; apply Hrd; lia|]. by eexists.
Qed.

Lemma load_le_None n rd a i :
  a ≤ i < a + Z.of_nat n → rd i = None → load_le n rd a = None.
Proof.
  revert a. induction n as [|n IH]; intros a Hi Hr; cbn; [lia|].
  destruct (decide (i = a)) as [->|]; [by rewrite Hr|]. rewrite (IH (a + 1)) by (done || lia).
  by destruct (rd a).
Qed.

(** A little-endian load of a given value reads exactly its bytes. *)
Fixpoint le_bytes (n : nat) (v : Z) : list Z :=
  match n with O => [] | S n => v mod 256 :: le_bytes n (v / 256) end.
Lemma load_le_bytes n rd a v :
  (∀ i b, rd i = Some b → 0 ≤ b < 256) → 0 ≤ v < 2 ^ (8 * Z.of_nat n) →
  load_le n rd a = Some v ↔ ∀ k b, le_bytes n v !! k = Some b → rd (a + Z.of_nat k) = Some b.
Proof.
  intros Hrd. revert a v. induction n as [|n IH]; intros a v Hv; cbn [load_le le_bytes].
  { split; [by intros _ k b|]. intros _. f_equal. cbn in Hv. lia. }
  replace (8 * Z.of_nat (S n)) with (8 + 8 * Z.of_nat n) in Hv by lia. rewrite Z.pow_add_r in Hv by lia.
  assert (Hq : 0 ≤ v / 256 < 2 ^ (8 * Z.of_nat n))
    by (split; [apply Z.div_pos; lia|apply Z.div_lt_upper_bound; lia]).
  specialize (IH (a + 1) (v / 256) Hq). split.
  - destruct (rd a) as [b0|] eqn:Ha; cbn; [|done].
    destruct (load_le n rd (a + 1)) as [r|] eqn:Hr; cbn; [|done]. intros [= <-].
    pose proof (Hrd _ _ Ha) as Hb0.
    assert (Hdiv : (b0 + 256 * r) / 256 = r ∧ (b0 + 256 * r) mod 256 = b0) by dlia.
    destruct Hdiv as [Hdiv Hmod]. rewrite Hdiv in *. rewrite Hmod.
    intros [|k] b; cbn; [intros [= <-]; by rewrite Z.add_0_r|]. intros Hk.
    destruct IH as [IH _]. specialize (IH eq_refl k b Hk).
    by replace (a + Z.of_nat (S k)) with (a + 1 + Z.of_nat k) by lia.
  - intros Hall. assert (Ha : rd a = Some (v mod 256)).
    { rewrite <- (Z.add_0_r a). by apply (Hall O). }
    rewrite Ha. cbn. destruct IH as [_ IH]. rewrite IH; cbn.
    + f_equal. dlia.
    + intros k b Hk. specialize (Hall (S k) b Hk).
      by replace (a + 1 + Z.of_nat k) with (a + Z.of_nat (S k)) by lia.
Qed.

Lemma store_le_other n m a v m' i :
  store_le n m a v = Some m' → ¬ (a ≤ i < a + Z.of_nat n) → m' !! i = m !! i.
Proof.
  revert m a v. induction n as [|n IH]; intros m a v; cbn.
  - by intros [= ->].
  - destruct (m !! a) eqn:Ha; cbn; [|done]. intros Hs Hi.
    rewrite (IH _ _ _ Hs) by lia. apply lookup_insert_ne. lia.
Qed.

Lemma store_le_dom n m a v m' i :
  store_le n m a v = Some m' → is_Some (m' !! i) ↔ is_Some (m !! i).
Proof.
  revert m a v. induction n as [|n IH]; intros m a v; cbn.
  - by intros [= ->].
  - destruct (m !! a) eqn:Ha; cbn; [|done]. intros Hs. rewrite (IH _ _ _ Hs).
    rewrite lookup_insert. case_decide; subst; [|done]. rewrite Ha. by split; intros; eexists.
Qed.

Lemma store_le_bytes n m a v m' : store_le n m a v = Some m' → bytes_ok m → bytes_ok m'.
Proof.
  revert m a v. induction n as [|n IH]; intros m a v; cbn.
  - by intros [= ->].
  - destruct (m !! a) eqn:Ha; cbn; [|done]. intros Hs Hb. apply (IH _ _ _ Hs).
    apply map_Forall_insert_2; [|done]. apply Z.mod_pos_bound. lia.
Qed.

Lemma store_le_Some n m a v :
  (∀ i, a ≤ i < a + Z.of_nat n → is_Some (m !! i)) → is_Some (store_le n m a v).
Proof.
  revert m a v. induction n as [|n IH]; intros m a v Hm; cbn; [by eexists|].
  destruct (Hm a) as [b Hb]; [lia|]. rewrite Hb. cbn. apply IH. intros i Hi.
  rewrite lookup_insert. case_decide; [by eexists|]. apply Hm. lia.
Qed.

Lemma load_store_le n m a v m' :
  0 ≤ v < 2 ^ (8 * Z.of_nat n) → store_le n m a v = Some m' →
  load_le n (λ i, m' !! i) a = Some v.
Proof.
  revert m a v. induction n as [|n IH]; intros m a v Hv; cbn [load_le store_le].
  - intros _. f_equal. cbn in Hv. lia.
  - destruct (m !! a) eqn:Ha; cbn; [|done]. intros Hs.
    replace (8 * Z.of_nat (S n)) with (8 + 8 * Z.of_nat n) in Hv by lia.
    rewrite Z.pow_add_r in Hv by lia.
    rewrite (store_le_other _ _ _ _ _ _ Hs), lookup_insert_eq by lia. cbn.
    assert (Hq : 0 ≤ v / 256 < 2 ^ (8 * Z.of_nat n)).
    { split; [apply Z.div_pos; lia|apply Z.div_lt_upper_bound; lia]. }
    rewrite (IH _ _ _ Hq Hs). cbn. f_equal. pose proof (Z.div_mod v 256). lia.
Qed.

(** ** The 64-bit volatile accesses *)
Definition word (m : mem) (p : Z) : Z := default 0 (load_le 8 (λ a, m !! a) p).

Lemma volatile_ok_spec p : volatile_ok p = true ↔ p ≠ 0 ∧ p mod 8 = 0.
Proof. unfold volatile_ok. rewrite andb_true_iff, negb_true_iff, Z.eqb_neq, Z.eqb_eq. done. Qed.

Lemma read_volatile_ok m p :
  volatile_ok p = true → mapped m p 8 → read_volatile_u64 m p = Ret (word m p).
Proof.
  intros Hp Hm. unfold read_volatile_u64, word. rewrite Hp.
  destruct (load_le_Some 8 (λ a, m !! a) p) as [v ->]; [|done].
  intros i Hi. apply Hm. lia.
Qed.

Lemma write_volatile_ok m p v :
  volatile_ok p = true → mapped m p 8 → u64 v →
  ∃ m', write_volatile_u64 m p v = Ret m' ∧ word m' p = v ∧
        (∀ i, ¬ (p ≤ i < p + 8) → m' !! i = m !! i) ∧
        (∀ i, is_Some (m' !! i) ↔ is_Some (m !! i)).
Proof.
  intros Hp Hm Hv. unfold write_volatile_u64. rewrite Hp.
  destruct (store_le_Some 8 m p v) as [m' Hs]; [intros i Hi; apply Hm; lia|].
  rewrite Hs. exists m'. split_and!; [done|..].
  - unfold word. by rewrite (load_store_le 8 m p v m').
  - intros i Hi. apply (store_le_other _ _ _ _ _ _ Hs). lia.
  - intros i. apply (store_le_dom _ _ _ _ _ _ Hs).
Qed.

(** A word that no write touched is unchanged. *)
Lemma word_ext m m' p : (∀ i, p ≤ i < p + 8 → m' !! i = m !! i) → word m' p = word m p.
Proof. intros H. unfold word. f_equal. apply load_le_ext. intros i Hi. apply H. lia. Qed.

Lemma mapped_dom m m' a n :
  (∀ i, is_Some (m' !! i) ↔ is_Some (m !! i)) → mapped m a n → mapped m' a n.
Proof. intros Hd Hm i Hi. apply Hd, Hm, Hi. Qed.

(** A range of memory with given bytes; filled with zeros. *)
Definition fill_mem (f : Z → Z) (a n : Z) : mem := list_to_map ((λ i, (i, f i)) <$> seqZ a n).
Definition zero_mem : Z → Z → mem := fill_mem (λ _, 0).

Lemma fill_mem_Some f a n i b : fill_mem f a n !! i = Some b ↔ a ≤ i < a + n ∧ b = f i.
Proof.
  assert (Hnd : NoDup ((λ i, (i, f i)) <$> seqZ a n).*1).
  { rewrite <- list_fmap_compose, list_fmap_id. apply NoDup_seqZ. }
  unfold fill_mem. rewrite <- elem_of_list_to_map by done. rewrite list_elem_of_fmap. split.
  - intros (j & [= -> ->] & Hj%elem_of_seqZ). done.
  - intros [Hi ->]. exists i. split; [done|]. by apply elem_of_seqZ.
Qed.
Lemma fill_mem_lookup f a n i : a ≤ i < a + n → fill_mem f a n !! i = Some (f i).
Proof. intros Hi. by apply fill_mem_Some. Qed.
Lemma fill_mem_mapped f a n b k : a ≤ b → b + k ≤ a + n → mapped (fill_mem f a n) b k.
Proof. intros ? ? i Hi. rewrite fill_mem_lookup by lia. by eexists. Qed.
Lemma fill_mem_word f a n p :
  a ≤ p → p + 8 ≤ a + n → word (fill_mem f a n) p = default 0 (load_le 8 (λ i, Some (f i)) p).
Proof.
  intros ? ?. unfold word. f_equal. apply load_le_ext. intros i Hi. rewrite fill_mem_lookup; [done|lia].
Qed.

Lemma zero_mem_lookup a n i : a ≤ i < a + n → zero_mem a n !! i = Some 0.
Proof. apply fill_mem_lookup. Qed.
Lemma zero_mem_mapped a n b k : a ≤ b → b + k ≤ a + n → mapped (zero_mem a n) b k.
Proof. apply fill_mem_mapped. Qed.
Lemma zero_mem_word a n p : a ≤ p → p + 8 ≤ a + n → word (zero_mem a n) p = 0.
Proof. intros ? ?. unfold zero_mem. by rewrite fill_mem_word. Qed.
