(* ===== verification/BootInfo.v ===== *)
(** The boot handoff structure: [kernel/src/boot_info.rs].

    [BootInfo] is [repr(C)]; its field offsets and its size are computed
    here from the field types with the C layout rule (each field at the next
    multiple of its alignment, the whole rounded up to the largest
    alignment), and the record is read back from memory at those offsets as
    [kernel_main] does when it dereferences the pointer it is given. *)
From stdpp Require Import base numbers option gmap list_numbers list.
From S2P Require Import Prelude Memory.

Definition BOOTINFO_MAGIC : Z :=
  Z.lor (Z.lor (Z.lor (Z.lor (Z.lor (Z.lor (Z.lor
    0x58 (Z.shiftl 0x4F 8)) (Z.shiftl 0x53 16)) (Z.shiftl 0x42 24))
    (Z.shiftl 0x4F 32)) (Z.shiftl 0x4F 40)) (Z.shiftl 0x54 48)) (Z.shiftl 0x31 56).
Definition BOOTINFO_VERSION : Z := 1.

Record BootInfo : Type := mkBootInfo {
  magic : Z;
  version : Z;
  struct_size_bytes : Z;
  memory_map_phys_addr : Z;
  memory_map_size_bytes : Z;
  memory_map_descriptor_size : Z;
  memory_map_descriptor_version : Z;
  memory_map_entry_count : Z;
  kernel_physical_base : Z;
  kernel_virtual_base : Z;
  kernel_size_bytes : Z;
  kernel_stack_top : Z;
  kernel_stack_size_bytes : Z;
}.

(** Byte sizes of the fields, in declaration order; for [u32] and [u64] the
    alignment is the size. *)
Definition field_sizes : list Z := [8; 4; 4; 8; 8; 8; 4; 8; 8; 8; 8; 8; 8].

Definition round_up (x align : Z) : Z := div_ceil x align * align.
Fixpoint field_offsets (off : Z) (sizes : list Z) : list Z :=
  match sizes with
  | [] => []
  | sz :: rest => let o := round_up off sz in o :: field_offsets (o + sz) rest
  end.
Definition size_of_BootInfo : Z :=
  let ends := zip_with Z.add (field_offsets 0 field_sizes) field_sizes in
  round_up (foldr Z.max 0 ends) (foldr Z.max 1 field_sizes).

Definition is_valid (self : BootInfo) : bool :=
  (magic self =? BOOTINFO_MAGIC) && (version self =? BOOTINFO_VERSION)
  && (struct_size_bytes self =? size_of_BootInfo).

(** [&*boot_info_ptr]: the fields as they lie in memory. *)
Definition load_field (rd : Z → option Z) (ptr : Z) (k : nat) : option Z :=
  off ← field_offsets 0 field_sizes !! k;
  sz ← field_sizes !! k;
  load_le (Z.to_nat sz) rd (ptr + off).
Definition deref (rd : Z → option Z) (ptr : Z) : option BootInfo :=
  f0 ← load_field rd ptr 0; f1 ← load_field rd ptr 1; f2 ← load_field rd ptr 2;
  f3 ← load_field rd ptr 3; f4 ← load_field rd ptr 4; f5 ← load_field rd ptr 5;
  f6 ← load_field rd ptr 6; f7 ← load_field rd ptr 7; f8 ← load_field rd ptr 8;
  f9 ← load_field rd ptr 9; f10 ← load_field rd ptr 10; f11 ← load_field rd ptr 11;
  f12 ← load_field rd ptr 12;
  Some (mkBootInfo f0 f1 f2 f3 f4 f5 f6 f7 f8 f9 f10 f11 f12).

(** ** Lemmas *)
Lemma deref_header rd ptr bi :
  deref rd ptr = Some bi →
  load_le 8 rd ptr = Some (magic bi) ∧ load_le 4 rd (ptr + 8) = Some (version bi) ∧
  load_le 4 rd (ptr + 12) = Some (struct_size_bytes bi).
Proof.
  assert (H0 : load_field rd ptr 0 = load_le 8 rd (ptr + 0)) by reflexivity.
  assert (H1 : load_field rd ptr 1 = load_le 4 rd (ptr + 8)) by reflexivity.
  assert (H2 : load_field rd ptr 2 = load_le 4 rd (ptr + 12)) by reflexivity.
  rewrite Z.add_0_r in H0. unfold deref. rewrite H0, H1, H2. intros H.
  apply bind_Some in H as (f0 & E0 & H). apply bind_Some in H as (f1 & E1 & H).
  apply bind_Some in H as (f2 & E2 & H). repeat (apply bind_Some in H as (? & _ & H)).
  by injection H as <-.
Qed.

(** A structure is read from its 96 bytes alone. *)
Lemma load_field_ext rd rd' ptr k :
  (∀ i, ptr ≤ i < ptr + 96 → rd i = rd' i) → load_field rd ptr k = load_field rd' ptr k.
Proof.
  intros Hrd. unfold load_field. change (field_offsets 0 field_sizes) with [0; 8; 12; 16; 24; 32; 40; 48; 56; 64; 72; 80; 88].
  unfold field_sizes.
  do 13 (destruct k as [|k]; [cbn [lookup list_lookup mbind option_bind]; apply load_le_ext; intros i Hi; apply Hrd; lia|]).
  reflexivity.
Qed.
Lemma deref_ext rd rd' ptr : (∀ i, ptr ≤ i < ptr + 96 → rd i = rd' i) → deref rd ptr = deref rd' ptr.
Proof. intros Hrd. unfold deref. by rewrite !(load_field_ext rd rd' ptr _ Hrd). Qed.

(** The sixteen bytes every valid handoff starts with: the text XOSBOOT1,
    the version and the size of the structure. *)
Definition header_bytes : list Z :=
  [0x58; 0x4F; 0x53; 0x42; 0x4F; 0x4F; 0x54; 0x31; 1; 0; 0; 0; 96; 0; 0; 0].

(** ** Properties *)

(** The handoff check is exact at the byte level: the structure at an
    address is accepted if and only if its first sixteen bytes are the text
    XOSBOOT1, version 1 and size 96, which is the size the C layout rule
    gives the structure, its last field ending there. *)
Theorem is_valid_exact rd ptr bi :
  (∀ i b, rd i = Some b → 0 ≤ b < 256) → deref rd ptr = Some bi →
  (is_valid bi = true ↔ ∀ k b, header_bytes !! k = Some b → rd (ptr + Z.of_nat k) = Some b) ∧
  field_offsets 0 field_sizes = [0; 8; 12; 16; 24; 32; 40; 48; 56; 64; 72; 80; 88].
Proof.
  intros Hrd Hd. split; [|reflexivity].
  destruct (deref_header rd ptr bi Hd) as (Hm & Hv & Hs).
  assert (Heq : ∀ n a v w, load_le n rd a = Some v → 0 ≤ w < 2 ^ (8 * Z.of_nat n) →
    (v = w ↔ ∀ k b, le_bytes n w !! k = Some b → rd (a + Z.of_nat k) = Some b)).
  { intros n a v w Hl Hw. rewrite <- load_le_bytes by done. rewrite Hl. naive_solver. }
  unfold is_valid. rewrite !andb_true_iff, !Z.eqb_eq.
  rewrite (Heq 8%nat ptr _ BOOTINFO_MAGIC Hm), (Heq 4%nat (ptr + 8) _ BOOTINFO_VERSION Hv),
    (Heq 4%nat (ptr + 12) _ size_of_BootInfo Hs) by (vm_compute; by split).
  change (le_bytes 8 BOOTINFO_MAGIC) with [0x58; 0x4F; 0x53; 0x42; 0x4F; 0x4F; 0x54; 0x31].
  change (le_bytes 4 BOOTINFO_VERSION) with [1; 0; 0; 0].
  change (le_bytes 4 size_of_BootInfo) with [96; 0; 0; 0]. split.
  - intros [[H0 H1] H2] k b Hk. change header_bytes with
      ([0x58; 0x4F; 0x53; 0x42; 0x4F; 0x4F; 0x54; 0x31] ++ [1; 0; 0; 0] ++ [96; 0; 0; 0]) in Hk.
    apply lookup_app_Some in Hk as [Hk|[Hk1 Hk]]; [by apply H0|].
    apply lookup_app_Some in Hk as [Hk|[Hk2 Hk]]; cbn in *.
    + apply H1 in Hk. by replace (ptr + Z.of_nat k) with (ptr + 8 + Z.of_nat (k - 8)) by lia.
    + apply H2 in Hk. by replace (ptr + Z.of_nat k) with (ptr + 12 + Z.of_nat (k - 8 - 4)) by lia.
  - intros Hall. split_and!; intros k b Hk.
    + apply (Hall k). exact (lookup_app_l_Some _ [1; 0; 0; 0; 96; 0; 0; 0] k b Hk).
    + replace (ptr + 8 + Z.of_nat k) with (ptr + Z.of_nat (8 + k)) by lia. apply Hall.
      apply lookup_lt_Some in Hk as Hlt. cbn in Hlt. by do 4 (destruct k as [|k]; [exact Hk|]).
    + replace (ptr + 12 + Z.of_nat k) with (ptr + Z.of_nat (12 + k)) by lia. apply Hall. exact Hk.
Qed.

Definition demo_header (a : Z) : option Z :=
  if (0x7000 <=? a) && (a <? 0x7060) then Some (default 0 (header_bytes !! Z.to_nat (a - 0x7000))) else None.
Lemma is_valid_exact_witness :
  ∃ bi, deref demo_header 0x7000 = Some bi ∧ is_valid bi = true.
Proof.
  eexists. split; [vm_compute; reflexivity|].
  refine (proj2 (proj1 (is_valid_exact demo_header 0x7000 _ _ _)) _).
  - intros i b. unfold demo_header. destruct (_ && _); [|done]. intros [= <-].
    destruct (header_bytes !! Z.to_nat (i - 0x7000)) as [b|] eqn:Hb; cbn; [|lia].
    assert (Hall : Forall (λ b, 0 ≤ b < 256) header_bytes) by (repeat constructor; lia).
    exact (proj1 (Forall_lookup _ _) Hall _ _ Hb).
  - vm_compute. reflexivity.
  - intros k b Hk. do 16 (destruct k as [|k]; [injection Hk as <-; vm_compute; reflexivity|]). discriminate Hk.
Defined.
