(* ===== verification/MemoryMap.v ===== *)
(** The UEFI memory map: [kernel/src/mm/memory_map.rs].

    Descriptors are read at fixed byte offsets ([Type] at 0, [PhysicalStart]
    at 8, [NumberOfPages] at 24) with the firmware-chosen stride
    [descriptor_size].  [for_each_entry] is the [for entry in
    MemoryMapIter::new(boot_info)] loop of its clients. *)
From stdpp Require Import base numbers option gmap list_numbers list.
From S2P Require Import Prelude PhysAddr Memory BootInfo.

Definition EFI_CONVENTIONAL_MEMORY : Z := 7.

Record MemoryMapEntry : Type := mkMemoryMapEntry {
  typ : Z;
  physical_start : PhysAddr;
  number_of_pages : Z;
}.

Definition end_addr (self : MemoryMapEntry) : option Z :=
  size ← checked_mul (number_of_pages self) FRAME_SIZE;
  checked_add (PhysAddr.as_u64 (physical_start self)) size.

Record MemoryMapIter : Type := mkMemoryMapIter {
  base_ptr : Z;
  descriptor_size : Z;
  entry_count : Z;
  iter_index : Z;
}.

Definition new (boot_info : BootInfo) : MemoryMapIter := {|
  base_ptr := memory_map_phys_addr boot_info;
  descriptor_size := memory_map_descriptor_size boot_info;
  entry_count := memory_map_entry_count boot_info;
  iter_index := 0;
|}.

(** The three reads of one descriptor at address [p]. *)
Definition read_entry (rd : Z → option Z) (p : Z) : option MemoryMapEntry :=
  t ← load_le 4 rd p;
  s ← load_le 8 rd (p + 8);
  n ← load_le 8 rd (p + 24);
  Some {| typ := t; physical_start := PhysAddr.new s; number_of_pages := n |}.

Section with_profile.
Context {P : BuildProfile}.

Definition next (rd : Z → option Z) (self : MemoryMapIter) :
    outcome (option MemoryMapEntry * MemoryMapIter) :=
  if entry_count self <=? iter_index self then Ret (None, self) else
  offset ← mul64 (iter_index self) (descriptor_size self);
  idx ← add64 (iter_index self) 1;
  e ← defined (read_entry rd (base_ptr self + offset));
  Ret (Some e, {| base_ptr := base_ptr self; descriptor_size := descriptor_size self;
                  entry_count := entry_count self; iter_index := idx |}).

(** The loop over an iterator, with the memory each [next] reads given by
    the loop state; the body says whether it leaves the loop. *)
Fixpoint for_entries {S} (fuel : nat) (rd : S → Z → option Z)
    (body : MemoryMapEntry → S → outcome (S * bool)) (it : MemoryMapIter) (s : S) : outcome S :=
  match fuel with
  | O => NoFuel
  | Datatypes.S fuel =>
    r ← next (rd s) it;
    let '(oe, it') := r : option MemoryMapEntry * MemoryMapIter in
    match oe with
    | None => Ret s
    | Some e =>
      r ← body e s;
      let '(s', brk) := r : S * bool in
      if brk then Ret s' else for_entries fuel rd body it' s'
    end
  end.
Definition for_each_entry {S} (rd : S → Z → option Z)
    (body : MemoryMapEntry → S → outcome (S * bool)) (bi : BootInfo) (s : S) : outcome S :=
  for_entries (Datatypes.S (Z.to_nat (memory_map_entry_count bi))) rd body (new bi) s.

End with_profile.

(** The descriptor with index [k], and the map that reads as [es]. *)
Definition entry_at (rd : Z → option Z) (bi : BootInfo) (k : nat) : option MemoryMapEntry :=
  read_entry rd (memory_map_phys_addr bi + Z.of_nat k * memory_map_descriptor_size bi).
Definition reads_as (rd : Z → option Z) (bi : BootInfo) (es : list MemoryMapEntry) : Prop :=
  Z.of_nat (length es) = memory_map_entry_count bi ∧
  ∀ k, (k < length es)%nat → entry_at rd bi k = es !! k.

(** The size check of [FrameAllocator::init], as a proposition. *)
Definition map_sized (bi : BootInfo) : Prop :=
  0 ≤ memory_map_entry_count bi ∧ 0 ≤ memory_map_descriptor_size bi ∧
  memory_map_entry_count bi * memory_map_descriptor_size bi ≤ memory_map_size_bytes bi < 2 ^ 64.

(** ** Lemmas *)
Lemma end_addr_Some e en :
  end_addr e = Some en ↔
  en = PhysAddr.as_u64 (physical_start e) + number_of_pages e * FRAME_SIZE ∧
  u64 (number_of_pages e * FRAME_SIZE) ∧ u64 en.
Proof.
  unfold end_addr. rewrite bind_Some. split.
  - intros (sz & [-> ?]%checked_mul_Some & [-> ?]%checked_add_Some). done.
  - intros (-> & ? & ?). exists (number_of_pages e * FRAME_SIZE).
    by rewrite checked_mul_Some, checked_add_Some.
Qed.

Lemma read_entry_ext rd rd' p :
  (∀ i, p ≤ i < p + 32 → rd i = rd' i) → read_entry rd p = read_entry rd' p.
Proof.
  intros H. unfold read_entry.
  rewrite (load_le_ext 4 rd rd' p), (load_le_ext 8 rd rd' (p + 8)), (load_le_ext 8 rd rd' (p + 24));
    [done|intros; apply H; lia..].
Qed.

Lemma read_entry_Some rd p :
  (∀ i, p ≤ i < p + 32 → is_Some (rd i)) → is_Some (read_entry rd p).
Proof.
  intros H. unfold read_entry.
  destruct (load_le_Some 4 rd p) as [t ->]; [intros; apply H; lia|].
  destruct (load_le_Some 8 rd (p + 8)) as [s ->]; [intros; apply H; lia|].
  destruct (load_le_Some 8 rd (p + 24)) as [n ->]; [intros; apply H; lia|].
  by eexists.
Qed.

(** An entry at an index stays inside the buffer once the stride covers the
    32 bytes a descriptor read touches. *)
Lemma entry_in_buffer bi k :
  map_sized bi → 32 ≤ memory_map_descriptor_size bi → Z.of_nat k < memory_map_entry_count bi →
  0 ≤ Z.of_nat k * memory_map_descriptor_size bi ∧
  Z.of_nat k * memory_map_descriptor_size bi + 32 ≤ memory_map_size_bytes bi.
Proof. unfold map_sized. intros. nia. Qed.

Lemma reads_as_ext rd rd' bi es :
  map_sized bi → 32 ≤ memory_map_descriptor_size bi →
  (∀ i, memory_map_phys_addr bi ≤ i < memory_map_phys_addr bi + memory_map_size_bytes bi →
        rd i = rd' i) →
  reads_as rd bi es → reads_as rd' bi es.
Proof.
  intros Hsz Hds Hrd [Hlen Hes]. split; [done|]. intros k Hk. rewrite <- (Hes k Hk).
  unfold entry_at. symmetry. apply read_entry_ext. intros i Hi. apply Hrd.
  pose proof (entry_in_buffer bi k Hsz Hds ltac:(lia)). lia.
Qed.

Section with_profile_lemmas.
Context {P : BuildProfile}.

Lemma next_at rd bi k :
  map_sized bi → Z.of_nat k < memory_map_entry_count bi < 2 ^ 64 →
  next rd (mkMemoryMapIter (memory_map_phys_addr bi) (memory_map_descriptor_size bi)
             (memory_map_entry_count bi) (Z.of_nat k))
  = (e ← defined (entry_at rd bi k);
     Ret (Some e, mkMemoryMapIter (memory_map_phys_addr bi) (memory_map_descriptor_size bi)
                    (memory_map_entry_count bi) (Z.of_nat (S k)))).
Proof.
  intros Hsz Hk. unfold map_sized in Hsz. unfold next; cbn.
  destruct (Z.leb_spec (memory_map_entry_count bi) (Z.of_nat k)); [lia|].
  rewrite mul64_ok by (unfold u64; nia). cbn. rewrite add64_ok by u64_solve. cbn.
  unfold entry_at. replace (Z.of_nat k + 1) with (Z.of_nat (S k)) by lia. done.
Qed.

(** Total correctness of the loop over the map. *)
Lemma for_each_entry_total {S} (I : nat → S → Prop) (Q : S → Prop) rd body bi es (s : S) :
  map_sized bi → Z.of_nat (length es) = memory_map_entry_count bi →
  memory_map_entry_count bi < 2 ^ 64 → I O s →
  (∀ k t, (k < length es)%nat → I k t → entry_at (rd t) bi k = es !! k) →
  (∀ k e t, es !! k = Some e → I k t →
     ∃ t' b, body e t = Ret (t', b) ∧ if (b : bool) then Q t' else I (Datatypes.S k) t') →
  (∀ t, I (length es) t → Q t) →
  ∃ s', for_each_entry rd body bi s = Ret s' ∧ Q s'.
Proof.
  intros Hsz Hlen Hcnt HI Hrd Hstep Hend. unfold for_each_entry, new.
  enough (Hgen : ∀ n k t, n = (length es - k)%nat → (k ≤ length es)%nat → I k t →
    ∃ s', for_entries (Datatypes.S n) rd body
            (mkMemoryMapIter (memory_map_phys_addr bi) (memory_map_descriptor_size bi)
               (memory_map_entry_count bi) (Z.of_nat k)) t = Ret s' ∧ Q s').
  { apply (Hgen _ O s); [lia..|done]. }
  clear s HI. intros n k s. revert k s.
  induction n as [|n IH]; intros k s Hn Hk HI; cbn [for_entries].
  - assert (k = length es) as -> by lia. unfold next; cbn. rewrite Hlen, Z.leb_refl. cbn. eauto.
  - rewrite next_at by (done || lia). rewrite Hrd by (done || lia).
    destruct (lookup_lt_is_Some_2 es k) as [e He]; [lia|]. rewrite He. cbn.
    destruct (Hstep k e s He HI) as (t & b & -> & Ht). cbn. destruct b; [by eexists|].
    apply IH; [lia..|done].
Qed.

End with_profile_lemmas.

(** ** Properties *)

(** The iterator yields exactly the descriptors of the map, in order: one
    per index, each read at the stride the firmware declared, and then stops. *)
Theorem iteration_yields_entries {P : BuildProfile} rd bi es :
  map_sized bi → memory_map_entry_count bi < 2 ^ 64 → reads_as rd bi es →
  for_each_entry (λ _, rd) (λ e seen, Ret (seen ++ [e], false)) bi [] = Ret es.
Proof.
  intros Hsz Hc [Hlen Hes].
  destruct (for_each_entry_total (λ k seen, seen = take k es) (λ seen, seen = es) (λ _, rd)
    (λ e seen, Ret (seen ++ [e], false)) bi es []) as (s & -> & ->); try done.
  - intros k t Hk _. by apply Hes.
  - intros k e t He ->. do 2 eexists. split; [done|]. cbn. by rewrite (take_S_r _ _ e).
  - intros t ->. by rewrite firstn_all.
Qed.

Definition demo_descriptor (t start pages : Z) : list Z :=
  le_bytes 8 t ++ le_bytes 8 start ++ le_bytes 8 0 ++ le_bytes 8 pages ++ le_bytes 8 15.
Definition demo_map_bytes : list Z := demo_descriptor 7 0x2000 6 ++ demo_descriptor 2 0x8000 1.
Definition demo_map_info : BootInfo :=
  mkBootInfo BOOTINFO_MAGIC 1 size_of_BootInfo 0 80 40 1 2 0 0 0 0 0.
Lemma iteration_yields_entries_witness :
  for_each_entry (P := release_profile) (λ _ a, demo_map_bytes !! Z.to_nat a)
    (λ e seen, Ret (seen ++ [e], false)) demo_map_info [] =
  Ret [mkMemoryMapEntry 7 (PhysAddr.new 0x2000) 6; mkMemoryMapEntry 2 (PhysAddr.new 0x8000) 1].
Proof.
  apply (iteration_yields_entries (P := release_profile) (λ a, demo_map_bytes !! Z.to_nat a)).
  - unfold map_sized. cbn. lia.
  - cbn. lia.
  - split; [reflexivity|]. intros [|[|k]] Hk; [vm_compute; reflexivity..|cbn in Hk; lia].
Defined.
