(* ===== verification/FrameAllocator.v ===== *)
(** The physical frame allocator: [kernel/src/mm/frame_allocator.rs].

    One bit per 4 KiB frame, 0 = free, 1 = used.  The bitmap slice is its
    start address and its bytes: the slice is an exclusive reference, so
    only the allocator reads or writes those bytes.  [free_frames] is the
    abstraction: the set of tracked frames whose bit is clear. *)
From stdpp Require Import base numbers option gmap list_numbers list.
From S2P Require Import Prelude PhysAddr.

Definition IDENTITY_MAP_LIMIT : Z := 0x100000000.

Inductive DeallocError : Type := OutOfRange | DoubleFree.

#[global] Instance DeallocError_eq_dec : EqDecision DeallocError.
Proof. solve_decision. Defined.

Record FrameAllocator : Type := mkFrameAllocator {
  bitmap_ptr : Z;
  bitmap : list Z;
  total_frames : Z;
  frames_free : Z;
  next_hint : Z;
}.

Definition set_bits (self : FrameAllocator) (bm : list Z) (free : Z) : FrameAllocator :=
  {| bitmap_ptr := bitmap_ptr self; bitmap := bm; total_frames := total_frames self;
     frames_free := free; next_hint := next_hint self |}.
Definition set_hint (self : FrameAllocator) (hint : Z) : FrameAllocator :=
  {| bitmap_ptr := bitmap_ptr self; bitmap := bitmap self; total_frames := total_frames self;
     frames_free := frames_free self; next_hint := hint |}.

Section operations.
Context {P : BuildProfile}.

Definition is_free (self : FrameAllocator) (frame : Z) : outcome bool :=
  byte ← index (bitmap self) (frame / 8);
  Ret (Z.land byte (Z.shiftl 1 (frame mod 8)) =? 0).

Definition mark_used (self : FrameAllocator) (frame : Z) : outcome FrameAllocator :=
  free ← is_free self frame;
  n ← (if free : bool then sub64 (frames_free self) 1 else Ret (frames_free self));
  byte ← index (bitmap self) (frame / 8);
  bm ← index_set (bitmap self) (frame / 8) (Z.lor byte (Z.shiftl 1 (frame mod 8)));
  Ret (set_bits self bm n).

Definition mark_free (self : FrameAllocator) (frame : Z) : outcome FrameAllocator :=
  free ← is_free self frame;
  n ← (if negb free then add64 (frames_free self) 1 else Ret (frames_free self));
  byte ← index (bitmap self) (frame / 8);
  bm ← index_set (bitmap self) (frame / 8) (Z.land byte (not_w 8 (Z.shiftl 1 (frame mod 8))));
  Ret (set_bits self bm n).

Definition allocate (self : FrameAllocator) : outcome (option PhysAddr * FrameAllocator) :=
  let total := total_frames self in
  if total =? 0 then Ret (None, self) else
  for_range (Z.to_nat total) 0
    (λ offset '(_, fa),
       sum ← add64 (next_hint fa) offset;
       let frame := sum mod total in
       free ← is_free fa frame;
       if free : bool then
         fa ← mark_used fa frame;
         nxt ← add64 frame 1;
         addr ← from_frame_number frame;
         Ret (Some addr, set_hint fa (nxt mod total), true)
       else Ret (None, fa, false))
    (None, self).

Definition deallocate (self : FrameAllocator) (addr : PhysAddr) :
    outcome (result unit DeallocError * FrameAllocator) :=
  let frame := frame_number addr in
  if total_frames self <=? frame then Ret (Err OutOfRange, self) else
  free ← is_free self frame;
  if free : bool then Ret (Err DoubleFree, self) else
  fa ← mark_free self frame;
  Ret (Ok tt, fa).

Definition allocate_below (self : FrameAllocator) (limit : PhysAddr) :
    outcome (option PhysAddr * FrameAllocator) :=
  let bound := Z.min (total_frames self) (frame_number limit) in
  for_range (Z.to_nat bound) 0
    (λ frame '(_, fa),
       free ← is_free fa frame;
       if free : bool then
         fa ← mark_used fa frame;
         addr ← from_frame_number frame;
         Ret (Some addr, fa, true)
       else Ret (None, fa, false))
    (None, self).

End operations.

(** * The abstraction and the invariant *)
Definition used_bit (bm : list Z) (f : Z) : bool :=
  Z.testbit (default 0 (bm !! Z.to_nat (f / 8))) (f mod 8).
Definition free_frames (self : FrameAllocator) : gset Z :=
  list_to_set (filter (λ f, used_bit (bitmap self) f = false) (seqZ 0 (total_frames self))).

Record wf (self : FrameAllocator) : Prop := {
  wf_len : Z.of_nat (length (bitmap self)) = div_ceil (total_frames self) 8;
  wf_total : 0 ≤ total_frames self < 2 ^ 52;
  wf_bytes : Forall (λ b, 0 ≤ b < 256) (bitmap self);
  wf_count : frames_free self = Z.of_nat (size (free_frames self));
  wf_hint : 0 ≤ next_hint self ≤ total_frames self;
}.

(** ** Lemmas *)
Lemma elem_of_free_frames self f :
  f ∈ free_frames self ↔ 0 ≤ f < total_frames self ∧ used_bit (bitmap self) f = false.
Proof.
  unfold free_frames. rewrite elem_of_list_to_set, list_elem_of_filter, elem_of_seqZ.
  naive_solver lia.
Qed.

Lemma free_frames_set_hint self h : free_frames (set_hint self h) = free_frames self.
Proof. done. Qed.

(** The byte of a tracked frame exists. *)
Lemma byte_of_frame self f :
  wf self → 0 ≤ f < total_frames self →
  ∃ b, bitmap self !! Z.to_nat (f / 8) = Some b ∧ 0 ≤ b < 256 ∧
       0 ≤ f / 8 < Z.of_nat (length (bitmap self)) ∧ used_bit (bitmap self) f = Z.testbit b (f mod 8).
Proof.
  intros Hwf Hf. pose proof (div_ceil_spec (total_frames self) 8 ltac:(lia)).
  rewrite <- (wf_len _ Hwf) in *.
  assert (Hr : 0 ≤ f / 8 < Z.of_nat (length (bitmap self))) by dlia.
  destruct (lookup_lt_is_Some_2 (bitmap self) (Z.to_nat (f / 8))) as [b Hb]; [lia|].
  exists b. split_and!; [done|..|unfold used_bit; by rewrite Hb].
  1-2: apply (proj1 (Forall_lookup _ _) (wf_bytes _ Hwf) _ _ Hb).
  all: lia.
Qed.

(** Writing one byte changes only the bits of its eight frames. *)
Lemma used_bit_insert bm f b g :
  0 ≤ f → 0 ≤ g → f / 8 < Z.of_nat (length bm) →
  used_bit (<[Z.to_nat (f / 8) := b]> bm) g =
  if decide (g / 8 = f / 8) then Z.testbit b (g mod 8) else used_bit bm g.
Proof.
  intros Hf Hg Hlen. unfold used_bit. case_decide as Hd.
  - rewrite Hd, list_lookup_insert_eq; [done|dlia].
  - rewrite list_lookup_insert_ne; [done|]. dlia.
Qed.

Section operation_lemmas.
Context {P : BuildProfile}.

Lemma is_free_ok self f :
  wf self → 0 ≤ f < total_frames self →
  is_free self f = Ret (bool_decide (f ∈ free_frames self)).
Proof.
  intros Hwf Hf. destruct (byte_of_frame self f Hwf Hf) as (b & Hb & _ & ? & Hu).
  unfold is_free. rewrite (index_ok _ _ b); [|dlia|done]. cbn.
  rewrite land_one_bit by dlia. f_equal. rewrite <- Hu.
  destruct (used_bit (bitmap self) f) eqn:Hub; cbn; symmetry.
  - apply bool_decide_eq_false. rewrite elem_of_free_frames, Hub. naive_solver.
  - apply bool_decide_eq_true. by apply elem_of_free_frames.
Qed.

(** A byte write that keeps the seven other bits adds or removes exactly
    the written frame. *)
Lemma free_frames_write self f b b' n :
  wf self → 0 ≤ f < total_frames self →
  bitmap self !! Z.to_nat (f / 8) = Some b →
  (∀ j, 0 ≤ j < 8 → j ≠ f mod 8 → Z.testbit b' j = Z.testbit b j) →
  free_frames (set_bits self (<[Z.to_nat (f / 8) := b']> (bitmap self)) n) =
  if Z.testbit b' (f mod 8) then free_frames self ∖ {[f]} else {[f]} ∪ free_frames self.
Proof.
  intros Hwf Hf Hb Hbits. destruct (byte_of_frame self f Hwf Hf) as (b0 & Hb0 & _ & Hr & _).
  apply set_eq. intros g.
  assert (Hub : 0 ≤ g → used_bit (<[Z.to_nat (f / 8) := b']> (bitmap self)) g =
    if decide (g = f) then Z.testbit b' (f mod 8) else used_bit (bitmap self) g).
  { intros Hg. rewrite used_bit_insert by lia. destruct (decide (g = f)) as [->|Hne].
    - by rewrite decide_True.
    - case_decide as Hd; [|done]. rewrite Hbits by dlia. unfold used_bit. by rewrite Hd, Hb. }
  rewrite elem_of_free_frames; cbn. destruct (decide (0 ≤ g)) as [Hg0|]; last first.
  { destruct (Z.testbit b' (f mod 8)); rewrite ?elem_of_difference, ?elem_of_union, ?elem_of_singleton, elem_of_free_frames; lia. }
  rewrite Hub by done. destruct (Z.testbit b' (f mod 8)) eqn:Hbit.
  - rewrite elem_of_difference, elem_of_singleton, elem_of_free_frames. case_decide; naive_solver.
  - rewrite elem_of_union, elem_of_singleton, elem_of_free_frames. case_decide; naive_solver.
Qed.

Lemma wf_write self f b' n :
  wf self → 0 ≤ b' < 256 →
  n = Z.of_nat (size (free_frames (set_bits self (<[Z.to_nat (f / 8) := b']> (bitmap self)) n))) →
  wf (set_bits self (<[Z.to_nat (f / 8) := b']> (bitmap self)) n).
Proof.
  intros [Hlen Htot Hby Hcnt Hh] Hb' Hn. split; cbn; [by rewrite length_insert|done| |done|done].
  by apply Forall_insert.
Qed.

Lemma free_frames_size self : wf self → Z.of_nat (size (free_frames self)) ≤ total_frames self.
Proof.
  intros Hwf. pose proof (wf_total _ Hwf).
  assert (Hs : free_frames self ⊆ list_to_set (seqZ 0 (total_frames self))).
  { intros f. rewrite elem_of_free_frames, elem_of_list_to_set, elem_of_seqZ. lia. }
  apply subseteq_size in Hs. rewrite size_list_to_set, length_seqZ in Hs by apply NoDup_seqZ. lia.
Qed.

(** What the four fields other than the bitmap and the count keep. *)
Definition same_shape (self self' : FrameAllocator) : Prop :=
  total_frames self' = total_frames self ∧ bitmap_ptr self' = bitmap_ptr self ∧
  next_hint self' = next_hint self ∧ length (bitmap self') = length (bitmap self).

(** Marking one frame used or free: the frame leaves or joins the free set
    and the counter follows. *)
Lemma mark_used_ok self f :
  wf self → 0 ≤ f < total_frames self →
  ∃ self', mark_used self f = Ret self' ∧ wf self' ∧
    free_frames self' = free_frames self ∖ {[f]} ∧ same_shape self self'.
Proof.
  intros Hwf Hf. destruct (byte_of_frame self f Hwf Hf) as (b & Hb & Hbr & Hr & _).
  pose proof (free_frames_size _ Hwf). pose proof (wf_total _ Hwf).
  assert (Hn : (if bool_decide (f ∈ free_frames self)
                then sub64 (frames_free self) 1 else Ret (frames_free self)) =
               Ret (Z.of_nat (size (free_frames self ∖ {[f]})))).
  { rewrite size_remove, (wf_count _ Hwf). case_bool_decide as Hin; rewrite ?decide_True, ?decide_False by done.
    - apply sub64_ok. apply size_elem_pos in Hin. u64_solve.
    - f_equal. lia. }
  assert (Hff : ∀ n, free_frames (set_bits self (<[Z.to_nat (f / 8) := Z.lor b (Z.shiftl 1 (f mod 8))]> (bitmap self)) n) = free_frames self ∖ {[f]}).
  { intros n. rewrite (free_frames_write self f b) by
      (done || intros; rewrite testbit_set_bit, decide_False by dlia; done).
    by rewrite testbit_set_bit, decide_True by dlia. }
  unfold mark_used. rewrite is_free_ok by done. cbn. rewrite Hn. cbn.
  rewrite (index_ok _ _ b) by (done || dlia). cbn. rewrite index_set_ok by lia. cbn.
  eexists. split; [done|]. split; [|split; [apply Hff|by repeat split; cbn; rewrite ?length_insert]].
  apply wf_write; [done|apply set_bit8; [done|dlia]|]. by rewrite Hff.
Qed.

Lemma mark_free_ok self f :
  wf self → 0 ≤ f < total_frames self →
  ∃ self', mark_free self f = Ret self' ∧ wf self' ∧
    free_frames self' = {[f]} ∪ free_frames self ∧ same_shape self self'.
Proof.
  intros Hwf Hf. destruct (byte_of_frame self f Hwf Hf) as (b & Hb & Hbr & Hr & _).
  pose proof (free_frames_size _ Hwf). pose proof (wf_total _ Hwf).
  assert (Hn : (if negb (bool_decide (f ∈ free_frames self))
                then add64 (frames_free self) 1 else Ret (frames_free self)) =
               Ret (Z.of_nat (size ({[f]} ∪ free_frames self)))).
  { rewrite size_insert, (wf_count _ Hwf). case_bool_decide as Hin; rewrite ?decide_True, ?decide_False by done; cbn.
    - f_equal. lia.
    - apply add64_ok. u64_solve. }
  assert (Hff : ∀ n, free_frames (set_bits self (<[Z.to_nat (f / 8) := Z.land b (not_w 8 (Z.shiftl 1 (f mod 8)))]> (bitmap self)) n) = {[f]} ∪ free_frames self).
  { intros n. rewrite (free_frames_write self f b) by
      (done || intros; rewrite testbit_clear_bit, decide_False by dlia; done).
    by rewrite testbit_clear_bit, decide_True by dlia. }
  unfold mark_free. rewrite is_free_ok by done. cbn. rewrite Hn. cbn.
  rewrite (index_ok _ _ b) by (done || dlia). cbn. rewrite index_set_ok by lia. cbn.
  eexists. split; [done|]. split; [|split; [apply Hff|by repeat split; cbn; rewrite ?length_insert]].
  apply wf_write; [done|apply clear_bit8; [done|dlia]|]. by rewrite Hff.
Qed.

(** The scan of [allocate] starts at the hint, wraps around and visits
    every tracked frame. *)
Lemma scan_covers hint total f :
  0 < total → 0 ≤ f < total → ∃ o, 0 ≤ o < total ∧ (hint + o) mod total = f.
Proof.
  intros Ht Hf. exists ((f - hint) mod total). split; [apply Z.mod_pos_bound; lia|].
  rewrite Z.add_mod_idemp_r by lia. replace (hint + (f - hint)) with f by lia.
  by apply Z.mod_small.
Qed.

Lemma wf_set_hint self h : wf self → 0 ≤ h ≤ total_frames self → wf (set_hint self h).
Proof. intros [] Hh. by split. Qed.

(** [allocate] in full: it never panics; it returns the first free frame at
    or cyclically after the hint and takes exactly that frame out of the
    free set; it returns [None] only when no frame is free. *)
Definition allocate_post (self : FrameAllocator) (r : option PhysAddr) (self' : FrameAllocator) : Prop :=
  wf self' ∧ total_frames self' = total_frames self ∧ bitmap_ptr self' = bitmap_ptr self ∧
  match r with
  | Some a => ∃ k, let f := (next_hint self + k) mod total_frames self in
      0 ≤ k < total_frames self ∧ a = PhysAddr.new (f * FRAME_SIZE) ∧
      f ∈ free_frames self ∧ free_frames self' = free_frames self ∖ {[f]} ∧
      next_hint self' = (f + 1) mod total_frames self ∧
      ∀ j, 0 ≤ j < k → (next_hint self + j) mod total_frames self ∉ free_frames self
  | None => self' = self ∧ free_frames self = ∅
  end.

Lemma allocate_ok self :
  wf self → ∃ r self', allocate self = Ret (r, self') ∧ allocate_post self r self'.
Proof.
  intros Hwf. pose proof (wf_total _ Hwf) as Htot. pose proof (wf_hint _ Hwf) as Hhint.
  unfold allocate. destruct (Z.eqb_spec (total_frames self) 0) as [H0|H0].
  { exists None, self. split; [done|]. split_and!; [done..|].
    apply set_eq. intros f. rewrite elem_of_free_frames. set_solver by lia. }
  set (fr k := (next_hint self + k) mod total_frames self).
  edestruct (for_range_total
    (λ k st, st = (None, self) ∧ ∀ j, 0 ≤ j < k → fr j ∉ free_frames self)
    (λ st, allocate_post self st.1 st.2)) as ([r self'] & Hrun & Hpost); cycle 3.
  { exists r, self'. split; [exact Hrun|exact Hpost]. }
  - split; [done|]. intros; lia.
  - intros k st Hk (-> & Hno). rewrite add64_ok by u64_solve. cbn.
    assert (Hf : 0 ≤ fr k < total_frames self) by (apply Z.mod_pos_bound; lia).
    fold (fr k). rewrite is_free_ok by done. cbn. case_bool_decide as Hin.
    + destruct (mark_used_ok self (fr k) Hwf Hf) as (s1 & -> & Hwf1 & Hff & Ht1 & Hp1 & _).
      cbn. rewrite add64_ok by u64_solve. cbn.
      rewrite from_frame_number_ok by lia. cbn. do 2 eexists. split; [done|]. cbn.
      assert (0 ≤ (fr k + 1) mod total_frames self < total_frames self) by (apply Z.mod_pos_bound; lia).
      split; [apply wf_set_hint; [done|lia]|]. split_and!; [done..|].
      exists k. cbv zeta. fold (fr k). split_and!; try done; lia.
    + do 2 eexists. split; [done|]. cbn. split; [done|]. intros j Hj.
      destruct (decide (j = k)) as [->|]; [done|]. apply Hno. lia.
  - rewrite Z.add_0_l, Z2Nat.id by lia. intros st (-> & Hno). cbn. split_and!; [done..|].
    apply set_eq. intros f. split; [|set_solver]. intros Hf.
    destruct (scan_covers (next_hint self) (total_frames self) f) as (o & Ho & Hfo);
      [lia|by apply (elem_of_free_frames self)|]. destruct (Hno o Ho). unfold fr. by rewrite Hfo.
Qed.

(** [allocate_below] returns the lowest free frame under the limit. *)
Definition allocate_below_post (self : FrameAllocator) (limit : PhysAddr)
    (r : option PhysAddr) (self' : FrameAllocator) : Prop :=
  wf self' ∧ total_frames self' = total_frames self ∧ bitmap_ptr self' = bitmap_ptr self ∧
  next_hint self' = next_hint self ∧
  match r with
  | Some a => ∃ f, a = PhysAddr.new (f * FRAME_SIZE) ∧ f < frame_number limit ∧
      f ∈ free_frames self ∧ free_frames self' = free_frames self ∖ {[f]} ∧
      ∀ g, g < f → g ∉ free_frames self
  | None => self' = self ∧ ∀ f, f ∈ free_frames self → frame_number limit ≤ f
  end.

Lemma allocate_below_ok self limit :
  wf self →
  ∃ r self', allocate_below self limit = Ret (r, self') ∧ allocate_below_post self limit r self'.
Proof.
  intros Hwf. pose proof (wf_total _ Hwf) as Htot. unfold allocate_below.
  set (bound := Z.min (total_frames self) (frame_number limit)).
  edestruct (for_range_total
    (λ k st, st = (None, self) ∧ ∀ g, g < k → g ∉ free_frames self)
    (λ st, allocate_below_post self limit st.1 st.2)) as ([r self'] & Hrun & Hpost); cycle 3.
  { exists r, self'. split; [exact Hrun|exact Hpost]. }
  - split; [done|]. intros g Hg. rewrite elem_of_free_frames. lia.
  - intros k st Hk (-> & Hno).
    assert (Hf : 0 ≤ k < total_frames self) by lia.
    rewrite is_free_ok by done. cbn. case_bool_decide as Hin.
    + destruct (mark_used_ok self k Hwf Hf) as (s1 & -> & Hwf1 & Hff & Ht1 & Hp1 & Hh1 & _).
      cbn. rewrite from_frame_number_ok by lia. cbn. do 2 eexists. split; [done|]. cbn.
      split_and!; try done. exists k. split_and!; try done. lia.
    + do 2 eexists. split; [done|]. cbn. split; [done|]. intros g Hg.
      destruct (decide (g = k)) as [->|]; [done|]. apply Hno. lia.
  - intros st (-> & Hno). cbn. split_and!; [done..|]. intros f Hf.
    apply Z.nlt_ge. intros Hlt. apply (Hno f); [|done]. apply elem_of_free_frames in Hf. lia.
Qed.

Definition deallocate_post (self : FrameAllocator) (addr : PhysAddr)
    (r : result unit DeallocError) (self' : FrameAllocator) : Prop :=
  let f := frame_number addr in
  wf self' ∧ total_frames self' = total_frames self ∧ bitmap_ptr self' = bitmap_ptr self ∧
  next_hint self' = next_hint self ∧
  match r with
  | Ok _ => f < total_frames self ∧ f ∉ free_frames self ∧ free_frames self' = {[f]} ∪ free_frames self
  | Err OutOfRange => self' = self ∧ total_frames self ≤ f
  | Err DoubleFree => self' = self ∧ f ∈ free_frames self
  end.

Lemma deallocate_ok self addr :
  wf self → PhysAddr.valid addr →
  ∃ r self', deallocate self addr = Ret (r, self') ∧ deallocate_post self addr r self'.
Proof.
  intros Hwf Hv%frame_number_range. unfold deallocate, deallocate_post.
  set (f := frame_number addr) in *.
  destruct (Z.leb_spec (total_frames self) f); [by do 2 eexists; split_and!|].
  rewrite is_free_ok by (done || lia). cbn. case_bool_decide; [by do 2 eexists; split_and!|].
  destruct (mark_free_ok self f) as (s1 & -> & Hwf1 & Hff & Ht1 & Hp1 & Hh1 & _); [done|lia|].
  cbn. do 2 eexists. split_and!; done.
Qed.

End operation_lemmas.

(** * The abstract allocator: a set of free frames

    Operations and answers of the public interface, the specification as a
    relation on the free set, and the concrete run of one operation. *)
Inductive op : Type := OpAllocate | OpAllocateBelow (limit : PhysAddr) | OpDeallocate (addr : PhysAddr).
Inductive answer : Type := Frame (a : option PhysAddr) | Freed (r : result unit DeallocError).

Definition op_valid (o : op) : Prop :=
  match o with OpDeallocate a => PhysAddr.valid a | _ => True end.

Inductive spec_step (total : Z) : gset Z → op → answer → gset Z → Prop :=
| spec_allocate F f :
    f ∈ F → spec_step total F OpAllocate (Frame (Some (PhysAddr.new (f * FRAME_SIZE)))) (F ∖ {[f]})
| spec_allocate_none :
    spec_step total ∅ OpAllocate (Frame None) ∅
| spec_below F limit f :
    f ∈ F → f < frame_number limit → (∀ g, g ∈ F → f ≤ g) →
    spec_step total F (OpAllocateBelow limit) (Frame (Some (PhysAddr.new (f * FRAME_SIZE)))) (F ∖ {[f]})
| spec_below_none F limit :
    (∀ g, g ∈ F → frame_number limit ≤ g) →
    spec_step total F (OpAllocateBelow limit) (Frame None) F
| spec_deallocate F a :
    frame_number a < total → frame_number a ∉ F →
    spec_step total F (OpDeallocate a) (Freed (Ok tt)) ({[frame_number a]} ∪ F)
| spec_double_free F a :
    frame_number a ∈ F → spec_step total F (OpDeallocate a) (Freed (Err DoubleFree)) F
| spec_out_of_range F a :
    total ≤ frame_number a → spec_step total F (OpDeallocate a) (Freed (Err OutOfRange)) F.

Inductive spec_steps (total : Z) : gset Z → list op → list answer → gset Z → Prop :=
| spec_nil F : spec_steps total F [] [] F
| spec_cons F F' F'' o a os ans :
    spec_step total F o a F' → spec_steps total F' os ans F'' →
    spec_steps total F (o :: os) (a :: ans) F''.

Section machine.
Context {P : BuildProfile}.

Definition exec (self : FrameAllocator) (o : op) : outcome (answer * FrameAllocator) :=
  match o with
  | OpAllocate => r ← allocate self; let '(a, fa) := r : option PhysAddr * _ in Ret (Frame a, fa)
  | OpAllocateBelow limit =>
    r ← allocate_below self limit; let '(a, fa) := r : option PhysAddr * _ in Ret (Frame a, fa)
  | OpDeallocate a =>
    r ← deallocate self a; let '(e, fa) := r : result unit DeallocError * _ in Ret (Freed e, fa)
  end.

Fixpoint exec_all (self : FrameAllocator) (os : list op) : outcome (list answer * FrameAllocator) :=
  match os with
  | [] => Ret ([], self)
  | o :: os =>
    r ← exec self o; let '(a, fa) := r : answer * FrameAllocator in
    r ← exec_all fa os; let '(ans, fa) := r : list answer * FrameAllocator in
    Ret (a :: ans, fa)
  end.

Lemma exec_ok self o :
  wf self → op_valid o →
  ∃ a self', exec self o = Ret (a, self') ∧ wf self' ∧ total_frames self' = total_frames self ∧
    bitmap_ptr self' = bitmap_ptr self ∧
    spec_step (total_frames self) (free_frames self) o a (free_frames self').
Proof.
  intros Hwf Hv. destruct o as [|limit|a]; cbn [exec].
  - destruct (allocate_ok self Hwf) as (r & s' & -> & Hw & Ht & Hp & Hr).
    cbn. do 2 eexists. split_and!; [done..|]. destruct r as [a|].
    + destruct Hr as (k & _ & -> & Hin & -> & _). by constructor.
    + destruct Hr as [-> ->]. constructor.
  - destruct (allocate_below_ok self limit Hwf) as (r & s' & -> & Hw & Ht & Hp & _ & Hr).
    cbn. do 2 eexists. split_and!; [done..|]. destruct r as [a|].
    + destruct Hr as (f & -> & Hlt & Hin & -> & Hlow). constructor; [done..|].
      intros g Hg. apply Z.nlt_ge. intros ?. by apply (Hlow g).
    + destruct Hr as [-> ?]. by constructor.
  - destruct (deallocate_ok self a Hwf Hv) as (r & s' & -> & Hw & Ht & Hp & _ & Hr).
    cbn. do 2 eexists. split_and!; [done..|]. destruct r as [[]|[]].
    + destruct Hr as (? & ? & ->). by constructor.
    + destruct Hr as [-> ?]. by constructor.
    + destruct Hr as [-> ?]. by constructor.
Qed.

Lemma exec_all_ok self os :
  wf self → Forall op_valid os →
  ∃ ans self', exec_all self os = Ret (ans, self') ∧ wf self' ∧
    total_frames self' = total_frames self ∧ bitmap_ptr self' = bitmap_ptr self ∧
    spec_steps (total_frames self) (free_frames self) os ans (free_frames self').
Proof.
  intros Hwf Hv. revert self Hwf. induction Hv as [|o os Ho Hv IH]; intros self Hwf; cbn [exec_all].
  - do 2 eexists. split_and!; [done..|constructor].
  - destruct (exec_ok self o Hwf Ho) as (a & s1 & -> & Hw1 & Ht1 & Hp1 & Hs1). cbn.
    destruct (IH s1 Hw1) as (ans & s2 & -> & Hw2 & Ht2 & Hp2 & Hs2). cbn.
    do 2 eexists. split_and!; [done..| | |]; [congruence..|].
    econstructor; [done|]. by rewrite Ht1 in Hs2.
Qed.

End machine.

(** Frames handed out and not yet given back, along a trace. *)
Definition live_after (L : gset Z) (o : op) (a : answer) : gset Z :=
  match o, a with
  | _, Frame (Some p) => {[frame_number p]} ∪ L
  | OpDeallocate p, Freed (Ok _) => L ∖ {[frame_number p]}
  | _, _ => L
  end.
(** The client returns only frames it holds, and no answer hands out a frame
    that is live. *)
Inductive alias_free : gset Z → list op → list answer → Prop :=
| alias_nil L : alias_free L [] []
| alias_cons L o a os ans :
    match a with Frame (Some p) => frame_number p ∉ L | _ => True end →
    alias_free (live_after L o a) os ans → alias_free L (o :: os) (a :: ans).
Fixpoint client_ok (L : gset Z) (os : list op) (ans : list answer) : Prop :=
  match os, ans with
  | o :: os, a :: ans =>
    match o with OpDeallocate p => frame_number p ∈ L | _ => True end ∧ client_ok (live_after L o a) os ans
  | _, _ => True
  end.

Lemma spec_steps_alias_free total F os ans F' L :
  spec_steps total F os ans F' → L ## F → client_ok L os ans → alias_free L os ans.
Proof.
  intros Hs. revert L. induction Hs as [|F F1 F2 o a os ans Hstep Hs IH]; intros L HL Hc.
  - constructor.
  - destruct Hc as [Hc1 Hc2].
    assert (Hdisj : live_after L o a ## F1 ∧ match a with Frame (Some p) => frame_number p ∉ L | _ => True end).
    { inversion Hstep; subst; cbn in *; rewrite ?frame_number_new; split; set_solver. }
    constructor; [apply Hdisj|]. apply IH; [apply Hdisj|done].
Qed.

(** * Properties *)

(** C6: refinement: any sequence of requests runs without a panic, keeps the
    invariant (the bitmap has one bit per frame, the free counter is the
    number of clear bits, the hint is in range), and answers exactly as the
    abstract allocator over a set of free frames may. *)
Theorem allocator_refines_free_set {P : BuildProfile} (self : FrameAllocator) (os : list op) :
  wf self → Forall op_valid os →
  ∃ ans self', exec_all self os = Ret (ans, self') ∧ wf self' ∧
    spec_steps (total_frames self) (free_frames self) os ans (free_frames self').
Proof.
  intros Hwf Hv. destruct (exec_all_ok self os Hwf Hv) as (ans & s' & ? & ? & _ & _ & ?). eauto.
Qed.

(** No two live allocations alias: as long as the client gives back only
    frames it holds, no request ever hands out a frame that is still held. *)
Theorem live_frames_never_alias {P : BuildProfile} (self : FrameAllocator) (os : list op) ans self' :
  wf self → Forall op_valid os → exec_all self os = Ret (ans, self') →
  client_ok ∅ os ans → alias_free ∅ os ans.
Proof.
  intros Hwf Hv Hrun Hc.
  destruct (exec_all_ok self os Hwf Hv) as (ans' & s' & Hrun' & _ & _ & _ & Hspec).
  rewrite Hrun in Hrun'. simplify_eq. eapply spec_steps_alias_free; [done|set_solver|done].
Qed.

(** [allocate] is next-fit: it returns the address of the first free
    frame at or cyclically after the hint, removes just that frame,
    decrements the counter and moves the hint past it; it returns [None],
    leaving the allocator as it was, exactly when nothing is free. *)
Theorem allocate_next_fit {P : BuildProfile} (self : FrameAllocator) :
  wf self →
  ∃ r self', allocate self = Ret (r, self') ∧ wf self' ∧
    match r with
    | Some a => ∃ k, let f := (next_hint self + k) mod total_frames self in
        0 ≤ k < total_frames self ∧ a = PhysAddr.new (f * FRAME_SIZE) ∧ f ∈ free_frames self ∧
        (∀ j, 0 ≤ j < k → (next_hint self + j) mod total_frames self ∉ free_frames self) ∧
        free_frames self' = free_frames self ∖ {[f]} ∧ frames_free self' = frames_free self - 1 ∧
        next_hint self' = (f + 1) mod total_frames self
    | None => self' = self ∧ frames_free self = 0
    end.
Proof.
  intros Hwf. destruct (allocate_ok self Hwf) as (r & s' & Hrun & Hw & Ht & Hp & Hr).
  exists r, s'. split_and!; [done..|]. destruct r as [a|].
  - destruct Hr as (k & Hk & -> & Hin & Hff & Hh & Hno). exists k. split_and!; try done; try lia.
    rewrite (wf_count _ Hw), (wf_count _ Hwf), Hff, size_remove. by rewrite decide_True.
  - destruct Hr as [-> He]. split; [done|]. by rewrite (wf_count _ Hwf), He, size_empty.
Qed.

(** [deallocate] reports every misuse and changes nothing then: an
    address past the tracked range is [OutOfRange], a frame that is already
    free is [DoubleFree]; otherwise the frame becomes free again and the
    counter grows by one. *)
Theorem deallocate_classifies {P : BuildProfile} (self : FrameAllocator) (a : PhysAddr) :
  wf self → PhysAddr.valid a →
  (total_frames self ≤ frame_number a → deallocate self a = Ret (Err OutOfRange, self)) ∧
  (frame_number a ∈ free_frames self → deallocate self a = Ret (Err DoubleFree, self)) ∧
  (frame_number a < total_frames self → frame_number a ∉ free_frames self →
   ∃ self', deallocate self a = Ret (Ok tt, self') ∧ wf self' ∧
     free_frames self' = {[frame_number a]} ∪ free_frames self ∧
     frames_free self' = frames_free self + 1).
Proof.
  intros Hwf Hv. destruct (deallocate_ok self a Hwf Hv) as (r & s' & -> & Hw & _ & _ & _ & Hr).
  pose proof (elem_of_free_frames self (frame_number a)) as Hin.
  destruct r as [[]|[]]; [destruct Hr as (Hlt & Hnin & Hff)|destruct Hr as [-> Hge]|destruct Hr as [-> Hf]];
    split_and!; intros; try done; try (rewrite Hin in *; lia).
  eexists. split_and!; [done..|].
  rewrite (wf_count _ Hw), (wf_count _ Hwf), Hff, size_insert. by rewrite decide_False.
Qed.

(** Giving back the frame just allocated undoes the allocation: the free
    set and the counter are as before. *)
Theorem allocate_deallocate_roundtrip {P : BuildProfile} (self : FrameAllocator) a self1 :
  wf self → allocate self = Ret (Some a, self1) →
  ∃ self2, deallocate self1 a = Ret (Ok tt, self2) ∧ wf self2 ∧
    free_frames self2 = free_frames self ∧ frames_free self2 = frames_free self.
Proof.
  intros Hwf Hal. destruct (allocate_ok self Hwf) as (r & s1 & Hrun & Hw1 & Ht1 & _ & Hr).
  rewrite Hal in Hrun. simplify_eq. destruct Hr as (k & Hk & -> & Hin & Hff & _).
  set (f := _ mod _) in *. pose proof (wf_total _ Hwf).
  assert (Hf : 0 ≤ f < total_frames self) by (by apply elem_of_free_frames).
  destruct (deallocate_ok s1 (PhysAddr.new (f * FRAME_SIZE)) Hw1) as (r & s2 & -> & Hw2 & _ & _ & _ & Hr2).
  { unfold PhysAddr.valid, u64, FRAME_SIZE; cbn. lia. }
  rewrite frame_number_new in Hr2.
  destruct r as [[]|[]]; [|exfalso; destruct Hr2; lia|exfalso; destruct Hr2; set_solver].
  assert (Hff2 : free_frames s2 = free_frames self).
  { destruct Hr2 as (_ & _ & ->). rewrite Hff. rewrite <- union_difference_L; [done|set_solver]. }
  exists s2. split_and!; [done..|]. by rewrite (wf_count _ Hw2), Hff2, <- (wf_count _ Hwf).
Qed.

(** ** Eight frames, the first and the third in use *)
Definition demo_allocator : FrameAllocator := mkFrameAllocator 0x9000 [5] 8 6 0.
Lemma demo_allocator_wf : wf demo_allocator.
Proof. split; [done|done|repeat constructor; lia|vm_compute; reflexivity|done]. Qed.

Definition demo_ops : list op :=
  [OpAllocate; OpDeallocate (PhysAddr.new 0x1000); OpAllocateBelow (PhysAddr.new 0x8000)].
Lemma demo_ops_valid : Forall op_valid demo_ops.
Proof. repeat constructor; unfold PhysAddr.valid, u64; cbn; lia. Qed.

Lemma allocator_refines_free_set_witness :
  ∃ ans self', exec_all (P := release_profile) demo_allocator demo_ops = Ret (ans, self') ∧ wf self'.
Proof.
  destruct (allocator_refines_free_set (P := release_profile) demo_allocator demo_ops demo_allocator_wf
    demo_ops_valid) as (ans & s' & Hrun & Hwf & _).
  exists ans, s'. split; [exact Hrun|exact Hwf].
Defined.

Lemma live_frames_never_alias_witness :
  alias_free ∅ demo_ops
    [Frame (Some (PhysAddr.new 0x1000)); Freed (Ok tt); Frame (Some (PhysAddr.new 0x1000))].
Proof.
  eapply (live_frames_never_alias (P := release_profile) demo_allocator demo_ops _ _ demo_allocator_wf
    demo_ops_valid).
  - vm_compute. reflexivity.
  - split; [exact I|]. split; [vm_compute; reflexivity|]. split; exact I.
Defined.

Lemma allocate_next_fit_witness :
  ∃ r self', allocate (P := dev_profile) demo_allocator = Ret (r, self') ∧ wf self'.
Proof.
  destruct (allocate_next_fit (P := dev_profile) demo_allocator demo_allocator_wf) as (r & s' & Hrun & Hwf & _).
  exists r, s'. split; [exact Hrun|exact Hwf].
Defined.

Lemma deallocate_classifies_witness :
  deallocate (P := dev_profile) demo_allocator (PhysAddr.new 0x1000) = Ret (Err DoubleFree, demo_allocator).
Proof.
  apply (deallocate_classifies (P := dev_profile) demo_allocator (PhysAddr.new 0x1000) demo_allocator_wf).
  - unfold PhysAddr.valid, u64. cbn. lia.
  - apply elem_of_free_frames. vm_compute. split; [split; [discriminate|reflexivity]|reflexivity].
Defined.

Lemma allocate_deallocate_roundtrip_witness :
  ∃ self1 self2, allocate (P := dev_profile) demo_allocator = Ret (Some (PhysAddr.new 0x1000), self1) ∧
    deallocate (P := dev_profile) self1 (PhysAddr.new 0x1000) = Ret (Ok tt, self2) ∧
    frames_free self2 = 6.
Proof.
  pose (self1 := mkFrameAllocator 0x9000 [7] 8 5 2).
  assert (Hal : allocate (P := dev_profile) demo_allocator = Ret (Some (PhysAddr.new 0x1000), self1))
    by (vm_compute; reflexivity).
  destruct (allocate_deallocate_roundtrip (P := dev_profile) demo_allocator _ self1 demo_allocator_wf Hal)
    as (self2 & Hd & _ & _ & Hn).
  exists self1, self2. split; [exact Hal|]. split; [exact Hd|exact Hn].
Defined.
