(* ===== verification/FrameInit.v ===== *)
(** Building the frame allocator from the memory map: [FrameAllocator::init]
    of [kernel/src/mm/frame_allocator.rs].

    Three passes over the descriptors: size the bitmap, place it in the first
    large enough conventional region below the identity-map limit, mark the
    conventional frames free; then the bitmap's own frames are reserved.
    The bitmap is written while the third pass still reads the map, so that
    pass reads memory through the bitmap slice. *)
From stdpp Require Import base numbers option gmap list_numbers list.
From S2P Require Import Prelude PhysAddr Memory BootInfo MemoryMap FrameAllocator.

Definition MAX_BITMAP_BYTES : Z := 64 * 1024 * 1024.

Inductive InitError : Type :=
| InconsistentMemoryMap
| NoSuitableBitmapRegion
| ImpliedAddressSpaceTooLarge.

#[global] Instance InitError_eq_dec : EqDecision InitError.
Proof. solve_decision. Defined.

(** The checks every pass makes on an entry before using it: not empty,
    frame-aligned, end address in range; the result is the end address. *)
Definition validate (e : MemoryMapEntry) : option Z :=
  if number_of_pages e =? 0 then None
  else if negb (is_frame_aligned (physical_start e)) then None
  else end_addr e.

(** Memory as loads see it once the bitmap slice exists. *)
Definition through_bitmap (rd : Z → option Z) (fa : FrameAllocator) (a : Z) : option Z :=
  if (bitmap_ptr fa <=? a) && (a <? bitmap_ptr fa + Z.of_nat (length (bitmap fa)))
  then bitmap fa !! Z.to_nat (a - bitmap_ptr fa) else rd a.

(** [core::slice::from_raw_parts_mut] followed by the fill with [0xFF]: the
    pointer must be non-null and every byte of the slice must exist. *)
Definition filled_slice (rd : Z → option Z) (p bytes : Z) : outcome (list Z) :=
  if (p =? 0) || negb (forallb (λ a, bool_decide (is_Some (rd a))) (seqZ p bytes)) then Undef
  else Ret (replicate (Z.to_nat bytes) 0xFF).

Section init.
Context {P : BuildProfile}.

Definition pass1 (e : MemoryMapEntry) (highest : Z) : outcome (Z * bool) :=
  match validate e with
  | None => Ret (highest, false)
  | Some en => Ret (if highest <? en then en else highest, false)
  end.

Definition pass2 (bitmap_bytes : Z) (e : MemoryMapEntry) (found : option Z) :
    outcome (option Z * bool) :=
  if negb (typ e =? EFI_CONVENTIONAL_MEMORY) then Ret (found, false) else
  match validate e with
  | None => Ret (found, false)
  | Some en =>
    if IDENTITY_MAP_LIMIT <? en then Ret (found, false) else
    region_size ← sub64 en (PhysAddr.as_u64 (physical_start e));
    if bitmap_bytes <=? region_size
    then Ret (Some (PhysAddr.as_u64 (physical_start e)), true)
    else Ret (found, false)
  end.

Definition pass3 (e : MemoryMapEntry) (fa : FrameAllocator) : outcome (FrameAllocator * bool) :=
  if negb (typ e =? EFI_CONVENTIONAL_MEMORY) then Ret (fa, false) else
  match validate e with
  | None => Ret (fa, false)
  | Some _ =>
    let start_frame := frame_number (physical_start e) in
    let last := saturating_add start_frame (number_of_pages e) in
    fa ← for_range (Z.to_nat (last - start_frame)) start_frame
           (λ frame fa,
              if total_frames fa <=? frame then Ret (fa, true)
              else fa ← mark_free fa frame; Ret (fa, false)) fa;
    Ret (fa, false)
  end.

Definition reserve_bitmap (fa : FrameAllocator) (bitmap_phys_addr bitmap_bytes : Z) :
    outcome FrameAllocator :=
  let start := frame_number (PhysAddr.new bitmap_phys_addr) in
  let last := saturating_add start (div_ceil bitmap_bytes FRAME_SIZE) in
  for_range (Z.to_nat (last - start)) start
    (λ frame fa,
       if frame <? total_frames fa then fa ← mark_used fa frame; Ret (fa, false)
       else Ret (fa, false)) fa.

Definition init (rd : Z → option Z) (bi : BootInfo) : outcome (result FrameAllocator InitError) :=
  match checked_mul (memory_map_entry_count bi) (memory_map_descriptor_size bi) with
  | None => Ret (Err InconsistentMemoryMap)
  | Some claimed_size =>
    if memory_map_size_bytes bi <? claimed_size then Ret (Err InconsistentMemoryMap) else
    highest_addr ← for_each_entry (λ _, rd) pass1 bi 0;
    if highest_addr =? 0 then Ret (Err InconsistentMemoryMap) else
    let total_frames := highest_addr / FRAME_SIZE in
    let bitmap_bytes := div_ceil total_frames 8 in
    if (bitmap_bytes =? 0) || (MAX_BITMAP_BYTES <? bitmap_bytes)
    then Ret (Err ImpliedAddressSpaceTooLarge) else
    found ← for_each_entry (λ _, rd) (pass2 bitmap_bytes) bi None;
    match found with
    | None => Ret (Err NoSuitableBitmapRegion)
    | Some bitmap_phys_addr =>
      bm ← filled_slice rd bitmap_phys_addr bitmap_bytes;
      let allocator := {| bitmap_ptr := bitmap_phys_addr; bitmap := bm;
                          total_frames := total_frames; frames_free := 0; next_hint := 0 |} in
      allocator ← for_each_entry (through_bitmap rd) pass3 bi allocator;
      allocator ← reserve_bitmap allocator bitmap_phys_addr bitmap_bytes;
      Ret (Ok allocator)
    end
  end.

End init.

(** * What the map says *)
Definition conventional (e : MemoryMapEntry) : Prop :=
  typ e = EFI_CONVENTIONAL_MEMORY ∧ is_Some (validate e).
(** Frame [f] lies in entry [e]. *)
Definition in_entry (e : MemoryMapEntry) (f : Z) : Prop :=
  frame_number (physical_start e) ≤ f < frame_number (physical_start e) + number_of_pages e.
(** The highest validated end address. *)
Definition highest_end (es : list MemoryMapEntry) : Z :=
  foldl (λ h e, match validate e with Some en => Z.max h en | None => h end) 0 es.
(** A region the bitmap fits in. *)
Definition hosts (bytes : Z) (e : MemoryMapEntry) : Prop :=
  typ e = EFI_CONVENTIONAL_MEMORY ∧
  ∃ en, validate e = Some en ∧ en ≤ IDENTITY_MAP_LIMIT ∧
        bytes ≤ en - PhysAddr.as_u64 (physical_start e).

Definition entry_ok (e : MemoryMapEntry) : Prop :=
  u64 (PhysAddr.as_u64 (physical_start e)) ∧ u64 (number_of_pages e).

(** ** Lemmas *)
Lemma validate_Some e en :
  entry_ok e → validate e = Some en →
  PhysAddr.as_u64 (physical_start e) = frame_number (physical_start e) * FRAME_SIZE ∧
  en = (frame_number (physical_start e) + number_of_pages e) * FRAME_SIZE ∧
  0 ≤ frame_number (physical_start e) ∧ 1 ≤ number_of_pages e ∧ en < 2 ^ 64.
Proof.
  intros [Hs Hn] Hv. unfold validate in Hv.
  destruct (Z.eqb_spec (number_of_pages e) 0) as [|Hn0]; [done|].
  destruct (is_frame_aligned (physical_start e)) eqn:Hal; [|done]. cbn in Hv.
  apply aligned_frame_number in Hal. apply end_addr_Some in Hv as (-> & ? & ?).
  pose proof (frame_number_range _ Hs). unfold u64, FRAME_SIZE in *. lia.
Qed.

Lemma highest_end_snoc es e :
  highest_end (es ++ [e]) =
  match validate e with Some en => Z.max (highest_end es) en | None => highest_end es end.
Proof. unfold highest_end. by rewrite foldl_app. Qed.

Lemma highest_end_ge es e en :
  e ∈ es → validate e = Some en → en ≤ highest_end es.
Proof.
  intros He Hv. induction es as [|e' es IH] using rev_ind; [set_solver|].
  rewrite highest_end_snoc. apply elem_of_app in He as [He|He%list_elem_of_singleton].
  - specialize (IH He). destruct (validate e'); lia.
  - subst e'. rewrite Hv. lia.
Qed.

Lemma highest_end_cases es :
  highest_end es = 0 ∧ (∀ e en, e ∈ es → validate e = Some en → en ≤ 0)
  ∨ ∃ e, e ∈ es ∧ validate e = Some (highest_end es).
Proof.
  induction es as [|e es IH] using rev_ind; [left; set_solver|].
  rewrite highest_end_snoc. destruct (validate e) as [en|] eqn:Hv.
  - destruct (decide (highest_end es < en)).
    + right. exists e. rewrite Z.max_r by lia. split; [set_solver|done].
    + destruct IH as [[Hz IH]|(e' & He' & Hv')].
      * left. rewrite Hz in *. split; [lia|]. intros e' en' [?|Heq%list_elem_of_singleton]%elem_of_app Hv'.
        { by eapply IH. } subst e'. rewrite Hv in Hv'. simplify_eq. lia.
      * right. exists e'. rewrite Z.max_l by lia. split; [set_solver|done].
  - destruct IH as [[Hz IH]|(e' & He' & Hv')].
    + left. split; [done|]. intros e' en' [?|Heq%list_elem_of_singleton]%elem_of_app Hv'; [by eapply IH|congruence].
    + right. exists e'. split; [set_solver|done].
Qed.

Lemma take_S_lookup {A} (l : list A) k x : l !! k = Some x → take (S k) l = take k l ++ [x].
Proof. apply take_S_r. Qed.

Lemma exists_take_S {A} (l : list A) k x (Φ : A → Prop) :
  l !! k = Some x → (∃ y, y ∈ take (S k) l ∧ Φ y) ↔ (∃ y, y ∈ take k l ∧ Φ y) ∨ Φ x.
Proof.
  intros Hx. rewrite (take_S_lookup _ _ _ Hx). split.
  - intros (y & [?|Hy%list_elem_of_singleton]%elem_of_app & ?); [eauto|subst; eauto].
  - intros [(y & ? & ?)|?]; eexists; rewrite elem_of_app, list_elem_of_singleton; eauto.
Qed.


(** Entries read from bytes have [u64] fields. *)
Lemma reads_as_entry_ok rd bi es :
  (∀ i b, rd i = Some b → 0 ≤ b < 256) → reads_as rd bi es → Forall entry_ok es.
Proof.
  intros Hrd [_ Hes]. apply Forall_lookup. intros k e Hk.
  rewrite <- (Hes k) in Hk by (by eapply lookup_lt_Some).
  unfold entry_at, read_entry in Hk.
  apply bind_Some in Hk as (t & _ & Hk). apply bind_Some in Hk as (s & Hs & Hk).
  apply bind_Some in Hk as (n & Hn & [= <-]).
  split; cbn; [apply (load_le_range _ _ _ _ Hrd Hs)|apply (load_le_range _ _ _ _ Hrd Hn)].
Qed.

Section ranges.
Context {P : BuildProfile}.

(** Freeing a range of frames, and reserving one. *)
Lemma mark_free_range_ok fa start last :
  wf fa → 0 ≤ start ≤ last → last ≤ total_frames fa →
  ∃ fa', for_range (Z.to_nat (last - start)) start
           (λ frame fa, if total_frames fa <=? frame then Ret (fa, true)
                        else fa ← mark_free fa frame; Ret (fa, false)) fa = Ret fa' ∧
    wf fa' ∧ same_shape fa fa' ∧
    ∀ f, f ∈ free_frames fa' ↔ f ∈ free_frames fa ∨ start ≤ f < last.
Proof.
  intros Hwf Hs Hl.
  eapply (for_range_total (λ j t, wf t ∧ same_shape fa t ∧
    ∀ f, f ∈ free_frames t ↔ f ∈ free_frames fa ∨ start ≤ f < j)).
  - split_and!; [done|done|]. intros; naive_solver lia.
  - intros j t Hj (Hwt & (Ht & Hp & Hh & Hlen) & Hfr). rewrite Z2Nat.id in Hj by lia.
    destruct (Z.leb_spec (total_frames t) j); [lia|].
    destruct (mark_free_ok t j) as (t' & -> & Hwt' & Hff & Ht' & Hp' & Hh' & Hlen'); [done|lia|].
    cbn. do 2 eexists. split; [done|]. split_and!; [done|unfold same_shape; split_and!; congruence|].
    intros f. rewrite Hff, elem_of_union, elem_of_singleton, Hfr. naive_solver lia.
  - rewrite Z2Nat.id by lia. intros t (Hwt & Hsh & Hfr). split_and!; [done|done|].
    intros f. rewrite Hfr. by replace (start + (last - start)) with last by lia.
Qed.

Lemma reserve_bitmap_ok fa p bytes :
  wf fa → 0 ≤ p → 0 ≤ bytes → p + bytes ≤ IDENTITY_MAP_LIMIT →
  ∃ fa', reserve_bitmap fa p bytes = Ret fa' ∧ wf fa' ∧ same_shape fa fa' ∧
    ∀ f, f ∈ free_frames fa' ↔ f ∈ free_frames fa ∧
         ¬ (p / FRAME_SIZE ≤ f < p / FRAME_SIZE + div_ceil bytes FRAME_SIZE).
Proof.
  intros Hwf Hp Hb Hlim. unfold reserve_bitmap. cbn.
  assert (Hd : 0 ≤ div_ceil bytes FRAME_SIZE ≤ 2 ^ 20).
  { split; [by apply div_ceil_nonneg|]. apply div_ceil_mono; unfold FRAME_SIZE, IDENTITY_MAP_LIMIT in *; lia. }
  assert (Hsat : saturating_add (p / FRAME_SIZE) (div_ceil bytes FRAME_SIZE) =
                 p / FRAME_SIZE + div_ceil bytes FRAME_SIZE).
  { unfold saturating_add. unfold FRAME_SIZE, IDENTITY_MAP_LIMIT in *. dlia. }
  unfold frame_number; cbn. rewrite Hsat. set (start := p / FRAME_SIZE) in *.
  set (n := div_ceil bytes FRAME_SIZE) in *.
  eapply (for_range_total (λ j t, wf t ∧ same_shape fa t ∧
    ∀ f, f ∈ free_frames t ↔ f ∈ free_frames fa ∧ ¬ (start ≤ f < j))).
  - split_and!; [done|done|]. intros f. naive_solver lia.
  - intros j t Hj (Hwt & (Ht & Hp' & Hh & Hlen) & Hfr). rewrite Z2Nat.id in Hj by lia.
    assert (0 ≤ start) by (unfold start, FRAME_SIZE; dlia).
    destruct (Z.ltb_spec j (total_frames t)).
    + destruct (mark_used_ok t j) as (t' & -> & Hwt' & Hff & Ht' & Hp'' & Hh' & Hlen'); [done|lia|].
      cbn. do 2 eexists. split; [done|]. split_and!; [done|unfold same_shape; split_and!; congruence|].
      intros f. rewrite Hff, elem_of_difference, elem_of_singleton, Hfr. naive_solver lia.
    + do 2 eexists. split; [done|]. split_and!; [done..|].
      intros f. rewrite Hfr. pose proof (elem_of_free_frames t f) as Ht'.
      rewrite Hfr in Ht'. naive_solver lia.
  - rewrite Z2Nat.id by lia. intros t (Hwt & Hsh & Hfr). split_and!; [done|done|].
    intros f. rewrite Hfr. by replace (start + (start + n - start)) with (start + n) by lia.
Qed.

(** The fresh bitmap: every frame used. *)
Lemma fresh_wf p total :
  0 ≤ total < 2 ^ 52 →
  wf {| bitmap_ptr := p; bitmap := replicate (Z.to_nat (div_ceil total 8)) 0xFF;
        total_frames := total; frames_free := 0; next_hint := 0 |} ∧
  ∀ f, f ∉ free_frames {| bitmap_ptr := p; bitmap := replicate (Z.to_nat (div_ceil total 8)) 0xFF;
        total_frames := total; frames_free := 0; next_hint := 0 |}.
Proof.
  intros Ht. set (fa := mkFrameAllocator _ _ _ _ _).
  assert (Hno : ∀ f, f ∉ free_frames fa).
  { intros f. rewrite elem_of_free_frames; cbn. intros [Hf Hu].
    pose proof (div_ceil_spec total 8 ltac:(lia)). unfold used_bit in Hu.
    rewrite lookup_replicate_2 in Hu by dlia. change (Z.testbit (Z.ones 8) (f mod 8) = false) in Hu.
    rewrite Z.ones_spec_low in Hu by dlia. done. }
  split; [|done]. split; cbn; [..|lia].
  - rewrite length_replicate. pose proof (div_ceil_nonneg total 8). lia.
  - done.
  - apply Forall_replicate. lia.
  - replace (free_frames _) with (∅ : gset Z); [done|]. symmetry. apply set_eq. set_solver.
Qed.

End ranges.

Section passes.
Context {P : BuildProfile}.
Context (rd : Z → option Z) (bi : BootInfo) (es : list MemoryMapEntry).
Hypothesis Hsized : map_sized bi.
Hypothesis Hcount : memory_map_entry_count bi < 2 ^ 64.
Hypothesis Hreads : reads_as rd bi es.
Hypothesis Hok : Forall entry_ok es.

Lemma pass1_ok : for_each_entry (λ _, rd) pass1 bi 0 = Ret (highest_end es).
Proof.
  destruct Hreads as [Hlen Hes].
  destruct (for_each_entry_total (λ k t, t = highest_end (take k es)) (λ t, t = highest_end es)
    (λ _, rd) pass1 bi es 0) as (s' & -> & ->); try done.
  - intros k t Hk _. by apply Hes.
  - intros k e t He ->. do 2 eexists. split.
    { instantiate (1 := false). instantiate (1 := highest_end (take (S k) es)).
      rewrite (take_S_lookup _ _ _ He), highest_end_snoc. unfold pass1.
      destruct (validate e); [|done]. repeat f_equal.
      destruct (Z.ltb_spec (highest_end (take k es)) z); lia. }
    done.
  - intros t ->. by rewrite firstn_all.
Qed.

Lemma pass2_ok bytes :
  0 ≤ bytes →
  ∃ found, for_each_entry (λ _, rd) (pass2 bytes) bi None = Ret found ∧
    match found with
    | Some p => ∃ k e, es !! k = Some e ∧ hosts bytes e ∧ p = PhysAddr.as_u64 (physical_start e) ∧
                       ∀ e', e' ∈ take k es → ¬ hosts bytes e'
    | None => ∀ e, e ∈ es → ¬ hosts bytes e
    end.
Proof.
  intros Hb. destruct Hreads as [Hlen Hes].
  eapply (for_each_entry_total (λ k t, t = None ∧ ∀ e, e ∈ take k es → ¬ hosts bytes e)); try done.
  - split; [done|]. rewrite take_0. set_solver.
  - intros k t Hk _. by apply Hes.
  - intros k e t He [-> Hno].
    assert (Hokeep : ¬ hosts bytes e → @None Z = None ∧ ∀ e', e' ∈ take (S k) es → ¬ hosts bytes e').
    { intros Hn. split; [done|]. intros e'. rewrite (take_S_lookup _ _ _ He).
      intros [?|Heq%list_elem_of_singleton]%elem_of_app; subst; auto. }
    unfold pass2. destruct (Z.eqb_spec (typ e) EFI_CONVENTIONAL_MEMORY) as [Ht|Ht]; cbn; last first.
    { do 2 eexists. split; [done|]. apply Hokeep. by intros [? _]. }
    destruct (validate e) as [en|] eqn:Hv; last first.
    { do 2 eexists. split; [done|]. apply Hokeep. intros (_ & en & ? & _). congruence. }
    destruct (Z.ltb_spec IDENTITY_MAP_LIMIT en) as [Hl|Hl].
    { do 2 eexists. split; [done|]. apply Hokeep. intros (_ & en' & ? & ? & _). simplify_eq. lia. }
    assert (Heok : entry_ok e) by (by eapply (proj1 (Forall_lookup _ _) Hok)).
    pose proof (validate_Some _ _ Heok Hv) as (Hst & -> & ? & ? & ?).
    rewrite sub64_ok by (rewrite Hst; unfold u64, FRAME_SIZE in *; lia). cbn.
    destruct (Z.leb_spec bytes ((frame_number (physical_start e) + number_of_pages e) * FRAME_SIZE
                - PhysAddr.as_u64 (physical_start e))).
    + do 2 eexists. split; [done|]. cbn. exists k, e. split_and!; [done| |done|done].
      split; [done|]. eexists. split_and!; [done..|lia].
    + do 2 eexists. split; [done|]. apply Hokeep. intros (_ & en' & ? & _ & ?). simplify_eq. lia.
  - intros t [-> Hno]. by rewrite firstn_all in Hno.
Qed.

(** The third pass, when the map's buffer is apart from the bitmap. *)
Lemma pass3_ok fa0 :
  32 ≤ memory_map_descriptor_size bi →
  wf fa0 → highest_end es = total_frames fa0 * FRAME_SIZE → (∀ f, f ∉ free_frames fa0) →
  (∀ i, memory_map_phys_addr bi ≤ i < memory_map_phys_addr bi + memory_map_size_bytes bi →
        ¬ (bitmap_ptr fa0 ≤ i < bitmap_ptr fa0 + Z.of_nat (length (bitmap fa0)))) →
  ∃ fa, for_each_entry (through_bitmap rd) pass3 bi fa0 = Ret fa ∧ wf fa ∧ same_shape fa0 fa ∧
    ∀ f, f ∈ free_frames fa ↔ ∃ e, e ∈ es ∧ conventional e ∧ in_entry e f.
Proof.
  intros Hds Hwf Hhi Hnone Hapart. pose proof Hreads as [Hlen Hes].
  eapply (for_each_entry_total (λ k t, wf t ∧ same_shape fa0 t ∧
    ∀ f, f ∈ free_frames t ↔ ∃ e, e ∈ take k es ∧ conventional e ∧ in_entry e f)); try done.
  - split_and!; [done..|]. intros f. rewrite take_0. pose proof (Hnone f). set_solver.
  - intros k t Hk (Hwt & (_ & Hp & _ & Hl) & _). rewrite <- (Hes k) by done.
    unfold entry_at. apply read_entry_ext. intros i Hi.
    pose proof (entry_in_buffer bi k Hsized Hds ltac:(lia)).
    unfold through_bitmap. rewrite Hp, Hl.
    destruct (Z.leb_spec (bitmap_ptr fa0) i), (Z.ltb_spec i (bitmap_ptr fa0 + Z.of_nat (length (bitmap fa0))));
      cbn; try done. exfalso. eapply (Hapart i); lia.
  - intros k e t He (Hwt & Hsh & Hfr).
    assert (Hskip : ¬ conventional e → ∀ f, f ∈ free_frames t ↔
              ∃ e', e' ∈ take (S k) es ∧ conventional e' ∧ in_entry e' f).
    { intros Hn f. rewrite Hfr, (exists_take_S _ _ _ _ He). tauto. }
    unfold pass3. destruct (Z.eqb_spec (typ e) EFI_CONVENTIONAL_MEMORY) as [Ht|Ht]; cbn; last first.
    { do 2 eexists. split; [done|]. split_and!; [done..|]. apply Hskip. by intros [? _]. }
    destruct (validate e) as [en|] eqn:Hv; last first.
    { do 2 eexists. split; [done|]. split_and!; [done..|]. apply Hskip. intros [_ Hc].
      rewrite Hv in Hc. by apply is_Some_None in Hc. }
    assert (Heok : entry_ok e) by (by eapply (proj1 (Forall_lookup _ _) Hok)).
    pose proof (validate_Some _ _ Heok Hv) as (Hst & -> & ? & ? & ?).
    pose proof (highest_end_ge es e _ ltac:(by eapply list_elem_of_lookup_2) Hv) as Hge.
    destruct Hsh as (Ht0 & Hp0 & Hh0 & Hl0). pose proof (wf_total _ Hwf).
    rewrite Hhi in Hge. unfold saturating_add. rewrite Z.min_l by (unfold FRAME_SIZE in *; lia).
    destruct (mark_free_range_ok t (frame_number (physical_start e))
      (frame_number (physical_start e) + number_of_pages e)) as (t' & -> & Hwt' & Hsh' & Hfr');
      [done|lia|unfold FRAME_SIZE in *; lia|].
    cbn. do 2 eexists. split; [done|]. destruct Hsh' as (? & ? & ? & ?).
    split_and!; [done|unfold same_shape; split_and!; congruence|].
    assert (conventional e) by (by split; [|eexists]).
    intros f. rewrite Hfr', Hfr, (exists_take_S _ _ _ _ He). unfold in_entry at 3. tauto.
  - intros t (Hwt & Hsh & Hfr). by rewrite firstn_all in Hfr.
Qed.

End passes.

(** * What the boot handoff promises

    The memory map is in its buffer, whose stride covers a descriptor; the
    buffer is not conventional memory (the bootloader allocated it as loader
    data); conventional memory below the identity-map limit exists and does
    not contain physical address 0. *)
Record handoff_ok (rd : Z → option Z) (bi : BootInfo) (es : list MemoryMapEntry) : Prop := {
  ho_bytes : ∀ i b, rd i = Some b → 0 ≤ b < 256;
  ho_sized : map_sized bi;
  ho_count : memory_map_entry_count bi < 2 ^ 64;
  ho_stride : 32 ≤ memory_map_descriptor_size bi;
  ho_reads : reads_as rd bi es;
  ho_buffer : ∀ e en i, e ∈ es → typ e = EFI_CONVENTIONAL_MEMORY → validate e = Some en →
    PhysAddr.as_u64 (physical_start e) ≤ i < en →
    ¬ (memory_map_phys_addr bi ≤ i < memory_map_phys_addr bi + memory_map_size_bytes bi);
  ho_backed : ∀ e en i, e ∈ es → typ e = EFI_CONVENTIONAL_MEMORY → validate e = Some en →
    PhysAddr.as_u64 (physical_start e) ≤ i < en → i < IDENTITY_MAP_LIMIT → is_Some (rd i);
  ho_nonnull : ∀ e, e ∈ es → conventional e → PhysAddr.as_u64 (physical_start e) ≠ 0;
}.

(** The frames under the bitmap. *)
Definition bitmap_frame (fa : FrameAllocator) (f : Z) : Prop :=
  bitmap_ptr fa / FRAME_SIZE ≤ f <
  bitmap_ptr fa / FRAME_SIZE + div_ceil (Z.of_nat (length (bitmap fa))) FRAME_SIZE.

Definition init_post (es : list MemoryMapEntry) (r : result FrameAllocator InitError) : Prop :=
  let bytes := div_ceil (highest_end es / FRAME_SIZE) 8 in
  match r with
  | Err InconsistentMemoryMap => ∀ e, e ∈ es → validate e = None
  | Err ImpliedAddressSpaceTooLarge => ∃ e en, e ∈ es ∧ validate e = Some en ∧ 2 ^ 41 < en
  | Err NoSuitableBitmapRegion => ∀ e, e ∈ es → ¬ hosts bytes e
  | Ok fa =>
    wf fa ∧ total_frames fa * FRAME_SIZE = highest_end es ∧ next_hint fa = 0 ∧
    (∃ e, e ∈ es ∧ hosts bytes e ∧ bitmap_ptr fa = PhysAddr.as_u64 (physical_start e)) ∧
    Z.of_nat (length (bitmap fa)) = bytes ∧
    ∀ f, f ∈ free_frames fa ↔ (∃ e, e ∈ es ∧ conventional e ∧ in_entry e f) ∧ ¬ bitmap_frame fa f
  end.

Section init_lemmas.
Context {P : BuildProfile}.

Lemma filled_slice_ok rd p bytes :
  p ≠ 0 → (∀ i, p ≤ i < p + bytes → is_Some (rd i)) →
  filled_slice rd p bytes = Ret (replicate (Z.to_nat bytes) 0xFF).
Proof.
  intros Hp Hrd. unfold filled_slice. destruct (Z.eqb_spec p 0); [done|]. cbn.
  replace (forallb _ _) with true; [done|]. symmetry. apply forallb_forall.
  intros a Ha%list_elem_of_In%elem_of_seqZ. apply bool_decide_eq_true. by apply Hrd.
Qed.

Lemma highest_end_frames es :
  Forall entry_ok es → highest_end es ≠ 0 →
  ∃ e, e ∈ es ∧ validate e = Some (highest_end es) ∧
       highest_end es = highest_end es / FRAME_SIZE * FRAME_SIZE ∧ 1 ≤ highest_end es / FRAME_SIZE.
Proof.
  intros Hok Hne. destruct (highest_end_cases es) as [[? _]|(e & He & Hv)]; [done|].
  assert (Heok : entry_ok e) by (by apply (Forall_elem _ es)).
  pose proof (validate_Some _ _ Heok Hv) as (_ & Hen & ? & ? & _).
  exists e. split_and!; [done..| |]; rewrite Hen, Z.div_mul by done; lia.
Qed.

Lemma highest_end_none es : Forall entry_ok es → highest_end es = 0 → ∀ e, e ∈ es → validate e = None.
Proof.
  intros Hok H0 e He. destruct (validate e) as [en|] eqn:Hv; [|done].
  pose proof (validate_Some _ _ (Forall_elem _ _ _ Hok He) Hv). pose proof (highest_end_ge es e en He Hv).
  unfold FRAME_SIZE in *. lia.
Qed.

(** The same without the last promise: some conventional memory may start at
    physical address 0. *)
Record map_ok (rd : Z → option Z) (bi : BootInfo) (es : list MemoryMapEntry) : Prop := {
  mo_bytes : ∀ i b, rd i = Some b → 0 ≤ b < 256;
  mo_sized : map_sized bi;
  mo_count : memory_map_entry_count bi < 2 ^ 64;
  mo_stride : 32 ≤ memory_map_descriptor_size bi;
  mo_reads : reads_as rd bi es;
  mo_buffer : ∀ e en i, e ∈ es → typ e = EFI_CONVENTIONAL_MEMORY → validate e = Some en →
    PhysAddr.as_u64 (physical_start e) ≤ i < en →
    ¬ (memory_map_phys_addr bi ≤ i < memory_map_phys_addr bi + memory_map_size_bytes bi);
  mo_backed : ∀ e en i, e ∈ es → typ e = EFI_CONVENTIONAL_MEMORY → validate e = Some en →
    PhysAddr.as_u64 (physical_start e) ≤ i < en → i < IDENTITY_MAP_LIMIT → is_Some (rd i);
}.
Lemma handoff_map_ok rd bi es : handoff_ok rd bi es → map_ok rd bi es.
Proof. by intros []. Qed.

(** The bytes the bitmap takes, and whether the first region that can hold
    them starts at address 0. *)
Definition bitmap_size es : Z := div_ceil (highest_end es / FRAME_SIZE) 8.
Definition null_host es : Prop :=
  bitmap_size es ≤ MAX_BITMAP_BYTES ∧
  ∃ k e, es !! k = Some e ∧ hosts (bitmap_size es) e ∧ PhysAddr.as_u64 (physical_start e) = 0 ∧
         ∀ e', e' ∈ take k es → ¬ hosts (bitmap_size es) e'.

(** From the placement of the bitmap on. *)
Lemma place_bitmap_ok rd bi es e :
  map_ok rd bi es → highest_end es ≠ 0 → bitmap_size es ≤ MAX_BITMAP_BYTES → e ∈ es → hosts (bitmap_size es) e →
  PhysAddr.as_u64 (physical_start e) ≠ 0 →
  ∃ fa, (bm ← filled_slice rd (PhysAddr.as_u64 (physical_start e)) (bitmap_size es);
         a ← for_each_entry (through_bitmap rd) pass3 bi (mkFrameAllocator (PhysAddr.as_u64 (physical_start e)) bm
               (highest_end es / FRAME_SIZE) 0 0);
         a ← reserve_bitmap a (PhysAddr.as_u64 (physical_start e)) (bitmap_size es); Ret (Ok a)) = Ret (Ok (E := InitError) fa) ∧
    init_post es (Ok fa).
Proof.
  intros [Hby Hsz Hcnt Hst Hrd Hbuf Hback] H0 Hmax He Hh Hp0. unfold bitmap_size in *.
  pose proof (reads_as_entry_ok _ _ _ Hby Hrd) as Hok.
  destruct (highest_end_frames es Hok H0) as (emax & Hemax & Hvmax & Hhi & Htot).
  set (total := highest_end es / FRAME_SIZE) in *. set (bytes := div_ceil total 8) in *.
  pose proof (div_ceil_spec total 8 ltac:(lia)) as Hbytes. fold bytes in Hbytes.
  pose proof Hh as (Ht & en & Hv & Hlim & Hfit).
  pose proof (validate_Some _ _ (Forall_elem _ es _ Hok He) Hv) as (Hpst & Hen & Hfn0 & ? & _).
  set (p := PhysAddr.as_u64 (physical_start e)) in *.
  rewrite filled_slice_ok; [|done|intros i Hi; apply (Hback e en i); [done..| |]; fold p; lia]. cbn [mbind outcome_bind].
  destruct (fresh_wf p total) as [Hwf0 Hno0]; [unfold MAX_BITMAP_BYTES in *; lia|]. fold bytes in Hwf0, Hno0.
  destruct (pass3_ok rd bi es Hsz Hcnt Hrd Hok _ Hst Hwf0 Hhi Hno0) as (fa & -> & Hwf & (Ht1 & Hp1 & Hh1 & Hl1) & Hfree).
  { cbn. rewrite length_replicate. intros i Hi1 Hi2. eapply (Hbuf e en i); try done. lia. }
  cbn [mbind outcome_bind]. cbn in Ht1, Hp1, Hh1, Hl1.
  destruct (reserve_bitmap_ok fa p bytes) as (fa' & -> & Hwf' & (Ht2 & Hp2 & Hh2 & Hl2) & Hfree');
    [done|unfold p, FRAME_SIZE in *; lia|lia|lia|].
  cbn [mbind outcome_bind]. eexists. split; [done|]. cbn [init_post].
  rewrite length_replicate in Hl1. assert (Hl : Z.of_nat (length (bitmap fa')) = bytes) by lia.
  split_and!; [done|rewrite Ht2, Ht1; lia|congruence| |done|].
  - exists e. split_and!; [done..|]. by rewrite Hp2, Hp1.
  - intros f. rewrite Hfree', Hfree. unfold bitmap_frame. by rewrite Hl, Hp2, Hp1.
Qed.

(** The first region is the only first region. *)
Lemma first_host_unique bytes es k e k' e' :
  es !! k = Some e → hosts bytes e → (∀ x, x ∈ take k es → ¬ hosts bytes x) →
  es !! k' = Some e' → hosts bytes e' → (∀ x, x ∈ take k' es → ¬ hosts bytes x) → e' = e.
Proof.
  intros Hk Hh Hno Hk' Hh' Hno'. destruct (decide (k < k')%nat) as [Hlt|].
  { destruct (Hno' e); [|done]. apply (list_elem_of_lookup_2 _ k). by rewrite lookup_take_lt. }
  destruct (decide (k' < k)%nat) as [Hlt|]; [|assert (k = k') as <- by lia; congruence].
  destruct (Hno e'); [|done]. apply (list_elem_of_lookup_2 _ k'). by rewrite lookup_take_lt.
Qed.

Lemma init_cases rd bi es :
  map_ok rd bi es →
  (null_host es ∧ init rd bi = Undef) ∨ (¬ null_host es ∧ ∃ r, init rd bi = Ret r ∧ init_post es r).
Proof.
  intros Hmo. pose proof Hmo as [Hby Hsz Hcnt Hst Hrd Hbuf Hback].
  pose proof (reads_as_entry_ok _ _ _ Hby Hrd) as Hok. unfold init.
  assert (Hclaim : u64 (memory_map_entry_count bi * memory_map_descriptor_size bi)).
  { destruct Hsz as (? & ? & ?). unfold u64. nia. }
  rewrite (proj2 (checked_mul_Some _ _ _) (conj eq_refl Hclaim)).
  destruct (Z.ltb_spec (memory_map_size_bytes bi)
    (memory_map_entry_count bi * memory_map_descriptor_size bi)); [destruct Hsz; lia|].
  rewrite (pass1_ok rd bi es) by done. cbn [mbind outcome_bind].
  destruct (Z.eqb_spec (highest_end es) 0) as [H0|H0].
  { right. pose proof (highest_end_none es Hok H0) as Hnone. split; [|by eexists].
    intros (_ & k & e & Hk & (_ & en & Hv & _) & _). rewrite (Hnone e) in Hv; [done|]. by apply (list_elem_of_lookup_2 _ k). }
  fold (bitmap_size es). destruct (highest_end_frames es Hok H0) as (emax & Hemax & Hvmax & Hhi & Htot).
  pose proof (div_ceil_spec (highest_end es / FRAME_SIZE) 8 ltac:(lia)) as Hbytes. fold (bitmap_size es) in Hbytes.
  destruct (Z.eqb_spec (bitmap_size es) 0); [lia|].
  destruct (Z.ltb_spec MAX_BITMAP_BYTES (bitmap_size es)) as [Hmax|Hmax]; cbn [orb].
  { right. split; [intros [? _]; lia|]. eexists. split; [done|]. exists emax, (highest_end es).
    unfold MAX_BITMAP_BYTES, FRAME_SIZE in *. split_and!; [done..|lia]. }
  destruct (pass2_ok rd bi es Hsz Hcnt Hrd Hok (bitmap_size es) ltac:(lia)) as (found & -> & Hf). cbn [mbind outcome_bind].
  destruct found as [p|].
  2: { right. split; [|by eexists]. intros (_ & k & e & Hk & Hh & _). apply (Hf e); [by apply (list_elem_of_lookup_2 _ k)|done]. }
  destruct Hf as (k & e & Hk & Hh & -> & Hfirst). destruct (decide (PhysAddr.as_u64 (physical_start e) = 0)) as [Hz|Hz].
  - left. split; [|unfold filled_slice; by rewrite Hz]. split; [done|]. by exists k, e.
  - right. split.
    + intros (_ & k' & e' & Hk' & Hh' & Hz' & Hf'). by rewrite (first_host_unique _ _ _ _ _ _ Hk Hh Hfirst Hk' Hh' Hf') in Hz'.
    + destruct (place_bitmap_ok rd bi es e Hmo H0 Hmax (list_elem_of_lookup_2 _ _ _ Hk) Hh Hz) as (fa & Hrun & Hpost).
      exists (Ok fa). split; [exact Hrun|exact Hpost].
Qed.

Lemma frame_init_ok rd bi es :
  handoff_ok rd bi es → ∃ r, init rd bi = Ret r ∧ init_post es r.
Proof.
  intros Hh. destruct (init_cases rd bi es (handoff_map_ok _ _ _ Hh)) as [[(_ & k & e & Hk & Hho & Hz & _) _]|[_ ?]]; [|done].
  destruct (ho_nonnull _ _ _ Hh e); [by apply (list_elem_of_lookup_2 _ k)| |done].
  destruct Hho as (? & en & ? & _). by split; [|eexists].
Qed.

End init_lemmas.

(** * Properties *)

(** Frames outside the free set and not held by the client are never handed
    out, whatever the client does with the frames it holds. *)
Lemma spec_steps_reserved total F os ans F' (B : Z → Prop) L :
  spec_steps total F os ans F' → (∀ f, B f → f ∉ F ∧ f ∉ L) → client_ok L os ans →
  Forall (λ a, match a with Frame (Some p) => ¬ B (frame_number p) | _ => True end) ans.
Proof.
  intros Hs. revert L. induction Hs as [|F F1 F2 o a os ans Hstep Hs IH]; intros L HB Hc; [done|].
  destruct Hc as [Hc1 Hc2].
  assert (Hinv : (∀ f, B f → f ∉ F1 ∧ f ∉ live_after L o a) ∧
                 match a with Frame (Some p) => ¬ B (frame_number p) | _ => True end).
  { inversion Hstep; subst; cbn in *; rewrite ?frame_number_new;
      (split; [intros g Hg; destruct (HB g Hg)|]); set_solver. }
  constructor; [apply Hinv|]. eapply IH; [apply Hinv|done].
Qed.

(** C10: [init] is correct on every handoff: it returns (no panic, no access
    outside memory); it fails only for the reason its error names; and on
    success the free frames are exactly the frames of the validated
    conventional regions minus the frames under the bitmap itself, the
    bitmap lies in a conventional region that ends below the identity-map
    limit, and the allocator invariant (counter included) holds. *)
Theorem init_correct {P : BuildProfile} rd bi es :
  handoff_ok rd bi es → ∃ r, init rd bi = Ret r ∧ init_post es r.
Proof. apply frame_init_ok. Qed.

(** A map whose declared size cannot hold the entries it claims, or whose
    claimed size overflows, is rejected before any descriptor is read. *)
Theorem init_rejects_inconsistent_size {P : BuildProfile} rd bi :
  u64 (memory_map_entry_count bi) → u64 (memory_map_descriptor_size bi) →
  memory_map_size_bytes bi < memory_map_entry_count bi * memory_map_descriptor_size bi →
  init rd bi = Ret (Err InconsistentMemoryMap).
Proof.
  intros Hc Hd Hlt. unfold init.
  destruct (checked_mul _ _) as [c|] eqn:Hm; [|done].
  apply checked_mul_Some in Hm as [-> _].
  destruct (Z.ltb_spec (memory_map_size_bytes bi)
    (memory_map_entry_count bi * memory_map_descriptor_size bi)); [done|lia].
Qed.

(** C23: the allocator never hands out its own bookkeeping: after a successful
    [init], for every sequence of requests in which the client frees only
    what it holds, no returned frame contains a byte of the bitmap. *)
Theorem bitmap_never_handed_out {P : BuildProfile} rd bi es fa os :
  handoff_ok rd bi es → init rd bi = Ret (Ok fa) → Forall op_valid os →
  ∃ ans fa', exec_all fa os = Ret (ans, fa') ∧
    (client_ok ∅ os ans →
     ∀ a i, Frame (Some a) ∈ ans →
       bitmap_ptr fa ≤ i < bitmap_ptr fa + Z.of_nat (length (bitmap fa)) →
       frame_number a ≠ i / FRAME_SIZE).
Proof.
  intros Hh Hi Hv. destruct (frame_init_ok rd bi es Hh) as (r & Hr & Hpost).
  rewrite Hi in Hr. simplify_eq. cbn in Hpost. destruct Hpost as (Hwf & _ & _ & (e & He & (_ & en & Hen & _) & Hp) & _ & Hfree).
  destruct (exec_all_ok fa os Hwf Hv) as (ans & fa' & Hrun & _ & _ & _ & Hspec).
  exists ans, fa'. split; [done|]. intros Hc a i Ha Hbyte Heq.
  pose proof (spec_steps_reserved _ _ _ _ _ (bitmap_frame fa) ∅ Hspec) as Hres.
  assert (Hal : bitmap_ptr fa mod FRAME_SIZE = 0).
  { pose proof (reads_as_entry_ok _ _ _ (ho_bytes _ _ _ Hh) (ho_reads _ _ _ Hh)) as Hok.
    pose proof (validate_Some e en (Forall_elem _ _ _ Hok He) Hen) as (Hst & _).
    rewrite Hp, Hst. by apply Z.mod_mul. }
  specialize (Hres ltac:(intros f Hf; rewrite Hfree; set_solver) Hc).
  apply (Forall_elem _ _ _ Hres) in Ha. apply Ha. rewrite Heq. unfold bitmap_frame.
  pose proof (div_ceil_spec (Z.of_nat (length (bitmap fa))) FRAME_SIZE ltac:(done)).
  unfold FRAME_SIZE in *. dlia.
Qed.


(** C27: when [init] has undefined behaviour.  On every sound memory map it
    returns as specified, except in one case, and then it always is undefined:
    the first conventional region below 4 GiB that can hold the bitmap starts
    at physical address 0, and the slice is made from a null pointer. *)
Theorem init_undefined_iff_null {P : BuildProfile} rd bi es :
  map_ok rd bi es →
  (init rd bi = Undef ↔ null_host es) ∧ (¬ null_host es → ∃ r, init rd bi = Ret r ∧ init_post es r).
Proof.
  intros Hmo. destruct (init_cases rd bi es Hmo) as [[Hn ->]|[Hn (r & -> & Hpost)]]; split; try done.
  intros _. by exists r.
Qed.

(** ** A small machine: six pages of conventional memory, then the page with
    the map in it *)
Definition descriptor (t start pages : Z) : list Z :=
  le_bytes 8 t ++ le_bytes 8 start ++ le_bytes 8 0 ++ le_bytes 8 pages ++ le_bytes 8 15 ++ le_bytes 8 0.
Definition demo_buffer (start : Z) : list Z := descriptor 7 start 6 ++ descriptor 2 0x8000 1.
Definition demo_rd (start : Z) (a : Z) : option Z :=
  if (start <=? a) && (a <? start + 0x6000) then Some 0
  else if (0x8000 <=? a) && (a <? 0x8060) then demo_buffer start !! Z.to_nat (a - 0x8000) else None.
Definition demo_boot_info : BootInfo :=
  mkBootInfo BOOTINFO_MAGIC 1 size_of_BootInfo 0x8000 96 48 1 2 0 0 0 0 0.
Definition demo_map_entries (start : Z) : list MemoryMapEntry :=
  [mkMemoryMapEntry 7 (PhysAddr.new start) 6; mkMemoryMapEntry 2 (PhysAddr.new 0x8000) 1].

Lemma demo_conventional e :
  e ∈ demo_map_entries 0x2000 → typ e = EFI_CONVENTIONAL_MEMORY →
  e = mkMemoryMapEntry 7 (PhysAddr.new 0x2000) 6.
Proof.
  intros [->|[->|He%elem_of_nil]%elem_of_cons]%elem_of_cons Ht; [done|discriminate Ht|done].
Qed.
Lemma demo_bytes i b : demo_rd 0x2000 i = Some b → 0 ≤ b < 256.
Proof.
  unfold demo_rd. destruct (_ && _); [intros [= <-]; lia|]. destruct (_ && _); [|done].
  assert (Hall : Forall (λ b, 0 ≤ b < 256) (demo_buffer 0x2000))
    by (vm_compute; repeat (constructor; [split; [discriminate|reflexivity]|]); constructor).
  intros Hl. exact (proj1 (Forall_lookup _ _) Hall _ _ Hl).
Qed.
Lemma demo_handoff : handoff_ok (demo_rd 0x2000) demo_boot_info (demo_map_entries 0x2000).
Proof.
  split.
  - exact demo_bytes.
  - unfold map_sized. cbn. lia.
  - cbn. lia.
  - cbn. lia.
  - split; [reflexivity|]. intros [|[|k]] Hk; [vm_compute; reflexivity..|cbn in Hk; lia].
  - intros e en i He Ht%demo_conventional Hv Hi; [|done]. subst e. vm_compute in Hv. injection Hv as <-.
    cbn in *. lia.
  - intros e en i He Ht%demo_conventional Hv Hi _; [|done]. subst e. vm_compute in Hv. injection Hv as <-.
    cbn in Hi. unfold demo_rd.
    destruct (Z.leb_spec 0x2000 i), (Z.ltb_spec i (0x2000 + 0x6000)); try lia. by eexists.
  - intros e He [Ht _]. apply demo_conventional in Ht; [|done]. subst e. discriminate.
Qed.
Definition demo_allocator_init : FrameAllocator := mkFrameAllocator 0x2000 [7; 255] 9 5 0.
Lemma demo_init : init (P := release_profile) (demo_rd 0x2000) demo_boot_info = Ret (Ok demo_allocator_init).
Proof. vm_compute. reflexivity. Qed.

Lemma init_correct_witness :
  ∃ r, init (P := release_profile) (demo_rd 0x2000) demo_boot_info = Ret r ∧ init_post (demo_map_entries 0x2000) r.
Proof. exact (init_correct (P := release_profile) _ _ _ demo_handoff). Defined.

Lemma init_rejects_inconsistent_size_witness :
  init (P := release_profile) (demo_rd 0x2000)
    (mkBootInfo BOOTINFO_MAGIC 1 size_of_BootInfo 0x8000 95 48 1 2 0 0 0 0 0) = Ret (Err InconsistentMemoryMap).
Proof. apply init_rejects_inconsistent_size; unfold u64; cbn; lia. Defined.

Lemma demo_requests_valid : Forall op_valid [OpAllocate; OpAllocateBelow (PhysAddr.new 0x100000000)].
Proof. repeat constructor. Qed.
Lemma bitmap_never_handed_out_witness :
  ∃ ans fa', exec_all (P := release_profile) demo_allocator_init
    [OpAllocate; OpAllocateBelow (PhysAddr.new 0x100000000)] = Ret (ans, fa').
Proof.
  destruct (bitmap_never_handed_out (P := release_profile) _ _ _ _ _ demo_handoff demo_init demo_requests_valid)
    as (ans & fa' & Hrun & _).
  exists ans, fa'. exact Hrun.
Defined.


(** The same machine with its memory at address 0. *)
Lemma null_demo_conventional e :
  e ∈ demo_map_entries 0 → typ e = EFI_CONVENTIONAL_MEMORY → e = mkMemoryMapEntry 7 (PhysAddr.new 0) 6.
Proof.
  intros [->|[->|He%elem_of_nil]%elem_of_cons]%elem_of_cons Ht; [done|discriminate Ht|done].
Qed.
Lemma null_demo_map_ok : map_ok (demo_rd 0) demo_boot_info (demo_map_entries 0).
Proof.
  split.
  - intros i b. unfold demo_rd. destruct (_ && _); [intros [= <-]; lia|]. destruct (_ && _); [|done].
    assert (Hall : Forall (λ b, 0 ≤ b < 256) (demo_buffer 0))
      by (vm_compute; repeat (constructor; [split; [discriminate|reflexivity]|]); constructor).
    intros Hl. exact (proj1 (Forall_lookup _ _) Hall _ _ Hl).
  - unfold map_sized. cbn. lia.
  - cbn. lia.
  - cbn. lia.
  - split; [reflexivity|]. intros [|[|k]] Hk; [vm_compute; reflexivity..|cbn in Hk; lia].
  - intros e en i He Ht%null_demo_conventional Hv Hi; [|done]. subst e. vm_compute in Hv. injection Hv as <-. cbn in *. lia.
  - intros e en i He Ht%null_demo_conventional Hv Hi _; [|done]. subst e. vm_compute in Hv. injection Hv as <-.
    cbn in Hi. unfold demo_rd. destruct (Z.leb_spec 0 i), (Z.ltb_spec i (0 + 0x6000)); try lia. by eexists.
Qed.
Lemma null_demo_hosts : null_host (demo_map_entries 0).
Proof.
  split; [vm_compute; discriminate|]. exists 0%nat, (mkMemoryMapEntry 7 (PhysAddr.new 0) 6).
  split; [reflexivity|]. split; [|split; [reflexivity|intros e' He; by apply elem_of_nil in He]].
  split; [reflexivity|]. exists 0x6000. split; [vm_compute; reflexivity|]. split; vm_compute; discriminate.
Qed.
Lemma init_undefined_iff_null_witness : init (P := release_profile) (demo_rd 0) demo_boot_info = Undef.
Proof.
  exact (proj2 (proj1 (init_undefined_iff_null (P := release_profile) _ _ _ null_demo_map_ok)) null_demo_hosts).
Defined.
