(* ===== verification/FrameSource.v ===== *)
(** What the frame allocator promises to its clients.

    The virtual memory manager and the heap use the allocator only through
    this interface: three operations, the set of free frames, and the laws
    that relate them.  [FrameAllocator] is shown to provide it. *)
From stdpp Require Import base numbers option gmap list_numbers list.
From S2P Require Import Prelude PhysAddr FrameAllocator.

Class FrameSource {P : BuildProfile} (A : Type) : Type := {
  fs_wf : A → Prop;
  fs_total : A → Z;
  fs_free : A → gset Z;
  fs_allocate : A → outcome (option PhysAddr * A);
  fs_allocate_below : A → PhysAddr → outcome (option PhysAddr * A);
  fs_deallocate : A → PhysAddr → outcome (result unit DeallocError * A);

  fs_free_range a f : fs_wf a → f ∈ fs_free a → 0 ≤ f < fs_total a ∧ fs_total a ≤ 2 ^ 52;
  fs_allocate_law a : fs_wf a →
    ∃ r a', fs_allocate a = Ret (r, a') ∧ fs_wf a' ∧ fs_total a' = fs_total a ∧
      match r with
      | Some p => ∃ f, p = PhysAddr.new (f * FRAME_SIZE) ∧ f ∈ fs_free a ∧
                       fs_free a' = fs_free a ∖ {[f]}
      | None => a' = a ∧ fs_free a = ∅
      end;
  fs_allocate_below_law a limit : fs_wf a →
    ∃ r a', fs_allocate_below a limit = Ret (r, a') ∧ fs_wf a' ∧ fs_total a' = fs_total a ∧
      match r with
      | Some p => ∃ f, p = PhysAddr.new (f * FRAME_SIZE) ∧ f < frame_number limit ∧
                       f ∈ fs_free a ∧ fs_free a' = fs_free a ∖ {[f]}
      | None => a' = a ∧ ∀ f, f ∈ fs_free a → frame_number limit ≤ f
      end;
  fs_deallocate_law a p : fs_wf a → PhysAddr.valid p →
    ∃ r a', fs_deallocate a p = Ret (r, a') ∧ fs_wf a' ∧ fs_total a' = fs_total a ∧
      match r with
      | Ok _ => frame_number p < fs_total a ∧ frame_number p ∉ fs_free a ∧
                fs_free a' = {[frame_number p]} ∪ fs_free a
      | Err OutOfRange => a' = a ∧ fs_total a ≤ frame_number p
      | Err DoubleFree => a' = a ∧ frame_number p ∈ fs_free a
      end;
}.

(** The bitmap allocator is a frame source. *)
#[global] Program Instance FrameAllocator_source {P : BuildProfile} : FrameSource FrameAllocator := {|
  fs_wf := wf;
  fs_total := total_frames;
  fs_free := free_frames;
  fs_allocate := allocate;
  fs_allocate_below := allocate_below;
  fs_deallocate := deallocate;
|}.
Next Obligation.
  intros P a f Hwf [Hf _]%elem_of_free_frames. pose proof (wf_total _ Hwf). lia.
Qed.
Next Obligation.
  intros P a Hwf. destruct (allocate_ok a Hwf) as (r & a' & Hr & Hw & Ht & _ & Hpost).
  exists r, a'. split_and!; [done..|]. destruct r as [p|]; [|done].
  destruct Hpost as (k & _ & Hp & Hin & Hff & _). eauto.
Qed.
Next Obligation.
  intros P a limit Hwf. destruct (allocate_below_ok a limit Hwf) as (r & a' & Hr & Hw & Ht & _ & _ & Hpost).
  exists r, a'. split_and!; [done..|]. destruct r as [p|]; [|done].
  destruct Hpost as (f & Hp & Hlt & Hin & Hff & _). eauto.
Qed.
Next Obligation.
  intros P a p Hwf Hv. destruct (deallocate_ok a p Hwf Hv) as (r & a' & Hr & Hw & Ht & _ & _ & Hpost).
  exists r, a'. by split_and!.
Qed.
