(* ===== verification/Vmm.v ===== *)
(** The virtual memory manager: [kernel/src/mm/vmm.rs].

    Page tables live in physical memory and are reached through the
    identity map: a table's physical address below [IDENTITY_MAP_LIMIT] is
    its pointer.  The processor state the code touches is CR3, the EFER MSR
    and the TLB (cached translations by page number). *)
From stdpp Require Import base numbers option gmap list_numbers list.
From S2P Require Import Prelude PhysAddr VirtAddr PageTableEntry Memory FrameAllocator FrameSource.
Local Open Scope kernel_scope.

Definition EFER_NXE_BIT : Z := Z.shiftl 1 11.
Definition FLAG_PAGE_SIZE : Z := Z.shiftl 1 7.

Inductive MapError : Type :=
| NotPageAligned
| AlreadyMapped
| OutOfFrames
| PageTableUnreachable
| WouldOverlapHugePage.

Inductive UnmapError : Type :=
| UnmapNotPageAligned
| NotMapped
| UnmapPageTableUnreachable
| IsHugePage.

#[global] Instance MapError_eq_dec : EqDecision MapError.
Proof. solve_decision. Defined.
#[global] Instance UnmapError_eq_dec : EqDecision UnmapError.
Proof. solve_decision. Defined.

Record machine (A : Type) : Type := mkMachine {
  m_mem : mem;
  m_fa : A;
  m_tlb : gmap Z Z;
  m_efer : Z;
  m_cr3 : Z;
}.
Arguments mkMachine {A} _ _ _ _ _.
Arguments m_mem {A} _.
Arguments m_fa {A} _.
Arguments m_tlb {A} _.
Arguments m_efer {A} _.
Arguments m_cr3 {A} _.

Definition set_mem {A} (s : machine A) (m : mem) : machine A :=
  mkMachine m (m_fa s) (m_tlb s) (m_efer s) (m_cr3 s).
Definition set_fa {A} (s : machine A) (a : A) : machine A :=
  mkMachine (m_mem s) a (m_tlb s) (m_efer s) (m_cr3 s).
Definition set_tlb {A} (s : machine A) (t : gmap Z Z) : machine A :=
  mkMachine (m_mem s) (m_fa s) t (m_efer s) (m_cr3 s).
Definition set_efer {A} (s : machine A) (v : Z) : machine A :=
  mkMachine (m_mem s) (m_fa s) (m_tlb s) v (m_cr3 s).

(** [map_err(|_| e)] on the unit error of [checked_table_ptr]. *)
Definition or_err {A E} (r : result A unit) (e : E) : result A E :=
  match r with Ok a => Ok a | Err _ => Err e end.

Definition checked_table_ptr (phys : PhysAddr) : result Z unit :=
  if IDENTITY_MAP_LIMIT <=? PhysAddr.as_u64 phys then Err tt else Ok (PhysAddr.as_u64 phys).

Definition read_entry (m : mem) (ptr idx : Z) : outcome PageTableEntry :=
  v ← read_volatile_u64 m (ptr + 8 * idx); Ret (mkEntry v).
Definition write_entry (m : mem) (ptr idx : Z) (e : PageTableEntry) : outcome mem :=
  write_volatile_u64 m (ptr + 8 * idx) (entry_0 e).
Definition zero_table (m : mem) (ptr : Z) : outcome mem :=
  for_range 512 0 (λ i m, m ← write_volatile_u64 m (ptr + 8 * i) 0; Ret (m, false)) m.

Definition read_cr3 {A} (s : machine A) : Z := m_cr3 s.
(** [invlpg]: drop the cached translation of the page. *)
Definition invlpg {A} (addr : Z) (s : machine A) : machine A :=
  set_tlb s (delete (VirtAddr.page (VirtAddr.new addr)) (m_tlb s)).

(** [rdmsr]/[wrmsr] move the MSR through two 32-bit halves. *)
Definition read_efer {A} (s : machine A) : Z :=
  let low := m_efer s mod 2 ^ 32 in
  let high := (m_efer s / 2 ^ 32) mod 2 ^ 32 in
  Z.lor (Z.shiftl high 32) low.
Definition write_efer {A} (value : Z) (s : machine A) : machine A :=
  let low := value mod 2 ^ 32 in
  let high := Z.shiftr value 32 mod 2 ^ 32 in
  set_efer s (high * 2 ^ 32 + low).
Definition enable_nxe {A} (s : machine A) : machine A :=
  let current := read_efer s in
  if Z.land current EFER_NXE_BIT =? 0 then write_efer (Z.lor current EFER_NXE_BIT) s else s.

Record VirtualMemoryManager : Type := mkVmm { pml4_phys : PhysAddr }.

Definition init {A} (s : machine A) : VirtualMemoryManager * machine A :=
  let s := enable_nxe s in
  ({| pml4_phys := PhysAddr.new (read_cr3 s) |}, s).

Definition entry_is_huge_page (m : mem) (ptr idx : Z) : outcome bool :=
  e ← read_entry m ptr idx; Ret (raw_has_flag e FLAG_PAGE_SIZE).

Section operations.
Context {P : BuildProfile} {A : Type} {FS : FrameSource A}.

(** Accesses of the state-passing code. *)
Definition get_entry (ptr idx : Z) : M (machine A) PageTableEntry :=
  λ s, e ← read_entry (m_mem s) ptr idx; Ret (e, s).
Definition put_entry (ptr idx : Z) (e : PageTableEntry) : M (machine A) unit :=
  λ s, m ← write_entry (m_mem s) ptr idx e; Ret (tt, set_mem s m).
Definition clear_table (ptr : Z) : M (machine A) unit :=
  λ s, m ← zero_table (m_mem s) ptr; Ret (tt, set_mem s m).
Definition table_frame : M (machine A) (option PhysAddr) :=
  λ s, r ← fs_allocate_below (m_fa s) (PhysAddr.new IDENTITY_MAP_LIMIT);
       let '(p, a) := r : option PhysAddr * A in Ret (p, set_fa s a).
Definition flush (addr : Z) : M (machine A) unit := λ s, Ret (tt, invlpg addr s).

Definition get_or_create_table (table_phys : PhysAddr) (idx : Z) :
    M (machine A) (result PhysAddr MapError) :=
  ptr ←? mret (or_err (checked_table_ptr table_phys) PageTableUnreachable);
  entry ← get_entry ptr idx;
  if is_present entry then
    huge ← (λ s, h ← entry_is_huge_page (m_mem s) ptr idx; Ret (h, s)) : M (machine A) bool;
    if huge : bool then mret (Err WouldOverlapHugePage) else mret (Ok (addr entry))
  else
    o ← table_frame;
    match o with
    | None => mret (Err OutOfFrames)
    | Some new_table_phys =>
      new_table_ptr ←? mret (or_err (checked_table_ptr new_table_phys) PageTableUnreachable);
      _ ← clear_table new_table_ptr;
      _ ← put_entry ptr idx (new_table_pointer new_table_phys);
      mret (Ok new_table_phys)
    end.

Definition map (self : VirtualMemoryManager) (virt : VirtAddr) (phys : PhysAddr) (flags : PageFlags) :
    M (machine A) (result unit MapError) :=
  if negb (is_page_aligned virt) || negb (is_frame_aligned phys)
  then mret (Err NotPageAligned) else
  pdpt_phys ←? get_or_create_table (pml4_phys self) (pml4_index virt);
  pd_phys ←? get_or_create_table pdpt_phys (pdpt_index virt);
  pt_phys ←? get_or_create_table pd_phys (pd_index virt);
  pt_ptr ←? mret (or_err (checked_table_ptr pt_phys) PageTableUnreachable);
  existing ← get_entry pt_ptr (pt_index virt);
  if is_present existing then mret (Err AlreadyMapped) else
  _ ← put_entry pt_ptr (pt_index virt) (new_leaf phys flags);
  _ ← flush (VirtAddr.as_u64 virt);
  mret (Ok tt).

Definition unmap (self : VirtualMemoryManager) (virt : VirtAddr) :
    M (machine A) (result PhysAddr UnmapError) :=
  if negb (is_page_aligned virt) then mret (Err UnmapNotPageAligned) else
  pml4_ptr ←? mret (or_err (checked_table_ptr (pml4_phys self)) UnmapPageTableUnreachable);
  pml4e ← get_entry pml4_ptr (pml4_index virt);
  if negb (is_present pml4e) then mret (Err NotMapped) else
  pdpt_ptr ←? mret (or_err (checked_table_ptr (addr pml4e)) UnmapPageTableUnreachable);
  pdpte ← get_entry pdpt_ptr (pdpt_index virt);
  if negb (is_present pdpte) then mret (Err NotMapped) else
  if raw_has_flag pdpte FLAG_PAGE_SIZE then mret (Err IsHugePage) else
  pd_ptr ←? mret (or_err (checked_table_ptr (addr pdpte)) UnmapPageTableUnreachable);
  pde ← get_entry pd_ptr (pd_index virt);
  if negb (is_present pde) then mret (Err NotMapped) else
  if raw_has_flag pde FLAG_PAGE_SIZE then mret (Err IsHugePage) else
  pt_ptr ←? mret (or_err (checked_table_ptr (addr pde)) UnmapPageTableUnreachable);
  pte ← get_entry pt_ptr (pt_index virt);
  if negb (is_present pte) then mret (Err NotMapped) else
  let mapped_phys := addr pte in
  _ ← put_entry pt_ptr (pt_index virt) cleared;
  _ ← flush (VirtAddr.as_u64 virt);
  mret (Ok mapped_phys).

End operations.

(** [checked_table_ptr(..).ok()?] in the read-only walks. *)
Definition ok_table {B} (phys : PhysAddr) (k : Z → outcome (option B)) : outcome (option B) :=
  match checked_table_ptr phys with Err _ => Ret None | Ok p => k p end.

Definition translate (m : mem) (self : VirtualMemoryManager) (virt : VirtAddr) :
    outcome (option PhysAddr) :=
  ok_table (pml4_phys self) (λ pml4_ptr,
  pml4e ← read_entry m pml4_ptr (pml4_index virt);
  if negb (is_present pml4e) then Ret None else
  ok_table (addr pml4e) (λ pdpt_ptr,
  pdpte ← read_entry m pdpt_ptr (pdpt_index virt);
  if negb (is_present pdpte) then Ret None else
  if raw_has_flag pdpte FLAG_PAGE_SIZE then
    let base := Z.land (PhysAddr.as_u64 (addr pdpte)) (not_w 64 0x3FFFFFFF) in
    Ret (Some (PhysAddr.new (Z.lor base (Z.land (VirtAddr.as_u64 virt) 0x3FFFFFFF))))
  else
  ok_table (addr pdpte) (λ pd_ptr,
  pde ← read_entry m pd_ptr (pd_index virt);
  if negb (is_present pde) then Ret None else
  if raw_has_flag pde FLAG_PAGE_SIZE then
    let base := Z.land (PhysAddr.as_u64 (addr pde)) (not_w 64 0x1FFFFF) in
    Ret (Some (PhysAddr.new (Z.lor base (Z.land (VirtAddr.as_u64 virt) 0x1FFFFF))))
  else
  ok_table (addr pde) (λ pt_ptr,
  pte ← read_entry m pt_ptr (pt_index virt);
  if negb (is_present pte) then Ret None else
  Ret (Some (PhysAddr.new (Z.lor (PhysAddr.as_u64 (addr pte)) (page_offset virt)))))))).

Definition flags_at (m : mem) (self : VirtualMemoryManager) (virt : VirtAddr) :
    outcome (option PageFlags) :=
  ok_table (pml4_phys self) (λ pml4_ptr,
  pml4e ← read_entry m pml4_ptr (pml4_index virt);
  if negb (is_present pml4e) then Ret None else
  ok_table (addr pml4e) (λ pdpt_ptr,
  pdpte ← read_entry m pdpt_ptr (pdpt_index virt);
  if negb (is_present pdpte) || raw_has_flag pdpte FLAG_PAGE_SIZE then Ret None else
  ok_table (addr pdpte) (λ pd_ptr,
  pde ← read_entry m pd_ptr (pd_index virt);
  if negb (is_present pde) || raw_has_flag pde FLAG_PAGE_SIZE then Ret None else
  ok_table (addr pde) (λ pt_ptr,
  pte ← read_entry m pt_ptr (pt_index virt);
  if negb (is_present pte) then Ret None else
  Ret (Some {| writable := is_writable pte; no_execute := is_no_execute pte |}))))).
