(* ===== verification/PageWalk.v ===== *)
(** The page-table tree and what a walk through it finds.

    [table_at] follows table pointers along a path of indices, [walk] is the
    reference definition of address translation: what the four indices of an
    address lead to.  [tables_ok] is the invariant of the tree (every table is
    an existing, reserved, page-aligned frame below the identity-map limit,
    and no table is reached along two paths).  The lemmas say what linking a
    fresh table and writing a leaf entry do to every walk. *)
From stdpp Require Import base numbers option gmap list_numbers list.
From S2P Require Import Prelude PhysAddr VirtAddr PageTableEntry Memory FrameAllocator Vmm.

Definition ent (m : mem) (t i : Z) : PageTableEntry := mkEntry (word m (t + 8 * i)).
Definition is_huge (e : PageTableEntry) : bool := raw_has_flag e FLAG_PAGE_SIZE.
Definition next_table (m : mem) (t i : Z) : option Z :=
  if is_present (ent m t i) && negb (is_huge (ent m t i))
  then Some (PhysAddr.as_u64 (addr (ent m t i))) else None.

Fixpoint table_at (m : mem) (t : Z) (path : list Z) : option Z :=
  match path with
  | [] => Some t
  | i :: path => t' ← next_table m t i; table_at m t' path
  end.

(** What an address is mapped to: nothing, a 4 KiB leaf, or a huge page met
    with [left] index levels still to go. *)
Inductive mapping : Type :=
| Unmapped
| Leaf (e : PageTableEntry)
| Huge (left : nat) (e : PageTableEntry).

Fixpoint walk (m : mem) (t : Z) (ixs : list Z) : mapping :=
  match ixs with
  | [] => Unmapped
  | [i] => if is_present (ent m t i) then Leaf (ent m t i) else Unmapped
  | i :: rest =>
    if is_present (ent m t i) then
      if is_huge (ent m t i) then Huge (length rest) (ent m t i)
      else walk m (PhysAddr.as_u64 (addr (ent m t i))) rest
    else Unmapped
  end.

Definition indices (v : VirtAddr) : list Z :=
  [pml4_index v; pdpt_index v; pd_index v; pt_index v].

Definition idx_ok (i : Z) : Prop := 0 ≤ i < 512.
Definition path_ok (p : list Z) : Prop := (length p ≤ 3)%nat ∧ Forall idx_ok p.

Definition table_ok (m : mem) (free : gset Z) (t : Z) : Prop :=
  0 < t < IDENTITY_MAP_LIMIT ∧ t mod FRAME_SIZE = 0 ∧ mapped m t FRAME_SIZE ∧
  t / FRAME_SIZE ∉ free.

Record tables_ok (m : mem) (root : Z) (free : gset Z) : Prop := {
  to_table : ∀ p t, path_ok p → table_at m root p = Some t → table_ok m free t;
  to_tree : ∀ p q t, path_ok p → path_ok q →
    table_at m root p = Some t → table_at m root q = Some t → p = q;
  to_pml4 : ∀ i, idx_ok i → is_present (ent m root i) = true → is_huge (ent m root i) = false;
}.

(** ** Lemmas *)
Lemma walk_one m t i :
  walk m t [i] = if is_present (ent m t i) then Leaf (ent m t i) else Unmapped.
Proof. done. Qed.
Lemma walk_more m t i i' rest :
  walk m t (i :: i' :: rest) =
  if is_present (ent m t i) then
    if is_huge (ent m t i) then Huge (length (i' :: rest)) (ent m t i)
    else walk m (PhysAddr.as_u64 (addr (ent m t i))) (i' :: rest)
  else Unmapped.
Proof. done. Qed.

Lemma indices_ok v : Forall idx_ok (indices v).
Proof. pose proof (index_bounds v). unfold indices, idx_ok. repeat constructor; lia. Qed.

Lemma indices_eq v w : indices v = indices w ↔ VirtAddr.page v = VirtAddr.page w.
Proof. rewrite page_eq_indices. unfold indices. split; [intros [=]; tauto|intros (? & ? & ? & ?); congruence]. Qed.

Lemma table_at_app m t p q :
  table_at m t (p ++ q) = t' ← table_at m t p; table_at m t' q.
Proof.
  revert t. induction p as [|i p IH]; intros t; cbn; [done|].
  destruct (next_table m t i); cbn; [apply IH|done].
Qed.
Lemma table_at_snoc m t p i t' :
  table_at m t p = Some t' → table_at m t (p ++ [i]) = next_table m t' i.
Proof. intros Hp. rewrite table_at_app, Hp. cbn. by destruct (next_table m t' i). Qed.

Lemma path_ok_app p q : path_ok (p ++ q) → path_ok p.
Proof. unfold path_ok. rewrite length_app, Forall_app. intros [? [? _]]. split; [lia|done]. Qed.
Lemma path_ok_snoc p i : path_ok p → (length p ≤ 2)%nat → idx_ok i → path_ok (p ++ [i]).
Proof.
  unfold path_ok. rewrite length_app, Forall_app, Forall_singleton. cbn.
  intros [_ ?] ? ?. split_and!; [lia|done..].
Qed.

Lemma tables_ok_mono m root (free free' : gset Z) :
  free' ⊆ free → tables_ok m root free → tables_ok m root free'.
Proof.
  intros Hsub [H1 H2 H3]. split; [|done..]. intros p t Hp Ht.
  destruct (H1 p t Hp Ht) as (? & ? & ? & ?). split_and!; [lia..|done|done|set_solver].
Qed.

(** Slots of page-aligned tables: two different slots do not overlap. *)
Lemma slot_ok t i :
  0 < t → t mod FRAME_SIZE = 0 → idx_ok i → volatile_ok (t + 8 * i) = true.
Proof.
  unfold idx_ok, FRAME_SIZE. intros. apply volatile_ok_spec. split; [lia|dlia].
Qed.
Lemma slot_mapped m t i : mapped m t FRAME_SIZE → idx_ok i → mapped m (t + 8 * i) 8.
Proof. unfold idx_ok, mapped, FRAME_SIZE. intros H Hi j Hj. apply H. lia. Qed.

Lemma slots_disjoint t i t' i' j :
  t mod FRAME_SIZE = 0 → t' mod FRAME_SIZE = 0 → idx_ok i → idx_ok i' → (t, i) ≠ (t', i') →
  t + 8 * i ≤ j < t + 8 * i + 8 → ¬ (t' + 8 * i' ≤ j < t' + 8 * i' + 8).
Proof.
  unfold FRAME_SIZE, idx_ok. intros Ht Ht' Hi Hi' Hne Hj Hj'. apply Hne.
  assert (t = t') as -> by dlia. f_equal. lia.
Qed.

Lemma read_entry_ok m free t i :
  table_ok m free t → idx_ok i → read_entry m t i = Ret (ent m t i).
Proof.
  intros ((? & ?) & ? & ? & ?) Hi. unfold read_entry.
  rewrite read_volatile_ok; [done|by apply slot_ok|by apply slot_mapped].
Qed.

Lemma write_entry_ok m t i e :
  0 < t → t mod FRAME_SIZE = 0 → mapped m t FRAME_SIZE → idx_ok i → u64 (entry_0 e) →
  ∃ m', write_entry m t i e = Ret m' ∧ ent m' t i = e ∧
    (∀ j, ¬ (t + 8 * i ≤ j < t + 8 * i + 8) → m' !! j = m !! j) ∧
    (∀ j, is_Some (m' !! j) ↔ is_Some (m !! j)).
Proof.
  intros Ht Hal Hm Hi He. unfold write_entry.
  destruct (write_volatile_ok m (t + 8 * i) (entry_0 e)) as (m' & -> & Hw & Hf & Hd);
    [by apply slot_ok|by apply slot_mapped|done|].
  exists m'. split_and!; [done| |done|done]. unfold ent. rewrite Hw. by destruct e.
Qed.

(** Memory that differs from [m] only inside one slot, seen from any other. *)
Lemma ent_frame m m' t i t' i' :
  (∀ j, ¬ (t + 8 * i ≤ j < t + 8 * i + 8) → m' !! j = m !! j) →
  t mod FRAME_SIZE = 0 → t' mod FRAME_SIZE = 0 → idx_ok i → idx_ok i' → (t', i') ≠ (t, i) →
  ent m' t' i' = ent m t' i'.
Proof.
  intros Hf Ht Ht' Hi Hi' Hne. unfold ent. f_equal. apply word_ext. intros j Hj.
  apply Hf. by eapply slots_disjoint.
Qed.

(** Zeroing a whole table. *)
Lemma zero_table_ok m t :
  0 < t → t mod FRAME_SIZE = 0 → mapped m t FRAME_SIZE →
  ∃ m', zero_table m t = Ret m' ∧ (∀ i, idx_ok i → ent m' t i = cleared) ∧
    (∀ j, ¬ (t ≤ j < t + FRAME_SIZE) → m' !! j = m !! j) ∧
    (∀ j, is_Some (m' !! j) ↔ is_Some (m !! j)).
Proof.
  intros Ht Hal Hm. unfold zero_table.
  eapply (for_range_total (λ k m', (∀ i, 0 ≤ i < k → ent m' t i = cleared) ∧
    (∀ j, ¬ (t ≤ j < t + FRAME_SIZE) → m' !! j = m !! j) ∧
    (∀ j, is_Some (m' !! j) ↔ is_Some (m !! j)))).
  - split_and!; [lia|done..].
  - intros k m1 Hk (Hz & Hf & Hd).
    assert (Hik : idx_ok k) by (unfold idx_ok; lia).
    destruct (write_volatile_ok m1 (t + 8 * k) 0) as (m2 & -> & Hw & Hf2 & Hd2);
      [by apply slot_ok|apply slot_mapped; [by eapply mapped_dom|done]|done|].
    cbn. do 2 eexists. split; [done|]. split_and!.
    + intros i Hi. destruct (decide (i = k)) as [->|Hne]; [unfold ent; by rewrite Hw|].
      rewrite (ent_frame m1 m2 t k); [apply Hz; lia|done..|unfold idx_ok; lia|congruence].
    + intros j Hj. rewrite Hf2; [by apply Hf|]. unfold idx_ok, FRAME_SIZE in *. lia.
    + intros j. rewrite Hd2. apply Hd.
  - intros m' (Hz & Hf & Hd). split_and!; [|done..]. intros i Hi. apply Hz. unfold idx_ok in Hi. lia.
Qed.

(** Every walk from a table of zeros finds nothing. *)
Lemma walk_zero m t ixs :
  (∀ i, idx_ok i → ent m t i = cleared) → Forall idx_ok ixs → walk m t ixs = Unmapped.
Proof.
  intros Hz Hix. destruct Hix as [|i rest Hi Hrest]; [done|].
  destruct rest; by rewrite ?walk_one, ?walk_more, Hz.
Qed.
Lemma next_table_zero m t i :
  (∀ i, idx_ok i → ent m t i = cleared) → idx_ok i → next_table m t i = None.
Proof. intros Hz Hi. unfold next_table. by rewrite Hz. Qed.

(** * Linking a fresh table into an absent slot *)
Section link.
Context (m m' : mem) (root : Z) (free : gset Z) (p0 : list Z) (t0 i0 N : Z).
Hypothesis Hok : tables_ok m root free.
Hypothesis Hp0 : path_ok p0.
Hypothesis Hlen0 : (length p0 ≤ 2)%nat.
Hypothesis Ht0 : table_at m root p0 = Some t0.
Hypothesis Hi0 : idx_ok i0.
Hypothesis Habs : is_present (ent m t0 i0) = false.
Hypothesis HNr : 0 < N < IDENTITY_MAP_LIMIT.
Hypothesis HNal : N mod FRAME_SIZE = 0.
Hypothesis HNm : mapped m N FRAME_SIZE.
Hypothesis HNfree : N / FRAME_SIZE ∈ free.
Hypothesis Hlink : ent m' t0 i0 = new_table_pointer (PhysAddr.new N).
Hypothesis Hzero : ∀ i, idx_ok i → ent m' N i = cleared.
Hypothesis Hsame : ∀ t i, t mod FRAME_SIZE = 0 → idx_ok i → t ≠ N → (t, i) ≠ (t0, i0) →
  ent m' t i = ent m t i.
Hypothesis Hdom : ∀ j, is_Some (m' !! j) ↔ is_Some (m !! j).

Lemma old_table_not_new q t : path_ok q → table_at m root q = Some t → t ≠ N.
Proof.
  intros Hq Ht ->. destruct (to_table _ _ _ Hok q N Hq Ht) as (_ & _ & _ & Hn). done.
Qed.

Lemma link_next : next_table m' t0 i0 = Some N.
Proof.
  unfold next_table. rewrite Hlink, new_table_pointer_leaf, new_leaf_present.
  unfold is_huge, FLAG_PAGE_SIZE. rewrite new_leaf_not_huge. cbn [andb negb].
  rewrite new_leaf_addr; [done|by apply is_frame_aligned_spec|].
  unfold IDENTITY_MAP_LIMIT in HNr; cbn. lia.
Qed.

Lemma link_ent_same q t i :
  path_ok q → table_at m root q = Some t → idx_ok i → (q, i) ≠ (p0, i0) →
  ent m' t i = ent m t i.
Proof.
  intros Hq Ht Hi Hne. apply Hsame; [|done|by eapply old_table_not_new|].
  - by destruct (to_table _ _ _ Hok q t Hq Ht) as (_ & ? & _).
  - intros [= -> ->]. apply Hne. f_equal. by apply (to_tree _ _ _ Hok _ _ t0).
Qed.

(** Tables off the new branch stay where they were. *)
Lemma link_table_at_off q t p :
  table_at m root q = Some t → path_ok (q ++ p) → (∀ r, q ++ p ≠ p0 ++ i0 :: r) →
  table_at m' t p = table_at m t p.
Proof.
  revert q t. induction p as [|i p IH]; intros q t Hq Hok' Hoff; cbn; [done|].
  assert (Hqok : path_ok q) by (by eapply path_ok_app).
  assert (Hi : idx_ok i).
  { destruct Hok' as [_ Hf]. by apply Forall_app in Hf as [_ [? _]%Forall_cons]. }
  assert (He : ent m' t i = ent m t i).
  { apply (link_ent_same q); [done..|]. intros [= -> ->]. by apply (Hoff p). }
  unfold next_table. rewrite He. fold (next_table m t i).
  destruct (next_table m t i) as [t'|] eqn:Hn; cbn; [|done].
  apply (IH (q ++ [i])).
  - by rewrite (table_at_snoc _ _ _ _ _ Hq).
  - by rewrite <- app_assoc.
  - intros r. rewrite <- app_assoc. apply Hoff.
Qed.

Lemma link_table_at p t :
  path_ok p → table_at m' root p = Some t →
  (table_at m root p = Some t ∧ ∀ r, p ≠ p0 ++ i0 :: r) ∨ (p = p0 ++ [i0] ∧ t = N).
Proof.
  intros Hp Ht. destruct (decide (p0 ++ [i0] `prefix_of` p)) as [[r Hr]|Hnp].
  - right. rewrite Hr in *. rewrite <- app_assoc in Ht. rewrite table_at_app in Ht.
    rewrite (link_table_at_off [] root p0) in Ht; cycle 1.
    { done. } { done. }
    { intros r' Hr'. apply (f_equal length) in Hr'. rewrite !length_app in Hr'. cbn in Hr'. lia. }
    rewrite Ht0 in Ht. cbn in Ht. rewrite link_next in Ht. cbn in Ht.
    destruct r as [|j r]; cbn in Ht; [simplify_eq; by rewrite app_nil_r|].
    rewrite next_table_zero in Ht; [done|done|].
    destruct Hp as [_ Hf]. by apply Forall_app in Hf as [_ [? _]%Forall_cons].
  - left. assert (Hoff : ∀ r, p ≠ p0 ++ i0 :: r).
    { intros r ->. apply Hnp. exists r. by rewrite <- app_assoc. }
    split; [|done]. by rewrite <- (link_table_at_off [] root p).
Qed.

Lemma link_table_at_new : table_at m' root (p0 ++ [i0]) = Some N.
Proof.
  rewrite table_at_app, (link_table_at_off [] root p0); [|done..|].
  - rewrite Ht0. cbn. by rewrite link_next.
  - intros r Hr. apply (f_equal length) in Hr. rewrite !length_app in Hr. cbn in Hr. lia.
Qed.

(** The walk of every address is what it was. *)
Lemma link_walk q t ixs :
  table_at m root q = Some t → path_ok q → Forall idx_ok ixs →
  (length q + length ixs = 4)%nat → walk m' t ixs = walk m t ixs.
Proof.
  revert q t. induction ixs as [|i rest IH]; intros q t Hq Hqok Hix Hlen; [done|].
  apply Forall_cons in Hix as [Hi Hrest].
  destruct (decide ((q, i) = (p0, i0))) as [[= -> ->]|Hne].
  - assert (t = t0) as -> by congruence. destruct rest as [|i' rest]; [cbn in Hlen; lia|].
    rewrite !walk_more, Habs. pose proof link_next as Hn. unfold next_table in Hn.
    destruct (is_present (ent m' t0 i0)); [|done].
    destruct (is_huge (ent m' t0 i0)); [done|]. cbn [andb negb] in Hn. apply (inj Some) in Hn.
    rewrite Hn. by apply walk_zero.
  - assert (He : ent m' t i = ent m t i) by (by apply (link_ent_same q)).
    destruct rest as [|i' rest]; [by rewrite !walk_one, He|].
    rewrite !walk_more, He.
    destruct (is_present (ent m t i)) eqn:Hp; [|done].
    destruct (is_huge (ent m t i)) eqn:Hh; [done|].
    apply (IH (q ++ [i])).
    + rewrite (table_at_snoc _ _ _ _ _ Hq). unfold next_table. by rewrite Hp, Hh.
    + apply path_ok_snoc; [done| |done]. cbn in Hlen. lia.
    + done.
    + rewrite length_app. cbn in Hlen |- *. lia.
Qed.

Lemma link_tables_ok : tables_ok m' root (free ∖ {[N / FRAME_SIZE]}).
Proof.
  assert (Hnew : table_ok m' (free ∖ {[N / FRAME_SIZE]}) N).
  { split_and!; [lia..|done|by eapply mapped_dom|set_solver]. }
  split.
  - intros p t Hp Ht. destruct (link_table_at p t Hp Ht) as [[Hold _]|[_ ->]]; [|done].
    destruct (to_table _ _ _ Hok p t Hp Hold) as (? & ? & ? & ?).
    split_and!; [lia..|done|by eapply mapped_dom|set_solver].
  - intros p q t Hp Hq Hpt Hqt.
    destruct (link_table_at p t Hp Hpt) as [[Hop _]|[-> ->]], (link_table_at q _ Hq Hqt) as [[Hoq _]|[-> HN']].
    + by apply (to_tree _ _ _ Hok _ _ t).
    + subst t. by destruct (old_table_not_new p N).
    + by destruct (old_table_not_new q N).
    + done.
  - intros i Hi Hpres. destruct (decide (([], i) = (p0, i0))) as [[= <- ->]|Hne].
    + cbn in Ht0. injection Ht0 as <-. rewrite Hlink, new_table_pointer_leaf. unfold is_huge, FLAG_PAGE_SIZE.
      apply new_leaf_not_huge.
    + assert (He : ent m' root i = ent m root i) by (apply (link_ent_same []); [split; [cbn; lia|done]|done..]).
      rewrite He in *. by apply (to_pml4 _ _ _ Hok).
Qed.

End link.

(** * Writing a leaf slot of a page table *)
Section leaf.
Context (m m' : mem) (root : Z) (free : gset Z) (p0 : list Z) (t0 i0 : Z) (e0 : PageTableEntry).
Hypothesis Hok : tables_ok m root free.
Hypothesis Hp0 : path_ok p0.
Hypothesis Hlen0 : length p0 = 3%nat.
Hypothesis Ht0 : table_at m root p0 = Some t0.
Hypothesis Hi0 : idx_ok i0.
Hypothesis Hnew : ent m' t0 i0 = e0.
Hypothesis Hsame : ∀ t i, t mod FRAME_SIZE = 0 → idx_ok i → (t, i) ≠ (t0, i0) →
  ent m' t i = ent m t i.
Hypothesis Hdom : ∀ j, is_Some (m' !! j) ↔ is_Some (m !! j).

Lemma leaf_ent_same q t i :
  path_ok q → table_at m root q = Some t → idx_ok i → (q, i) ≠ (p0, i0) →
  ent m' t i = ent m t i.
Proof.
  intros Hq Ht Hi Hne. apply Hsame; [|done|].
  - by destruct (to_table _ _ _ Hok q t Hq Ht) as (_ & ? & _).
  - intros [= -> ->]. apply Hne. f_equal. by apply (to_tree _ _ _ Hok _ _ t0).
Qed.

Lemma leaf_table_at q t p :
  table_at m root q = Some t → path_ok (q ++ p) → table_at m' t p = table_at m t p.
Proof.
  revert q t. induction p as [|i p IH]; intros q t Hq Hok'; cbn; [done|].
  assert (Hqok : path_ok q) by (by eapply path_ok_app).
  assert (Hi : idx_ok i).
  { destruct Hok' as [_ Hf]. by apply Forall_app in Hf as [_ [? _]%Forall_cons]. }
  assert (He : ent m' t i = ent m t i).
  { apply (leaf_ent_same q); [done..|]. intros [= -> ->].
    destruct Hok' as [Hl _]. rewrite length_app in Hl. cbn in Hl. lia. }
  unfold next_table. rewrite He. fold (next_table m t i).
  destruct (next_table m t i) as [t'|] eqn:Hn; cbn; [|done].
  apply (IH (q ++ [i])); [by rewrite (table_at_snoc _ _ _ _ _ Hq)|by rewrite <- app_assoc].
Qed.

(** A slot passed on the way to the written one holds a table pointer. *)
Lemma slot_on_path q t i i' rest :
  table_at m root q = Some t → q ++ i :: i' :: rest = p0 ++ [i0] → is_Some (next_table m t i).
Proof.
  intros Hq Heq. destruct (exists_last (l := i' :: rest)) as (r & x & Hr); [done|].
  rewrite Hr in Heq. change (i :: r ++ [x]) with ((i :: r) ++ [x]) in Heq.
  rewrite app_assoc in Heq. apply app_inj_tail in Heq as [Heq _].
  rewrite <- Heq, table_at_app, Hq in Ht0. cbn in Ht0.
  destruct (next_table m t i); [by eexists|done].
Qed.

(** The walk of the written slot finds the new entry, all others are as before. *)
Lemma leaf_walk q t ixs :
  table_at m root q = Some t → path_ok q → Forall idx_ok ixs →
  (length q + length ixs = 4)%nat →
  walk m' t ixs = if decide (q ++ ixs = p0 ++ [i0])
                  then (if is_present e0 then Leaf e0 else Unmapped) else walk m t ixs.
Proof.
  revert q t. induction ixs as [|i rest IH]; intros q t Hq Hqok Hix Hlen.
  { destruct Hqok as [? _]. cbn in Hlen. lia. }
  apply Forall_cons in Hix as [Hi Hrest]. destruct rest as [|i' rest].
  - rewrite !walk_one. case_decide as Heq.
    + apply app_inj_tail in Heq as [-> ->]. assert (t = t0) as -> by congruence. by rewrite Hnew.
    + by rewrite (leaf_ent_same q) by (done || congruence).
  - assert (He : ent m' t i = ent m t i).
    { apply (leaf_ent_same q); [done..|]. intros [= -> ->]. cbn in Hlen. lia. }
    assert (Happ : q ++ i :: i' :: rest = (q ++ [i]) ++ i' :: rest) by (by rewrite <- app_assoc).
    rewrite !walk_more, He.
    destruct (is_present (ent m t i)) eqn:Hp; [destruct (is_huge (ent m t i)) eqn:Hh|].
    2: { rewrite Happ. apply (IH (q ++ [i])).
      - rewrite (table_at_snoc _ _ _ _ _ Hq). unfold next_table. by rewrite Hp, Hh.
      - apply path_ok_snoc; [done| |done]. cbn in Hlen. lia.
      - done.
      - rewrite length_app. cbn in Hlen |- *. lia. }
    all: rewrite decide_False; [done|]; intros Heq.
    all: assert (Hn : is_Some (next_table m t i)) by (by eapply slot_on_path).
    all: unfold next_table in Hn; rewrite Hp, ?Hh in Hn; by apply is_Some_None in Hn.
Qed.

Lemma leaf_tables_ok : tables_ok m' root free.
Proof.
  assert (Hat : ∀ p, path_ok p → table_at m' root p = table_at m root p).
  { intros p Hp. by apply (leaf_table_at [] root p). }
  split.
  - intros p t Hp. rewrite Hat by done. intros Ht.
    destruct (to_table _ _ _ Hok p t Hp Ht) as (? & ? & ? & ?).
    split_and!; [lia..|done|by eapply mapped_dom|done].
  - intros p q t Hp Hq. rewrite !Hat by done. by apply (to_tree _ _ _ Hok).
  - intros i Hi. assert (He : ent m' root i = ent m root i).
    { apply (leaf_ent_same []); [split; [cbn; lia|done]|done|done|]. intros [= <- _]. done. }
    rewrite He. by apply (to_pml4 _ _ _ Hok).
Qed.

End leaf.

(** * Writes that miss every table *)
Section untouched.
Context (m m' : mem) (root : Z) (free : gset Z).
Hypothesis Hok : tables_ok m root free.
Hypothesis Hents : ∀ p t i, path_ok p → table_at m root p = Some t → idx_ok i →
  ent m' t i = ent m t i.

Lemma untouched_table_at q t p :
  table_at m root q = Some t → path_ok (q ++ p) → table_at m' t p = table_at m t p.
Proof.
  revert q t. induction p as [|i p IH]; intros q t Hq Hok'; cbn; [done|].
  assert (Hqok : path_ok q) by (by eapply path_ok_app).
  assert (Hi : idx_ok i).
  { destruct Hok' as [_ Hf]. by apply Forall_app in Hf as [_ [? _]%Forall_cons]. }
  unfold next_table. rewrite (Hents q) by done. fold (next_table m t i).
  destruct (next_table m t i) as [t'|] eqn:Hn; cbn; [|done].
  apply (IH (q ++ [i])); [by rewrite (table_at_snoc _ _ _ _ _ Hq)|by rewrite <- app_assoc].
Qed.

Lemma untouched_walk q t ixs :
  table_at m root q = Some t → path_ok q → Forall idx_ok ixs →
  (length q + length ixs = 4)%nat → walk m' t ixs = walk m t ixs.
Proof.
  revert q t. induction ixs as [|i rest IH]; intros q t Hq Hqok Hix Hlen; [done|].
  apply Forall_cons in Hix as [Hi Hrest].
  assert (He : ent m' t i = ent m t i) by (by eapply Hents).
  destruct rest as [|i' rest]; [by rewrite !walk_one, He|]. rewrite !walk_more, He.
  destruct (is_present (ent m t i)) eqn:Hp; [|done]. destruct (is_huge (ent m t i)) eqn:Hh; [done|].
  apply (IH (q ++ [i])); [|apply path_ok_snoc; [done| |done]|done|rewrite length_app]; cbn in Hlen |- *; try lia.
  rewrite (table_at_snoc _ _ _ _ _ Hq). unfold next_table. by rewrite Hp, Hh.
Qed.

Lemma untouched_tables_ok :
  (∀ j, is_Some (m' !! j) ↔ is_Some (m !! j)) → tables_ok m' root free.
Proof.
  intros Hdom. assert (Hat : ∀ p, path_ok p → table_at m' root p = table_at m root p).
  { intros p Hp. by apply (untouched_table_at [] root p). }
  split.
  - intros p t Hp. rewrite Hat by done. intros Ht.
    destruct (to_table _ _ _ Hok p t Hp Ht) as (? & ? & ? & ?).
    split_and!; [lia..|done|by eapply mapped_dom|done].
  - intros p q t Hp Hq. rewrite !Hat by done. by apply (to_tree _ _ _ Hok).
  - intros i Hi. rewrite (Hents []); [by apply (to_pml4 _ _ _ Hok)|split; [cbn; lia|done]|done|done].
Qed.

End untouched.
