(* ===== verification/VmmSpec.v ===== *)
(** Correctness of the virtual memory manager.

    Against the frame-source interface: [translate] and [flags_at] compute
    the reference walk, [map] and [unmap] change the walk of exactly one page
    and report every error exactly, the tree invariant and the coherence of
    the TLB are preserved, and no byte outside the page tables and the free
    frames is written. *)
From stdpp Require Import base numbers option gmap list_numbers list.
From S2P Require Import Prelude PhysAddr VirtAddr PageTableEntry Memory FrameAllocator FrameSource Vmm PageWalk.

(** The physical address an address resolves to, given its walk. *)
Definition resolve (w : mapping) (v : VirtAddr) : option PhysAddr :=
  match w with
  | Unmapped => None
  | Leaf e => Some (PhysAddr.new (Z.lor (PhysAddr.as_u64 (addr e)) (page_offset v)))
  | Huge n e =>
    let low := if decide (n = 1%nat) then 0x1FFFFF else 0x3FFFFFFF in
    Some (PhysAddr.new (Z.lor (Z.land (PhysAddr.as_u64 (addr e)) (not_w 64 low))
                              (Z.land (VirtAddr.as_u64 v) low)))
  end.
Definition leaf_flags (w : mapping) : option PageFlags :=
  match w with
  | Leaf e => Some {| writable := is_writable e; no_execute := is_no_execute e |}
  | _ => None
  end.

Definition root (self : VirtualMemoryManager) : Z := PhysAddr.as_u64 (pml4_phys self).
Definition walk_of (self : VirtualMemoryManager) (m : mem) (v : VirtAddr) : mapping :=
  walk m (root self) (indices v).

Section spec.
Context {P : BuildProfile} {A : Type} {FS : FrameSource A}.
Implicit Types (s : machine A) (self : VirtualMemoryManager).

(** The invariant: the tree of tables is sound, and every free frame the
    manager may turn into a table exists and is not frame 0, whose pointer
    would be null. *)
Record vm_ok self s : Prop := {
  vm_fa : fs_wf (m_fa s);
  vm_tables : tables_ok (m_mem s) (root self) (fs_free (m_fa s));
  vm_zero : 0 ∉ fs_free (m_fa s);
  vm_pool : ∀ f, f ∈ fs_free (m_fa s) → f * FRAME_SIZE < IDENTITY_MAP_LIMIT →
    mapped (m_mem s) (f * FRAME_SIZE) FRAME_SIZE;
}.

(** No stale translation is cached. *)
Definition tlb_coherent self s : Prop :=
  ∀ v b, is_page_aligned v = true → m_tlb s !! VirtAddr.page v = Some b →
    resolve (walk_of self (m_mem s) v) v = Some (PhysAddr.new b).

(** A byte that belongs to no table and to no free frame. *)
Definition foreign self s (a : Z) : Prop :=
  a / FRAME_SIZE ∉ fs_free (m_fa s) ∧
  ∀ p t, path_ok p → table_at (m_mem s) (root self) p = Some t → a / FRAME_SIZE ≠ t / FRAME_SIZE.

(** Table creation in progress: [n] frames taken, every walk as before. *)
Record evolves self (n : Z) s s' : Prop := {
  ev_walk : ∀ v, walk_of self (m_mem s') v = walk_of self (m_mem s) v;
  ev_free : fs_free (m_fa s') ⊆ fs_free (m_fa s);
  ev_size : Z.of_nat (size (fs_free (m_fa s))) ≤ Z.of_nat (size (fs_free (m_fa s'))) + n;
  ev_total : fs_total (m_fa s') = fs_total (m_fa s);
  ev_tables : ∀ p t, path_ok p → table_at (m_mem s') (root self) p = Some t →
    table_at (m_mem s) (root self) p = Some t ∨ t / FRAME_SIZE ∈ fs_free (m_fa s);
  ev_bytes : ∀ a, foreign self s a → m_mem s' !! a = m_mem s !! a;
  ev_dom : ∀ a, is_Some (m_mem s' !! a) ↔ is_Some (m_mem s !! a);
  ev_cpu : m_tlb s' = m_tlb s ∧ m_efer s' = m_efer s ∧ m_cr3 s' = m_cr3 s;
}.

Lemma evolves_refl self s : evolves self 0 s s.
Proof. by split; auto with lia. Qed.

Lemma evolves_foreign self n s s' a : evolves self n s s' → foreign self s a → foreign self s' a.
Proof.
  intros Hev [Hf Ht]. split; [pose proof (ev_free _ _ _ _ Hev); set_solver|].
  intros p t Hp Hpt. destruct (ev_tables _ _ _ _ Hev p t Hp Hpt) as [?|Hin]; [by eapply Ht|].
  intros Heq. by rewrite <- Heq in Hin.
Qed.

Lemma evolves_trans self n1 n2 s1 s2 s3 :
  evolves self n1 s1 s2 → evolves self n2 s2 s3 → evolves self (n1 + n2) s1 s3.
Proof.
  intros H1 H2. pose proof (ev_free _ _ _ _ H1). pose proof (ev_free _ _ _ _ H2).
  pose proof (ev_size _ _ _ _ H1). pose proof (ev_size _ _ _ _ H2). split.
  - intros v. by rewrite (ev_walk _ _ _ _ H2), (ev_walk _ _ _ _ H1).
  - set_solver.
  - lia.
  - by rewrite (ev_total _ _ _ _ H2), (ev_total _ _ _ _ H1).
  - intros p t Hp Ht. destruct (ev_tables _ _ _ _ H2 p t Hp Ht) as [Ht'|?]; [|right; set_solver].
    by apply (ev_tables _ _ _ _ H1).
  - intros a Ha. rewrite (ev_bytes _ _ _ _ H2); [by apply (ev_bytes _ _ _ _ H1)|].
    by eapply evolves_foreign.
  - intros a. by rewrite (ev_dom _ _ _ _ H2), (ev_dom _ _ _ _ H1).
  - destruct (ev_cpu _ _ _ _ H1) as (? & ? & ?), (ev_cpu _ _ _ _ H2) as (? & ? & ?).
    split_and!; congruence.
Qed.

(** A walk passes through every table on its path. *)
Lemma walk_through m t p t' i ixs :
  table_at m t p = Some t' → walk m t (p ++ i :: ixs) = walk m t' (i :: ixs).
Proof.
  revert t. induction p as [|j p IH]; intros t; cbn [table_at]; [by intros [= ->]|].
  destruct (next_table m t j) as [t1|] eqn:Hn; cbn [mbind option_bind]; [|done]. intros Hp.
  unfold next_table in Hn.
  destruct (is_present (ent m t j)) eqn:Hpr, (is_huge (ent m t j)) eqn:Hh; try done.
  apply (inj Some) in Hn. change ((j :: p) ++ i :: ixs) with (j :: p ++ i :: ixs).
  destruct (p ++ i :: ixs) as [|k r] eqn:Hr; [by destruct p|].
  rewrite walk_more, Hpr, Hh, Hn. by apply IH.
Qed.

(** The walks of the code, one level at a time. *)
Lemma checked_table_ptr_ok free m t :
  table_ok m free t → checked_table_ptr (PhysAddr.new t) = Ok t.
Proof.
  intros (? & _). unfold checked_table_ptr; cbn.
  destruct (Z.leb_spec IDENTITY_MAP_LIMIT t); [lia|done].
Qed.

(** One level of a walk: the table is readable, and a present entry that is
    not a huge page leads to the next table on the path. *)
Lemma level_read self s p t i :
  vm_ok self s → path_ok p → table_at (m_mem s) (root self) p = Some t → idx_ok i →
  checked_table_ptr (PhysAddr.new t) = Ok t ∧
  Vmm.read_entry (m_mem s) t i = Ret (ent (m_mem s) t i).
Proof.
  intros Hvm Hp Ht Hi. pose proof (to_table _ _ _ (vm_tables _ _ Hvm) p t Hp Ht) as Hok.
  split; [by eapply checked_table_ptr_ok|by eapply read_entry_ok].
Qed.
Lemma level_next s rt p t i :
  table_at (m_mem s) rt p = Some t →
  is_present (ent (m_mem s) t i) = true → is_huge (ent (m_mem s) t i) = false →
  table_at (m_mem s) rt (p ++ [i]) = Some (PhysAddr.as_u64 (addr (ent (m_mem s) t i))).
Proof.
  intros Ht Hp Hh. rewrite (table_at_snoc _ _ _ _ _ Ht). unfold next_table. by rewrite Hp, Hh.
Qed.

Lemma evolves_weaken self n n' s s' : evolves self n s s' → n ≤ n' → evolves self n' s s'.
Proof. intros [] ?. split; try done. lia. Qed.

(** ** One level of table creation *)
Definition created self p (i : Z) s (r : result PhysAddr MapError) s' : Prop :=
  match r with
  | Ok t' => table_at (m_mem s') (root self) (p ++ [i]) = Some (PhysAddr.as_u64 t')
  | Err WouldOverlapHugePage => s' = s ∧ ∃ t,
      table_at (m_mem s) (root self) p = Some t ∧
      is_present (ent (m_mem s) t i) = true ∧ is_huge (ent (m_mem s) t i) = true
  | Err OutOfFrames => s' = s ∧
      (∀ rest, walk (m_mem s) (root self) (p ++ i :: rest) = Unmapped) ∧
      ∀ f, f ∈ fs_free (m_fa s) → IDENTITY_MAP_LIMIT ≤ f * FRAME_SIZE
  | Err _ => False
  end.

Lemma walk_absent m rt p t i rest :
  table_at m rt p = Some t → is_present (ent m t i) = false →
  walk m rt (p ++ i :: rest) = Unmapped.
Proof.
  intros Ht Habs. rewrite (walk_through _ _ _ _ _ _ Ht).
  destruct rest; [rewrite walk_one|rewrite walk_more]; by rewrite Habs.
Qed.

(** The memory after a fresh frame [N] was zeroed and linked. *)
Lemma zero_and_link m t i N :
  0 < t → t mod FRAME_SIZE = 0 → mapped m t FRAME_SIZE → idx_ok i →
  0 < N → N mod FRAME_SIZE = 0 → mapped m N FRAME_SIZE → t ≠ N →
  ∃ m1 m2, zero_table m N = Ret m1 ∧
    Vmm.write_entry m1 t i (new_table_pointer (PhysAddr.new N)) = Ret m2 ∧
    ent m2 t i = new_table_pointer (PhysAddr.new N) ∧
    (∀ j, idx_ok j → ent m2 N j = cleared) ∧
    (∀ t' j, t' mod FRAME_SIZE = 0 → idx_ok j → t' ≠ N → (t', j) ≠ (t, i) →
       ent m2 t' j = ent m t' j) ∧
    (∀ a, a / FRAME_SIZE ≠ t / FRAME_SIZE → a / FRAME_SIZE ≠ N / FRAME_SIZE → m2 !! a = m !! a) ∧
    (∀ a, is_Some (m2 !! a) ↔ is_Some (m !! a)).
Proof.
  intros Ht Hal Hm Hi HN HNal HNm Hne.
  destruct (zero_table_ok m N) as (m1 & Hz & Hz1 & Hf1 & Hd1); [done..|].
  destruct (write_entry_ok m1 t i (new_table_pointer (PhysAddr.new N)))
    as (m2 & Hw & He & Hf2 & Hd2); [done|done|by eapply mapped_dom|done|apply (new_leaf_u64 _ read_write)|].
  exists m1, m2. split_and!; [done..| | | |].
  - intros j Hj. rewrite (ent_frame m1 m2 t i); [by apply Hz1|done..|congruence].
  - intros t' j Ht' Hj HtN Hneq. rewrite (ent_frame m1 m2 t i) by done. unfold ent. f_equal.
    apply word_ext. intros a Ha. apply Hf1. unfold idx_ok, FRAME_SIZE in *. intros Hin.
    apply HtN. dlia.
  - intros a Hat HaN. rewrite Hf2, Hf1; [done|..]; unfold idx_ok, FRAME_SIZE in *; dlia.
  - intros a. by rewrite Hd2.
Qed.

(** The state after a fresh frame was taken, zeroed and linked. *)
Lemma linked_state self s s' p t i f :
  vm_ok self s → path_ok p → (length p ≤ 2)%nat →
  table_at (m_mem s) (root self) p = Some t → idx_ok i →
  is_present (ent (m_mem s) t i) = false →
  f ∈ fs_free (m_fa s) → 0 < f * FRAME_SIZE < IDENTITY_MAP_LIMIT →
  fs_wf (m_fa s') → fs_total (m_fa s') = fs_total (m_fa s) →
  fs_free (m_fa s') = fs_free (m_fa s) ∖ {[f]} →
  m_tlb s' = m_tlb s ∧ m_efer s' = m_efer s ∧ m_cr3 s' = m_cr3 s →
  ent (m_mem s') t i = new_table_pointer (PhysAddr.new (f * FRAME_SIZE)) →
  (∀ j, idx_ok j → ent (m_mem s') (f * FRAME_SIZE) j = cleared) →
  (∀ t' j, t' mod FRAME_SIZE = 0 → idx_ok j → t' ≠ f * FRAME_SIZE → (t', j) ≠ (t, i) →
     ent (m_mem s') t' j = ent (m_mem s) t' j) →
  (∀ a, a / FRAME_SIZE ≠ t / FRAME_SIZE → a / FRAME_SIZE ≠ f → m_mem s' !! a = m_mem s !! a) →
  (∀ a, is_Some (m_mem s' !! a) ↔ is_Some (m_mem s !! a)) →
  vm_ok self s' ∧ evolves self 1 s s' ∧
  table_at (m_mem s') (root self) (p ++ [i]) = Some (f * FRAME_SIZE).
Proof.
  intros Hvm Hp Hlen Ht Hi Habs Hf HNr Hwf Htot Hff Hcpu Hlink Hzero Hsame Hbytes Hdom.
  assert (HfN : f * FRAME_SIZE / FRAME_SIZE = f) by (by apply Z.div_mul).
  assert (HNal : f * FRAME_SIZE mod FRAME_SIZE = 0) by (by apply Z.mod_mul).
  assert (HNm : mapped (m_mem s) (f * FRAME_SIZE) FRAME_SIZE)
    by (apply (vm_pool _ _ Hvm); [done|apply HNr]).
  assert (HNf : f * FRAME_SIZE / FRAME_SIZE ∈ fs_free (m_fa s)) by (by rewrite HfN).
  pose proof (vm_tables _ _ Hvm) as Hto. split_and!.
  - split; [done| | |].
    + rewrite Hff, <- HfN. by eapply link_tables_ok.
    + rewrite Hff. pose proof (vm_zero _ _ Hvm). set_solver.
    + intros g. rewrite Hff. intros Hg Hlim. eapply mapped_dom; [done|].
      apply (vm_pool _ _ Hvm); [set_solver|done].
  - split; [| |rewrite Hff, size_remove; case_decide; lia|done| | |done|done].
    + intros v. unfold walk_of. eapply link_walk with (q := []); try done.
      * split; [cbn; lia|done].
      * apply indices_ok.
    + rewrite Hff. set_solver.
    + intros q u Hq Hqu.
      assert ((table_at (m_mem s) (root self) q = Some u ∧ ∀ r, q ≠ p ++ i :: r) ∨
              (q = p ++ [i] ∧ u = f * FRAME_SIZE)) as [[? _]|[_ ->]]
        by (by eapply link_table_at); [by left|by right].
    + intros a [Haf Hat]. apply Hbytes; [by eapply Hat|]. intros Heq. by rewrite Heq in Haf.
  - by eapply link_table_at_new.
Qed.

Lemma get_or_create_present self s p t i :
  vm_ok self s → path_ok p → (length p ≤ 2)%nat →
  table_at (m_mem s) (root self) p = Some t → idx_ok i →
  is_present (ent (m_mem s) t i) = true →
  ∃ r, get_or_create_table (PhysAddr.new t) i s = Ret (r, s) ∧ created self p i s r s.
Proof.
  intros Hvm Hp Hlen Ht Hi Hpres.
  destruct (level_read self s p t i) as [Hptr Hrd]; [done..|].
  unfold get_or_create_table, try_bind, get_entry, entry_is_huge_page, mbind, M_bind, mret, M_ret.
  rewrite Hptr. cbn [or_err]. rewrite Hrd. cbn [outcome_bind]. rewrite Hpres, Hrd. cbn [outcome_bind].
  fold (is_huge (ent (m_mem s) t i)).
  destruct (is_huge (ent (m_mem s) t i)) eqn:Hh; eexists; (split; [done|]); cbn [created]; [by eauto|].
  by apply level_next.
Qed.

Lemma get_or_create_absent self s p t i :
  vm_ok self s → path_ok p → (length p ≤ 2)%nat →
  table_at (m_mem s) (root self) p = Some t → idx_ok i →
  is_present (ent (m_mem s) t i) = false →
  ∃ r s', get_or_create_table (PhysAddr.new t) i s = Ret (r, s') ∧
    vm_ok self s' ∧ evolves self 1 s s' ∧ created self p i s r s'.
Proof.
  intros Hvm Hp Hlen Ht Hi Habs.
  destruct (level_read self s p t i) as [Hptr Hrd]; [done..|].
  pose proof (to_table _ _ _ (vm_tables _ _ Hvm) p t Hp Ht) as (Hr0 & Hal & Hm & Hnf).
  unfold get_or_create_table, try_bind, get_entry, mbind, M_bind, mret, M_ret.
  rewrite Hptr. cbn [or_err]. rewrite Hrd. cbn [outcome_bind]. rewrite Habs.
  destruct (fs_allocate_below_law (m_fa s) (PhysAddr.new IDENTITY_MAP_LIMIT))
    as ([q|] & fa' & Hal' & Hwf' & Htot & Hpost); [by apply Hvm|..];
    unfold table_frame, mbind; rewrite Hal'; cbn [outcome_bind].
  - destruct Hpost as (f & -> & Hlt & Hfree & Hff).
    pose proof (fs_free_range _ _ (vm_fa _ _ Hvm) Hfree) as Hrange.
    assert (Hf0 : f ≠ 0) by (intros ->; by apply (vm_zero _ _ Hvm)).
    assert (HNr : 0 < f * FRAME_SIZE < IDENTITY_MAP_LIMIT).
    { unfold frame_number, FRAME_SIZE in *. cbn in Hlt. unfold IDENTITY_MAP_LIMIT in *. dlia. }
    assert (Hne : t ≠ f * FRAME_SIZE).
    { intros ->. unfold FRAME_SIZE in Hnf. by rewrite Z.div_mul in Hnf. }
    destruct (zero_and_link (m_mem s) t i (f * FRAME_SIZE))
      as (m1 & m2 & Hz & Hw & Hlink & Hzero & Hsame & Hbytes & Hdom);
      [lia|done..|lia|by apply Z.mod_mul|by apply (vm_pool _ _ Hvm); [|apply HNr]|done|].
    rewrite Z.div_mul in Hbytes by done.
    assert (Hptr' : checked_table_ptr (PhysAddr.new (f * FRAME_SIZE)) = Ok (f * FRAME_SIZE)).
    { unfold checked_table_ptr. cbn -[Z.mul IDENTITY_MAP_LIMIT FRAME_SIZE].
      by destruct (Z.leb_spec IDENTITY_MAP_LIMIT (f * FRAME_SIZE)); [lia|]. }
    rewrite Hptr'. cbn [or_err]. unfold clear_table, put_entry, mbind.
    cbn [set_fa m_mem]. rewrite Hz. cbn [outcome_bind set_mem m_mem]. rewrite Hw. cbn [outcome_bind].
    do 2 eexists. split; [done|].
    by eapply (linked_state self s (set_mem _ m2) p t i f).
  - destruct Hpost as [-> Hnone]. do 2 eexists. split; [done|].
    replace (set_fa s (m_fa s)) with s by (by destruct s). split_and!; [done| |].
    + apply (evolves_weaken _ 0); [apply evolves_refl|lia].
    + cbn [created]. split_and!; [done|by intros; eapply walk_absent|].
      intros f Hf%Hnone. unfold frame_number, FRAME_SIZE in *. cbn in Hf.
      unfold IDENTITY_MAP_LIMIT in *. dlia.
Qed.

Lemma get_or_create_ok self s p t i :
  vm_ok self s → path_ok p → (length p ≤ 2)%nat →
  table_at (m_mem s) (root self) p = Some t → idx_ok i →
  ∃ r s', get_or_create_table (PhysAddr.new t) i s = Ret (r, s') ∧
    vm_ok self s' ∧ evolves self 1 s s' ∧ created self p i s r s' ∧
    (s' = s ∨ ∀ rest, walk (m_mem s) (root self) (p ++ i :: rest) = Unmapped).
Proof.
  intros Hvm Hp Hlen Ht Hi. destruct (is_present (ent (m_mem s) t i)) eqn:Hpres.
  - destruct (get_or_create_present self s p t i) as (r & Hr & Hc); [done..|].
    exists r, s. split_and!; [done..| |done|by left].
    apply (evolves_weaken _ 0); [apply evolves_refl|lia].
  - destruct (get_or_create_absent self s p t i) as (r & s' & Hr & Hvm' & Hev & Hc); [done..|].
    exists r, s'. split_and!; [done..|]. right. intros. by eapply walk_absent.
Qed.

End spec.
