(* ===== verification/VmmCorrect.v ===== *)
(** Functional correctness of [translate], [flags_at], [map] and [unmap]
    against the reference walk, on every branch. *)
From stdpp Require Import base numbers option gmap list_numbers list.
From S2P Require Import Prelude PhysAddr VirtAddr PageTableEntry Memory FrameAllocator FrameSource Vmm PageWalk VmmSpec.

Lemma path_ok_nil : path_ok [].
Proof. split; [cbn; lia|done]. Qed.

Lemma idx_ok_pml4 v : idx_ok (pml4_index v).
Proof. pose proof (index_bounds v). unfold idx_ok. lia. Qed.
Lemma idx_ok_pdpt v : idx_ok (pdpt_index v).
Proof. pose proof (index_bounds v). unfold idx_ok. lia. Qed.
Lemma idx_ok_pd v : idx_ok (pd_index v).
Proof. pose proof (index_bounds v). unfold idx_ok. lia. Qed.
Lemma idx_ok_pt v : idx_ok (pt_index v).
Proof. pose proof (index_bounds v). unfold idx_ok. lia. Qed.
#[export] Hint Resolve path_ok_nil idx_ok_pml4 idx_ok_pdpt idx_ok_pd idx_ok_pt : kernel.
#[export] Hint Extern 2 (path_ok (_ ++ [_])) =>
  apply path_ok_snoc; [|cbn; lia|] : kernel.

Section correct.
Context {P : BuildProfile} {A : Type} {FS : FrameSource A}.
Implicit Types (s : machine A) (self : VirtualMemoryManager).

Lemma level self s p a i :
  vm_ok self s → path_ok p → table_at (m_mem s) (root self) p = Some (PhysAddr.as_u64 a) → idx_ok i →
  checked_table_ptr a = Ok (PhysAddr.as_u64 a) ∧
  Vmm.read_entry (m_mem s) (PhysAddr.as_u64 a) i = Ret (ent (m_mem s) (PhysAddr.as_u64 a) i).
Proof.
  intros Hvm Hp Ht Hi. destruct (level_read self s p (PhysAddr.as_u64 a) i) as [Hc Hr]; [done..|].
  by rewrite PhysAddr_eta in Hc.
Qed.

Lemma walk_of_unfold self m v :
  walk_of self m v =
  let e1 := ent m (PhysAddr.as_u64 (pml4_phys self)) (pml4_index v) in
  if is_present e1 then if is_huge e1 then Huge 3 e1 else
    let e2 := ent m (PhysAddr.as_u64 (addr e1)) (pdpt_index v) in
    if is_present e2 then if is_huge e2 then Huge 2 e2 else
      let e3 := ent m (PhysAddr.as_u64 (addr e2)) (pd_index v) in
      if is_present e3 then if is_huge e3 then Huge 1 e3 else
        let e4 := ent m (PhysAddr.as_u64 (addr e3)) (pt_index v) in
        if is_present e4 then Leaf e4 else Unmapped
      else Unmapped
    else Unmapped
  else Unmapped.
Proof. done. Qed.

End correct.

(** Run the code through one level of the walk: [T] says which table is
    read there, [i] is the index. *)
Ltac read_level Hvm T i :=
  match type of T with
  | table_at (m_mem ?s) (root ?self) ?p = Some (PhysAddr.as_u64 ?a) =>
    let Hc := fresh "Hc" in let Hr := fresh "Hr" in
    destruct (level self s p a i Hvm) as [Hc Hr];
      [by eauto with kernel|exact T|by eauto with kernel|];
    rewrite Hc; cbn [or_err]; rewrite Hr; cbn [outcome_bind mbind]; cbv zeta; clear Hc Hr
  end.

(** Split on the entry a level found: absent (closed if trivial), huge, or
    the next table, of which [T'] tells. *)
Ltac split_level T T' :=
  match type of T with
  | table_at (m_mem ?s) (root ?self) ?p = Some (PhysAddr.as_u64 ?a) =>
    match goal with
    | |- context [is_present (ent (m_mem s) (PhysAddr.as_u64 a) ?i)] =>
      let Hp := fresh "Hp" in let Hh := fresh "Hh" in
      destruct (is_present (ent (m_mem s) (PhysAddr.as_u64 a) i)) eqn:Hp;
        cbn [negb orb];
      [destruct (raw_has_flag (ent (m_mem s) (PhysAddr.as_u64 a) i) FLAG_PAGE_SIZE) eqn:Hh;
        [|pose proof (level_next s (root self) p _ i T Hp Hh) as T']
      |try done]
    end
  end.

Ltac split_leaf :=
  match goal with
  | |- context [is_present ?e] =>
    let Hp := fresh "Hp" in destruct (is_present e) eqn:Hp; cbn [negb orb]
  end.

Section correct.
Context {P : BuildProfile} {A : Type} {FS : FrameSource A}.
Implicit Types (s : machine A) (self : VirtualMemoryManager).

Lemma pml4_not_huge self s v (a : PhysAddr) :
  vm_ok self s → table_at (m_mem s) (root self) [] = Some (PhysAddr.as_u64 a) →
  is_present (ent (m_mem s) (PhysAddr.as_u64 a) (pml4_index v)) = true →
  raw_has_flag (ent (m_mem s) (PhysAddr.as_u64 a) (pml4_index v)) FLAG_PAGE_SIZE = true → False.
Proof.
  intros Hvm Heq%(inj Some) Hp Hh. rewrite <- Heq in Hp, Hh.
  pose proof (to_pml4 _ _ _ (vm_tables _ _ Hvm) (pml4_index v) (idx_ok_pml4 v) Hp) as Hn.
  unfold is_huge in Hn. congruence.
Qed.

Lemma translate_walk self s v :
  vm_ok self s → translate (m_mem s) self v = Ret (resolve (walk_of self (m_mem s) v) v).
Proof.
  intros Hvm. rewrite walk_of_unfold. unfold translate, ok_table, is_huge.
  assert (T : table_at (m_mem s) (root self) [] = Some (PhysAddr.as_u64 (pml4_phys self))) by done.
  read_level Hvm T (pml4_index v). split_level T T1; [by exfalso; eapply pml4_not_huge|].
  read_level Hvm T1 (pdpt_index v). split_level T1 T2; [done|].
  read_level Hvm T2 (pd_index v). split_level T2 T3; [done|].
  read_level Hvm T3 (pt_index v). by split_leaf.
Qed.

Lemma flags_at_walk self s v :
  vm_ok self s → flags_at (m_mem s) self v = Ret (leaf_flags (walk_of self (m_mem s) v)).
Proof.
  intros Hvm. rewrite walk_of_unfold. unfold flags_at, ok_table, is_huge.
  assert (T : table_at (m_mem s) (root self) [] = Some (PhysAddr.as_u64 (pml4_phys self))) by done.
  read_level Hvm T (pml4_index v). split_level T T1; [by exfalso; eapply pml4_not_huge|].
  read_level Hvm T1 (pdpt_index v). split_level T1 T2; [done|].
  read_level Hvm T2 (pd_index v). split_level T2 T3; [done|].
  read_level Hvm T3 (pt_index v). by split_leaf.
Qed.

(** ** Table creation on the way to the page table *)
Definition no_table_frame s : Prop :=
  ∀ f, f ∈ fs_free (m_fa s) → IDENTITY_MAP_LIMIT ≤ f * FRAME_SIZE.

Definition map_error self s v s' (e : MapError) : Prop :=
  match e with
  | NotPageAligned | PageTableUnreachable => False
  | AlreadyMapped => s' = s ∧ ∃ l, walk_of self (m_mem s) v = Leaf l
  | WouldOverlapHugePage => s' = s ∧ ∃ n h, walk_of self (m_mem s) v = Huge n h
  | OutOfFrames => walk_of self (m_mem s) v = Unmapped ∧ no_table_frame s'
  end.

Record progress self s v (n : Z) s' : Prop := {
  pr_ok : vm_ok self s';
  pr_evolves : evolves self n s s';
  pr_lazy : s' = s ∨ walk_of self (m_mem s) v = Unmapped;
}.

Lemma progress_refl self s v : vm_ok self s → progress self s v 0 s.
Proof. split; [done|apply evolves_refl|by left]. Qed.

Lemma path_of_indices v p i rest :
  indices v = p ++ i :: rest → rest ≠ [] → path_ok p ∧ (length p ≤ 2)%nat ∧ idx_ok i.
Proof.
  intros Hv Hr. pose proof (indices_ok v) as Hix. pose proof (f_equal length Hv) as Hlen.
  rewrite Hv in Hix. apply Forall_app in Hix as [Hp [Hi _]%Forall_cons].
  rewrite length_app in Hlen. destruct rest; [done|]. cbn in Hlen.
  split_and!; [split; [lia|done]|lia|done].
Qed.

Lemma created_error self s s1 s2 v n p i rest e :
  progress self s v n s1 → indices v = p ++ i :: rest → rest ≠ [] →
  created self p i s1 (Err e) s2 → map_error self s v s2 e.
Proof.
  intros [_ Hev Hlazy] Hv Hrest. pose proof (ev_walk _ _ _ _ Hev v) as Hw.
  unfold walk_of in Hw at 1. rewrite Hv in Hw. destruct e; cbn [created map_error]; try done.
  - intros (-> & Hun & Hnone). rewrite Hun in Hw. split; [done|exact Hnone].
  - intros (-> & t & Ht & Hp & Hh). rewrite (walk_through _ _ _ _ _ _ Ht) in Hw.
    destruct rest as [|j rest]; [done|]. rewrite walk_more, Hp, Hh in Hw.
    destruct Hlazy as [->|Hun]; [by eauto|]. by rewrite Hun in Hw.
Qed.

Lemma progress_step self s v n s1 p t i rest :
  progress self s v n s1 → indices v = p ++ i :: rest → rest ≠ [] →
  table_at (m_mem s1) (root self) p = Some (PhysAddr.as_u64 t) →
  ∃ r s2, get_or_create_table t i s1 = Ret (r, s2) ∧ progress self s v (n + 1) s2 ∧
    match r with
    | Ok t' => table_at (m_mem s2) (root self) (p ++ [i]) = Some (PhysAddr.as_u64 t')
    | Err e => map_error self s v s2 e
    end.
Proof.
  intros Hpr Hv Hrest Ht. destruct (path_of_indices v p i rest Hv Hrest) as (Hp & Hlen & Hi).
  destruct (get_or_create_ok self s1 p (PhysAddr.as_u64 t) i)
    as (r & s2 & Hg & Hvm2 & Hev2 & Hcr & Hlz); [apply Hpr|done..|].
  rewrite PhysAddr_eta in Hg. exists r, s2. split_and!; [done| |].
  - split; [done|by eapply evolves_trans, Hev2; apply Hpr|].
    destruct Hpr as [_ Hev Hlazy]. destruct Hlz as [->|Hun]; [done|]. right.
    rewrite <- (ev_walk _ _ _ _ Hev v). unfold walk_of. by rewrite Hv.
  - destruct r; [done|]. by eapply created_error.
Qed.

(** ** Writing the leaf entry of a page *)
Lemma pt_path_ok v : path_ok [pml4_index v; pdpt_index v; pd_index v].
Proof.
  split; [cbn; lia|]. pose proof (indices_ok v) as Hix.
  by apply (Forall_app _ [_; _; _] [pt_index v]) in Hix as [? _].
Qed.
Lemma walk_of_pt self m v t :
  table_at m (root self) [pml4_index v; pdpt_index v; pd_index v] = Some t →
  walk_of self m v =
  if is_present (ent m t (pt_index v)) then Leaf (ent m t (pt_index v)) else Unmapped.
Proof.
  intros Ht. unfold walk_of.
  change (indices v) with ([pml4_index v; pdpt_index v; pd_index v] ++ [pt_index v]).
  by rewrite (walk_through _ _ _ _ _ _ Ht), walk_one.
Qed.

Record updates self s v (w : mapping) s' : Prop := {
  up_ok : vm_ok self s';
  up_walk : ∀ u, walk_of self (m_mem s') u =
    if decide (VirtAddr.page u = VirtAddr.page v) then w else walk_of self (m_mem s) u;
  up_fa : m_fa s' = m_fa s;
  up_bytes : ∀ a, foreign self s a → m_mem s' !! a = m_mem s !! a;
  up_dom : ∀ a, is_Some (m_mem s' !! a) ↔ is_Some (m_mem s !! a);
  up_foreign : ∀ a, foreign self s a → foreign self s' a;
  up_tlb : m_tlb s' = delete (VirtAddr.page v) (m_tlb s);
  up_cpu : m_efer s' = m_efer s ∧ m_cr3 s' = m_cr3 s;
}.

Lemma put_leaf_ok self s v t e :
  vm_ok self s → u64 (entry_0 e) →
  table_at (m_mem s) (root self) [pml4_index v; pdpt_index v; pd_index v] = Some t →
  ∃ m', Vmm.write_entry (m_mem s) t (pt_index v) e = Ret m' ∧
    updates self s v (if is_present e then Leaf e else Unmapped)
      (invlpg (VirtAddr.as_u64 v) (set_mem s m')).
Proof.
  intros Hvm He Ht. set (p := [pml4_index v; pdpt_index v; pd_index v]) in *.
  assert (Hp : path_ok p) by apply pt_path_ok.
  pose proof (vm_tables _ _ Hvm) as Hto.
  destruct (to_table _ _ _ Hto p t Hp Ht) as (Hr & Hal & Hm & Hnf).
  destruct (write_entry_ok (m_mem s) t (pt_index v) e) as (m' & Hw & Hnew & Hf & Hd);
    [lia|done..|apply idx_ok_pt|done|].
  exists m'. split; [done|].
  assert (Hsame : ∀ t' i, t' mod FRAME_SIZE = 0 → idx_ok i → (t', i) ≠ (t, pt_index v) →
    ent m' t' i = ent (m_mem s) t' i).
  { intros t' i Hal' Hi Hne. by apply (ent_frame _ _ t (pt_index v)); [..|apply idx_ok_pt| |]. }
  assert (Hat : ∀ q, path_ok q → table_at m' (root self) q = table_at (m_mem s) (root self) q).
  { intros q Hq. eapply (leaf_table_at _ _ _ _ p t (pt_index v)) with (q := []); try done. }
  split; cbn [invlpg set_tlb set_mem m_mem m_fa m_tlb m_efer m_cr3]; try done.
  - split; [apply Hvm| |apply Hvm|].
    + by eapply (leaf_tables_ok _ _ _ _ p t (pt_index v)).
    + intros f Hfree Hlim. eapply mapped_dom; [done|]. by apply (vm_pool _ _ Hvm).
  - intros u. unfold walk_of.
    rewrite (leaf_walk (m_mem s) m' (root self) (fs_free (m_fa s)) p t (pt_index v) e)
      with (q := []); try done; [| |apply indices_ok]; auto with kernel.
    cbn [app]. change (p ++ [pt_index v]) with (indices v).
    apply decide_ext. rewrite indices_eq. done.
  - intros a [Ha1 Ha2]. apply Hf. intros Hin. apply (Ha2 p t Hp Ht).
    unfold FRAME_SIZE in *. pose proof (idx_ok_pt v). unfold idx_ok in *. dlia.
  - intros a [Ha1 Ha2]. split; [done|]. cbn. intros q u Hq. rewrite Hat by done. by apply Ha2.
Qed.

(** An update that drops the cached translation keeps the TLB coherent. *)
Lemma updates_coherent self s v w s' :
  tlb_coherent self s → updates self s v w s' → tlb_coherent self s'.
Proof.
  intros Hco [_ Hw _ _ _ _ Htlb _] u b Hal. rewrite Htlb, Hw.
  destruct (decide (VirtAddr.page u = VirtAddr.page v)) as [->|Hne].
  - by rewrite lookup_delete_eq.
  - rewrite lookup_delete_ne by done. by apply Hco.
Qed.
Lemma evolves_coherent self n s s' :
  tlb_coherent self s → evolves self n s s' → tlb_coherent self s'.
Proof.
  intros Hco Hev u b Hal. destruct (ev_cpu _ _ _ _ Hev) as (-> & _ & _).
  rewrite (ev_walk _ _ _ _ Hev). by apply Hco.
Qed.

Definition aligned_for_map v phys : bool := is_page_aligned v && is_frame_aligned phys.

(** [map], branch by branch: the intermediate state [s1] is the one in which
    the tables exist. *)
Definition map_post self s v phys fl (r : result unit MapError) s' : Prop :=
  match r with
  | Ok _ => aligned_for_map v phys = true ∧ walk_of self (m_mem s) v = Unmapped ∧
      ∃ s1, progress self s v 3 s1 ∧ updates self s1 v (Leaf (new_leaf phys fl)) s'
  | Err NotPageAligned => aligned_for_map v phys = false ∧ s' = s
  | Err e => aligned_for_map v phys = true ∧ progress self s v 3 s' ∧ map_error self s v s' e
  end.

Lemma progress_weaken self s v n n' s' :
  progress self s v n s' → n ≤ n' → progress self s v n' s'.
Proof. intros [] ?. split; [done|by eapply evolves_weaken|done]. Qed.

Lemma map_post_err self s v phys fl n s' e :
  aligned_for_map v phys = true → progress self s v n s' → n ≤ 3 → map_error self s v s' e →
  map_post self s v phys fl (Err e) s'.
Proof.
  intros Hal Hpr Hn Herr. destruct e; try done; cbn [map_post];
    (split_and!; [done|by eapply progress_weaken|done]).
Qed.

Lemma map_ok self s v phys fl :
  vm_ok self s → ∃ r s', map self v phys fl s = Ret (r, s') ∧ map_post self s v phys fl r s'.
Proof.
  intros Hvm. unfold map. fold (aligned_for_map v phys).
  rewrite <- negb_andb. fold (aligned_for_map v phys).
  destruct (aligned_for_map v phys) eqn:Hal; cbn [negb]; [|by do 2 eexists].
  unfold try_bind, mbind, M_bind, mret, M_ret.
  destruct (progress_step self s v 0 s [] (pml4_phys self) (pml4_index v)
    [pdpt_index v; pd_index v; pt_index v]) as (r1 & s1 & -> & Hp1 & H1);
    [by apply progress_refl|done..|].
  destruct r1 as [pdpt|]; [|do 2 eexists; split; [done|by eapply map_post_err]].
  destruct (progress_step self s v 1 s1 [pml4_index v] pdpt (pdpt_index v)
    [pd_index v; pt_index v]) as (r2 & s2 & -> & Hp2 & H2); [done..|].
  destruct r2 as [pd|]; [|do 2 eexists; split; [done|by eapply map_post_err]].
  destruct (progress_step self s v 2 s2 [pml4_index v; pdpt_index v] pd (pd_index v)
    [pt_index v]) as (r3 & s3 & -> & Hp3 & H3); [done..|].
  destruct r3 as [pt|]; [|do 2 eexists; split; [done|by eapply map_post_err]].
  destruct (level self s3 [pml4_index v; pdpt_index v; pd_index v] pt (pt_index v))
    as [Hc Hr]; [apply Hp3|apply pt_path_ok|done|apply idx_ok_pt|].
  pose proof (walk_of_pt _ _ _ _ H3) as Hw3. rewrite (ev_walk _ _ _ _ (pr_evolves _ _ _ _ _ Hp3)) in Hw3.
  rewrite Hc. cbn [or_err]. unfold get_entry, mbind. rewrite Hr. cbn [outcome_bind].
  destruct (is_present (ent (m_mem s3) (PhysAddr.as_u64 pt) (pt_index v))) eqn:Hpr.
  - do 2 eexists. split; [done|]. apply (map_post_err _ _ _ _ _ 3); [done..|].
    destruct (pr_lazy _ _ _ _ _ Hp3) as [->|Hun]; [by split; eauto|congruence].
  - destruct (put_leaf_ok self s3 v (PhysAddr.as_u64 pt) (new_leaf phys fl))
      as (m' & Hw & Hup); [apply Hp3|apply new_leaf_u64|done|].
    unfold put_entry, mbind. rewrite Hw. cbn [outcome_bind flush].
    rewrite new_leaf_present in Hup. do 2 eexists. split; [done|]. split_and!; [done..|]. eauto.
Qed.

(** [unmap], branch by branch. *)
Definition unmap_post self s v (r : result PhysAddr UnmapError) s' : Prop :=
  match r with
  | Ok pa => is_page_aligned v = true ∧
      (∃ e, walk_of self (m_mem s) v = Leaf e ∧ pa = addr e) ∧ updates self s v Unmapped s'
  | Err UnmapNotPageAligned => is_page_aligned v = false ∧ s' = s
  | Err NotMapped => is_page_aligned v = true ∧ s' = s ∧ walk_of self (m_mem s) v = Unmapped
  | Err IsHugePage => is_page_aligned v = true ∧ s' = s ∧
      ∃ n e, walk_of self (m_mem s) v = Huge n e
  | Err UnmapPageTableUnreachable => False
  end.

Local Ltac branch :=
  intros; do 2 eexists; split; [done|]; cbn [unmap_post]; split_and?; eauto.

Lemma unmap_ok self s v :
  vm_ok self s → ∃ r s', unmap self v s = Ret (r, s') ∧ unmap_post self s v r s'.
Proof.
  intros Hvm. unfold unmap. pose proof (walk_of_unfold self (m_mem s) v) as Hw.
  unfold is_huge in Hw. cbv zeta in Hw.
  destruct (is_page_aligned v) eqn:Hal; cbn [negb]; [|by do 2 eexists].
  assert (T : table_at (m_mem s) (root self) [] = Some (PhysAddr.as_u64 (pml4_phys self))) by done.
  unfold try_bind, get_entry, mbind, M_bind, mret, M_ret. revert Hw.
  read_level Hvm T (pml4_index v). split_level T T1; [by exfalso; eapply pml4_not_huge| |by branch].
  read_level Hvm T1 (pdpt_index v). split_level T1 T2; [by branch| |by branch].
  read_level Hvm T2 (pd_index v). split_level T2 T3; [by branch| |by branch].
  read_level Hvm T3 (pt_index v). split_leaf; intros Hw; [|by branch].
  assert (He : u64 (entry_0 cleared)) by done.
  destruct (put_leaf_ok self s v _ cleared Hvm He T3) as (m' & Hwr & Hup).
  unfold put_entry, mbind. rewrite Hwr. cbn [outcome_bind flush]. by branch.
Qed.

End correct.
