(* ===== verification/VmmTheorems.v ===== *)
(** What the virtual memory manager guarantees, and the concrete machine on
    which each guarantee is exercised. *)
From stdpp Require Import base numbers option relations gmap list_numbers list.
From S2P Require Import Prelude PhysAddr VirtAddr PageTableEntry Memory FrameAllocator FrameSource Vmm PageWalk VmmSpec VmmCorrect.

(** ** Address arithmetic inside a page *)
Lemma page_offset_within v off :
  is_page_aligned v = true → 0 ≤ off < FRAME_SIZE →
  let u := VirtAddr.new (VirtAddr.as_u64 v + off) in
  VirtAddr.page u = VirtAddr.page v ∧ page_offset u = off.
Proof.
  unfold is_page_aligned. rewrite Z.eqb_eq. intros Hal Hoff. cbv zeta.
  rewrite page_offset_arith. unfold VirtAddr.page, FRAME_SIZE, VirtAddr.as_u64 in *. cbn. split; dlia.
Qed.

Lemma lor_offset a off :
  a mod FRAME_SIZE = 0 → 0 ≤ off < FRAME_SIZE → Z.lor a off = a + off.
Proof.
  intros Ha Hoff. by apply (lor_add _ _ 12).
Qed.

Lemma resolve_same_page w u v :
  is_page_aligned u = true → is_page_aligned v = true → VirtAddr.page u = VirtAddr.page v →
  resolve w u = resolve w v.
Proof.
  unfold is_page_aligned. rewrite !Z.eqb_eq. intros Hu Hv Hpg.
  assert (Hlow : ∀ k, 0 ≤ k ≤ 48 → Z.land (virt_0 u) (Z.ones k) = Z.land (virt_0 v) (Z.ones k)).
  { intros k Hk. rewrite !Z.land_ones by lia.
    assert (Heq : virt_0 u mod 2 ^ 48 = virt_0 v mod 2 ^ 48).
    { unfold VirtAddr.page, FRAME_SIZE, VirtAddr.as_u64 in *. dlia. }
    assert (Hdiv : (2 ^ k | 2 ^ 48)) by (exists (2 ^ (48 - k)); rewrite <- Z.pow_add_r by lia; f_equal; lia).
    rewrite <- (Z.mod_mod_divide (virt_0 u) (2 ^ 48)), Heq, Z.mod_mod_divide by done. done. }
  destruct w as [| |n e]; cbn [resolve]; [done|..].
  - unfold page_offset. change 0xFFF with (Z.ones 12). by rewrite Hlow.
  - change 0x1FFFFF with (Z.ones 21). change 0x3FFFFFFF with (Z.ones 30).
    unfold VirtAddr.as_u64. case_decide; by rewrite Hlow.
Qed.

Lemma walk_of_page self m u v :
  VirtAddr.page u = VirtAddr.page v → walk_of self m u = walk_of self m v.
Proof. intros Hpg%indices_eq. unfold walk_of. by rewrite Hpg. Qed.

(** ** The EFER register *)
Lemma read_efer_id {A} (s : machine A) : u64 (m_efer s) → read_efer s = m_efer s.
Proof.
  unfold u64, read_efer. intros H. rewrite Z.shiftl_mul_pow2 by done.
  rewrite (lor_add _ _ 32); [dlia|done|by apply Z.mod_mul|dlia].
Qed.
Lemma write_efer_id {A} (s : machine A) x : u64 x → write_efer x s = set_efer s x.
Proof.
  unfold u64, write_efer. intros H. f_equal. rewrite Z.shiftr_div_pow2 by done. dlia.
Qed.
Lemma set_nxe_u64 x : u64 x → u64 (Z.lor x EFER_NXE_BIT).
Proof.
  unfold u64, EFER_NXE_BIT. intros Hx.
  assert (0 ≤ Z.lor x (Z.shiftl 1 11)) by (apply Z.lor_nonneg; rewrite Z.shiftl_nonneg; lia).
  split; [done|]. apply testbit_range; [done..|]. intros i Hi.
  rewrite Z.lor_spec, testbit_shiftl_one, (testbit_high x 64) by lia.
  destruct (Z.eqb_spec i 11); [lia|done].
Qed.
Lemma enable_nxe_set {A} (s : machine A) :
  u64 (m_efer s) → enable_nxe s = set_efer s (Z.lor (m_efer s) EFER_NXE_BIT).
Proof.
  intros Hu. unfold enable_nxe. rewrite read_efer_id by done.
  unfold EFER_NXE_BIT at 1. rewrite land_one_bit by done.
  destruct (Z.testbit (m_efer s) 11) eqn:Hb; cbn [negb].
  - replace (Z.lor (m_efer s) EFER_NXE_BIT) with (m_efer s); [by destruct s|]. unfold EFER_NXE_BIT.
    apply Z.bits_inj'. intros i Hi. rewrite Z.lor_spec, testbit_shiftl_one by done.
    destruct (Z.eqb_spec i 11) as [->|]; [by rewrite Hb|by rewrite orb_false_r].
  - apply write_efer_id. by apply set_nxe_u64.
Qed.

(** ** Properties *)
Section properties.
Context {P : BuildProfile} {A : Type} {FS : FrameSource A}.
Implicit Types (s : machine A) (self : VirtualMemoryManager).

(** C21: [translate] and [flags_at] compute the reference walk of the page
    tables on every sound tree, huge pages included, and always return. *)
Theorem translate_refines_walk self s v :
  vm_ok self s →
  translate (m_mem s) self v = Ret (resolve (walk_of self (m_mem s) v) v) ∧
  flags_at (m_mem s) self v = Ret (leaf_flags (walk_of self (m_mem s) v)).
Proof. intros Hvm. split; [by apply translate_walk|by apply flags_at_walk]. Qed.

(** C7: [map] on every branch.  It always returns, keeps the invariant, takes
    at most three frames and touches no byte outside tables and free frames.
    On success the page was unmapped and now holds the requested leaf while
    every other page translates as before; an error leaves every
    translation as it was and says which obstacle was met: a misaligned
    argument, a 4 KiB leaf, a huge page, or no free frame below the
    identity-map limit for a missing table. *)
Theorem map_correct self s v phys fl :
  vm_ok self s →
  ∃ r s', map self v phys fl s = Ret (r, s') ∧ vm_ok self s' ∧
    fs_free (m_fa s') ⊆ fs_free (m_fa s) ∧
    Z.of_nat (size (fs_free (m_fa s))) ≤ Z.of_nat (size (fs_free (m_fa s'))) + 3 ∧
    (∀ a, foreign self s a → m_mem s' !! a = m_mem s !! a) ∧
    (r = Err NotPageAligned ↔ is_page_aligned v && is_frame_aligned phys = false) ∧
    match r with
    | Ok _ => walk_of self (m_mem s) v = Unmapped ∧
        ∀ u, walk_of self (m_mem s') u =
          if decide (VirtAddr.page u = VirtAddr.page v) then Leaf (new_leaf phys fl)
          else walk_of self (m_mem s) u
    | Err NotPageAligned => s' = s
    | Err AlreadyMapped => s' = s ∧ ∃ e, walk_of self (m_mem s) v = Leaf e
    | Err WouldOverlapHugePage => s' = s ∧ ∃ n e, walk_of self (m_mem s) v = Huge n e
    | Err OutOfFrames => walk_of self (m_mem s) v = Unmapped ∧
        (∀ u, walk_of self (m_mem s') u = walk_of self (m_mem s) u) ∧
        ∀ f, f ∈ fs_free (m_fa s') → IDENTITY_MAP_LIMIT ≤ f * FRAME_SIZE
    | Err PageTableUnreachable => False
    end.
Proof.
  intros Hvm. destruct (map_ok self s v phys fl Hvm) as (r & s' & Hrun & Hpost).
  exists r, s'. split; [done|]. fold (aligned_for_map v phys).
  destruct r as [[]|e].
  - destruct Hpost as (Hal & Hun & s1 & [Hok1 Hev1 _] & Hup).
    pose proof (ev_free _ _ _ _ Hev1). pose proof (ev_size _ _ _ _ Hev1).
    rewrite (up_fa _ _ _ _ _ Hup), Hal. split_and!; try done.
    + apply Hup.
    + intros a Ha. rewrite (up_bytes _ _ _ _ _ Hup) by (by eapply evolves_foreign).
      by apply (ev_bytes _ _ _ _ Hev1).
    + intros u. by rewrite (up_walk _ _ _ _ _ Hup), (ev_walk _ _ _ _ Hev1).
  - destruct (decide (e = NotPageAligned)) as [->|Hne].
    { destruct Hpost as [-> ->]. split_and!; try done; lia. }
    assert (aligned_for_map v phys = true ∧ progress self s v 3 s' ∧ map_error self s v s' e)
      as (-> & [Hok Hev _] & Herr) by (by destruct e).
    pose proof (ev_walk _ _ _ _ Hev).
    split_and!; [done|apply Hev..|by split; [intros [=]|]|]. by destruct e; naive_solver.
Qed.

(** C8: [unmap] on every branch.  It always returns; on success the page held
    a 4 KiB leaf, the frame of that leaf is returned, just that page becomes
    unmapped, its cached translation is dropped and no frame is taken or
    given back; every error leaves the machine as it was and is exact. *)
Theorem unmap_correct self s v :
  vm_ok self s →
  ∃ r s', unmap self v s = Ret (r, s') ∧ vm_ok self s' ∧ m_fa s' = m_fa s ∧
    (∀ a, foreign self s a → m_mem s' !! a = m_mem s !! a) ∧
    (r = Err UnmapNotPageAligned ↔ is_page_aligned v = false) ∧
    match r with
    | Ok pa => (∃ e, walk_of self (m_mem s) v = Leaf e ∧ pa = addr e) ∧
        (∀ u, walk_of self (m_mem s') u =
          if decide (VirtAddr.page u = VirtAddr.page v) then Unmapped
          else walk_of self (m_mem s) u) ∧
        m_tlb s' = delete (VirtAddr.page v) (m_tlb s)
    | Err UnmapNotPageAligned => s' = s
    | Err NotMapped => s' = s ∧ walk_of self (m_mem s) v = Unmapped
    | Err IsHugePage => s' = s ∧ ∃ n e, walk_of self (m_mem s) v = Huge n e
    | Err UnmapPageTableUnreachable => False
    end.
Proof.
  intros Hvm. destruct (unmap_ok self s v Hvm) as (r & s' & Hrun & Hpost).
  exists r, s'. split; [done|]. destruct r as [pa|[]]; cbn [unmap_post] in Hpost; try done.
  - destruct Hpost as (-> & He & Hup). split_and!; try apply Hup; done.
  - destruct Hpost as (-> & ->). by split_and!.
  - destruct Hpost as (-> & -> & ?). by split_and!.
  - destruct Hpost as (-> & -> & ?). by split_and!.
Qed.

(** C20: mapping a page and unmapping it again.  After a successful [map] every
    address of the page translates to the same offset of the frame and
    [flags_at] reports the requested permissions; [unmap] then returns that
    very frame, after which every address translates as before the [map]. *)
Theorem map_unmap_roundtrip self s v phys fl s1 :
  vm_ok self s → 0 ≤ PhysAddr.as_u64 phys < 2 ^ 52 →
  map self v phys fl s = Ret (Ok tt, s1) →
  (∀ off, 0 ≤ off < FRAME_SIZE →
     translate (m_mem s1) self (VirtAddr.new (VirtAddr.as_u64 v + off)) =
     Ret (Some (PhysAddr.new (PhysAddr.as_u64 phys + off)))) ∧
  flags_at (m_mem s1) self v = Ret (Some fl) ∧
  ∃ s2, unmap self v s1 = Ret (Ok phys, s2) ∧ m_fa s2 = m_fa s1 ∧
    ∀ u, translate (m_mem s2) self u = translate (m_mem s) self u.
Proof.
  intros Hvm Hphys Hmap. destruct (map_ok self s v phys fl Hvm) as (r & s' & Hrun & Hpost).
  rewrite Hmap in Hrun. simplify_eq. destruct Hpost as (Hal & Hun & s0 & Hpr & Hup).
  unfold aligned_for_map in Hal. apply andb_true_iff in Hal as [Hv Hp].
  pose proof (up_ok _ _ _ _ _ Hup) as Hvm1. pose proof (ev_walk _ _ _ _ (pr_evolves _ _ _ _ _ Hpr)) as Hw0.
  assert (Hw : ∀ u, VirtAddr.page u = VirtAddr.page v →
    walk_of self (m_mem s') u = Leaf (new_leaf phys fl)).
  { intros u Hu. by rewrite (up_walk _ _ _ _ _ Hup), decide_True. }
  split_and!.
  - intros off Hoff. destruct (page_offset_within v off Hv Hoff) as [Hpg Hpo].
    rewrite translate_walk, Hw by done. cbn [resolve]. rewrite Hpo, new_leaf_addr by done.
    apply is_frame_aligned_spec in Hp. by rewrite lor_offset.
  - rewrite flags_at_walk, Hw by done. cbn [leaf_flags].
    rewrite new_leaf_writable, new_leaf_no_execute. by destruct fl.
  - destruct (unmap_ok self s' v Hvm1) as (r & s2 & -> & Hpost).
    destruct r as [pa|[]]; cbn [unmap_post] in Hpost; try done; [|naive_solver congruence..].
    destruct Hpost as (_ & (e & He & ->) & Hup2). rewrite Hw in He by done. injection He as <-.
    rewrite new_leaf_addr by done. exists s2. split_and!; [done|apply Hup2|].
    intros u. rewrite !translate_walk by (done || apply Hup2).
    rewrite (up_walk _ _ _ _ _ Hup2), (up_walk _ _ _ _ _ Hup), Hw0.
    case_decide as Hpg; [|done]. by rewrite (walk_of_page _ _ _ _ Hpg), Hun.
Qed.

(** One step of the system: a [map], an [unmap], or the processor caching the
    current translation of a page. *)
Inductive vm_step self : machine A → machine A → Prop :=
| step_map v phys fl r s s' : map self v phys fl s = Ret (r, s') → vm_step self s s'
| step_unmap v r s s' : unmap self v s = Ret (r, s') → vm_step self s s'
| step_fill v b s : is_page_aligned v = true →
    resolve (walk_of self (m_mem s) v) v = Some b →
    vm_step self s (set_tlb s (<[VirtAddr.page v := PhysAddr.as_u64 b]> (m_tlb s))).

Lemma vm_step_ok self s s' :
  vm_step self s s' → vm_ok self s → tlb_coherent self s → vm_ok self s' ∧ tlb_coherent self s'.
Proof.
  intros Hstep Hvm Hco. destruct Hstep as [v phys fl r s s' Hrun|v r s s' Hrun|v b s Hal Hres].
  - destruct (map_ok self s v phys fl Hvm) as (r' & s'' & Hrun' & Hpost).
    rewrite Hrun in Hrun'. simplify_eq. destruct r' as [[]|e].
    + destruct Hpost as (_ & _ & s1 & Hpr & Hup). split; [apply Hup|].
      eapply updates_coherent, Hup. eapply evolves_coherent, Hpr. done.
    + destruct (decide (e = NotPageAligned)) as [->|]; [by destruct Hpost as [_ ->]|].
      assert (progress self s v 3 s'') as [? ? _] by (destruct e; cbn in Hpost; tauto).
      split; [done|by eapply evolves_coherent].
  - destruct (unmap_ok self s v Hvm) as (r' & s'' & Hrun' & Hpost).
    rewrite Hrun in Hrun'. simplify_eq. destruct r' as [pa|[]]; cbn [unmap_post] in Hpost; try done.
    + destruct Hpost as (_ & _ & Hup). split; [apply Hup|by eapply updates_coherent].
    + by destruct Hpost as [_ ->].
    + by destruct Hpost as (_ & -> & _).
    + by destruct Hpost as (_ & -> & _).
  - split; [by destruct Hvm|]. intros u c Hu. cbn [set_tlb m_tlb m_mem]. rewrite lookup_insert. case_decide as Hpg.
    + intros [= <-]. rewrite PhysAddr_eta, <- Hres.
      rewrite <- (walk_of_page _ _ _ _ Hpg). by apply resolve_same_page.
    + by apply Hco.
Qed.

(** C22: the TLB never serves a stale translation: whatever maps, unmaps and
    processor fills happen, in any order, the table invariant holds and
    every cached translation is what the tables say now. *)
Theorem tlb_never_stale self s s' :
  vm_ok self s → tlb_coherent self s → rtc (vm_step self) s s' →
  vm_ok self s' ∧ tlb_coherent self s'.
Proof.
  intros Hvm Hco Hsteps. induction Hsteps as [|s s1 s2 Hstep _ IH]; [done|].
  destruct (vm_step_ok self s s1) as [? ?]; [done..|]. by apply IH.
Qed.

(** [init] roots the manager at CR3 and turns on exactly the no-execute
    bit (bit 11) of EFER, every other bit and all other state unchanged;
    running it again changes nothing. *)
Theorem init_enables_nxe s :
  u64 (m_efer s) →
  ∃ s', init s = ({| pml4_phys := PhysAddr.new (m_cr3 s) |}, s') ∧
    (∀ i, 0 ≤ i → Z.testbit (m_efer s') i = (i =? 11) || Z.testbit (m_efer s) i) ∧
    set_efer s' (m_efer s) = s ∧ (init s').2 = s'.
Proof.
  intros Hu. pose proof (enable_nxe_set s Hu) as Hs.
  exists (set_efer s (Z.lor (m_efer s) EFER_NXE_BIT)). unfold init. rewrite Hs. split_and!.
  - done.
  - intros i Hi. cbn [set_efer m_efer]. unfold EFER_NXE_BIT.
    rewrite Z.lor_spec, testbit_shiftl_one by done. apply orb_comm.
  - by destruct s.
  - cbn [snd]. rewrite enable_nxe_set by (by apply set_nxe_u64).
    unfold set_efer; cbn. f_equal. by rewrite <- Z.lor_assoc, Z.lor_diag.
Qed.

End properties.

(** ** A machine with an empty tree *)
Lemma empty_tree_ok m root free :
  table_ok m free root → (∀ i, idx_ok i → ent m root i = cleared) → tables_ok m root free.
Proof.
  intros Hok Hz.
  assert (Hat : ∀ p t, path_ok p → table_at m root p = Some t → p = [] ∧ t = root).
  { intros [|i p] t [_ Hf]; cbn [table_at]; [by intros [= ->]|].
    apply Forall_cons in Hf as [Hi _]. by rewrite next_table_zero. }
  split.
  - intros p t Hp Ht. by destruct (Hat p t Hp Ht) as [_ ->].
  - intros p q t Hp Hq Hpt Hqt. destruct (Hat p t Hp Hpt) as [-> _]. by destruct (Hat q t Hq Hqt) as [-> _].
  - intros i Hi. by rewrite Hz.
Qed.

(** Seven frames of zeroed memory: frame 0 is missing, frame 1 is the root
    table, frames 2 to 6 are free. *)
Definition demo_fa : FrameAllocator := mkFrameAllocator 0 [3] 7 5 0.
Definition demo : machine FrameAllocator :=
  mkMachine (zero_mem 0x1000 0x6000) demo_fa ∅ 0xD01 0x1000.
Definition demo_vmm : VirtualMemoryManager := mkVmm (PhysAddr.new 0x1000).

Lemma demo_fa_wf : wf demo_fa.
Proof. split; [done|done|repeat constructor; lia|vm_compute; reflexivity|done]. Qed.
Lemma demo_free f : f ∈ free_frames demo_fa → 2 ≤ f < 7.
Proof.
  intros [Hr Hu]%elem_of_free_frames. cbn in Hr.
  destruct (decide (f = 0)) as [->|]; [done|]. destruct (decide (f = 1)) as [->|]; [done|]. lia.
Qed.
Lemma demo_entries i : idx_ok i → ent (m_mem demo) (root demo_vmm) i = cleared.
Proof.
  intros Hi. unfold ent, demo. cbn [m_mem]. unfold idx_ok, root in *.
  rewrite zero_mem_word; [done|cbn; lia|cbn; lia].
Qed.

Lemma demo_vm_ok : vm_ok (P := release_profile) demo_vmm demo.
Proof.
  assert (Hroot : mapped (zero_mem 0x1000 0x6000) 0x1000 FRAME_SIZE) by (by apply zero_mem_mapped).
  split.
  - apply demo_fa_wf.
  - apply empty_tree_ok.
    + split_and!; [done..|]. intros Hf%demo_free. change (root demo_vmm / FRAME_SIZE) with 1 in Hf. lia.
    + exact demo_entries.
  - intros Hf%demo_free. lia.
  - intros f Hf%demo_free _. unfold FRAME_SIZE. apply zero_mem_mapped; lia.
Qed.
Lemma demo_coherent : tlb_coherent demo_vmm demo.
Proof.
  intros v b _ Hb. unfold demo in Hb. cbn [m_tlb] in Hb. rewrite lookup_empty in Hb. discriminate Hb.
Qed.

Definition demo_page : VirtAddr := VirtAddr.new 0xFFFF880000001000.
Definition demo_flags : PageFlags := {| writable := true; no_execute := true |}.
Local Notation demo_map :=
  (map (P := release_profile) demo_vmm demo_page (PhysAddr.new 0x5000) demo_flags demo).

(** The map succeeds: the page is free, and five frames cover three tables. *)
Lemma demo_maps : ∃ s1, demo_map = Ret (Ok tt, s1).
Proof.
  destruct (map_ok (P := release_profile) demo_vmm demo demo_page (PhysAddr.new 0x5000)
    demo_flags demo_vm_ok) as (r & s1 & Hrun & Hpost).
  assert (Hun : walk_of demo_vmm (m_mem demo) demo_page = Unmapped)
    by (apply walk_zero; [exact demo_entries|apply indices_ok]).
  destruct r as [[]|e]; [exists s1; exact Hrun|exfalso].
  destruct e; cbn [map_post] in Hpost.
  - destruct Hpost as [Hal _]. vm_compute in Hal. discriminate Hal.
  - destruct Hpost as (_ & _ & _ & l & Hl). congruence.
  - destruct Hpost as (_ & [Hok Hev _] & _ & Hnone).
    pose proof (ev_size _ _ _ _ Hev) as Hsz. pose proof (ev_free _ _ _ _ Hev) as Hsub.
    change (size (fs_free (m_fa demo))) with (size (free_frames demo_fa)) in Hsz.
    assert (size (free_frames demo_fa) = 5%nat) as H4 by (vm_compute; reflexivity).
    destruct (decide (size (free_frames (m_fa s1)) = 0%nat)) as [H0|H0];
      [change (size (fs_free (m_fa s1))) with (size (free_frames (m_fa s1))) in Hsz; lia|].
    destruct (size_pos_elem_of (C := gset Z) (free_frames (m_fa s1))) as [f Hf]; [lia|].
    pose proof (Hnone f Hf) as Hge. apply Hsub in Hf.
    apply (demo_free f) in Hf. unfold IDENTITY_MAP_LIMIT, FRAME_SIZE in Hge. lia.
  - destruct Hpost as (_ & _ & []).
  - destruct Hpost as (_ & _ & _ & n & l & Hl). congruence.
Qed.

Lemma demo_phys_range : 0 ≤ PhysAddr.as_u64 (PhysAddr.new 0x5000) < 2 ^ 52.
Proof. cbn. lia. Qed.
Lemma demo_efer_range : u64 (m_efer demo).
Proof. unfold demo. cbn [m_efer]. unfold u64. lia. Qed.
Lemma demo_offset_range : 0 ≤ 0x234 < FRAME_SIZE.
Proof. unfold FRAME_SIZE. lia. Qed.

Lemma translate_refines_walk_witness :
  translate (m_mem demo) demo_vmm demo_page =
    Ret (resolve (walk_of demo_vmm (m_mem demo) demo_page) demo_page).
Proof. exact (proj1 (translate_refines_walk (P := release_profile) demo_vmm demo demo_page demo_vm_ok)). Defined.

Lemma map_correct_witness :
  ∃ r s', map (P := release_profile) demo_vmm demo_page (PhysAddr.new 0x5000) read_write demo
          = Ret (r, s') ∧ vm_ok (P := release_profile) demo_vmm s'.
Proof.
  destruct (map_correct (P := release_profile) demo_vmm demo demo_page (PhysAddr.new 0x5000)
    read_write demo_vm_ok) as (r & s' & Hrun & Hok & _). exists r, s'. split; [exact Hrun|exact Hok].
Defined.

Lemma unmap_correct_witness :
  ∃ r s', unmap demo_vmm demo_page demo = Ret (r, s') ∧
          vm_ok (P := release_profile) demo_vmm s'.
Proof.
  destruct (unmap_correct (P := release_profile) demo_vmm demo demo_page demo_vm_ok)
    as (r & s' & Hrun & Hok & _). exists r, s'. split; [exact Hrun|exact Hok].
Defined.

Lemma map_unmap_roundtrip_witness :
  ∃ s1 s2, demo_map = Ret (Ok tt, s1) ∧
    translate (m_mem s1) demo_vmm (VirtAddr.new (0xFFFF880000001000 + 0x234)) =
      Ret (Some (PhysAddr.new 0x5234)) ∧
    unmap demo_vmm demo_page s1 = Ret (Ok (PhysAddr.new 0x5000), s2).
Proof.
  destruct demo_maps as [s1 Hs1].
  destruct (map_unmap_roundtrip (P := release_profile) demo_vmm demo demo_page (PhysAddr.new 0x5000)
    demo_flags s1 demo_vm_ok demo_phys_range Hs1)
    as (Htr & _ & s2 & Hun & _).
  exists s1, s2. split; [exact Hs1|]. split; [exact (Htr 0x234 demo_offset_range)|exact Hun].
Defined.

Lemma tlb_never_stale_witness :
  ∃ s1, demo_map = Ret (Ok tt, s1) ∧ tlb_coherent demo_vmm s1.
Proof.
  destruct demo_maps as [s1 Hs1]. exists s1. split; [exact Hs1|].
  apply (tlb_never_stale (P := release_profile) demo_vmm demo s1 demo_vm_ok demo_coherent).
  eapply rtc_l; [|apply rtc_refl]. eapply step_map. exact Hs1.
Defined.

Lemma init_enables_nxe_witness :
  m_efer (init demo).2 = 0xD01 ∧ ∃ s', init demo = (demo_vmm, s') ∧ (init s').2 = s'.
Proof.
  split; [reflexivity|].
  destruct (init_enables_nxe demo demo_efer_range) as (s' & Hs' & _ & _ & Hi).
  exists s'. split; [exact Hs'|exact Hi].
Defined.
