(* ===== verification/HeapMemory.v ===== *)
(** The memory a free-list allocator runs on.

    The allocator reads and writes aligned [usize] words inside regions it
    owns.  This interface is all it needs from memory: which words are
    accessible, what they hold (as words and as bytes), and that a store
    changes one word and keeps every other.  [hm_frame] is what the rest of the system keeps across such
    stores.  Flat byte memory provides it (the [Vec<u8>] buffer of the
    host tests); the kernel heap provides it through the page tables. *)
From stdpp Require Import base numbers option gmap list_numbers list.
From S2P Require Import Prelude Memory.

Class HeapMemory (W : Type) : Type := {
  hm_load : W → Z → outcome Z;
  hm_store : W → Z → Z → outcome W;
  hm_ok : W → Z → Prop;
  hm_word : W → Z → Z;
  hm_byte : W → Z → option Z;
  hm_frame : W → W → Prop;

  hm_frame_refl w : hm_frame w w;
  hm_frame_trans w1 w2 w3 : hm_frame w1 w2 → hm_frame w2 w3 → hm_frame w1 w3;
  hm_ok_aligned w p : hm_ok w p → p ≠ 0 ∧ p mod 8 = 0;
  hm_load_law w p : hm_ok w p → hm_load w p = Ret (hm_word w p);
  hm_store_law w p v : hm_ok w p → u64 v →
    ∃ w', hm_store w p v = Ret w' ∧ hm_word w' p = v ∧
      (∀ q, hm_ok w q → q ≠ p → hm_word w' q = hm_word w q) ∧
      (∀ q, hm_ok w q → hm_ok w' q) ∧ hm_frame w w' ∧
      (∀ q i, hm_ok w q → q ≠ p → 0 ≤ i < 8 → hm_byte w' (q + i) = hm_byte w (q + i));
}.

(** Flat memory: raw [usize] accesses through a pointer. *)
Definition flat_ok (m : mem) (p : Z) : Prop := p ≠ 0 ∧ p mod 8 = 0 ∧ mapped m p 8.

#[global] Program Instance flat_memory : HeapMemory mem := {|
  hm_load := read_volatile_u64;
  hm_store := write_volatile_u64;
  hm_ok := flat_ok;
  hm_word := word;
  hm_byte := λ m a, m !! a;
  hm_frame := λ m m', ∀ i, is_Some (m' !! i) ↔ is_Some (m !! i);
|}.
Next Obligation. done. Qed.
Next Obligation. intros m1 m2 m3 H1 H2 i. cbn in *. by rewrite H2, H1. Qed.
Next Obligation. intros m p (? & ? & _). done. Qed.
Next Obligation.
  intros m p (? & ? & ?). apply read_volatile_ok; [by apply volatile_ok_spec|done].
Qed.
Next Obligation.
  intros m p v (? & ? & ?) Hv.
  destruct (write_volatile_ok m p v) as (m' & Hw & Hword & Hf & Hd); [by apply volatile_ok_spec|done..|].
  exists m'. split_and!; [done..| | |done|].
  - intros q (Hq0 & Hq & _) Hne. apply word_ext. intros i Hi. apply Hf. dlia.
  - intros q (Hq0 & Hq & Hm). split_and!; [done..|]. by eapply mapped_dom.
  - intros q i (Hq0 & Hq & _) Hne Hi. apply Hf. dlia.
Qed.
