(* ===== verification/LinkedListAllocator.v ===== *)
(** The free-list allocator: [kernel/src/mm/linked_list_allocator.rs].

    A free block's first two words are its node: its size and the address of
    the next free block.  A node pointer is the sentinel head inside the
    allocator value or the address of a block.  The loops over the list take
    fuel, one unit per node visited. *)
From stdpp Require Import base numbers option gmap list_numbers list.
From S2P Require Import Prelude Memory HeapMemory.

(** [core::alloc::Layout]: [size] and a power-of-two [align], with the size
    rounded up to the alignment within [isize::MAX]. *)
Record Layout : Type := mkLayout { layout_size : Z; layout_align : Z }.
Definition ISIZE_MAX : Z := 2 ^ 63 - 1.
Definition from_size_align (sz al : Z) : option Layout :=
  if ISIZE_MAX - (al - 1) <? sz then None else Some (mkLayout sz al).
Definition align_to (self : Layout) (al : Z) : option Layout :=
  from_size_align (layout_size self) (Z.max (layout_align self) al).
Definition pad_to_align (self : Layout) : Layout :=
  mkLayout (div_ceil (layout_size self) (layout_align self) * layout_align self) (layout_align self).

Definition NODE_SIZE : Z := 16.
Definition NODE_ALIGN : Z := 8.

Record FreeListNode : Type := mkNode { node_size : Z; node_next : Z }.
Record LinkedListAllocator : Type := mkAllocator { head : FreeListNode }.

Definition new : LinkedListAllocator := mkAllocator (mkNode 0 0).

(** [*mut FreeListNode]: the sentinel, or a block. *)
Inductive node_ptr : Type := Head | Node (a : Z).

Section operations.
Context {P : BuildProfile} {W : Type} {HM : HeapMemory W}.
Abbreviation heap := (LinkedListAllocator * W)%type.

Definition align_up (addr al : Z) : outcome Z :=
  sum ← add64 addr al;
  sum ← sub64 sum 1;
  mask ← sub64 al 1;
  Ret (Z.land sum (not_w 64 mask)).

Definition adjusted_size_align (layout : Layout) : outcome (Z * Z) :=
  match align_to layout NODE_ALIGN with
  | None => Panic ExpectFailed
  | Some layout =>
    let layout := pad_to_align layout in
    Ret (Z.max (layout_size layout) NODE_SIZE, layout_align layout)
  end.

(** The fields of the node a pointer designates. *)
Definition get_size (p : node_ptr) : M heap Z := λ '(self, w),
  match p with
  | Head => Ret (node_size (head self), (self, w))
  | Node a => v ← hm_load w a; Ret (v, (self, w))
  end.
Definition get_next (p : node_ptr) : M heap Z := λ '(self, w),
  match p with
  | Head => Ret (node_next (head self), (self, w))
  | Node a => v ← hm_load w (a + 8); Ret (v, (self, w))
  end.
Definition set_size (p : node_ptr) (v : Z) : M heap unit := λ '(self, w),
  match p with
  | Head => Ret (tt, (mkAllocator (mkNode v (node_next (head self))), w))
  | Node a => w ← hm_store w a v; Ret (tt, (self, w))
  end.
Definition set_next (p : node_ptr) (v : Z) : M heap unit := λ '(self, w),
  match p with
  | Head => Ret (tt, (mkAllocator (mkNode (node_size (head self)) v), w))
  | Node a => w ← hm_store w (a + 8) v; Ret (tt, (self, w))
  end.
Definition stop {A} (o : outcome A) : M heap A := lift o.

(** Walk to the last node whose address is below [addr]. *)
Fixpoint find_prev (fuel : nat) (prev : node_ptr) (addr : Z) : M heap node_ptr :=
  match fuel with
  | O => stop NoFuel
  | S fuel =>
    next ← get_next prev;
    if negb (next =? 0) && (next <? addr) then find_prev fuel (Node next) addr else mret prev
  end.

(** Does the region directly follow the block [prev], or directly precede the
    block [next]? *)
Definition merge_backward (prev : node_ptr) (addr : Z) : M heap bool :=
  match prev with
  | Head => mret false
  | Node p => sz ← get_size prev; e ← stop (add64 p sz); mret (e =? addr)
  end.
Definition merge_forward (next addr size : Z) : M heap bool :=
  if next =? 0 then mret false else e ← stop (add64 addr size); mret (e =? next).

(** The four ways to link the region in. *)
Definition splice (prev : node_ptr) (next addr size : Z) (backward forward : bool) : M heap unit :=
  match backward, forward with
  | true, true =>
    next_size ← get_size (Node next);
    grown ← stop (add64 size next_size);
    prev_size ← get_size prev;
    total ← stop (add64 prev_size grown);
    _ ← set_size prev total;
    after ← get_next (Node next);
    set_next prev after
  | true, false =>
    prev_size ← get_size prev;
    total ← stop (add64 prev_size size);
    set_size prev total
  | false, true =>
    next_size ← get_size (Node next);
    total ← stop (add64 size next_size);
    _ ← set_size (Node addr) total;
    after ← get_next (Node next);
    _ ← set_next (Node addr) after;
    set_next prev addr
  | false, false =>
    _ ← set_size (Node addr) size;
    _ ← set_next (Node addr) next;
    set_next prev addr
  end.

Definition add_free_region (fuel : nat) (addr size : Z) : M heap unit :=
  if negb (addr mod NODE_ALIGN =? 0) then stop (Panic AssertFailed) else
  if size <? NODE_SIZE then stop (Panic AssertFailed) else
  prev ← find_prev fuel Head addr;
  next ← get_next prev;
  backward ← merge_backward prev addr;
  forward ← merge_forward next addr size;
  splice prev next addr size backward forward.

(** A block that fits: unlink it and give the leftover edges back. *)
Definition take_block (fuel : nat) (prev : node_ptr)
    (current alloc_start alloc_end region_end : Z) : M heap Z :=
  next ← get_next (Node current);
  _ ← set_next prev next;
  front_gap ← stop (sub64 alloc_start current);
  _ ← (if NODE_SIZE <=? front_gap then add_free_region fuel current front_gap else mret tt);
  back_gap ← stop (sub64 region_end alloc_end);
  _ ← (if NODE_SIZE <=? back_gap then add_free_region fuel alloc_end back_gap else mret tt);
  mret alloc_start.

(** First fit: the loop of [alloc] from the block [current] on. *)
Fixpoint alloc_loop (fuel : nat) (walk : nat) (size align : Z) (prev : node_ptr) (current : Z) :
    M heap Z :=
  match walk with
  | O => stop NoFuel
  | S walk =>
    if current =? 0 then mret 0 else
    let region_start := current in
    region_size ← get_size (Node current);
    region_end ← stop (add64 region_start region_size);
    alloc_start ← stop (align_up region_start align);
    let go_on := (next ← get_next (Node current);
                  alloc_loop fuel walk size align (Node current) next) : M heap Z in
    match checked_add alloc_start size with
    | None => go_on
    | Some alloc_end =>
      if alloc_end <=? region_end
      then take_block fuel prev region_start alloc_start alloc_end region_end
      else go_on
    end
  end.

Definition alloc (fuel : nat) (layout : Layout) : M heap Z :=
  adj ← stop (adjusted_size_align layout);
  let '(size, align) := adj : Z * Z in
  first ← get_next Head;
  alloc_loop fuel fuel size align Head first.

Definition dealloc (fuel : nat) (ptr : Z) (layout : Layout) : M heap unit :=
  adj ← stop (adjusted_size_align layout);
  let '(size, _) := adj : Z * Z in
  add_free_region fuel ptr size.

End operations.

(** ** More fuel never changes a result *)
Section fuel.
Context {P : BuildProfile} {W : Type} {HM : HeapMemory W}.
Abbreviation heap := (LinkedListAllocator * W)%type.

(** Step over a computation that does not depend on the fuel. *)
Local Ltac same_step := apply M_bind_mono; [done|intros ? ?].

Lemma find_prev_mono n m p a (st : heap) r :
  (n ≤ m)%nat → find_prev n p a st = Ret r → find_prev m p a st = Ret r.
Proof.
  revert m p st. induction n as [|n IH]; intros [|m] p st Hle; try done; [lia|].
  cbn [find_prev]. same_step. destruct (_ && _); [|done]. apply IH. lia.
Qed.

Lemma add_free_region_mono n m a s (st : heap) r :
  (n ≤ m)%nat → add_free_region n a s st = Ret r → add_free_region m a s st = Ret r.
Proof.
  intros Hle. unfold add_free_region. destruct (negb _); [done|]. destruct (s <? NODE_SIZE); [done|].
  apply M_bind_mono; [|done]. intros ? ?. by apply find_prev_mono.
Qed.
Lemma give_back_mono n m a g (st : heap) r :
  (n ≤ m)%nat →
  (if NODE_SIZE <=? g then add_free_region n a g else mret tt) st = Ret r →
  (if NODE_SIZE <=? g then add_free_region m a g else mret tt) st = Ret r.
Proof. destruct (NODE_SIZE <=? g); [apply add_free_region_mono|done]. Qed.

Lemma take_block_mono n m prev c a e r (st : heap) res :
  (n ≤ m)%nat → take_block n prev c a e r st = Ret res → take_block m prev c a e r st = Ret res.
Proof.
  intros Hle. unfold take_block. do 3 same_step.
  apply M_bind_mono; [intros ? ?; by apply give_back_mono|intros ? ?]. same_step.
  apply M_bind_mono; [intros ? ?; by apply give_back_mono|done].
Qed.

Lemma alloc_loop_mono n m i j sz al prev c (st : heap) r :
  (n ≤ m)%nat → (i ≤ j)%nat →
  alloc_loop n i sz al prev c st = Ret r → alloc_loop m j sz al prev c st = Ret r.
Proof.
  intros Hnm. revert j prev c st. induction i as [|i IH]; intros [|j] prev c st Hij; try done; [lia|].
  cbn [alloc_loop]. destruct (c =? 0); [done|]. do 3 same_step.
  destruct (checked_add _ sz) as [ae|]; [case_match; [by apply take_block_mono|]|];
    (same_step; apply IH; lia).
Qed.

Lemma alloc_mono n m layout (st : heap) r :
  (n ≤ m)%nat → alloc n layout st = Ret r → alloc m layout st = Ret r.
Proof.
  intros Hle. unfold alloc. apply M_bind_mono; [done|]. intros [sz al] ?. same_step.
  by apply alloc_loop_mono.
Qed.
Lemma dealloc_mono n m p layout (st : heap) r :
  (n ≤ m)%nat → dealloc n p layout st = Ret r → dealloc m p layout st = Ret r.
Proof.
  intros Hle. unfold dealloc. apply M_bind_mono; [done|]. intros [sz al] ?.
  by apply add_free_region_mono.
Qed.

End fuel.
