(* ===== verification/FreeBlocks.v ===== *)
(** Lists of free blocks.

    The abstract content of a free list: blocks [(address, size)] in address
    order, aligned, at least one node large and never adjacent.  Such a list
    is determined by the bytes it covers. *)
From stdpp Require Import base numbers option gmap list_numbers list.
From S2P Require Import Prelude.

Abbreviation blocks := (list (Z * Z)).

Definition start (l : blocks) (tl : Z) : Z :=
  match l with [] => tl | (a, _) :: _ => a end.
Fixpoint last_end (lo : Z) (l : blocks) : Z :=
  match l with [] => lo | (a, s) :: l => last_end (a + s) l end.

Fixpoint wf_from (lo hi : Z) (l : blocks) : Prop :=
  match l with
  | [] => True
  | (a, s) :: l => lo < a ∧ a mod 8 = 0 ∧ s mod 8 = 0 ∧ 16 ≤ s ∧ a + s ≤ hi ∧ wf_from (a + s) hi l
  end.

(** The free bytes. *)
Definition covers (l : blocks) (x : Z) : Prop := ∃ a s, (a, s) ∈ l ∧ a ≤ x < a + s.

Lemma covers_nil x : ¬ covers [] x.
Proof. intros (a & s & H & _). by apply elem_of_nil in H. Qed.
Lemma covers_cons a s l x : covers ((a, s) :: l) x ↔ a ≤ x < a + s ∨ covers l x.
Proof.
  unfold covers. setoid_rewrite elem_of_cons. split.
  - intros (b & t & [[= -> ->]|H] & Hx); [by left|right; eauto].
  - intros [Hx|(b & t & H & Hx)]; [exists a, s|exists b, t]; eauto.
Qed.
Lemma covers_app l1 l2 x : covers (l1 ++ l2) x ↔ covers l1 x ∨ covers l2 x.
Proof. unfold covers. setoid_rewrite elem_of_app. naive_solver. Qed.

Lemma wf_from_app lo hi l1 l2 :
  wf_from lo hi (l1 ++ l2) ↔ wf_from lo hi l1 ∧ wf_from (last_end lo l1) hi l2.
Proof.
  revert lo. induction l1 as [|[a s] l1 IH]; intros lo; cbn; [tauto|]. rewrite IH. tauto.
Qed.
Lemma last_end_app lo l1 l2 : last_end lo (l1 ++ l2) = last_end (last_end lo l1) l2.
Proof. revert lo. induction l1 as [|[a s] l1 IH]; intros lo; cbn; [done|]. apply IH. Qed.
Lemma last_end_le lo hi l : wf_from lo hi l → lo ≤ last_end lo l.
Proof.
  revert lo. induction l as [|[a s] l IH]; intros lo; cbn; [lia|].
  intros (? & ? & ? & ? & ? & Hl). apply IH in Hl. lia.
Qed.
Lemma wf_from_lower lo lo' hi l : wf_from lo hi l → (∀ a s, (a, s) ∈ l → lo' < a) → wf_from lo' hi l.
Proof.
  destruct l as [|[a s] l]; cbn; [done|]. intros (? & ?) Hlo. split; [|done].
  apply (Hlo a s). apply elem_of_cons. by left.
Qed.

Lemma wf_elem lo hi l a s :
  wf_from lo hi l → (a, s) ∈ l →
  lo < a ∧ a mod 8 = 0 ∧ s mod 8 = 0 ∧ 16 ≤ s ∧ a + s ≤ hi.
Proof.
  revert lo. induction l as [|[b t] l IH]; intros lo; cbn; [by intros _ ?%elem_of_nil|].
  intros (? & ? & ? & ? & ? & Hl) [[= -> ->]|Hin]%elem_of_cons; [done|].
  destruct (IH _ Hl Hin) as (? & ?). split; [lia|done].
Qed.
Lemma covers_range lo hi l x : wf_from lo hi l → covers l x → lo < x < hi.
Proof. intros Hwf (a & s & Hin & Hx). destruct (wf_elem _ _ _ _ _ Hwf Hin). lia. Qed.

(** Blocks consist of whole aligned words. *)
Lemma covers_word lo hi l q i :
  wf_from lo hi l → q mod 8 = 0 → 0 ≤ i < 8 → covers l (q + i) ↔ covers l q.
Proof.
  intros Hwf Hq Hi. split; intros (a & s & Hin & Hx); exists a, s; (split; [done|]);
    destruct (wf_elem _ _ _ _ _ Hwf Hin) as (_ & ? & ? & _); dlia.
Qed.

(** At most one block per sixteen bytes. *)
Lemma wf_length lo hi l : wf_from lo hi l → lo ≤ hi → 16 * Z.of_nat (length l) ≤ hi - lo.
Proof.
  revert lo. induction l as [|[a s] l IH]; intros lo; cbn [wf_from length]; [lia|].
  intros (? & _ & _ & ? & ? & Hl) _. apply IH in Hl; lia.
Qed.

Lemma wf_from_0 lo hi l x : wf_from lo hi l → x ≤ lo → ¬ covers l x.
Proof. intros Hwf Hx Hc. destruct (covers_range _ _ _ _ Hwf Hc). lia. Qed.

Lemma covers_before lo hi l1 l2 a s x :
  wf_from lo hi (l1 ++ (a, s) :: l2) → covers l1 x → x < a.
Proof.
  intros [H1 (Ha & _)]%wf_from_app Hc.
  enough (x < last_end lo l1) by lia. clear Ha. revert lo H1.
  induction l1 as [|[b t] l1 IH]; intros lo; [by intros _; apply covers_nil in Hc|].
  cbn [wf_from last_end]. intros (? & ? & ? & ? & ? & Hl).
  apply covers_cons in Hc as [Hx|Hc]; [|by apply IH].
  pose proof (last_end_le _ _ _ Hl). lia.
Qed.

(** A list is determined by the bytes it covers. *)
Lemma covers_start_le lo hi a s l1 b t l2 :
  wf_from lo hi ((b, t) :: l2) →
  (∀ x, covers ((a, s) :: l1) x ↔ covers ((b, t) :: l2) x) → 0 < s → b ≤ a.
Proof.
  intros (_ & _ & _ & ? & _ & H2) Heq Hs. specialize (Heq a). rewrite !covers_cons in Heq.
  destruct Heq as [[?|Hc] _]; [left; lia|lia|]. pose proof (covers_range _ _ _ _ H2 Hc). lia.
Qed.
Lemma covers_size_le lo hi a s l1 t l2 :
  wf_from lo hi ((a, s) :: l1) → wf_from lo hi ((a, t) :: l2) →
  (∀ x, covers ((a, s) :: l1) x ↔ covers ((a, t) :: l2) x) → t ≤ s.
Proof.
  intros (_ & _ & _ & ? & _ & H1) (_ & _ & _ & ? & _ & _) Heq.
  destruct (decide (t ≤ s)); [done|]. specialize (Heq (a + s)). rewrite !covers_cons in Heq.
  destruct Heq as [_ [?|Hc]]; [left; lia|lia|]. pose proof (covers_range _ _ _ _ H1 Hc). lia.
Qed.
Lemma blocks_canonical lo hi l1 l2 :
  wf_from lo hi l1 → wf_from lo hi l2 → (∀ x, covers l1 x ↔ covers l2 x) → l1 = l2.
Proof.
  revert lo l2. induction l1 as [|[a s] l1 IH]; intros lo [|[b t] l2] H1 H2 Heq; [done|..].
  - exfalso. apply (covers_nil b), Heq, covers_cons. destruct H2 as (? & ? & ? & ? & ?). lia.
  - exfalso. apply (covers_nil a), Heq, covers_cons. destruct H1 as (? & ? & ? & ? & ?). lia.
  - assert (a = b) as <-.
    { apply Z.le_antisymm.
      - eapply (covers_start_le lo hi b t l2 a s l1); [done|by intros; rewrite Heq|]. destruct H2; lia.
      - eapply (covers_start_le lo hi a s l1 b t l2); [done|done|]. destruct H1; lia. }
    assert (s = t) as <-.
    { apply Z.le_antisymm.
      - eapply (covers_size_le lo hi a t l2 s l1); [done|done|by intros; rewrite Heq].
      - by eapply (covers_size_le lo hi a s l1 t l2). }
    f_equal. destruct H1 as (_ & _ & _ & _ & _ & H1), H2 as (_ & _ & _ & _ & _ & H2).
    apply (IH (a + s)); [done..|]. intros x. specialize (Heq x). rewrite !covers_cons in Heq.
    split; intros Hc.
    + pose proof (covers_range _ _ _ _ H1 Hc). destruct Heq as [[?|?] _]; [by right|lia|done].
    + pose proof (covers_range _ _ _ _ H2 Hc). destruct Heq as [_ [?|?]]; [by right|lia|done].
Qed.

(** Splitting a list around a region disjoint from it. *)
Definition around (lo hi : Z) (l1 l2 : blocks) (a s : Z) : Prop :=
  Forall (λ b, b.1 < a) l1 ∧ last_end lo l1 ≤ a ∧ a + s ≤ start l2 hi.

Lemma split_around lo hi l a s :
  wf_from lo hi l → lo ≤ a → a + s ≤ hi → 0 < s → (∀ x, a ≤ x < a + s → ¬ covers l x) →
  ∃ l1 l2, l = l1 ++ l2 ∧ around lo hi l1 l2 a s.
Proof.
  revert lo. induction l as [|[b t] l IH]; intros lo Hwf Hlo Hhi Hs Hdis.
  - exists [], []. split; [done|]. split_and!; [done|done|cbn; lia].
  - cbn [wf_from] in Hwf. destruct Hwf as (? & ? & ? & ? & ? & Hl).
    assert (Hd : a + s ≤ b ∨ b + t ≤ a).
    { destruct (decide (a + s ≤ b)); [by left|]. destruct (decide (b + t ≤ a)); [by right|].
      exfalso. apply (Hdis (Z.max a b)); [lia|]. apply covers_cons. lia. }
    destruct Hd.
    + exists [], ((b, t) :: l). split; [done|]. by split_and!.
    + destruct (IH (b + t)) as (l1 & l2 & -> & Hf & Hle & Hst); [done|lia..| |].
      { intros x Hx Hc. apply (Hdis x Hx), covers_cons. by right. }
      exists ((b, t) :: l1), l2. split; [done|]. split_and!; [|done..].
      apply Forall_cons. cbn. split; [lia|done].
Qed.

(** Two blocks are the same or apart, so an interval of free bytes lies in
    one block. *)
Lemma wf_separate lo hi l b t c u :
  wf_from lo hi l → (b, t) ∈ l → (c, u) ∈ l → (b = c ∧ t = u) ∨ b + t < c ∨ c + u < b.
Proof.
  revert lo. induction l as [|[a s] l IH]; intros lo; [by intros _ ?%elem_of_nil|].
  cbn [wf_from]. intros (? & ? & ? & ? & ? & Hl).
  intros [[= -> ->]|Hb]%elem_of_cons [[= -> ->]|Hc]%elem_of_cons; [by left| | |by eapply IH].
  - right; left. apply (wf_elem _ _ _ _ _ Hl Hc).
  - right; right. apply (wf_elem _ _ _ _ _ Hl Hb).
Qed.
Lemma interval_block lo hi l a s :
  wf_from lo hi l → 0 < s → (∀ x, a ≤ x < a + s → covers l x) →
  ∃ b t, (b, t) ∈ l ∧ b ≤ a ∧ a + s ≤ b + t.
Proof.
  intros Hwf Hs Hcov. destruct (Hcov a ltac:(lia)) as (b & t & Hb & Hr). exists b, t.
  split_and!; [done|lia|]. destruct (decide (a + s ≤ b + t)); [done|exfalso].
  destruct (Hcov (b + t) ltac:(lia)) as (c & u & Hc & Hr').
  pose proof (wf_separate _ _ _ _ _ _ _ Hwf Hb Hc). lia.
Qed.
