(* ===== verification/FreeListSpec.v ===== *)
(** The free list in memory and the list of blocks it stands for.

    [rep] relates an allocator and its memory to a list of blocks;
    [add_free_region] is shown to return with the canonical list of the old
    free bytes and the new region. *)
From stdpp Require Import base numbers option gmap list_numbers list.
From S2P Require Import Prelude Memory HeapMemory LinkedListAllocator FreeBlocks.

Section spec.
Context {P : BuildProfile} {W : Type} {HM : HeapMemory W}.
Context (hi : Z) (Hhi : hi < 2 ^ 64).
Abbreviation heap := (LinkedListAllocator * W)%type.
Implicit Types (st : heap) (w : W) (l : blocks).

(** The nodes of a list segment whose last node points to [tl]. *)
Fixpoint nodes w l (tl : Z) : Prop :=
  match l with
  | [] => True
  | (a, s) :: l => hm_word w a = s ∧ hm_word w (a + 8) = start l tl ∧ nodes w l tl
  end.
Definition seg st l (tl : Z) : Prop :=
  node_size (head st.1) = 0 ∧ node_next (head st.1) = start l tl ∧ nodes st.2 l tl.

(** Every aligned word of a free block is accessible. *)
Definition owned w l : Prop := ∀ p, p mod 8 = 0 → covers l p → hm_ok w p.

Record rep st l : Prop := {
  rep_seg : seg st l 0;
  rep_owned : owned st.2 l;
  rep_wf : wf_from 0 hi l;
}.

(** Memory that kept every accessible word outside [X]. *)
Record keeps (X : Z → Prop) w w' : Prop := {
  kp_word : ∀ q, hm_ok w q → ¬ X q → hm_word w' q = hm_word w q;
  kp_ok : ∀ q, hm_ok w q → hm_ok w' q;
  kp_frame : hm_frame w w';
  kp_byte : ∀ q i, hm_ok w q → ¬ X q → 0 ≤ i < 8 → hm_byte w' (q + i) = hm_byte w (q + i);
}.

Lemma keeps_refl X w : keeps X w w.
Proof. split; [done..|apply hm_frame_refl|done]. Qed.
Lemma keeps_trans (X : Z → Prop) w1 w2 w3 : keeps X w1 w2 → keeps X w2 w3 → keeps X w1 w3.
Proof.
  intros [H1 O1 F1 B1] [H2 O2 F2 B2]. split; [|auto|by eapply hm_frame_trans|].
  - intros q Hq HX. rewrite H2 by auto. auto.
  - intros q i Hq HX Hi. rewrite B2 by auto. auto.
Qed.
Lemma keeps_weaken (X Y : Z → Prop) w w' : (∀ q, X q → Y q) → keeps X w w' → keeps Y w w'.
Proof. intros HXY [H O F B]. split; auto. Qed.

Lemma start_app l1 l2 tl : start (l1 ++ l2) tl = start l1 (start l2 tl).
Proof. by destruct l1 as [|[a s] l1]. Qed.
Lemma nodes_app w l1 l2 tl : nodes w (l1 ++ l2) tl ↔ nodes w l1 (start l2 tl) ∧ nodes w l2 tl.
Proof. induction l1 as [|[a s] l1 IH]; cbn; [tauto|]. rewrite IH, start_app. tauto. Qed.
Lemma seg_app st l1 l2 tl : seg st (l1 ++ l2) tl ↔ seg st l1 (start l2 tl) ∧ nodes st.2 l2 tl.
Proof. unfold seg. rewrite nodes_app, start_app. tauto. Qed.
Lemma owned_app w l1 l2 : owned w (l1 ++ l2) ↔ owned w l1 ∧ owned w l2.
Proof. unfold owned. setoid_rewrite covers_app. naive_solver. Qed.

Lemma covers_header lo l a s :
  wf_from lo hi l → (a, s) ∈ l →
  a mod 8 = 0 ∧ (a + 8) mod 8 = 0 ∧ covers l a ∧ covers l (a + 8).
Proof.
  intros Hwf Hin. destruct (wf_elem _ _ _ _ _ Hwf Hin) as (? & ? & ? & ? & ?).
  split_and!; [done|dlia|exists a, s; split; [done|lia]..].
Qed.
Lemma owned_header lo w l a s :
  wf_from lo hi l → owned w l → (a, s) ∈ l → hm_ok w a ∧ hm_ok w (a + 8).
Proof. intros Hwf Ho Hin. destruct (covers_header _ _ _ _ Hwf Hin) as (? & ? & ? & ?). auto. Qed.

Lemma nodes_keeps lo (X : Z → Prop) w w' l tl :
  wf_from lo hi l → owned w l → keeps X w w' → (∀ q, covers l q → ¬ X q) →
  nodes w l tl → nodes w' l tl.
Proof.
  revert lo. induction l as [|[a s] l IH]; intros lo Hwf Ho Hk HX; cbn; [done|]. intros (H1 & H2 & H3).
  destruct (owned_header lo w ((a, s) :: l) a s) as [Ha Ha8]; [done|done|by apply elem_of_cons; left|].
  destruct (covers_header lo ((a, s) :: l) a s) as (_ & _ & Hc & Hc8); [done|by apply elem_of_cons; left|].
  pose proof Hk as [Hkw Hok _ _]. rewrite !Hkw by auto. split_and!; [done..|].
  destruct Hwf as (_ & _ & _ & _ & _ & Hwf). eapply IH; [done| |done| |done].
  - intros p Hp Hcp. apply Ho; [done|]. apply covers_cons. by right.
  - intros q Hq. apply HX, covers_cons. by right.
Qed.
Lemma owned_keeps X w w' l : keeps X w w' → owned w l → owned w' l.
Proof. intros [_ Hok _ _] Ho p Hp Hc. auto. Qed.

(** A list seen in another memory with the same words, or under a larger
    bound. *)
Lemma nodes_ext lo w w' l tl :
  wf_from lo hi l → (∀ q, q mod 8 = 0 → covers l q → hm_word w' q = hm_word w q) →
  nodes w l tl → nodes w' l tl.
Proof.
  revert lo. induction l as [|[a s] l IH]; intros lo Hwf Hw; cbn; [done|]. intros (H1 & H2 & H3).
  destruct (covers_header lo ((a, s) :: l) a s) as (? & ? & Hc & Hc8); [done|by apply elem_of_cons; left|].
  rewrite !Hw by done. split_and!; [done..|]. destruct Hwf as (_ & _ & _ & _ & _ & Hwf).
  eapply IH; [done| |done]. intros q Hq Hcq. apply Hw; [done|]. apply covers_cons. by right.
Qed.
Lemma rep_ext self w w' l :
  rep (self, w) l →
  (∀ q, q mod 8 = 0 → covers l q → hm_word w' q = hm_word w q ∧ hm_ok w' q) → rep (self, w') l.
Proof.
  intros [(Hz & Hn & Hnodes) Ho Hwf] Hw. split; [|intros p Hp Hc; by apply Hw|done].
  split_and!; [done..|]. eapply (nodes_ext 0); [done| |done]. intros q Hq Hc. by apply Hw.
Qed.

(** ** The accessors *)
Definition last_ptr l : node_ptr :=
  match last l with Some (b, _) => Node b | None => Head end.
Lemma last_ptr_snoc l b t : last_ptr (l ++ [(b, t)]) = Node b.
Proof. unfold last_ptr. by rewrite last_snoc. Qed.

Lemma get_next_ok st l1 l2 :
  rep st (l1 ++ l2) → get_next (last_ptr l1) st = Ret (start l2 0, st).
Proof.
  intros [Hseg Ho Hwf]. destruct st as [self w]. apply seg_app in Hseg as [(_ & Hn & Hnodes) _].
  destruct l1 as [|[b t] l1 _] using rev_ind; [cbn in *; by rewrite Hn|].
  rewrite last_ptr_snoc. cbn.
  destruct (owned_header 0 w ((l1 ++ [(b, t)]) ++ l2) b t) as [_ Hb8]; [done..|set_solver|].
  rewrite hm_load_law by done. cbn. cbn [snd] in Hnodes. apply nodes_app in Hnodes as [_ (_ & -> & _)]. done.
Qed.
Lemma get_size_ok st l1 l2 b t :
  rep st (l1 ++ (b, t) :: l2) → get_size (Node b) st = Ret (t, st).
Proof.
  intros [Hseg Ho Hwf]. destruct st as [self w]. apply seg_app in Hseg as [_ (Hb & _)]. cbn in *.
  destruct (owned_header 0 w (l1 ++ (b, t) :: l2) b t) as [Hok _]; [done..|set_solver|].
  rewrite hm_load_law by done. cbn. by rewrite Hb.
Qed.
Lemma get_next_node st l1 l2 b t :
  rep st (l1 ++ (b, t) :: l2) → get_next (Node b) st = Ret (start l2 0, st).
Proof.
  intros Hr. rewrite <- (last_ptr_snoc l1 b t). apply get_next_ok. by rewrite <- app_assoc.
Qed.

Lemma find_prev_ok st pre l1 l2 a fuel :
  rep st (pre ++ l1 ++ l2) → Forall (λ b, b.1 < a) l1 → (start l2 0 = 0 ∨ a ≤ start l2 0) →
  (length l1 < fuel)%nat →
  find_prev fuel (last_ptr pre) a st = Ret (last_ptr (pre ++ l1), st).
Proof.
  revert pre fuel. induction l1 as [|[b t] l1 IH]; intros pre [|fuel] Hr Hf Hst Hlen; cbn in Hlen; try lia;
    cbn [find_prev]; unfold mbind, M_bind; rewrite (get_next_ok _ _ _ Hr).
  - rewrite app_nil_r. cbn [app]. destruct (Z.eqb_spec (start l2 0) 0) as [->|]; [done|].
    destruct (Z.ltb_spec (start l2 0) a); [lia|done].
  - apply Forall_cons in Hf as [Hb Hf]. cbn in Hb. cbn [app start].
    assert (Hb0 : b ≠ 0).
    { destruct (wf_elem 0 hi _ b t (rep_wf _ _ Hr)) as (? & _); [set_solver|lia]. }
    destruct (Z.eqb_spec b 0); [done|]. destruct (Z.ltb_spec b a); [|lia]. cbn [andb negb].
    rewrite <- (last_ptr_snoc pre b t). rewrite IH; [by rewrite <- app_assoc|by rewrite <- app_assoc|done|done|lia].
Qed.

(** ** The stores *)
Lemma set_next_last st l tl v lo :
  seg st l tl → owned st.2 l → wf_from lo hi l → u64 v →
  ∃ st', set_next (last_ptr l) v st = Ret (tt, st') ∧ seg st' l v ∧ keeps (covers l) st.2 st'.2.
Proof.
  destruct st as [self w]. intros (Hz & Hn & Hnodes) Ho Hwf Hv.
  destruct l as [|[b t] l _] using rev_ind.
  { eexists. split; [done|]. split; [done|apply keeps_refl]. }
  destruct (owned_header lo w (l ++ [(b, t)]) b t) as [Hb Hb8]; [done..|set_solver|].
  rewrite last_ptr_snoc. cbn. destruct (hm_store_law w (b + 8) v Hb8 Hv) as (w' & -> & Hw & Hk & Hok & Hfr & Hby).
  eexists. split; [done|]. cbn [fst snd] in *.
  assert (Hkeep : keeps (λ q, q = b + 8) w w') by done.
  split; [|eapply keeps_weaken, Hkeep; intros q ->; exists b, t; split; [set_solver|]].
  - apply wf_from_app in Hwf as [Hwf1 Hwf2]. apply owned_app in Ho as [Ho1 Ho2].
    apply nodes_app in Hnodes as [Hn1 (Hsz & _)].
    unfold seg; cbn [fst snd]. split_and!; [done|by rewrite Hn, !start_app|]. apply nodes_app. split.
    + eapply nodes_keeps; [done..| |done]. intros q Hq ->.
      pose proof (covers_before lo hi l [] b t (b + 8)) as Hlt. cbn in Hwf2.
      rewrite wf_from_app in Hlt. cbn in Hlt. specialize (Hlt ltac:(tauto) Hq). lia.
    + cbn. rewrite Hk by (done || lia). by split_and!.
  - apply wf_from_app in Hwf as [_ Hwf2]. cbn in Hwf2. lia.
Qed.

Lemma set_size_last st l b t tl v lo :
  seg st (l ++ [(b, t)]) tl → owned st.2 (l ++ [(b, t)]) → wf_from lo hi (l ++ [(b, t)]) → u64 v →
  ∃ st', set_size (Node b) v st = Ret (tt, st') ∧ seg st' (l ++ [(b, v)]) tl ∧
    keeps (covers (l ++ [(b, t)])) st.2 st'.2.
Proof.
  destruct st as [self w]. intros (Hz & Hn & Hnodes) Ho Hwf Hv.
  destruct (owned_header lo w (l ++ [(b, t)]) b t) as [Hb Hb8]; [done..|set_solver|].
  cbn. destruct (hm_store_law w b v Hb Hv) as (w' & -> & Hw & Hk & Hok & Hfr & Hby).
  eexists. split; [done|]. cbn [fst snd] in *.
  assert (Hkeep : keeps (λ q, q = b) w w') by done.
  split; [|eapply keeps_weaken, Hkeep; intros q ->; exists b, t; split; [set_solver|]].
  - apply wf_from_app in Hwf as [Hwf1 Hwf2]. apply owned_app in Ho as [Ho1 Ho2].
    apply nodes_app in Hnodes as [Hn1 (_ & Hnx & _)].
    unfold seg; cbn [fst snd]. split_and!; [done|by rewrite Hn, !start_app|]. apply nodes_app. split.
    + eapply nodes_keeps; [done..| |done]. intros q Hq ->.
      pose proof (covers_before lo hi l [] b t b) as Hlt. cbn in Hwf2.
      rewrite wf_from_app in Hlt. cbn in Hlt. specialize (Hlt ltac:(tauto) Hq). lia.
    + cbn. rewrite (Hk (b + 8)) by (done || lia). by split_and!.
  - apply wf_from_app in Hwf as [_ Hwf2]. cbn in Hwf2. lia.
Qed.

(** Writing a node into a region outside the list. *)
Lemma write_node_ok self w a s n :
  hm_ok w a → hm_ok w (a + 8) → u64 s → u64 n →
  ∃ w1 w', set_size (Node a) s (self, w) = Ret (tt, (self, w1)) ∧
    set_next (Node a) n (self, w1) = Ret (tt, (self, w')) ∧
    nodes w' [(a, s)] n ∧ keeps (λ q, a ≤ q < a + 16) w w1 ∧ keeps (λ q, a ≤ q < a + 16) w w'.
Proof.
  intros Ha Ha8 Hs Hn. cbn.
  destruct (hm_store_law w a s Ha Hs) as (w1 & -> & Hw1 & Hk1 & Hok1 & Hfr1 & Hby1).
  destruct (hm_store_law w1 (a + 8) n (Hok1 _ Ha8) Hn) as (w' & Hst & Hw2 & Hk2 & Hok2 & Hfr2 & Hby2).
  exists w1, w'. cbn. rewrite Hst. cbn. split; [done|]. split; [done|]. split; [|split].
  - split_and!; [|done..]. by rewrite Hk2 by (auto || lia).
  - split; [|done|done|]; intros; [apply Hk1; [done|lia]|apply Hby1; (done || lia)].
  - split; [|auto|by eapply hm_frame_trans|].
    + intros q Hq Hne. rewrite Hk2 by (auto || lia). apply Hk1; [done|lia].
    + intros q i Hq Hne Hi. rewrite Hby2 by (auto || lia). apply Hby1; (done || lia).
Qed.

(** ** [add_free_region] *)
Record region st l (a s : Z) : Prop := {
  rg_rep : rep st l;
  rg_pos : 0 < a;
  rg_addr : a mod 8 = 0;
  rg_size : s mod 8 = 0;
  rg_min : 16 ≤ s;
  rg_end : a + s ≤ hi;
  rg_disjoint : ∀ x, a ≤ x < a + s → ¬ covers l x;
  rg_owned : ∀ p, p mod 8 = 0 → a ≤ p < a + s → hm_ok st.2 p;
}.

Record added st l (a s : Z) st' l' : Prop := {
  ad_rep : rep st' l';
  ad_covers : ∀ x, covers l' x ↔ covers l x ∨ a ≤ x < a + s;
  ad_length : (length l' ≤ S (length l))%nat;
  ad_keeps : keeps (λ q, covers l q ∨ a ≤ q < a + s) st.2 st'.2;
}.

Lemma added_intro st l a s st' l' :
  region st l a s → seg st' l' 0 → wf_from 0 hi l' →
  (∀ x, covers l' x ↔ covers l x ∨ a ≤ x < a + s) → (length l' ≤ S (length l))%nat →
  keeps (λ q, covers l q ∨ a ≤ q < a + s) st.2 st'.2 → added st l a s st' l'.
Proof.
  intros Hr Hseg Hwf Hc Hlen Hk. split; try done. split; [done| |done].
  intros p Hp Hcp. apply Hk. apply Hc in Hcp as [Hcp|Hin].
  - by apply (rep_owned _ _ (rg_rep _ _ _ _ Hr)).
  - by apply (rg_owned _ _ _ _ Hr).
Qed.

(** The merge decisions. *)
Definition merges_backward l1 (a : Z) : bool :=
  match last l1 with Some (b, t) => b + t =? a | None => false end.
Definition merges_forward l2 (a s : Z) : bool :=
  match l2 with [] => false | (c, _) :: _ => a + s =? c end.

Lemma merge_backward_ok st l1 l2 a :
  rep st (l1 ++ l2) → merge_backward (last_ptr l1) a st = Ret (merges_backward l1 a, st).
Proof.
  intros Hrep. destruct l1 as [|[b t] l1 _] using rev_ind; [done|].
  unfold merges_backward. rewrite last_snoc, last_ptr_snoc. cbn [merge_backward]. unfold mbind, M_bind.
  rewrite <- app_assoc in Hrep. rewrite (get_size_ok _ _ _ _ _ Hrep).
  destruct (wf_elem 0 hi _ b t (rep_wf _ _ Hrep)) as (? & ? & ? & ? & ?); [set_solver|].
  unfold stop, lift. by rewrite add64_ok by u64_solve.
Qed.
Lemma merge_forward_ok st l1 l2 a s :
  region st (l1 ++ l2) a s → merge_forward (start l2 0) a s st = Ret (merges_forward l2 a s, st).
Proof.
  intros Hr. pose proof (rg_end _ _ _ _ Hr). pose proof (rg_pos _ _ _ _ Hr). pose proof (rg_min _ _ _ _ Hr).
  unfold merge_forward. destruct l2 as [|[c u] l2]; cbn [start merges_forward]; [done|].
  destruct (wf_elem 0 hi _ c u (rep_wf _ _ (rg_rep _ _ _ _ Hr))) as (? & _); [set_solver|].
  destruct (Z.eqb_spec c 0); [lia|]. unfold mbind, M_bind, stop, lift. by rewrite add64_ok by u64_solve.
Qed.

Lemma add_free_region_splice st l1 l2 a s fuel :
  region st (l1 ++ l2) a s → around 0 hi l1 l2 a s → (length l1 < fuel)%nat →
  add_free_region fuel a s st =
  splice (last_ptr l1) (start l2 0) a s (merges_backward l1 a) (merges_forward l2 a s) st.
Proof.
  intros Hr (Hf & Hle & Hst) Hlen. pose proof (rg_rep _ _ _ _ Hr) as Hrep.
  unfold add_free_region, NODE_ALIGN. rewrite (rg_addr _ _ _ _ Hr). cbn [Z.eqb negb].
  destruct (Z.ltb_spec s NODE_SIZE); [pose proof (rg_min _ _ _ _ Hr); unfold NODE_SIZE in *; lia|].
  unfold mbind, M_bind.
  assert (Hstart : start l2 0 = 0 ∨ a ≤ start l2 0).
  { pose proof (rg_min _ _ _ _ Hr). destruct l2 as [|[c u] l2]; cbn in *; lia. }
  rewrite (find_prev_ok st [] l1 l2 a fuel Hrep Hf Hstart Hlen : find_prev fuel Head a st = _).
  cbn [app]. rewrite (get_next_ok _ _ _ Hrep), (merge_backward_ok _ _ _ _ Hrep).
  by rewrite (merge_forward_ok _ _ _ _ _ Hr).
Qed.

(** Point the end of a prefix at a new tail. *)
Lemma covers_disjoint lo l1 l2 q :
  wf_from lo hi (l1 ++ l2) → covers l1 q → covers l2 q → False.
Proof.
  intros Hwf H1 H2. destruct l2 as [|[a s] l2]; [by apply covers_nil in H2|].
  pose proof (covers_before _ _ _ _ _ _ _ Hwf H1). apply wf_from_app in Hwf as [_ Hwf].
  destruct Hwf as (_ & _ & _ & ? & _ & Hwf).
  apply covers_cons in H2 as [?|H2]; [lia|]. pose proof (covers_range _ _ _ _ Hwf H2). lia.
Qed.

Lemma start_u64 lo l : wf_from lo hi l → 0 ≤ lo → u64 (start l 0).
Proof. destruct l as [|[c u] l]; cbn; [done|]. intros. u64_solve. Qed.

Lemma relink (X : Z → Prop) self w w2 l1 l' t0 :
  seg (self, w) l1 t0 → owned w l1 → keeps X w w2 → (∀ q, covers l1 q → ¬ X q) →
  nodes w2 l' 0 → owned w2 l' → wf_from 0 hi (l1 ++ l') →
  ∃ st', set_next (last_ptr l1) (start l' 0) (self, w2) = Ret (tt, st') ∧
    seg st' (l1 ++ l') 0 ∧ keeps (λ q, X q ∨ covers l1 q) w st'.2.
Proof.
  intros (Hz & Hn & Hnodes) Ho1 Hk HX Hnl Hol Hwf. pose proof Hwf as [Hwf1 Hwf2]%wf_from_app.
  destruct (set_next_last (self, w2) l1 t0 (start l' 0) 0) as (st' & Hset & Hseg' & Hk').
  - unfold seg. cbn [fst snd] in *. split_and!; [done..|]. by eapply (nodes_keeps 0 X).
  - by eapply owned_keeps.
  - done.
  - eapply start_u64; [done|]. by eapply last_end_le.
  - exists st'. split; [done|]. cbn [fst snd] in *. split.
    + apply seg_app. split; [done|]. eapply (nodes_keeps (last_end 0 l1)); [done..| |done].
      intros q Hq Hq1. by eapply (covers_disjoint 0 l1 l').
    + eapply keeps_trans; (eapply keeps_weaken; [|done]); intros q; [by left|by right].
Qed.

(** Reading the decisions back. *)
Lemma backward_true l1 a :
  merges_backward l1 a = true → ∃ l b t, l1 = l ++ [(b, t)] ∧ b + t = a.
Proof.
  unfold merges_backward. destruct l1 as [|[b t] l _] using rev_ind; [done|].
  rewrite last_snoc. intros ?%Z.eqb_eq. by exists l, b, t.
Qed.
Lemma backward_false l1 a : merges_backward l1 a = false → last_end 0 l1 ≤ a → 0 < a → last_end 0 l1 < a.
Proof.
  unfold merges_backward. destruct l1 as [|[b t] l _] using rev_ind; [done|].
  rewrite last_snoc, last_end_app. cbn. intros ?%Z.eqb_neq. lia.
Qed.
Lemma forward_true l2 a s :
  merges_forward l2 a s = true → ∃ u l, l2 = (a + s, u) :: l.
Proof. destruct l2 as [|[c u] l]; cbn; [done|]. intros <-%Z.eqb_eq. by exists u, l. Qed.
Lemma forward_false lo l2 a s :
  merges_forward l2 a s = false → a + s ≤ start l2 hi → wf_from lo hi l2 → wf_from (a + s) hi l2.
Proof.
  destruct l2 as [|[c u] l]; cbn; [done|]. intros ?%Z.eqb_neq ? (? & ?). split; [lia|done].
Qed.

Local Ltac covers_solve :=
  let x := fresh "x" in intros x; rewrite ?covers_app, ?covers_cons, ?covers_app, ?covers_cons;
  pose proof (covers_nil x); intuition lia.

(** Write a node over the region (or the region joined with the next block)
    and link it. *)
Lemma splice_node st l1 l2 a s size l' :
  region st (l1 ++ l2) a s → wf_from 0 hi (l1 ++ (a, size) :: l') → nodes st.2 l' 0 →
  (∀ q, covers l' q → covers l2 q) →
  (∀ x, covers ((a, size) :: l') x ↔ a ≤ x < a + s ∨ covers l2 x) →
  (length l' ≤ length l2)%nat →
  ∃ w1 w2 st', set_size (Node a) size st = Ret (tt, (st.1, w1)) ∧
    set_next (Node a) (start l' 0) (st.1, w1) = Ret (tt, (st.1, w2)) ∧
    set_next (last_ptr l1) a (st.1, w2) = Ret (tt, st') ∧
    keeps (λ q, a ≤ q < a + 16) st.2 w1 ∧
    added st (l1 ++ l2) a s st' (l1 ++ (a, size) :: l').
Proof.
  intros Hr Hwf Hnl Hsub Hcov Hlen. pose proof Hr as [[Hseg Ho Hwf0] Hpos Hal Hsz Hmin Hend Hdis Hown].
  destruct st as [self w]. cbn [fst snd] in *.
  apply seg_app in Hseg as [Hs1 Hs2]. apply owned_app in Ho as [Ho1 Ho2].
  pose proof Hwf as [Hwf1 (? & ? & ? & ? & ? & Hwfl)]%wf_from_app.
  destruct (write_node_ok self w a size (start l' 0)) as (w1 & w2 & Hw1 & Hw2 & Hnode & Hk1 & Hk2);
    [apply Hown; [done|lia]|apply Hown; [dlia|lia]|u64_solve| |].
  { eapply start_u64; [done|lia]. }
  assert (Hol : owned w l') by (intros p Hp Hc; apply Ho2; auto).
  assert (Hl'dis : ∀ q, covers l' q → ¬ (a ≤ q < a + 16)).
  { intros q Hq ?. apply (Hdis q); [lia|]. apply covers_app. auto. }
  destruct (relink (λ q, a ≤ q < a + 16) self w w2 l1 ((a, size) :: l') (start l2 0))
    as (st' & Hset & Hseg' & Hk'); [done..| | | |done|].
  - intros q Hq ?. apply (Hdis q); [lia|]. apply covers_app. by left.
  - destruct Hnode as (Hn1 & Hn2 & _). cbn [nodes]. split_and!; [done..|].
    by eapply (nodes_keeps (a + size) (λ q, a ≤ q < a + 16) w).
  - intros p Hp Hc. apply Hk2. apply Hcov in Hc as [Hc|Hc]; [by apply Hown|by apply Ho2].
  - exists w1, w2, st'. split_and!; [done..|]. apply added_intro; [done..| | |].
    + intros x. rewrite !covers_app, Hcov. tauto.
    + rewrite !length_app. cbn. lia.
    + eapply keeps_weaken; [|exact Hk']. intros q [?|?]; [right; lia|left; apply covers_app; by left].
Qed.

Lemma splice_none st l1 l2 a s :
  region st (l1 ++ l2) a s → last_end 0 l1 < a → wf_from (a + s) hi l2 →
  ∃ st' l', splice (last_ptr l1) (start l2 0) a s false false st = Ret (tt, st') ∧
    added st (l1 ++ l2) a s st' l'.
Proof.
  intros Hr Hle Hst. pose proof Hr as [[Hseg Ho Hwf] Hpos Hal Hsz Hmin Hend Hdis Hown].
  apply wf_from_app in Hwf as [Hwf1 _]. apply seg_app in Hseg as [_ Hs2].
  destruct (splice_node st l1 l2 a s s l2) as (w1 & w2 & st' & H1 & H2 & H3 & _ & Had); [done|..].
  - apply wf_from_app. by split.
  - done.
  - done.
  - intros x. apply covers_cons.
  - done.
  - exists st', (l1 ++ (a, s) :: l2). split; [|done]. cbn [splice]. unfold mbind, M_bind.
    by rewrite H1, H2, H3.
Qed.

Lemma splice_forward st l1 l2 a s u :
  region st (l1 ++ (a + s, u) :: l2) a s → last_end 0 l1 < a →
  ∃ st' l', splice (last_ptr l1) (a + s) a s false true st = Ret (tt, st') ∧
    added st (l1 ++ (a + s, u) :: l2) a s st' l'.
Proof.
  intros Hr Hle. pose proof Hr as [Hrep Hpos Hal Hsz Hmin Hend Hdis Hown].
  pose proof Hrep as [Hseg Ho Hwf]. pose proof Hwf as [Hwf1 (_ & ? & ? & ? & ? & Hwf2)]%wf_from_app.
  apply seg_app in Hseg as [_ (Hsize & Hnext & Hs2)].
  destruct (splice_node st l1 ((a + s, u) :: l2) a s (s + u) l2)
    as (w1 & w2 & st' & E1 & E2 & E3 & Hk1 & Had); [done|..].
  - apply wf_from_app. split; [done|]. cbn. split_and!; [done|done|dlia|lia|lia|].
    by replace (a + (s + u)) with (a + s + u) by lia.
  - done.
  - intros q Hq. apply covers_cons. by right.
  - intros x. rewrite !covers_cons. intuition lia.
  - cbn. lia.
  - exists st', (l1 ++ (a, s + u) :: l2). split; [|done]. destruct st as [self w]. cbn [fst snd] in *.
    destruct (owned_header 0 w (l1 ++ (a + s, u) :: l2) (a + s) u) as [_ Hok8]; [done..|set_solver|].
    cbn [splice]. unfold mbind, M_bind. rewrite (get_size_ok _ _ _ _ _ Hrep).
    unfold stop, lift. rewrite add64_ok by u64_solve. rewrite E1. cbn [get_next].
    unfold mbind. rewrite hm_load_law by (by apply Hk1). cbn [outcome_bind].
    rewrite (kp_word _ _ _ Hk1) by (done || lia). by rewrite Hnext, E2, E3.
Qed.

Lemma splice_backward st l1 l2 a s b t :
  region st ((l1 ++ [(b, t)]) ++ l2) a s → b + t = a → wf_from (a + s) hi l2 →
  ∃ st' l', splice (Node b) (start l2 0) a s true false st = Ret (tt, st') ∧
    added st ((l1 ++ [(b, t)]) ++ l2) a s st' l'.
Proof.
  intros Hr Hba Hst. pose proof Hr as [Hrep Hpos Hal Hsz Hmin Hend Hdis Hown].
  pose proof Hrep as [Hseg Ho Hwf]. pose proof Hwf as [Hwf1 Hwf2]%wf_from_app.
  pose proof Hwf1 as [Hwf0 (? & ? & ? & ? & ? & _)]%wf_from_app.
  apply seg_app in Hseg as [Hs1 Hs2]. apply owned_app in Ho as [Ho1 Ho2].
  pose proof (last_end_le _ _ _ Hwf0).
  destruct (set_size_last st l1 b t (start l2 0) (t + s) 0) as (st' & Hset & Hseg' & Hk); [done..|u64_solve|].
  exists st', (l1 ++ (b, t + s) :: l2). split.
  - cbn [splice]. unfold mbind, M_bind. rewrite <- app_assoc in Hrep.
    rewrite (get_size_ok _ _ _ _ _ Hrep). unfold stop, lift. by rewrite add64_ok by u64_solve.
  - apply added_intro; [done|..].
    + change (l1 ++ (b, t + s) :: l2) with (l1 ++ [(b, t + s)] ++ l2). rewrite app_assoc.
      apply seg_app. split; [done|]. eapply (nodes_keeps (a + s)); [done|done|exact Hk| |done].
      intros q Hq Hq1. by eapply (covers_disjoint 0 (l1 ++ [(b, t)]) l2).
    + apply wf_from_app. split; [done|]. cbn. split_and!; [done|done|dlia|lia|lia|].
      by replace (b + (t + s)) with (a + s) by lia.
    + intros x. rewrite !covers_app, !covers_cons. pose proof (covers_nil x). intuition lia.
    + rewrite !length_app. cbn. lia.
    + eapply keeps_weaken; [|exact Hk]. intros q Hq. left. apply covers_app. by left.
Qed.

Lemma splice_both st l1 l2 a s b t u :
  region st ((l1 ++ [(b, t)]) ++ (a + s, u) :: l2) a s → b + t = a →
  ∃ st' l', splice (Node b) (a + s) a s true true st = Ret (tt, st') ∧
    added st ((l1 ++ [(b, t)]) ++ (a + s, u) :: l2) a s st' l'.
Proof.
  intros Hr Hba. pose proof Hr as [Hrep Hpos Hal Hsz Hmin Hend Hdis Hown].
  pose proof Hrep as [Hseg Ho Hwf]. pose proof Hwf as [Hwf1 (_ & ? & ? & ? & ? & Hwf2)]%wf_from_app.
  pose proof Hwf1 as [Hwf0 (? & ? & ? & ? & ? & _)]%wf_from_app.
  apply seg_app in Hseg as [Hs1 Hs2]. pose proof Ho as [Ho1 Ho2]%owned_app.
  pose proof (last_end_le _ _ _ Hwf0).
  destruct (set_size_last st l1 b t (a + s) (t + (s + u)) 0) as ([self1 w1] & Hset & Hseg' & Hk);
    [done..|u64_solve|].
  assert (Hs2' : nodes w1 ((a + s, u) :: l2) 0).
  { eapply (nodes_keeps (last_end 0 (l1 ++ [(b, t)]))); [|done|exact Hk| |done].
    - by apply wf_from_app in Hwf as [_ ?].
    - intros q Hq Hq1. by eapply (covers_disjoint 0 (l1 ++ [(b, t)])). }
  destruct Hs2' as (_ & Hnext & Hnodes). cbn [fst snd] in *.
  assert (Hwf' : wf_from 0 hi ((l1 ++ [(b, t + (s + u))]) ++ l2)).
  { rewrite <- app_assoc. apply wf_from_app. split; [done|]. cbn. split_and!; [done|done|dlia|lia|lia|].
    by replace (b + (t + (s + u))) with (a + s + u) by lia. }
  assert (Hsub : ∀ q, covers ((l1 ++ [(b, t + (s + u))]) ++ l2) q ↔
    covers ((l1 ++ [(b, t)]) ++ (a + s, u) :: l2) q ∨ a ≤ q < a + s).
  { intros x. rewrite !covers_app, !covers_cons. pose proof (covers_nil x). intuition lia. }
  assert (Hok : owned w1 ((l1 ++ [(b, t + (s + u))]) ++ l2)).
  { intros p Hp Hc. apply Hk. apply Hsub in Hc as [Hc|Hc]; [by apply Ho|by apply Hown]. }
  pose proof Hok as [Hok1 Hok2]%owned_app.
  destruct (relink (λ _, False) self1 w1 w1 (l1 ++ [(b, t + (s + u))]) l2 (a + s))
    as (st' & Hset2 & Hseg2 & Hk2); [done|done|apply keeps_refl|tauto|done..|].
  rewrite last_ptr_snoc in Hset2.
  exists st', ((l1 ++ [(b, t + (s + u))]) ++ l2). split.
  - destruct (owned_header 0 st.2 ((l1 ++ [(b, t)]) ++ (a + s, u) :: l2) (a + s) u) as [_ Hok8]; [done..|set_solver|].
    cbn [splice]. unfold mbind, M_bind. rewrite (get_size_ok _ _ _ _ _ Hrep).
    unfold stop, lift. rewrite add64_ok by u64_solve. rewrite <- app_assoc in Hrep.
    rewrite (get_size_ok _ _ _ _ _ Hrep). rewrite add64_ok by u64_solve. rewrite Hset. cbn [get_next].
    unfold mbind. rewrite hm_load_law by (by apply Hk). cbn [outcome_bind]. by rewrite Hnext, Hset2.
  - apply added_intro; [done..| |].
    + rewrite !length_app. cbn. lia.
    + eapply keeps_trans; (eapply keeps_weaken; [|done]); intros q.
      * intros Hq. left. apply covers_app. by left.
      * intros [[]|Hq]. apply Hsub. apply covers_app. by left.
Qed.

Lemma add_free_region_ok st l a s fuel :
  region st l a s → (length l < fuel)%nat →
  ∃ st' l', add_free_region fuel a s st = Ret (tt, st') ∧ added st l a s st' l'.
Proof.
  intros Hr Hfuel. pose proof Hr as [[_ _ Hwf] Hpos Hal Hsz Hmin Hend Hdis Hown].
  destruct (split_around 0 hi l a s) as (l1 & l2 & -> & Har); [done|lia..|done|].
  rewrite length_app in Hfuel.
  rewrite (add_free_region_splice _ _ _ _ _ _ Hr Har) by lia.
  destruct Har as (_ & Hle & Hst). pose proof Hwf as [_ Hwf2]%wf_from_app.
  destruct (merges_backward l1 a) eqn:Hb, (merges_forward l2 a s) eqn:Hf.
  - apply backward_true in Hb as (l & b & t & -> & Hb). apply forward_true in Hf as (u & l' & ->).
    rewrite last_ptr_snoc. by apply splice_both.
  - apply backward_true in Hb as (l & b & t & -> & Hb).
    rewrite last_ptr_snoc. apply splice_backward; [done..|]. by eapply forward_false.
  - apply forward_true in Hf as (u & l' & ->). apply splice_forward; [done|]. by apply backward_false.
  - apply splice_none; [done| |by eapply forward_false]. by apply backward_false.
Qed.

End spec.

Lemma wf_from_mono lo hi hi' l : hi ≤ hi' → wf_from lo hi l → wf_from lo hi' l.
Proof.
  intros Hle. revert lo. induction l as [|[a s] l IH]; intros lo; cbn; [done|].
  intros (? & ? & ? & ? & ? & ?). split_and!; [done..|lia|by apply IH].
Qed.
Lemma rep_mono {W} {HM : HeapMemory W} hi hi' (st : LinkedListAllocator * W) l :
  hi ≤ hi' → rep hi st l → rep hi' st l.
Proof. intros Hle [? ? ?]. split; [done..|]. by eapply wf_from_mono. Qed.
