(* ===== verification/FreeListAlloc.v ===== *)
(** First-fit allocation and its inverse on the free list. *)
From stdpp Require Import base numbers option gmap list_numbers list.
From S2P Require Import Prelude Memory HeapMemory LinkedListAllocator FreeBlocks FreeListSpec.

(** ** Alignment *)
Definition up (al a : Z) : Z := div_ceil a al * al.

Lemma up_spec al a : 0 < al → a ≤ up al a < a + al ∧ up al a mod al = 0.
Proof.
  intros Hal. unfold up. pose proof (div_ceil_spec a al Hal). split; [lia|]. apply Z.mod_mul. lia.
Qed.
Lemma align_up_ok {P : BuildProfile} a k :
  0 ≤ k < 64 → 0 ≤ a → a + 2 ^ k < 2 ^ 64 → align_up a (2 ^ k) = Ret (up (2 ^ k) a).
Proof.
  intros Hk Ha Hlt. assert (0 < 2 ^ k) by (by apply Z.pow_pos_nonneg; lia).
  unfold align_up, up. run_arith. run_arith. rewrite mask_low by lia. by rewrite div_ceil_floor.
Qed.

(** A layout after adjustment: what [alloc] searches for. *)
Record request (sz al : Z) : Prop := {
  rq_align : ∃ k, 3 ≤ k < 63 ∧ al = 2 ^ k;
  rq_size : sz mod 8 = 0;
  rq_min : 16 ≤ sz;
  rq_max : sz < 2 ^ 63;
}.
(** What [Layout] promises: a power-of-two alignment and a size that stays
    within [isize::MAX] after rounding up. *)
Record layout_valid (l : Layout) : Prop := {
  lv_align : ∃ k, 0 ≤ k < 63 ∧ layout_align l = 2 ^ k;
  lv_size : 0 ≤ layout_size l ≤ ISIZE_MAX - (layout_align l - 1);
}.

Lemma pow2_mod8 k : 3 ≤ k → 2 ^ k mod 8 = 0.
Proof.
  intros Hk. replace k with (3 + (k - 3)) by lia. rewrite Z.pow_add_r by lia.
  rewrite Z.mul_comm. by apply Z.mod_mul.
Qed.
Lemma multiple_mod8 n k : 3 ≤ k → (n * 2 ^ k) mod 8 = 0.
Proof. intros Hk. rewrite Z.mul_mod by lia. by rewrite pow2_mod8, Z.mul_0_r. Qed.

Lemma max_pow2_8 k : 0 ≤ k < 63 → ∃ k', 3 ≤ k' < 63 ∧ Z.max (2 ^ k) 8 = 2 ^ k' ∧ (3 ≤ k → k' = k).
Proof.
  intros Hk. destruct (decide (3 ≤ k)).
  - exists k. assert (2 ^ 3 ≤ 2 ^ k) by (apply Z.pow_le_mono_r; lia). split_and!; [lia..|done].
  - exists 3. assert (2 ^ k ≤ 2 ^ 3) by (apply Z.pow_le_mono_r; lia). split_and!; [lia..|lia].
Qed.

Lemma adjusted_ok l :
  layout_valid l → layout_size l ≤ ISIZE_MAX - 7 →
  ∃ sz al, adjusted_size_align l = Ret (sz, al) ∧ request sz al ∧
    al = Z.max (layout_align l) 8 ∧ sz = Z.max (div_ceil (layout_size l) al * al) 16.
Proof.
  intros [(k & Hk & Hal) Hsz] Hmax. unfold adjusted_size_align, align_to, from_size_align.
  rewrite Hal in *. destruct (max_pow2_8 k Hk) as (k' & Hk' & Hm & _).
  unfold NODE_ALIGN. rewrite Hm. unfold ISIZE_MAX in *.
  destruct (Z.ltb_spec (2 ^ 63 - 1 - (2 ^ k' - 1)) (layout_size l)) as [Hlt|Hge]; [lia|].
  assert (0 < 2 ^ k') by (by apply Z.pow_pos_nonneg; lia).
  pose proof (div_ceil_spec (layout_size l) (2 ^ k') ltac:(lia)) as Hd.
  cbn [pad_to_align layout_size layout_align]. do 2 eexists. split; [done|]. unfold NODE_SIZE.
  split_and!; [|done|done]. split; [by exists k'| |lia|].
  - destruct (Z.max_spec (div_ceil (layout_size l) (2 ^ k') * 2 ^ k') 16) as [[_ ->]|[_ ->]]; [done|].
    apply multiple_mod8. lia.
  - assert (Hs : layout_size l ≤ 2 ^ 63 - 2 ^ k') by lia.
    assert (Hdm : div_ceil (layout_size l) (2 ^ k') ≤ 2 ^ (63 - k') - 1).
    { apply div_ceil_mono; [lia|]. rewrite Z.mul_sub_distr_r, <- Z.pow_add_r by lia.
      replace (63 - k' + k') with 63 by lia. lia. }
    assert (div_ceil (layout_size l) (2 ^ k') * 2 ^ k' ≤ 2 ^ 63 - 2 ^ k'); [|lia].
    replace (2 ^ 63) with (2 ^ (63 - k') * 2 ^ k') by (rewrite <- Z.pow_add_r by lia; f_equal; lia). nia.
Qed.

Section alloc.
Context {P : BuildProfile} {W : Type} {HM : HeapMemory W}.
Context (hi : Z) (Hhi : hi < 2 ^ 64).
Abbreviation heap := (LinkedListAllocator * W)%type.
Implicit Types (st : heap) (w : W) (l : blocks).

(** ** Leftovers *)
Record gap st l (a g : Z) : Prop := {
  gp_rep : rep hi st l;
  gp_pos : 0 < a;
  gp_addr : a mod 8 = 0;
  gp_size : g mod 8 = 0;
  gp_min : 0 ≤ g;
  gp_end : a + g ≤ hi;
  gp_disjoint : ∀ x, a ≤ x < a + g → ¬ covers l x;
  gp_owned : ∀ p, p mod 8 = 0 → a ≤ p < a + g → hm_ok st.2 p;
}.

(** A gap is given back if it can hold a node, and lost otherwise. *)
Lemma give_back_ok st l a g fuel :
  gap st l a g → (length l < fuel)%nat →
  ∃ st' l', (if NODE_SIZE <=? g then add_free_region fuel a g else mret tt) st = Ret (tt, st') ∧
    rep hi st' l' ∧ (∀ x, covers l' x ↔ covers l x ∨ (16 ≤ g ∧ a ≤ x < a + g)) ∧
    (length l' ≤ S (length l))%nat ∧ keeps (λ q, covers l q ∨ a ≤ q < a + g) st.2 st'.2.
Proof.
  intros [] Hfuel. unfold NODE_SIZE. destruct (Z.leb_spec 16 g).
  - destruct (add_free_region_ok hi Hhi st l a g fuel) as (st' & l' & Hrun & []); [by split|done|].
    exists st', l'. split_and!; [done..| |done|done]. intros x. rewrite ad_covers. naive_solver.
  - exists st, l. split_and!; [done..| |lia|apply keeps_refl]. intros x. split; [by left|]. intros [?|?]; [done|lia].
Qed.

(** ** Unlinking a block *)
Lemma unlink_ok st l1 a s l2 :
  rep hi st (l1 ++ (a, s) :: l2) →
  ∃ st', set_next (last_ptr l1) (start l2 0) st = Ret (tt, st') ∧ rep hi st' (l1 ++ l2) ∧
    keeps (covers l1) st.2 st'.2.
Proof.
  intros [Hseg Ho Hwf]. destruct st as [self w].
  pose proof Hwf as [Hwf1 (? & ? & ? & ? & ? & Hwf2)]%wf_from_app.
  apply seg_app in Hseg as [Hs1 (_ & _ & Hs2)]. pose proof Ho as [Ho1 Ho2]%owned_app. cbn [fst snd] in *.
  assert (Ho2' : owned w l2) by (intros p Hp Hc; apply Ho2; [done|apply covers_cons; by right]).
  assert (Hwf' : wf_from 0 hi (l1 ++ l2)).
  { apply wf_from_app. split; [done|]. eapply wf_from_lower; [done|]. intros b t Hb.
    destruct (wf_elem _ _ _ _ _ Hwf2 Hb). lia. }
  destruct (relink hi Hhi (λ _, False) self w w l1 l2 a) as (st' & Hset & Hseg' & Hk);
    [done|done|apply keeps_refl|tauto|done..|].
  assert (Hk' : keeps (covers l1) w st'.2) by (eapply keeps_weaken, Hk; intros q [[]|?]; done).
  exists st'. split; [done|]. split; [|done]. split; [done| |done].
  eapply owned_keeps; [done|]. apply owned_app. by split.
Qed.

(** The outcome of taking the block [(a, s)] out of the list. *)
Record taken st l sz al l1 a s l2 (p : Z) st' l' : Prop := {
  tk_list : l = l1 ++ (a, s) :: l2;
  tk_first : ∀ b t, (b, t) ∈ l1 → b + t < up al b + sz;
  tk_ptr : p = up al a;
  tk_fits : p + sz ≤ a + s;
  tk_rep : rep hi st' l';
  tk_covers : ∀ x, covers l' x ↔ covers (l1 ++ l2) x ∨
    (16 ≤ p - a ∧ a ≤ x < p) ∨ (16 ≤ a + s - (p + sz) ∧ p + sz ≤ x < a + s);
  tk_length : (length l' ≤ S (length l))%nat;
  tk_keeps : keeps (covers l) st.2 st'.2;
}.

Lemma take_block_ok st l sz al l1 a s l2 fuel :
  rep hi st l → request sz al → l = l1 ++ (a, s) :: l2 →
  (∀ b t, (b, t) ∈ l1 → b + t < up al b + sz) → up al a + sz ≤ a + s →
  (length l < fuel)%nat →
  ∃ st' l', take_block fuel (last_ptr l1) a (up al a) (up al a + sz) (a + s) st
      = Ret (up al a, st') ∧ taken st l sz al l1 a s l2 (up al a) st' l'.
Proof.
  intros Hrep [(k & Hk & Hal) Hsz Hmin _] Hl Hfirst Hfit Hfuel. subst l.
  destruct (wf_elem 0 hi _ a s (rep_wf _ _ _ Hrep)) as (Ha & Ha8 & Hs8 & Hs & Hend); [set_solver|].
  assert (Hal0 : 0 < al) by (rewrite Hal; apply Z.pow_pos_nonneg; lia).
  destruct (up_spec al a Hal0) as [Hup _].
  assert (Hup8 : up al a mod 8 = 0) by (unfold up; rewrite Hal; apply multiple_mod8; lia).
  set (p := up al a) in *.
  destruct (unlink_ok st l1 a s l2 Hrep) as (st1 & Hset1 & Hrep1 & Hk1).
  rewrite length_app in Hfuel. cbn in Hfuel.
  assert (Hown : ∀ q, q mod 8 = 0 → a ≤ q < a + s → hm_ok st.2 q).
  { intros q Hq Hin. apply (rep_owned _ _ _ Hrep); [done|]. apply covers_app. right. apply covers_cons. by left. }
  assert (Hdis : ∀ x, a ≤ x < a + s → ¬ covers (l1 ++ l2) x).
  { intros x Hx [Hc|Hc]%covers_app.
    - eapply (covers_disjoint hi 0 l1 ((a, s) :: l2)); [apply Hrep|done|]. apply covers_cons. by left.
    - pose proof (rep_wf _ _ _ Hrep) as [_ (_ & _ & _ & _ & _ & Hwf2)]%wf_from_app.
      pose proof (covers_range _ _ _ _ Hwf2 Hc). lia. }
  destruct (give_back_ok st1 (l1 ++ l2) a (p - a) fuel) as (st2 & l'2 & Hgb2 & Hrep2 & Hc2 & Hlen2 & Hk2).
  { split; try done; try lia; [dlia| |]; [intros x Hx; apply Hdis; lia|].
    intros q Hq Hin. apply Hk1, Hown; [done|lia]. }
  { rewrite length_app. lia. }
  rewrite length_app in Hlen2.
  destruct (give_back_ok st2 l'2 (p + sz) (a + s - (p + sz)) fuel) as (st3 & l'3 & Hgb3 & Hrep3 & Hc3 & Hlen3 & Hk3).
  { split; try done; try lia; [dlia|dlia| |].
    - intros x Hx [Hc|?]%Hc2; [apply (Hdis x); [lia|done]|lia].
    - intros q Hq Hin. apply Hk2, Hk1, Hown; [done|lia]. }
  { lia. }
  exists st3, l'3. split.
  - unfold take_block, mbind, M_bind. rewrite (get_next_node hi Hhi _ _ _ _ _ Hrep), Hset1.
    unfold stop, lift. rewrite sub64_ok by u64_solve. rewrite Hgb2. rewrite sub64_ok by u64_solve.
    by rewrite Hgb3.
  - split; try done.
    + intros x. rewrite Hc3, Hc2. replace (a + (p - a)) with p by lia.
      replace (p + sz + (a + s - (p + sz))) with (a + s) by lia. tauto.
    + rewrite length_app. cbn. lia.
    + eapply keeps_trans; [|eapply keeps_trans]; (eapply keeps_weaken; [|done]); intros q; cbn.
      * intros Hq. apply covers_app. by left.
      * rewrite !covers_app, covers_cons. intuition lia.
      * rewrite Hc2, !covers_app, covers_cons. intuition lia.
Qed.

Definition no_fit sz al l : Prop := ∀ b t, (b, t) ∈ l → b + t < up al b + sz.

Lemma alloc_loop_ok st pre rest sz al fuel walk :
  rep hi st (pre ++ rest) → request sz al → hi + al < 2 ^ 64 → no_fit sz al pre →
  (length rest < walk)%nat → (length (pre ++ rest) < fuel)%nat →
  (alloc_loop fuel walk sz al (last_ptr pre) (start rest 0) st = Ret (0, st) ∧
   no_fit sz al (pre ++ rest)) ∨
  ∃ p st' l' l1 a s l2,
    alloc_loop fuel walk sz al (last_ptr pre) (start rest 0) st = Ret (p, st') ∧
    taken st (pre ++ rest) sz al l1 a s l2 p st' l'.
Proof.
  intros Hrep Hreq Hal. pose proof Hreq as [(k & Hk & Hk2) Hsz Hmin Hmax].
  revert pre walk Hrep. induction rest as [|[a s] rest IH]; intros pre [|walk] Hrep Hno Hw Hfuel;
    try (cbn in Hw; lia).
  { left. split; [done|by rewrite app_nil_r]. }
  destruct (wf_elem 0 hi _ a s (rep_wf _ _ _ Hrep)) as (Ha & Ha8 & Hs8 & Hs & Hend); [set_solver|].
  assert (Hal0 : 0 < al) by (rewrite Hk2; apply Z.pow_pos_nonneg; lia).
  destruct (up_spec al a Hal0) as [Hup _].
  cbn [alloc_loop start]. destruct (Z.eqb_spec a 0); [lia|]. unfold mbind, M_bind.
  rewrite (get_size_ok hi Hhi _ _ _ _ _ Hrep). unfold stop, lift.
  rewrite add64_ok by u64_solve.
  assert (Hau : align_up a al = Ret (up al a)) by (subst al; apply align_up_ok; lia). rewrite Hau.
  assert (Hnext : up al a + sz ≤ a + s ∨ a + s < up al a + sz) by lia.
  destruct Hnext as [Hfit|Hnofit].
  - rewrite checked_add_ok by u64_solve. destruct (Z.leb_spec (up al a + sz) (a + s)); [|lia].
    destruct (take_block_ok st _ sz al pre a s rest fuel Hrep Hreq eq_refl Hno Hfit Hfuel)
      as (st' & l' & Hrun & Htk).
    right. exists (up al a), st', l', pre, a, s, rest. split; [exact Hrun|exact Htk].
  - assert (Happ : pre ++ (a, s) :: rest = (pre ++ [(a, s)]) ++ rest) by (by rewrite <- app_assoc).
    assert (Hno' : no_fit sz al (pre ++ [(a, s)])).
    { intros b t [Hb|Hb]%elem_of_app; [by apply Hno|]. apply list_elem_of_singleton in Hb as [= -> ->]. lia. }
    rewrite Happ in *. cbn in Hw.
    specialize (IH (pre ++ [(a, s)]) walk Hrep Hno' ltac:(lia) Hfuel).
    rewrite last_ptr_snoc in IH.
    assert (Hgo : (match get_next (Node a) st with
      | Ret (n, s') => alloc_loop fuel walk sz al (Node a) n s'
      | Panic p => Panic p | Undef => Undef | NoFuel => NoFuel end)
      = alloc_loop fuel walk sz al (Node a) (start rest 0) st).
    { rewrite <- Happ in Hrep. by rewrite (get_next_node hi Hhi _ _ _ _ _ Hrep). }
    destruct (checked_add (up al a) sz) as [e|] eqn:He; [|rewrite Hgo; exact IH].
    apply checked_add_Some in He as [-> _].
    destruct (Z.leb_spec (up al a + sz) (a + s)); [lia|]. rewrite Hgo. exact IH.
Qed.

Lemma alloc_ok st l layout fuel sz al :
  rep hi st l → adjusted_size_align layout = Ret (sz, al) → request sz al → hi + al < 2 ^ 64 →
  (length l < fuel)%nat →
  (alloc fuel layout st = Ret (0, st) ∧ no_fit sz al l) ∨
  ∃ p st' l' l1 a s l2, alloc fuel layout st = Ret (p, st') ∧ taken st l sz al l1 a s l2 p st' l'.
Proof.
  intros Hrep Hadj Hreq Hal Hfuel. unfold alloc, mbind, M_bind, stop, lift. rewrite Hadj.
  rewrite (get_next_ok hi Hhi st [] l Hrep : get_next Head st = _).
  apply (alloc_loop_ok st [] l sz al fuel fuel); try done. intros b t Hb. by apply elem_of_nil in Hb.
Qed.

Lemma dealloc_ok st l layout fuel sz al p :
  adjusted_size_align layout = Ret (sz, al) → region hi st l p sz → (length l < fuel)%nat →
  ∃ st' l', dealloc fuel p layout st = Ret (tt, st') ∧ added hi st l p sz st' l'.
Proof.
  intros Hadj Hreg Hfuel. unfold dealloc, mbind, M_bind, stop, lift. rewrite Hadj.
  by apply add_free_region_ok.
Qed.

End alloc.
