(* ===== verification/FreeListTheorems.v ===== *)
(** What the free-list allocator guarantees. *)
From stdpp Require Import base numbers option relations gmap list_numbers list.
From S2P Require Import Prelude Memory HeapMemory LinkedListAllocator FreeBlocks FreeListSpec FreeListAlloc.

(** ** Layout arithmetic *)

(** [align_up] rounds up to the next multiple of a power of two while the
    sum fits in 64 bits; past that the dev profile panics and the release
    profile wraps to address 0, which is no address of the block. *)
Theorem align_up_exact {P : BuildProfile} (a k : Z) :
  0 ≤ k < 64 → u64 a →
  (a + 2 ^ k < 2 ^ 64 →
   ∃ r, align_up a (2 ^ k) = Ret r ∧ a ≤ r < a + 2 ^ k ∧ r mod 2 ^ k = 0) ∧
  (2 ^ 64 < a + 2 ^ k →
   align_up a (2 ^ k) = if overflow_checks then Panic ArithOverflow else Ret 0).
Proof.
  unfold u64. intros Hk Ha.
  assert (Hp : 0 < 2 ^ k) by (apply Z.pow_pos_nonneg; lia).
  assert (Hp' : 2 ^ k ≤ 2 ^ 63) by (apply Z.pow_le_mono_r; lia). split.
  - intros Hlt. exists (up (2 ^ k) a). split; [apply align_up_ok; lia|]. by apply up_spec.
  - intros Hge. unfold align_up, add64, arith64, u64b.
    destruct (Z.leb_spec 0 (a + 2 ^ k)), (Z.ltb_spec (a + 2 ^ k) (2 ^ 64)); try lia. cbn [andb].
    destruct overflow_checks eqn:Ho; [done|]. cbn [mbind outcome_bind].
    assert (Hw : wrap64 (a + 2 ^ k) = a + 2 ^ k - 2 ^ 64).
    { unfold wrap64. symmetry. apply (Z.mod_unique _ _ 1); lia. }
    rewrite Hw. do 2 run_arith. rewrite mask_low by lia. f_equal.
    rewrite Z.div_small by lia. lia.
Qed.

(** The layout adjustment, on every branch.  A valid layout becomes a
    request whose alignment is the layout's or 8, whichever is larger, and
    whose size is a multiple of that alignment, holds the layout's size and
    a free-list node, and wastes less than one alignment step beyond them;
    it panics exactly when raising the alignment to 8 pushes the size past
    [isize::MAX]. *)
Theorem adjusted_size_align_exact (l : Layout) :
  layout_valid l →
  (layout_size l ≤ ISIZE_MAX - 7 →
   ∃ sz al, adjusted_size_align l = Ret (sz, al) ∧ al = Z.max (layout_align l) 8 ∧
     sz mod 8 = 0 ∧ layout_size l ≤ sz ∧ 16 ≤ sz ∧ (16 < sz → sz mod al = 0) ∧
     sz < Z.max (layout_size l + al) 17) ∧
  (ISIZE_MAX - 7 < layout_size l → adjusted_size_align l = Panic ExpectFailed).
Proof.
  intros Hv. split.
  - intros Hmax. destruct (adjusted_ok l Hv Hmax) as (sz & al & Hadj & [(k & Hk & Hal) ? ? ?] & Hm & Hsz).
    assert (Hp : 0 < al) by (rewrite Hal; apply Z.pow_pos_nonneg; lia).
    pose proof (div_ceil_spec (layout_size l) al Hp).
    exists sz, al. split_and!; try done; try lia. intros Hgt.
    replace sz with (div_ceil (layout_size l) al * al) by lia. apply Z.mod_mul. lia.
  - intros Hgt. unfold adjusted_size_align, align_to, from_size_align, NODE_ALIGN.
    destruct (Z.ltb_spec (ISIZE_MAX - (Z.max (layout_align l) 8 - 1)) (layout_size l)); [done|lia].
Qed.

Section properties.
Context {P : BuildProfile} {W : Type} {HM : HeapMemory W}.
Context (hi : Z) (Hhi : hi < 2 ^ 64).
Abbreviation heap := (LinkedListAllocator * W)%type.
Implicit Types (st : heap) (l : blocks).

(** C12: freeing a region coalesces completely.  [add_free_region] returns
    (for every fuel above the number of blocks) and leaves the one sorted
    list of blocks, no two of them adjacent, that covers exactly the old
    free bytes and the region; no word outside free memory is written. *)
Theorem add_free_region_coalesces st l a s fuel :
  region hi st l a s → (length l < fuel)%nat →
  ∃ st' l', add_free_region fuel a s st = Ret (tt, st') ∧ rep hi st' l' ∧
    (∀ x, covers l' x ↔ covers l x ∨ a ≤ x < a + s) ∧
    (∀ l'', wf_from 0 hi l'' → (∀ x, covers l'' x ↔ covers l x ∨ a ≤ x < a + s) → l'' = l') ∧
    keeps (λ q, covers l q ∨ a ≤ q < a + s) st.2 st'.2.
Proof.
  intros Hr Hf. destruct (add_free_region_ok hi Hhi st l a s fuel Hr Hf) as (st' & l' & Hrun & Had).
  exists st', l'. split_and!; [done|apply Had..| |apply Had].
  intros l'' Hwf Hc. apply (blocks_canonical 0 hi); [done|apply Had|].
  intros x. by rewrite Hc, (ad_covers _ _ _ _ _ _ _ Had).
Qed.

(** The order of two frees does not matter: both orders end with the very
    same list of blocks. *)
Theorem free_order_irrelevant st l a s b t fuel :
  region hi st l a s → region hi st l b t → a + s ≤ b ∨ b + t ≤ a → (S (length l) < fuel)%nat →
  ∃ st1 st2 l',
    (_ ← add_free_region fuel a s; add_free_region fuel b t) st = Ret (tt, st1) ∧
    (_ ← add_free_region fuel b t; add_free_region fuel a s) st = Ret (tt, st2) ∧
    rep hi st1 l' ∧ rep hi st2 l'.
Proof.
  assert (Hboth : ∀ a s b t, region hi st l a s → region hi st l b t → a + s ≤ b ∨ b + t ≤ a →
    (S (length l) < fuel)%nat →
    ∃ st' l', (_ ← add_free_region fuel a s; add_free_region fuel b t) st = Ret (tt, st') ∧
      rep hi st' l' ∧ ∀ x, covers l' x ↔ covers l x ∨ a ≤ x < a + s ∨ b ≤ x < b + t).
  { clear a s b t. intros a s b t Ha Hb Hdis Hf.
    destruct (add_free_region_ok hi Hhi st l a s fuel Ha) as (st1 & l1 & Hrun1 & [Hrep1 Hc1 Hl1 Hk1]); [lia|].
    destruct (add_free_region_ok hi Hhi st1 l1 b t fuel) as (st2 & l2 & Hrun2 & [Hrep2 Hc2 _ _]); [|lia|].
    - destruct Hb. split; try done.
      + intros x Hx [Hc|?]%Hc1; [by eapply rg_disjoint|lia].
      + intros p Hp Hin. apply Hk1. by apply rg_owned.
    - exists st2, l2. unfold mbind, M_bind. rewrite Hrun1. split_and!; [done..|].
      intros x. rewrite Hc2, Hc1. tauto. }
  intros Ha Hb Hdis Hf.
  destruct (Hboth a s b t Ha Hb Hdis Hf) as (st1 & l1 & Hrun1 & Hrep1 & Hc1).
  destruct (Hboth b t a s Hb Ha ltac:(lia) Hf) as (st2 & l2 & Hrun2 & Hrep2 & Hc2).
  assert (l2 = l1) as ->.
  { apply (blocks_canonical 0 hi); [apply Hrep2|apply Hrep1|]. intros x. rewrite Hc1, Hc2. tauto. }
  by exists st1, st2, l1.
Qed.

(** C13: [alloc] is first fit, on every branch.  It always returns; it returns
    null and changes nothing exactly when no free block can hold the aligned
    request; otherwise the first block that can gives the allocation: the
    pointer is aligned, the whole allocation was free memory, and what is
    free afterwards is the old free memory without it and without leftovers
    too small for a node. *)
Theorem alloc_first_fit st l layout sz al fuel :
  rep hi st l → adjusted_size_align layout = Ret (sz, al) → request sz al → hi + al < 2 ^ 64 →
  (length l < fuel)%nat →
  ∃ p st' l', alloc fuel layout st = Ret (p, st') ∧ rep hi st' l' ∧ keeps (covers l) st.2 st'.2 ∧
    (p = 0 ↔ ∀ a s, (a, s) ∈ l → a + s < up al a + sz) ∧
    (p = 0 → st' = st ∧ l' = l) ∧
    (p ≠ 0 → p mod al = 0 ∧ ∃ l1 a s l2, l = l1 ++ (a, s) :: l2 ∧
       (∀ b t, (b, t) ∈ l1 → b + t < up al b + sz) ∧
       a ≤ p < a + al ∧ p + sz ≤ a + s ∧
       ∀ x, covers l' x ↔ covers l x ∧ ¬ (p ≤ x < p + sz) ∧
         ¬ (p - a < 16 ∧ a ≤ x < p) ∧ ¬ (a + s - (p + sz) < 16 ∧ p + sz ≤ x < a + s)).
Proof.
  intros Hrep Hadj Hreq Hal Hf. pose proof Hreq as [(k & Hk & Hk2) _ Hmin _].
  destruct (alloc_ok hi Hhi st l layout fuel sz al Hrep Hadj Hreq Hal Hf)
    as [[Hrun Hno]|(p & st' & l' & l1 & a & s & l2 & Hrun & Htk)].
  { exists 0, st, l. split_and!; try done; apply keeps_refl. }
  pose proof Htk as [Hl Hfirst Hp Hfits Hrep' Hc _ Hkeep].
  assert (Hal0 : 0 < al) by (rewrite Hk2; apply Z.pow_pos_nonneg; lia).
  destruct (up_spec al a Hal0) as [Hup Hmod]. rewrite <- Hp in *.
  assert (Hin : (a, s) ∈ l) by (rewrite Hl; set_solver).
  destruct (wf_elem 0 hi _ a s (rep_wf _ _ _ Hrep) Hin) as (Ha & _ & _ & Hs & _).
  exists p, st', l'. do 3 (split; [done|]). split; [|split; [lia|]].
  - split; [lia|]. intros Hno. specialize (Hno a s Hin). rewrite <- Hp in Hno. lia.
  - intros _. split; [done|]. exists l1, a, s, l2. split_and!; try done; try lia.
    intros x. rewrite Hc, Hl, !covers_app, covers_cons.
    pose proof (rep_wf _ _ _ Hrep) as Hwf. rewrite Hl in Hwf.
    assert (H1 : covers l1 x → x < a) by (by apply (covers_before 0 hi _ l2 a s)).
    apply wf_from_app in Hwf as [_ (_ & _ & _ & _ & _ & Hwf2)].
    assert (H2 : covers l2 x → a + s < x) by (intros Hcx; apply (covers_range _ _ _ _ Hwf2 Hcx)).
    destruct (decide (p - a < 16)), (decide (a + s - (p + sz) < 16)); intuition lia.
Qed.

(** What an allocation leaves behind: the memory handed out can be given
    back, and nothing overlaps it. *)
Lemma taken_region st l sz al l1 a s l2 p st' l' :
  rep hi st l → request sz al → taken hi st l sz al l1 a s l2 p st' l' →
  region hi st' l' p sz ∧ (∀ x, p ≤ x < p + sz → covers l x) ∧ (∀ x, covers l' x → covers l x) ∧
  p mod al = 0.
Proof.
  intros Hrep [(k & Hk & Hk2) Hsz Hmin _] [Hl Hfirst Hp Hfits Hrep' Hc _ Hkeep].
  assert (Hal0 : 0 < al) by (rewrite Hk2; apply Z.pow_pos_nonneg; lia).
  destruct (up_spec al a Hal0) as [Hup Hmod]. rewrite <- Hp in *.
  assert (Hin : (a, s) ∈ l) by (rewrite Hl; set_solver).
  destruct (wf_elem 0 hi _ a s (rep_wf _ _ _ Hrep) Hin) as (Ha & _ & _ & Hs & Hend).
  assert (Hblk : ∀ x, a ≤ x < a + s → covers l x) by (intros x Hx; by exists a, s).
  pose proof (rep_wf _ _ _ Hrep) as Hwf. rewrite Hl in Hwf.
  split_and!; [|intros x Hx; apply Hblk; lia| |done].
  - split; [done|lia| |done..|lia| |].
    + rewrite Hp. unfold up. rewrite Hk2. apply multiple_mod8. lia.
    + intros x Hx [[H1|H2]%covers_app|?]%Hc; [| |lia].
      * pose proof (covers_before _ _ _ _ _ _ _ Hwf H1). lia.
      * apply wf_from_app in Hwf as [_ (_ & _ & _ & _ & _ & Hwf2)].
        pose proof (covers_range _ _ _ _ Hwf2 H2). lia.
    + intros q Hq Hin'. apply Hkeep, (rep_owned _ _ _ Hrep); [done|]. apply Hblk. lia.
  - intros x [Hc'|?]%Hc; [|apply Hblk; lia]. rewrite Hl. rewrite covers_app in *.
    rewrite covers_cons. tauto.
Qed.

(** C24: giving an allocation back.  [dealloc] with the same layout returns and
    the free bytes are the original ones, up to leftovers at the two edges
    that were too small to hold a node; when there were none, the list of
    blocks is the original list. *)
Theorem alloc_dealloc_roundtrip st l layout sz al fuel p st1 :
  rep hi st l → adjusted_size_align layout = Ret (sz, al) → request sz al → hi + al < 2 ^ 64 →
  (S (length l) < fuel)%nat → alloc fuel layout st = Ret (p, st1) → p ≠ 0 →
  ∃ st2 l2 a s, dealloc fuel p layout st1 = Ret (tt, st2) ∧ rep hi st2 l2 ∧
    (a, s) ∈ l ∧ a ≤ p ∧ p + sz ≤ a + s ∧
    (∀ x, covers l2 x ↔ covers l x ∧
       ¬ (p - a < 16 ∧ a ≤ x < p) ∧ ¬ (a + s - (p + sz) < 16 ∧ p + sz ≤ x < a + s)) ∧
    (p = a ∨ 16 ≤ p - a → p + sz = a + s ∨ 16 ≤ a + s - (p + sz) → l2 = l).
Proof.
  intros Hrep Hadj Hreq Hal Hf Hrun Hp0. pose proof Hreq as [(k & Hk & Hk2) _ Hmin _].
  destruct (alloc_ok hi Hhi st l layout fuel sz al Hrep Hadj Hreq Hal)
    as [[Hrun' _]|(p' & st' & l' & l1 & a & s & l2 & Hrun' & Htk)]; [lia|congruence|].
  rewrite Hrun in Hrun'. injection Hrun' as <- <-.
  destruct (taken_region _ _ _ _ _ _ _ _ _ _ _ Hrep Hreq Htk) as (Hreg & Hfree & _ & _).
  pose proof Htk as [Hl _ Hp Hfits Hrep1 Hc Hlen _].
  destruct (dealloc_ok hi Hhi st1 l' layout fuel sz al p Hadj Hreg) as (st2 & l2' & Hd & [Hrep2 Hc2 _ _]); [lia|].
  assert (Hin : (a, s) ∈ l) by (rewrite Hl; set_solver).
  assert (Hal0 : 0 < al) by (rewrite Hk2; apply Z.pow_pos_nonneg; lia).
  destruct (up_spec al a Hal0) as [Hup _]. rewrite <- Hp in Hup.
  assert (Hcov : ∀ x, covers l2' x ↔ covers l x ∧
    ¬ (p - a < 16 ∧ a ≤ x < p) ∧ ¬ (a + s - (p + sz) < 16 ∧ p + sz ≤ x < a + s)).
  { intros x. rewrite Hc2, Hc, Hl, !covers_app, covers_cons.
    pose proof (rep_wf _ _ _ Hrep) as Hwf. rewrite Hl in Hwf.
    assert (H1 : covers l1 x → x < a) by (by apply (covers_before 0 hi _ l2 a s)).
    apply wf_from_app in Hwf as [_ (_ & _ & _ & _ & _ & Hwf2)].
    assert (H2 : covers l2 x → a + s < x) by (intros Hcx; apply (covers_range _ _ _ _ Hwf2 Hcx)).
    destruct (decide (p - a < 16)), (decide (a + s - (p + sz) < 16)); intuition lia. }
  exists st2, l2', a, s. do 3 (split; [done|]). split; [lia|]. split; [lia|]. split; [done|].
  intros Hfront Hback. apply (blocks_canonical 0 hi); [apply Hrep2|apply Hrep|].
  intros x. rewrite Hcov. intuition lia.
Qed.

(** ** Running clients

    A client allocates, writes anything into what it holds, and frees what it
    holds.  [returns] is a run with enough fuel. *)
Definition returns {A} (f : nat → M heap A) st (r : A * heap) : Prop :=
  ∃ n, ∀ fuel, (n ≤ fuel)%nat → f fuel st = Ret r.

Definition good_layout (layout : Layout) : Prop :=
  layout_valid layout ∧ layout_size layout ≤ ISIZE_MAX - 7 ∧ hi + Z.max (layout_align layout) 8 < 2 ^ 64.
Definition block_size (layout : Layout) : Z :=
  match adjusted_size_align layout with Ret (sz, _) => sz | _ => 0 end.
Definition holds (r : Z * Layout) (x : Z) : Prop := r.1 ≤ x < r.1 + block_size r.2.
Definition held (L : list (Z * Layout)) (x : Z) : Prop := Exists (λ r, holds r x) L.

Inductive client_step : heap * list (Z * Layout) → heap * list (Z * Layout) → Prop :=
| client_alloc st st' L layout p :
  good_layout layout → returns (λ fuel, alloc fuel layout) st (p, st') → p ≠ 0 →
  client_step (st, L) (st', (p, layout) :: L)
| client_null st st' L layout :
  good_layout layout → returns (λ fuel, alloc fuel layout) st (0, st') → client_step (st, L) (st', L)
| client_free st st' L1 p layout L2 :
  returns (λ fuel, dealloc fuel p layout) st (tt, st') →
  client_step (st, L1 ++ (p, layout) :: L2) (st', L1 ++ L2)
| client_write self w w' L :
  keeps (held L) w w' → client_step ((self, w), L) ((self, w'), L).

(** The invariant: what is held is pairwise disjoint, disjoint from the free
    blocks, aligned as requested, and can be freed. *)
Fixpoint no_overlap (L : list (Z * Layout)) : Prop :=
  match L with
  | [] => True
  | r :: L => (∀ x, holds r x → ¬ held L x) ∧ no_overlap L
  end.
Record client_ok st (L : list (Z * Layout)) l : Prop := {
  ck_rep : rep hi st l;
  ck_disjoint : no_overlap L;
  ck_regions : ∀ p layout, (p, layout) ∈ L →
    good_layout layout ∧ p mod layout_align layout = 0 ∧ region hi st l p (block_size layout);
}.

Lemma held_app L1 L2 x : held (L1 ++ L2) x ↔ held L1 x ∨ held L2 x.
Proof. apply Exists_app. Qed.
Lemma no_overlap_remove L1 r L2 :
  no_overlap (L1 ++ r :: L2) → no_overlap (L1 ++ L2) ∧ ∀ x, holds r x → ¬ held (L1 ++ L2) x.
Proof.
  induction L1 as [|r1 L1 IH]; cbn [app no_overlap]; [tauto|]. intros [H1 H2]. destruct (IH H2) as [H3 H4].
  split; [split; [|done]|].
  - intros x Hx Hh. apply (H1 x Hx). unfold held in *. rewrite !Exists_app, Exists_cons in *. tauto.
  - intros x Hx Hh. unfold held in Hh. apply Exists_cons in Hh as [Hh|Hh]; [|by apply (H4 x)].
    apply (H1 x Hh). unfold held. rewrite Exists_app, Exists_cons. auto.
Qed.
Lemma held_elem L p layout x : (p, layout) ∈ L → holds (p, layout) x → held L x.
Proof. intros Hin Hx. apply Exists_exists. eauto. Qed.

Lemma good_request layout :
  good_layout layout →
  ∃ al, adjusted_size_align layout = Ret (block_size layout, al) ∧ request (block_size layout) al ∧
    hi + al < 2 ^ 64 ∧ (∀ p, p mod al = 0 → p mod layout_align layout = 0).
Proof.
  intros (Hv & Hmax & Hlim). destruct (adjusted_ok layout Hv Hmax) as (sz & al & Hadj & Hreq & Hal & _).
  unfold block_size. rewrite Hadj. exists al. split_and!; [done..|lia|].
  destruct Hv as [(k & Hk & Hka) _]. destruct (max_pow2_8 k Hk) as (k' & Hk' & Hm & _).
  rewrite Hal, Hka, Hm. intros p Hp.
  assert (Hkk : k ≤ k') by (apply (Z.pow_le_mono_r_iff 2); lia).
  replace k' with (k + (k' - k)) in Hp by lia. rewrite Z.pow_add_r in Hp by lia.
  apply Z.mod_divide; [lia|]. apply Z.mod_divide in Hp; [|nia].
  destruct Hp as [q ->]. exists (q * 2 ^ (k' - k)). lia.
Qed.

Lemma client_alloc_ok st L l layout p st' :
  client_ok st L l → good_layout layout → returns (λ fuel, alloc fuel layout) st (p, st') →
  (p = 0 ∧ st' = st) ∨ (p ≠ 0 ∧ ∃ l', client_ok st' ((p, layout) :: L) l').
Proof.
  intros [Hrep Hdis Hregs] Hgood [n Hrun].
  destruct (good_request layout Hgood) as (al & Hadj & Hreq & Hlim & Hmod).
  specialize (Hrun (max n (S (length l))) ltac:(lia)).
  destruct (alloc_ok hi Hhi st l layout (max n (S (length l))) _ al Hrep Hadj Hreq Hlim)
    as [[Hrun' _]|(p' & st1 & l' & l1 & a & s & l2 & Hrun' & Htk)]; [lia|..];
    rewrite Hrun in Hrun'; injection Hrun' as -> ->; [by left|right].
  destruct (taken_region _ _ _ _ _ _ _ _ _ _ _ Hrep Hreq Htk) as (Hreg & Hfree & Hsub & Hpal).
  pose proof (rg_pos _ _ _ _ _ Hreg). split; [lia|]. exists l'. split.
  - apply Htk.
  - split; [|done]. intros x Hx [[q lay] [Hq Hqx]]%Exists_exists.
    destruct (Hregs q lay Hq) as (_ & _ & Hr). apply (rg_disjoint _ _ _ _ _ Hr x Hqx). by apply Hfree.
  - intros q lay [[= -> ->]|Hq]%elem_of_cons; [by split_and!; try apply Hmod|].
    destruct (Hregs q lay Hq) as (? & ? & []). split_and!; [done..|].
    split; [apply Htk|done..| |].
    + intros x Hx Hc. apply (rg_disjoint x Hx). by apply Hsub.
    + intros w Hw Hin. apply (tk_keeps _ _ _ _ _ _ _ _ _ _ _ _ Htk). by apply rg_owned.
Qed.

Lemma client_free_ok st L1 p layout L2 l st' :
  client_ok st (L1 ++ (p, layout) :: L2) l → returns (λ fuel, dealloc fuel p layout) st (tt, st') →
  ∃ l', client_ok st' (L1 ++ L2) l'.
Proof.
  intros [Hrep Hdis Hregs] [n Hrun].
  destruct (Hregs p layout) as (Hgood & _ & Hreg); [set_solver|].
  destruct (good_request layout Hgood) as (al & Hadj & _).
  specialize (Hrun (max n (S (length l))) ltac:(lia)).
  destruct (dealloc_ok hi Hhi st l layout (max n (S (length l))) _ al p Hadj Hreg)
    as (st1 & l' & Hrun' & [Hrep' Hc _ Hk]); [lia|].
  rewrite Hrun in Hrun'. injection Hrun' as ->.
  destruct (no_overlap_remove _ _ _ Hdis) as [Hdis' Hsep]. exists l'. split; [done..|].
  intros q lay Hq. destruct (Hregs q lay) as (? & ? & []); [set_solver|]. split_and!; [done..|].
  split; [done..| |].
  - intros x Hx [Hcx|Hpx]%Hc; [by apply (rg_disjoint x)|].
    apply (Hsep x); [done|]. by eapply held_elem.
  - intros w Hw Hin. apply Hk. by apply rg_owned.
Qed.

Lemma client_write_ok self w w' L l :
  client_ok (self, w) L l → keeps (held L) w w' → client_ok (self, w') L l.
Proof.
  intros [[(Hz & Hn & Hnodes) Ho Hwf] Hdis Hregs] Hk. cbn [fst snd] in *.
  assert (Hrep : rep hi (self, w') l).
  { split; [|by eapply owned_keeps|done]. split_and!; [done..|]. cbn [snd].
    eapply (nodes_keeps hi 0); [done..| |done].
    intros q Hq [[p lay] [Hp Hpx]]%Exists_exists.
    destruct (Hregs p lay Hp) as (_ & _ & Hr). by apply (rg_disjoint _ _ _ _ _ Hr q). }
  split; [done..|]. intros p lay Hp. destruct (Hregs p lay Hp) as (? & ? & []).
  split_and!; [done..|]. split; [done..|]. intros q Hq Hin. cbn. by apply Hk, rg_owned.
Qed.

(** C9: the heap is safe for its clients.  Starting with one region and no
    allocation, after any sequence of allocations, frees of held blocks and
    arbitrary writes into held blocks: no two held blocks share a byte, no
    held block shares a byte with the free list, each is aligned as its
    layout asked, and the allocator can still serve every request and take
    every held block back. *)
Theorem heap_blocks_never_overlap st l st' L :
  rep hi st l → rtc client_step (st, []) (st', L) →
  ∃ l', rep hi st' l' ∧ no_overlap L ∧
    (∀ p layout, (p, layout) ∈ L →
       p mod layout_align layout = 0 ∧ layout_size layout ≤ block_size layout ∧
       (∀ x, holds (p, layout) x → ¬ covers l' x) ∧
       ∃ st2, returns (λ fuel, dealloc fuel p layout) st' (tt, st2)) ∧
    (∀ layout, good_layout layout → ∃ r, returns (λ fuel, alloc fuel layout) st' r).
Proof.
  intros Hrep Hsteps.
  assert (Hinv : ∃ l', client_ok st' L l').
  { remember (st, [] : list (Z * Layout)) as c0 eqn:H0. remember (st', L) as c1 eqn:H1.
    assert (Hstart : ∃ l', client_ok c0.1 c0.2 l').
    { subst c0. exists l. split; [done..|]. cbn. intros p lay Hp. by apply elem_of_nil in Hp. }
    clear H0 Hrep. revert Hstart. induction Hsteps as [c|c c' c'' Hstep _ IH]; intros [l0 Hok].
    - subst c. by exists l0.
    - apply (IH H1). destruct Hstep as [s0 s1 L0 lay p Hg Hrun Hp|s0 s1 L0 lay Hg Hrun|s0 s1 L1 p lay L2 Hrun|self w w' L0 Hk];
        cbn [fst snd] in *.
      + by destruct (client_alloc_ok _ _ _ _ _ _ Hok Hg Hrun) as [[? _]|[_ ?]].
      + destruct (client_alloc_ok _ _ _ _ _ _ Hok Hg Hrun) as [[_ ->]|[? _]]; [by exists l0|done].
      + by eapply client_free_ok.
      + exists l0. by eapply client_write_ok. }
  destruct Hinv as [l' [Hrep' Hdis Hregs]]. exists l'. split_and!; [done..| |].
  - intros p layout Hin. destruct (Hregs p layout Hin) as (Hgood & Hmod & Hreg).
    destruct (good_request layout Hgood) as (al & Hadj & _).
    destruct Hgood as (Hv & Hmax & _). destruct (adjusted_ok layout Hv Hmax) as (sz & al' & Hadj' & [(k & Hk & Hk2) _ _ _] & _ & Hsz).
    rewrite Hadj in Hadj'. injection Hadj' as <- <-.
    pose proof (div_ceil_spec (layout_size layout) al ltac:(rewrite Hk2; apply Z.pow_pos_nonneg; lia)).
    split_and!; [done|lia|apply Hreg|].
    destruct (dealloc_ok hi Hhi st' l' layout (S (length l')) _ al p Hadj Hreg) as (st2 & _ & Hrun & _); [lia|].
    exists st2, (S (length l')). intros fuel Hf. by eapply dealloc_mono.
  - intros layout Hgood. destruct (good_request layout Hgood) as (al & Hadj & Hreq & Hlim & _).
    destruct (alloc_ok hi Hhi st' l' layout (S (length l')) _ al Hrep' Hadj Hreq Hlim)
      as [[Hrun _]|(p & st2 & ? & ? & ? & ? & ? & Hrun & _)]; [lia|..];
      eexists; exists (S (length l')); intros fuel Hf; by eapply alloc_mono.
Qed.

End properties.

(** ** A heap of 256 bytes in flat memory *)
Definition demo_mem : mem := zero_mem 0x1000 256.
Definition demo_hi : Z := 0x1100.
Definition demo_lay : Layout := mkLayout 64 8.

Lemma demo_hi_range : demo_hi < 2 ^ 64.
Proof. unfold demo_hi. lia. Qed.
Lemma demo_empty : rep demo_hi (LinkedListAllocator.new, demo_mem) [].
Proof.
  split; [|intros p _ Hc; by apply covers_nil in Hc|exact I]. split; [reflexivity|]. split; [reflexivity|exact I].
Qed.
Lemma demo_part a s :
  0x1000 ≤ a → a + s ≤ demo_hi → a mod 8 = 0 → s mod 8 = 0 → 16 ≤ s →
  region demo_hi (LinkedListAllocator.new, demo_mem) [] a s.
Proof.
  intros Ha He Ha8 Hs8 Hs. unfold demo_hi in He. split; try done; [apply demo_empty|lia|..].
  - intros x _ Hc. by apply covers_nil in Hc.
  - intros p Hp Hin. split_and!; [lia|done|]. apply zero_mem_mapped; [lia|dlia].
Qed.
Lemma demo_region : region demo_hi (LinkedListAllocator.new, demo_mem) [] 0x1000 256.
Proof. apply demo_part; unfold demo_hi; (lia || reflexivity). Qed.
Lemma demo_heap {P : BuildProfile} : ∃ st, rep demo_hi (st : LinkedListAllocator * mem) [(0x1000, 256)].
Proof.
  destruct (add_free_region_ok demo_hi demo_hi_range _ _ _ _ 1 demo_region)
    as (st & l & _ & [Hrep Hc _ _]); [cbn; lia|]. exists st.
  replace [(0x1000, 256)] with l; [exact Hrep|].
  apply (blocks_canonical 0 demo_hi); [apply Hrep|unfold demo_hi; cbn; by split_and!|].
  intros x. rewrite Hc, covers_cons. tauto.
Qed.
Lemma demo_adjusted : adjusted_size_align demo_lay = Ret (64, 8).
Proof. reflexivity. Qed.
Lemma demo_request : request 64 8.
Proof. split; [exists 3; split; [lia|reflexivity]|reflexivity|lia|lia]. Qed.
Lemma demo_lay_valid : layout_valid demo_lay.
Proof. split; [exists 3; split; [lia|reflexivity]|unfold ISIZE_MAX; cbn; lia]. Qed.
Lemma demo_align_limit : demo_hi + 8 < 2 ^ 64.
Proof. unfold demo_hi. lia. Qed.
Lemma demo_good : good_layout demo_hi demo_lay.
Proof. split; [exact demo_lay_valid|]. split; [unfold ISIZE_MAX; cbn; lia|unfold demo_hi; cbn; lia]. Qed.

(** An allocation from it succeeds, for every fuel above one. *)
Lemma demo_allocates {P : BuildProfile} (st : LinkedListAllocator * mem) fuel :
  rep demo_hi st [(0x1000, 256)] → (1 < fuel)%nat →
  ∃ p st1, alloc fuel demo_lay st = Ret (p, st1) ∧ p ≠ 0.
Proof.
  intros Hrep Hf.
  destruct (alloc_ok demo_hi demo_hi_range st _ demo_lay fuel 64 8 Hrep demo_adjusted demo_request demo_align_limit)
    as [[_ Hno]|(p & st1 & l' & l1 & a & s & l2 & Hrun & Htk)]; [cbn; lia|..].
  - exfalso. specialize (Hno 0x1000 256 ltac:(set_solver)). vm_compute in Hno. discriminate Hno.
  - exists p, st1. split; [exact Hrun|].
    destruct (taken_region demo_hi demo_hi_range _ _ _ _ _ _ _ _ _ _ _ Hrep demo_request Htk) as (Hreg & _).
    pose proof (rg_pos _ _ _ _ _ Hreg). lia.
Qed.

Lemma align_up_exact_witness :
  align_up (P := release_profile) 0xFFFF880000000000 (2 ^ 62) = Ret 0 ∧
  align_up (P := dev_profile) 0xFFFF880000000000 (2 ^ 62) = Panic ArithOverflow.
Proof.
  split.
  - exact (proj2 (align_up_exact (P := release_profile) 0xFFFF880000000000 62 ltac:(lia) ltac:(unfold u64; lia))
      ltac:(lia)).
  - exact (proj2 (align_up_exact (P := dev_profile) 0xFFFF880000000000 62 ltac:(lia) ltac:(unfold u64; lia))
      ltac:(lia)).
Defined.

Lemma huge_layout_valid : layout_valid (mkLayout (2 ^ 63 - 1) 1).
Proof. split; [exists 0; split; [lia|reflexivity]|unfold ISIZE_MAX; cbn; lia]. Qed.
Lemma adjusted_size_align_exact_witness :
  adjusted_size_align (mkLayout (2 ^ 63 - 1) 1) = Panic ExpectFailed.
Proof.
  apply (adjusted_size_align_exact (mkLayout (2 ^ 63 - 1) 1) huge_layout_valid). unfold ISIZE_MAX. cbn. lia.
Defined.

Lemma add_free_region_coalesces_witness :
  ∃ st' l', add_free_region (P := release_profile) 1 0x1000 256 (LinkedListAllocator.new, demo_mem)
              = Ret (tt, st') ∧ rep demo_hi st' l'.
Proof.
  destruct (add_free_region_coalesces (P := release_profile) demo_hi demo_hi_range _ _ _ _ 1 demo_region
    ltac:(cbn; lia)) as (st' & l' & Hrun & Hrep & _).
  exists st', l'. split; [exact Hrun|exact Hrep].
Defined.

Lemma free_order_irrelevant_witness :
  ∃ st1 st2 l', rep demo_hi (st1 : LinkedListAllocator * mem) l' ∧
    rep demo_hi (st2 : LinkedListAllocator * mem) l'.
Proof.
  destruct (free_order_irrelevant (P := release_profile) demo_hi demo_hi_range _ _ 0x1000 128 0x1080 128 2
    (demo_part 0x1000 128 ltac:(lia) ltac:(unfold demo_hi; lia) eq_refl eq_refl ltac:(lia))
    (demo_part 0x1080 128 ltac:(lia) ltac:(unfold demo_hi; lia) eq_refl eq_refl ltac:(lia))
    ltac:(lia) ltac:(cbn; lia)) as (st1 & st2 & l' & _ & _ & H1 & H2).
  exists st1, st2, l'. split; [exact H1|exact H2].
Defined.

Lemma alloc_first_fit_witness :
  ∃ (st : LinkedListAllocator * mem) p st' l', alloc (P := release_profile) 2 demo_lay st = Ret (p, st') ∧
    rep demo_hi st' l'.
Proof.
  destruct (demo_heap (P := release_profile)) as [st Hrep].
  destruct (alloc_first_fit (P := release_profile) demo_hi demo_hi_range st _ demo_lay 64 8 2 Hrep
    demo_adjusted demo_request demo_align_limit ltac:(cbn; lia)) as (p & st' & l' & Hrun & Hrep' & _).
  exists st, p, st', l'. split; [exact Hrun|exact Hrep'].
Defined.

Lemma alloc_dealloc_roundtrip_witness :
  ∃ (st : LinkedListAllocator * mem) p st1 st2,
    alloc (P := release_profile) 3 demo_lay st = Ret (p, st1) ∧
    dealloc (P := release_profile) 3 p demo_lay st1 = Ret (tt, st2).
Proof.
  destruct (demo_heap (P := release_profile)) as [st Hrep].
  destruct (demo_allocates (P := release_profile) st 3 Hrep ltac:(lia)) as (p & st1 & Hrun & Hp).
  destruct (alloc_dealloc_roundtrip (P := release_profile) demo_hi demo_hi_range st _ demo_lay 64 8 3 p st1 Hrep
    demo_adjusted demo_request demo_align_limit ltac:(cbn; lia) Hrun Hp) as (st2 & l2 & a & s & Hd & _).
  exists st, p, st1, st2. split; [exact Hrun|exact Hd].
Defined.

Lemma heap_blocks_never_overlap_witness :
  ∃ (st : LinkedListAllocator * mem) p l', rep demo_hi st l' ∧ p mod 8 = 0 ∧
    ∀ x, holds (p, demo_lay) x → ¬ covers l' x.
Proof.
  destruct (demo_heap (P := release_profile)) as [st Hrep].
  destruct (demo_allocates (P := release_profile) st 2 Hrep ltac:(lia)) as (p & st1 & Hrun & Hp).
  assert (Hstep : client_step (P := release_profile) demo_hi (st, []) (st1, [(p, demo_lay)])).
  { apply client_alloc; [exact demo_good| |exact Hp].
    exists 2%nat. intros fuel Hf. exact (alloc_mono 2 fuel demo_lay st (p, st1) Hf Hrun). }
  destruct (heap_blocks_never_overlap (P := release_profile) demo_hi demo_hi_range st _ st1 [(p, demo_lay)] Hrep
    (rtc_once _ _ Hstep)) as (l' & Hrep' & _ & Hall & _).
  destruct (Hall p demo_lay) as (Hal & _ & Hdis & _); [by apply elem_of_cons; left|].
  exists st1, p, l'. split; [exact Hrep'|]. split; [exact Hal|exact Hdis].
Defined.
