(* ===== verification/SpinLock.v ===== *)
(** The spin lock: [kernel/src/sync/spinlock.rs].

    The lock word and the data it protects; [lock] as one processor runs it
    (retrying while the flag is taken), and the interleavings of any number
    of processors as a step relation. *)
From stdpp Require Import base numbers option relations gmap list_numbers list.
From S2P Require Import Prelude.

Record SpinLock (T : Type) : Type := mkSpinLock { locked : bool; data : T }.
Arguments mkSpinLock {T} _ _.
Arguments locked {T} _.
Arguments data {T} _.

Definition new {T} (d : T) : SpinLock T := mkSpinLock false d.

(** [compare_exchange_weak(false, true)] when it does not fail spuriously. *)
Definition compare_exchange {T} (self : SpinLock T) : option (SpinLock T) :=
  if locked self then None else Some (mkSpinLock true (data self)).

(** One processor spinning: each failed attempt costs one unit of fuel. *)
Fixpoint lock {T} (fuel : nat) (self : SpinLock T) : outcome (T * SpinLock T) :=
  match fuel with
  | O => NoFuel
  | S fuel =>
    match compare_exchange self with
    | Some self' => Ret (data self', self')
    | None => lock fuel self
    end
  end.

(** [Drop]: the data written through the guard stays, the flag is cleared. *)
Definition unlock {T} (self : SpinLock T) (d : T) : SpinLock T := mkSpinLock false d.

Lemma lock_free {T} fuel (self : SpinLock T) :
  locked self = false → (0 < fuel)%nat → lock fuel self = Ret (data self, mkSpinLock true (data self)).
Proof. intros Hl Hf. destruct fuel; [lia|]. cbn. unfold compare_exchange. by rewrite Hl. Qed.
Lemma lock_taken {T} fuel (self : SpinLock T) : locked self = true → lock fuel self = NoFuel.
Proof.
  intros Hl. induction fuel as [|fuel IH]; [done|]. cbn. unfold compare_exchange. by rewrite Hl.
Qed.

(** * Interleavings

    A processor is outside, spinning, or inside the critical section, with
    the value it last saw through its guard. *)
Section interleavings.
Context {T : Type}.

Inductive cpu : Type := Outside | Spinning | Inside (seen : option T).

Record system : Type := mkSystem { sys_lock : SpinLock T; sys_cpus : gmap nat cpu }.

Inductive sys_step : system → system → Prop :=
| st_call l c i : c !! i = Some Outside →
    sys_step (mkSystem l c) (mkSystem l (<[i := Spinning]> c))
| st_acquire l l' c i : c !! i = Some Spinning → compare_exchange l = Some l' →
    sys_step (mkSystem l c) (mkSystem l' (<[i := Inside None]> c))
| st_spin l c i : c !! i = Some Spinning → sys_step (mkSystem l c) (mkSystem l c)
| st_deref l c i o : c !! i = Some (Inside o) →
    sys_step (mkSystem l c) (mkSystem l (<[i := Inside (Some (data l))]> c))
| st_deref_mut l c i x (f : T → T) : c !! i = Some (Inside (Some x)) →
    sys_step (mkSystem l c) (mkSystem (mkSpinLock (locked l) (f x)) (<[i := Inside (Some (f x))]> c))
| st_drop l c i o : c !! i = Some (Inside o) →
    sys_step (mkSystem l c) (mkSystem (unlock l (data l)) (<[i := Outside]> c)).

Definition inside (s : system) (i : nat) : Prop := ∃ o, sys_cpus s !! i = Some (Inside o).

Record exclusive (s : system) : Prop := {
  ex_unique : ∀ i j, inside s i → inside s j → i = j;
  ex_flag : ∀ i, inside s i → locked (sys_lock s) = true;
  ex_seen : ∀ i x, sys_cpus s !! i = Some (Inside (Some x)) → x = data (sys_lock s);
}.

Definition started (s : system) : Prop :=
  locked (sys_lock s) = false ∧ ∀ i c, sys_cpus s !! i = Some c → c = Outside.

Lemma started_exclusive s : started s → exclusive s.
Proof. intros [Hl Hc]. split; [intros i j [o Ho]|intros i [o Ho]|intros i x Ho]; by apply Hc in Ho. Qed.

(** Looking up after one processor moved. *)
Lemma inside_insert l c i k j :
  inside (mkSystem l (<[i := k]> c)) j →
  (j = i ∧ ∃ o, k = Inside o) ∨ (j ≠ i ∧ ∃ o, c !! j = Some (Inside o)).
Proof.
  intros [o Ho]. cbn in Ho. apply lookup_insert_Some in Ho as [[<- ->]|[? ?]]; [left|right]; eauto.
Qed.

Lemma sys_step_exclusive s s' : sys_step s s' → exclusive s → exclusive s'.
Proof.
  intros Hstep [Hu Hf Hs].
  assert (Hin : ∀ i o, sys_cpus s !! i = Some (Inside o) → inside s i) by (intros i o Ho; by exists o).
  destruct Hstep as [l c i Hi|l l' c i Hi Hx|l c i Hi|l c i o Hi|l c i x f Hi|l c i o Hi]; cbn in *; try done.
  - split; cbn.
    + intros j k [[-> [? ?]]|[_ [? Hj]]]%inside_insert [[-> [? ?]]|[_ [? Hk]]]%inside_insert; eauto; done.
    + intros j [[-> [? ?]]|[_ [? Hj]]]%inside_insert; eauto; done.
    + intros j x [[<- ?]|[_ Hj]]%lookup_insert_Some; eauto; done.
  - unfold compare_exchange in Hx. destruct (locked l) eqn:Hl; [done|]. injection Hx as <-.
    assert (Hno : ∀ j o, c !! j = Some (Inside o) → False).
    { intros j o Hj. apply Hin, Hf in Hj. cbn in Hj. congruence. }
    split; cbn.
    + intros j k [[-> _]|[_ [? Hj]]]%inside_insert [[-> _]|[_ [? Hk]]]%inside_insert; eauto; by exfalso; eauto.
    + done.
    + intros j x [[<- ?]|[_ Hj]]%lookup_insert_Some; [done|by exfalso; eauto].
  - split; cbn.
    + intros j k [[-> _]|[_ [? Hj]]]%inside_insert [[-> _]|[_ [? Hk]]]%inside_insert; eauto 6.
    + intros j [[-> _]|[_ [? Hj]]]%inside_insert; eauto 6.
    + intros j x [[<- [=]]|[_ Hj]]%lookup_insert_Some; eauto.
  - assert (Hone : ∀ j o, c !! j = Some (Inside o) → j = i) by eauto 6. split; cbn.
    + intros j k [[-> _]|[_ [? Hj]]]%inside_insert [[-> _]|[_ [? Hk]]]%inside_insert; eauto 6.
    + intros j [[-> _]|[_ [? Hj]]]%inside_insert; eauto 6.
    + intros j y [[<- [=]]|[Hne Hj]]%lookup_insert_Some; [done|]. by apply Hone in Hj.
  - assert (Hone : ∀ j o, c !! j = Some (Inside o) → j = i) by eauto 6. split; cbn.
    + intros j k [[-> [? ?]]|[Hne [? Hj]]]%inside_insert; [done|]. by apply Hone in Hj.
    + intros j [[-> [? ?]]|[Hne [? Hj]]]%inside_insert; [done|]. by apply Hone in Hj.
    + intros j y [[<- ?]|[Hne Hj]]%lookup_insert_Some; [done|]. by apply Hone in Hj.
Qed.

(** C26: mutual exclusion.  Whatever the interleaving, at most one processor is
    inside the critical section, the flag is set while one is, and the value
    it last read or wrote through its guard is still the protected value, so
    no update is lost. *)
Theorem mutual_exclusion (s s' : system) :
  started s → rtc sys_step s s' →
  (∀ i j, inside s' i → inside s' j → i = j) ∧
  (∀ i, inside s' i → locked (sys_lock s') = true) ∧
  (∀ i x, sys_cpus s' !! i = Some (Inside (Some x)) → x = data (sys_lock s')).
Proof.
  intros Hst Hsteps. assert (exclusive s') as [? ? ?]; [|by split_and!].
  apply started_exclusive in Hst. induction Hsteps; eauto using sys_step_exclusive.
Qed.

End interleavings.

Lemma mutual_exclusion_witness :
  ∃ s' : system (T := Z), inside s' 0%nat ∧ data (sys_lock s') = 8 ∧ locked (sys_lock s') = true.
Proof.
  pose (c0 := {[0%nat := Outside; 1%nat := Outside]} : gmap nat (cpu (T := Z))).
  pose (s1 := mkSystem (new 7) c0).
  pose (s' := mkSystem (mkSpinLock true 8)
    (<[0%nat := Inside (Some 8)]> (<[0%nat := Inside (Some 7)]> (<[0%nat := Inside None]> (<[0%nat := Spinning]> c0))))).
  exists s'. assert (Hin : inside s' 0%nat) by (by exists (Some 8)).
  assert (Hst : started s1).
  { split; [done|]. intros i c Hc. unfold s1, c0 in Hc. cbn in Hc.
    apply lookup_insert_Some in Hc as [[_ <-]|[_ Hc]]; [done|].
    by apply lookup_singleton_Some in Hc as [_ <-]. }
  split; [exact Hin|]. split; [done|].
  refine (proj1 (proj2 (mutual_exclusion s1 s' Hst _)) 0%nat Hin).
  eapply rtc_l; [by apply (st_call _ _ 0%nat)|]. eapply rtc_l; [by eapply (st_acquire _ _ _ 0%nat)|].
  eapply rtc_l; [by eapply (st_deref _ _ 0%nat)|].
  apply rtc_once. by apply (st_deref_mut (mkSpinLock true 7) _ 0%nat 7 (λ x, x + 1)).
Defined.
