(* ===== verification/Mmu.v ===== *)
(** The kernel heap's memory: virtual addresses through the page tables.

    The processor resolves every heap access through the tables rooted at
    CR3.  [backed] says that the heap's pages up to an address are mapped
    writable to distinct frames that no table uses; under it the heap region
    is a [HeapMemory]: a store to one word changes no other heap word, no
    table and no mapping. *)
From stdpp Require Import base numbers option gmap list_numbers list.
From S2P Require Import Prelude PhysAddr VirtAddr PageTableEntry Memory FrameAllocator FrameSource Vmm PageWalk VmmSpec VmmCorrect VmmTheorems HeapMemory.

Definition PAGE_SIZE : Z := 4096.
Definition HEAP_REGION_START : Z := 0xFFFF880000000000.
Definition HEAP_REGION_END : Z := 0xFFFFFFFF80000000.

Definition cpu_vmm {B} (s : machine B) : VirtualMemoryManager := mkVmm (PhysAddr.new (m_cr3 s)).
Definition cpu_walk {B} (s : machine B) (v : Z) : mapping :=
  walk_of (cpu_vmm s) (m_mem s) (VirtAddr.new v).

(** Accesses of kernel code to an aligned word at a virtual address; a page
    that is not mapped, or not writable for a store, faults. *)
Definition phys_of {B} (s : machine B) (v : Z) : option Z :=
  PhysAddr.as_u64 <$> resolve (cpu_walk s v) (VirtAddr.new v).
Definition mmu_load {B} (s : machine B) (v : Z) : outcome Z :=
  if volatile_ok v then pa ← defined (phys_of s v); read_volatile_u64 (m_mem s) pa else Undef.
Definition page_writable (w : mapping) : bool :=
  match w with Unmapped => false | Leaf e | Huge _ e => is_writable e end.
Definition mmu_store {B} (s : machine B) (v x : Z) : outcome (machine B) :=
  if volatile_ok v && page_writable (cpu_walk s v) then
    pa ← defined (phys_of s v); m ← write_volatile_u64 (m_mem s) pa x; Ret (set_mem s m)
  else Undef.

Section backed.
Context {B : Type}.
Implicit Types (s : machine B).

(** Page number [k] is backed by frame [f] and nothing else uses [f]. *)
Record backs s (k f : Z) : Prop := {
  bk_walk : cpu_walk s (k * PAGE_SIZE) = Leaf (new_leaf (PhysAddr.new (f * FRAME_SIZE)) read_write);
  bk_range : 0 < f < 2 ^ 40;
  bk_mapped : mapped (m_mem s) (f * FRAME_SIZE) FRAME_SIZE;
  bk_table : ∀ p t, path_ok p → table_at (m_mem s) (root (cpu_vmm s)) p = Some t → t / FRAME_SIZE ≠ f;
}.
Record backed s (hi : Z) (frame : Z → Z) : Prop := {
  bd_hi : HEAP_REGION_START ≤ hi ≤ HEAP_REGION_END;
  bd_aligned : hi mod PAGE_SIZE = 0;
  bd_tables : tables_ok (m_mem s) (root (cpu_vmm s)) ∅;
  bd_page : ∀ k, HEAP_REGION_START ≤ k * PAGE_SIZE < hi → backs s k (frame k);
  bd_inj : ∀ j k, HEAP_REGION_START ≤ j * PAGE_SIZE < hi → HEAP_REGION_START ≤ k * PAGE_SIZE < hi →
    frame j = frame k → j = k;
}.

Definition mmu_ok s (p : Z) : Prop :=
  p mod 8 = 0 ∧ ∃ hi frame, HEAP_REGION_START ≤ p < hi ∧ backed s hi frame.
Definition mmu_word s (p : Z) : Z := word (m_mem s) (default 0 (phys_of s p)).
Definition mmu_byte s (p : Z) : option Z := pa ← phys_of s p; m_mem s !! pa.

Lemma page_of_addr p :
  let k := p / PAGE_SIZE in
  p = k * PAGE_SIZE + p mod PAGE_SIZE ∧ 0 ≤ p mod PAGE_SIZE < PAGE_SIZE.
Proof. unfold PAGE_SIZE. dlia. Qed.

Lemma page_in_heap p hi :
  HEAP_REGION_START ≤ p < hi → HEAP_REGION_START ≤ p / PAGE_SIZE * PAGE_SIZE < hi.
Proof. unfold HEAP_REGION_START, PAGE_SIZE. dlia. Qed.

Lemma aligned_page k : is_page_aligned (VirtAddr.new (k * PAGE_SIZE)) = true.
Proof. unfold is_page_aligned, PAGE_SIZE, FRAME_SIZE. cbn. apply Z.eqb_eq. by apply Z.mod_mul. Qed.

Lemma backed_access s hi frame p :
  backed s hi frame → HEAP_REGION_START ≤ p < hi →
  cpu_walk s p = Leaf (new_leaf (PhysAddr.new (frame (p / PAGE_SIZE) * FRAME_SIZE)) read_write) ∧
  phys_of s p = Some (frame (p / PAGE_SIZE) * FRAME_SIZE + p mod PAGE_SIZE).
Proof.
  intros Hb Hp. pose proof (bd_page _ _ _ Hb _ (page_in_heap _ _ Hp)) as [Hw Hr _ _].
  set (k := p / PAGE_SIZE) in *. set (f := frame k) in *.
  destruct (page_of_addr p) as [Hpk Hoff]. fold k in Hpk.
  destruct (page_offset_within (VirtAddr.new (k * PAGE_SIZE)) (p mod PAGE_SIZE) (aligned_page k))
    as [Hpg Hpo]; [done|]. cbn in Hpg, Hpo. rewrite <- Hpk in Hpg, Hpo.
  assert (Hwp : cpu_walk s p = Leaf (new_leaf (PhysAddr.new (f * FRAME_SIZE)) read_write)).
  { rewrite <- Hw. unfold cpu_walk. by apply walk_of_page. }
  split; [done|]. unfold phys_of. rewrite Hwp. cbn [resolve fmap option_fmap option_map].
  rewrite Hpo, new_leaf_addr.
  - cbn. f_equal. apply lor_offset; [by apply Z.mod_mul|done].
  - apply is_frame_aligned_spec. by apply Z.mod_mul.
  - unfold FRAME_SIZE. cbn. lia.
Qed.

Lemma backed_word_ok s hi frame p :
  backed s hi frame → HEAP_REGION_START ≤ p < hi → p mod 8 = 0 →
  let pa := frame (p / PAGE_SIZE) * FRAME_SIZE + p mod PAGE_SIZE in
  volatile_ok p = true ∧ volatile_ok pa = true ∧ mapped (m_mem s) pa 8.
Proof.
  intros Hb Hp H8. pose proof (bd_page _ _ _ Hb _ (page_in_heap _ _ Hp)) as [_ Hr Hm _].
  cbv zeta. set (f := frame (p / PAGE_SIZE)) in *. clearbody f. split_and!; [apply volatile_ok_spec..|].
  - split; [unfold HEAP_REGION_START in *; lia|done].
  - unfold FRAME_SIZE, PAGE_SIZE. split; dlia.
  - intros i Hi. apply Hm. unfold FRAME_SIZE, PAGE_SIZE in *. dlia.
Qed.

(** Memory that changed only inside one frame that is not a table. *)
Lemma frame_write_ents s m' f :
  tables_ok (m_mem s) (root (cpu_vmm s)) ∅ →
  (∀ p t, path_ok p → table_at (m_mem s) (root (cpu_vmm s)) p = Some t → t / FRAME_SIZE ≠ f) →
  (∀ a, a / FRAME_SIZE ≠ f → m' !! a = m_mem s !! a) →
  ∀ p t i, path_ok p → table_at (m_mem s) (root (cpu_vmm s)) p = Some t → idx_ok i →
    ent m' t i = ent (m_mem s) t i.
Proof.
  intros Hto Hf Hm' p t i Hp Ht Hi. unfold ent. f_equal. apply word_ext. intros a Ha. apply Hm'.
  pose proof (Hf p t Hp Ht) as Hne. destruct (to_table _ _ _ Hto p t Hp Ht) as (_ & Hal & _).
  intros Heq. apply Hne. unfold FRAME_SIZE, idx_ok in *. dlia.
Qed.
Lemma backed_frame_write s m' hi frame f :
  backed s hi frame → (∀ p t, path_ok p → table_at (m_mem s) (root (cpu_vmm s)) p = Some t → t / FRAME_SIZE ≠ f) →
  (∀ a, a / FRAME_SIZE ≠ f → m' !! a = m_mem s !! a) →
  (∀ a, is_Some (m' !! a) ↔ is_Some (m_mem s !! a)) →
  backed (set_mem s m') hi frame ∧ ∀ v, cpu_walk (set_mem s m') v = cpu_walk s v.
Proof.
  intros Hb Hf Hm' Hdom. pose proof (bd_tables _ _ _ Hb) as Hto.
  pose proof (frame_write_ents s m' f Hto Hf Hm') as Hents.
  assert (Hwalk : ∀ v, cpu_walk (set_mem s m') v = cpu_walk s v).
  { intros v. unfold cpu_walk, walk_of. eapply (untouched_walk (m_mem s) m' _ Hents) with (q := []); try done.
    - split; [cbn; lia|done].
    - apply indices_ok. }
  split; [|done]. destruct Hb as [Hhi Hal _ Hpage Hinj]. split; [done..| | |done].
  - by eapply untouched_tables_ok.
  - intros k Hk. destruct (Hpage k Hk) as [Hw Hr Hmp Htb]. split; [by rewrite Hwalk|done| |].
    + by eapply mapped_dom.
    + intros p t Hp. change (m_mem (set_mem s m')) with m'. change (cpu_vmm (set_mem s m')) with (cpu_vmm s).
      rewrite (untouched_table_at (m_mem s) m' (root (cpu_vmm s)) Hents [] (root (cpu_vmm s)) p) by done.
      by apply Htb.
Qed.

End backed.

Section instance.
Context {B : Type}.
Implicit Types (s : machine B).

(** Of two bounds up to which the heap is backed, one covers both words. *)
Lemma mmu_ok_pair s p q :
  mmu_ok s p → mmu_ok s q →
  ∃ hi frame, backed s hi frame ∧ HEAP_REGION_START ≤ p < hi ∧ HEAP_REGION_START ≤ q < hi.
Proof.
  intros (_ & h1 & f1 & Hp & Hb1) (_ & h2 & f2 & Hq & Hb2).
  destruct (decide (h1 ≤ h2)); [exists h2, f2|exists h1, f1]; split_and!; (done || lia).
Qed.

(** Different words of backed pages lie in disjoint physical words. *)
Lemma backed_disjoint s hi frame p q i :
  backed s hi frame → HEAP_REGION_START ≤ p < hi → HEAP_REGION_START ≤ q < hi →
  p mod 8 = 0 → q mod 8 = 0 → q ≠ p →
  let pa x := frame (x / PAGE_SIZE) * FRAME_SIZE + x mod PAGE_SIZE in
  pa q ≤ i < pa q + 8 → ¬ (pa p ≤ i < pa p + 8).
Proof.
  intros Hb Hp Hq Hp8 Hq8 Hne pa Hi Hi'. unfold pa in *.
  assert (Hfr : frame (q / PAGE_SIZE) = frame (p / PAGE_SIZE)).
  { generalize dependent (frame (q / PAGE_SIZE)). generalize dependent (frame (p / PAGE_SIZE)).
    unfold FRAME_SIZE, PAGE_SIZE. intros. dlia. }
  assert (Hk : q / PAGE_SIZE = p / PAGE_SIZE).
  { apply (bd_inj _ _ _ Hb); [by apply page_in_heap..|done]. }
  rewrite Hfr in Hi. generalize dependent (frame (p / PAGE_SIZE)).
  unfold FRAME_SIZE, PAGE_SIZE in *. intros. dlia.
Qed.

(** The bytes of an aligned word of a backed page. *)
Lemma backed_bytes s hi frame q i :
  backed s hi frame → HEAP_REGION_START ≤ q < hi → q mod 8 = 0 → 0 ≤ i < 8 →
  HEAP_REGION_START ≤ q + i < hi ∧ phys_of s (q + i) = Some (frame (q / PAGE_SIZE) * FRAME_SIZE + q mod PAGE_SIZE + i).
Proof.
  intros Hb Hq Hq8 Hi.
  assert (Hr : HEAP_REGION_START ≤ q + i < hi).
  { pose proof (bd_aligned _ _ _ Hb) as Hal. unfold PAGE_SIZE in Hal. dlia. }
  destruct (backed_access _ _ _ _ Hb Hr) as [_ ->]. split; [done|]. f_equal.
  assert ((q + i) / PAGE_SIZE = q / PAGE_SIZE ∧ (q + i) mod PAGE_SIZE = q mod PAGE_SIZE + i) as [-> ->]
    by (unfold PAGE_SIZE; dlia). lia.
Qed.

Lemma mmu_load_ok s p : mmu_ok s p → mmu_load s p = Ret (mmu_word s p).
Proof.
  intros (H8 & hi & frame & Hp & Hb). destruct (backed_access _ _ _ _ Hb Hp) as [_ Hph].
  destruct (backed_word_ok _ _ _ _ Hb Hp H8) as (Hv & Hpa & Hm).
  unfold mmu_load, mmu_word. rewrite Hv, Hph. cbn [defined mbind outcome_bind default].
  by apply read_volatile_ok.
Qed.

(** What every heap store keeps: the processor and allocator state, which
    bytes exist, every translation, the tree of tables and the backing. *)
Record mmu_frame s s' : Prop := {
  mf_fa : m_fa s' = m_fa s;
  mf_cpu : m_tlb s' = m_tlb s ∧ m_efer s' = m_efer s ∧ m_cr3 s' = m_cr3 s;
  mf_dom : ∀ a, is_Some (m_mem s' !! a) ↔ is_Some (m_mem s !! a);
  mf_walk : ∀ v, walk_of (cpu_vmm s) (m_mem s') v = walk_of (cpu_vmm s) (m_mem s) v;
  mf_table : ∀ p, path_ok p →
    table_at (m_mem s') (root (cpu_vmm s)) p = table_at (m_mem s) (root (cpu_vmm s)) p;
  mf_tables : ∀ free, tables_ok (m_mem s) (root (cpu_vmm s)) free →
    tables_ok (m_mem s') (root (cpu_vmm s)) free;
  mf_backed : ∀ hi frame, backed s hi frame → backed s' hi frame;
}.

Lemma mmu_frame_refl s : mmu_frame s s.
Proof. by split. Qed.
Lemma mmu_frame_trans s1 s2 s3 : mmu_frame s1 s2 → mmu_frame s2 s3 → mmu_frame s1 s3.
Proof.
  intros [A1 (B1 & C1 & D1) E1 F1 G1 H1 I1] [A2 (B2 & C2 & D2) E2 F2 G2 H2 I2].
  assert (Hv : cpu_vmm s2 = cpu_vmm s1) by (unfold cpu_vmm; by rewrite D1). rewrite Hv in *.
  split; [congruence|split_and!; congruence|..].
  - intros a. by rewrite E2, E1.
  - intros v. by rewrite F2, F1.
  - intros p Hp. by rewrite G2, G1.
  - auto.
  - auto.
Qed.

(** A write inside a frame that is not a table. *)
Lemma frame_write_frame s m' f :
  tables_ok (m_mem s) (root (cpu_vmm s)) ∅ →
  (∀ p t, path_ok p → table_at (m_mem s) (root (cpu_vmm s)) p = Some t → t / FRAME_SIZE ≠ f) →
  (∀ a, a / FRAME_SIZE ≠ f → m' !! a = m_mem s !! a) →
  (∀ a, is_Some (m' !! a) ↔ is_Some (m_mem s !! a)) →
  mmu_frame s (set_mem s m').
Proof.
  intros Hto Hf Hm' Hdom.
  pose proof (frame_write_ents s m' f Hto Hf Hm') as Hents.
  split; [done..| | | |].
  - intros v. unfold walk_of. eapply (untouched_walk (m_mem s) m' _ Hents) with (q := []); try done.
    + split; [cbn; lia|done].
    + apply indices_ok.
  - intros p Hp. by apply (untouched_table_at (m_mem s) m' (root (cpu_vmm s)) Hents [] (root (cpu_vmm s)) p).
  - intros free Hfree. by eapply untouched_tables_ok.
  - intros hi frame Hb. by eapply backed_frame_write.
Qed.

Lemma mmu_store_ok s p x :
  mmu_ok s p → u64 x →
  ∃ m', mmu_store s p x = Ret (set_mem s m') ∧ mmu_word (set_mem s m') p = x ∧
    (∀ q, mmu_ok s q → q ≠ p → mmu_word (set_mem s m') q = mmu_word s q) ∧
    mmu_frame s (set_mem s m') ∧
    (∀ q i, mmu_ok s q → q ≠ p → 0 ≤ i < 8 → mmu_byte (set_mem s m') (q + i) = mmu_byte s (q + i)).
Proof.
  intros Hok Hx. pose proof Hok as (H8 & hi & frame & Hp & Hb).
  destruct (backed_access _ _ _ _ Hb Hp) as [Hw Hph].
  destruct (backed_word_ok _ _ _ _ Hb Hp H8) as (Hv & Hpa & Hm).
  destruct (write_volatile_ok (m_mem s) _ x Hpa Hm Hx) as (m' & Hwr & Hword & Hf & Hd).
  assert (Hframe : mmu_frame s (set_mem s m')).
  { apply (frame_write_frame _ _ (frame (p / PAGE_SIZE))); [apply Hb| | |done].
    - apply (bd_page _ _ _ Hb). by apply page_in_heap.
    - intros a Ha. apply Hf. intros Hin. apply Ha. revert Hin.
      generalize (frame (p / PAGE_SIZE)). unfold FRAME_SIZE, PAGE_SIZE. intros. dlia. }
  assert (Hphs : ∀ q, phys_of (set_mem s m') q = phys_of s q).
  { intros q. unfold phys_of, cpu_walk. by rewrite <- (mf_walk _ _ Hframe). }
  exists m'. split_and!; [| | |done|].
  - unfold mmu_store. rewrite Hv, Hw, Hph. cbn [page_writable andb]. rewrite new_leaf_writable.
    cbn [read_write writable defined mbind outcome_bind]. by rewrite Hwr.
  - unfold mmu_word. rewrite Hphs, Hph. exact Hword.
  - intros q Hq Hne. destruct (mmu_ok_pair s p q Hok Hq) as (h & fr & Hb' & Hp' & Hq').
    unfold mmu_word. rewrite Hphs. destruct (backed_access _ _ _ _ Hb' Hq') as [_ ->].
    destruct (backed_access _ _ _ _ Hb' Hp') as [_ Hph']. rewrite Hph in Hph'. apply (inj Some) in Hph'.
    apply word_ext. intros i Hi. apply Hf. cbn [default] in *. rewrite Hph'.
    eapply (backed_disjoint s h fr p q); try done. apply Hq.
  - intros q i Hq Hne Hi. destruct (mmu_ok_pair s p q Hok Hq) as (h & fr & Hb' & Hp' & Hq').
    unfold mmu_byte. rewrite Hphs. destruct (backed_bytes s h fr q i Hb' Hq') as [_ ->]; [apply Hq|done|].
    destruct (backed_access _ _ _ _ Hb' Hp') as [_ Hph']. rewrite Hph in Hph'. apply (inj Some) in Hph'.
    cbn. apply Hf. rewrite Hph'. eapply (backed_disjoint s h fr p q); try done; [apply Hq|lia].
Qed.

(** The heap's memory provides what the free-list allocator needs. *)
#[global] Program Instance mmu_memory : HeapMemory (machine B) := {|
  hm_load := mmu_load;
  hm_store := mmu_store;
  hm_ok := mmu_ok;
  hm_word := mmu_word;
  hm_byte := mmu_byte;
  hm_frame := mmu_frame;
|}.
Next Obligation. apply mmu_frame_refl. Qed.
Next Obligation. apply mmu_frame_trans. Qed.
Next Obligation.
  intros s p (H8 & hi & _ & Hp & _). split; [unfold HEAP_REGION_START in Hp; lia|done].
Qed.
Next Obligation. intros s p. apply mmu_load_ok. Qed.
Next Obligation.
  intros s p x Hp Hx. destruct (mmu_store_ok s p x Hp Hx) as (m' & Hst & Hw & Hk & Hfr & Hby).
  exists (set_mem s m'). split_and!; [done..| |done|done].
  intros q (H8 & hi & fr & Hq & Hb). split; [done|]. exists hi, fr. split; [done|]. by apply Hfr.
Qed.

End instance.
