(* ===== verification/Heap.v ===== *)
(** The kernel heap: [kernel/src/mm/heap.rs].

    [KernelHeap] wraps the free-list allocator and grows on demand by mapping
    frames at the end of its region.  The state is the heap behind its lock,
    the two global handles behind theirs, and the hardware (memory and
    processor).  The frame allocator is used through its interface; the heap's
    own memory is virtual, through the page tables. *)
From stdpp Require Import base numbers option gmap list_numbers list.
From S2P Require Import Prelude PhysAddr VirtAddr PageTableEntry Memory FrameAllocator FrameSource Vmm HeapMemory LinkedListAllocator SpinLock Mmu.

Definition HEAP_GROWTH_MIN_PAGES : Z := 16.

Record KernelHeapState : Type := mkHeapState {
  allocator : LinkedListAllocator;
  next_unmapped : Z;
}.

Record globals (A : Type) : Type := mkGlobals {
  FRAME_ALLOCATOR : SpinLock (option A);
  VMM : SpinLock (option VirtualMemoryManager);
  hardware : machine unit;
}.
Arguments mkGlobals {A} _ _ _.
Arguments FRAME_ALLOCATOR {A} _.
Arguments VMM {A} _.
Arguments hardware {A} _.

Record kernel (A : Type) : Type := mkKernel {
  inner : SpinLock KernelHeapState;
  global : globals A;
}.
Arguments mkKernel {A} _ _.
Arguments inner {A} _.
Arguments global {A} _.

Definition new_heap : SpinLock KernelHeapState :=
  SpinLock.new (mkHeapState LinkedListAllocator.new HEAP_REGION_START).

(** The hardware together with the frame allocator, as the memory manager
    sees them, and back. *)
Definition with_frames {A} (s : machine unit) (a : A) : machine A :=
  mkMachine (m_mem s) a (m_tlb s) (m_efer s) (m_cr3 s).
Definition without_frames {A} (s : machine A) : machine unit :=
  mkMachine (m_mem s) tt (m_tlb s) (m_efer s) (m_cr3 s).

Section operations.
Context {P : BuildProfile} {A : Type} {FS : FrameSource A}.

Definition take_frame : M (machine A) (option PhysAddr) :=
  λ s, r ← fs_allocate (m_fa s); let '(p, a) := r : option PhysAddr * A in Ret (p, set_fa s a).
(** [frame_allocator.deallocate(phys).ok()]: the result is ignored. *)
Definition return_frame (phys : PhysAddr) : M (machine A) unit :=
  λ s, r ← fs_deallocate (m_fa s) phys;
       let '(_, a) := r : result unit DeallocError * A in Ret (tt, set_fa s a).

Definition page_addr (growth_start i : Z) : M (machine A) VirtAddr :=
  off ← lift (mul64 i PAGE_SIZE); v ← lift (add64 growth_start off); mret (VirtAddr.new v).

(** [for i in 0..mapped_pages]: the result of each [unmap] is dropped. *)
Fixpoint unwind_partial_growth (remaining : nat) (vmm : VirtualMemoryManager) (growth_start i : Z) :
    M (machine A) unit :=
  match remaining with
  | O => mret tt
  | S remaining =>
    virt ← page_addr growth_start i;
    _ ← unmap vmm virt;
    unwind_partial_growth remaining vmm growth_start (i + 1)
  end.

(** [while mapped_pages < pages_to_map], with [remaining] pages to go. *)
Fixpoint map_pages (remaining : nat) (vmm : VirtualMemoryManager) (growth_start mapped_pages : Z) :
    M (machine A) bool :=
  match remaining with
  | O => mret true
  | S remaining =>
    virt ← page_addr growth_start mapped_pages;
    o ← take_frame;
    match o with
    | None =>
      _ ← unwind_partial_growth (Z.to_nat mapped_pages) vmm growth_start 0;
      mret false
    | Some phys =>
      r ← Vmm.map vmm virt phys read_write;
      match r with
      | Err _ =>
        _ ← return_frame phys;
        _ ← unwind_partial_growth (Z.to_nat mapped_pages) vmm growth_start 0;
        mret false
      | Ok _ =>
        next ← lift (add64 mapped_pages 1);
        map_pages remaining vmm growth_start next
      end
    end
  end.

Definition pages_for (layout : Layout) : Z :=
  let pages_needed := Z.max (div_ceil (layout_size layout) PAGE_SIZE) 1 in
  Z.max pages_needed HEAP_GROWTH_MIN_PAGES.

(** The growth range, or [None] when it would leave the heap region. *)
Definition growth_range (state : KernelHeapState) (layout : Layout) : outcome (option (Z * Z)) :=
  growth_bytes ← mul64 (pages_for layout) PAGE_SIZE;
  Ret (match checked_add (next_unmapped state) growth_bytes with
       | Some e => if e <=? HEAP_REGION_END then Some (growth_bytes, e) else None
       | None => None
       end).

Definition grow (fuel : nat) (state : KernelHeapState) (layout : Layout) :
    M (globals A) (bool * KernelHeapState) := λ g,
  range ← growth_range state layout;
  match range with
  | None => Ret ((false, state), g)
  | Some (growth_bytes, growth_end) =>
    let growth_start := next_unmapped state in
    fr ← SpinLock.lock fuel (FRAME_ALLOCATOR g);
    let '(frames, frame_lock) := fr : option A * SpinLock (option A) in
    vr ← SpinLock.lock fuel (VMM g);
    let '(manager, vmm_lock) := vr : option VirtualMemoryManager * SpinLock (option VirtualMemoryManager) in
    match frames, manager with
    | Some a, Some vmm =>
      mr ← map_pages (Z.to_nat (pages_for layout)) vmm growth_start 0 (with_frames (hardware g) a);
      let '(mapped, s) := mr : bool * machine A in
      let leave hw := mkGlobals (unlock frame_lock (Some (m_fa s))) (unlock vmm_lock (Some vmm)) hw in
      if mapped then
        ar ← add_free_region fuel growth_start growth_bytes (allocator state, without_frames s);
        let '(_, (alloc', hw')) := ar : unit * (LinkedListAllocator * machine unit) in
        Ret ((true, mkHeapState alloc' growth_end), leave hw')
      else Ret ((false, state), leave (without_frames s))
    | _, _ =>
      Ret ((false, state), mkGlobals (unlock frame_lock frames) (unlock vmm_lock manager) (hardware g))
    end
  end.

(** One search of the free list. *)
Definition search (fuel : nat) (state : KernelHeapState) (layout : Layout) :
    M (globals A) (Z * KernelHeapState) := λ g,
  r ← LinkedListAllocator.alloc fuel layout (allocator state, hardware g);
  let '(p, (alloc', hw')) := r : Z * (LinkedListAllocator * machine unit) in
  Ret ((p, mkHeapState alloc' (next_unmapped state)), mkGlobals (FRAME_ALLOCATOR g) (VMM g) hw').

Definition alloc (fuel : nat) (layout : Layout) : M (kernel A) Z := λ k,
  lr ← SpinLock.lock fuel (inner k);
  let '(state, heap_lock) := lr : KernelHeapState * SpinLock KernelHeapState in
  fr ← search fuel state layout (global k);
  let '((first_attempt, state), g) := fr : (Z * KernelHeapState) * globals A in
  if negb (first_attempt =? 0) then Ret (first_attempt, mkKernel (unlock heap_lock state) g) else
  gr ← grow fuel state layout g;
  let '((grown, state), g) := gr : (bool * KernelHeapState) * globals A in
  if negb grown then Ret (0, mkKernel (unlock heap_lock state) g) else
  sr ← search fuel state layout g;
  let '((p, state), g) := sr : (Z * KernelHeapState) * globals A in
  Ret (p, mkKernel (unlock heap_lock state) g).

Definition dealloc (fuel : nat) (ptr : Z) (layout : Layout) : M (kernel A) unit := λ k,
  lr ← SpinLock.lock fuel (inner k);
  let '(state, heap_lock) := lr : KernelHeapState * SpinLock KernelHeapState in
  r ← LinkedListAllocator.dealloc fuel ptr layout (allocator state, hardware (global k));
  let '(_, (alloc', hw')) := r : unit * (LinkedListAllocator * machine unit) in
  Ret (tt, mkKernel (unlock heap_lock (mkHeapState alloc' (next_unmapped state)))
             (mkGlobals (FRAME_ALLOCATOR (global k)) (VMM (global k)) hw')).

End operations.
