(* ===== verification/HeapGrowth.v ===== *)
(** Growing the heap: what one page, a whole growth and its unwinding do to
    the page tables and the pool of frames. *)
From stdpp Require Import base numbers option gmap list_numbers list.
From S2P Require Import Prelude PhysAddr VirtAddr PageTableEntry Memory FrameAllocator FrameSource Vmm PageWalk VmmSpec VmmCorrect VmmTheorems HeapMemory LinkedListAllocator SpinLock Mmu Heap.

Section growth.
Context {P : BuildProfile} {A : Type} {FS : FrameSource A}.
Implicit Types (s : machine A) (self : VirtualMemoryManager).

(** What every step of the memory manager keeps. *)
Record carries self s s' : Prop := {
  ca_vm : vm_ok self s';
  ca_cpu : m_efer s' = m_efer s ∧ m_cr3 s' = m_cr3 s;
  ca_total : fs_total (m_fa s') = fs_total (m_fa s);
  ca_dom : ∀ a, is_Some (m_mem s' !! a) ↔ is_Some (m_mem s !! a);
  ca_free : fs_free (m_fa s') ⊆ fs_free (m_fa s);
  ca_foreign : ∀ a, foreign self s a → foreign self s' a;
  ca_bytes : ∀ a, foreign self s a → m_mem s' !! a = m_mem s !! a;
}.

Lemma carries_refl self s : vm_ok self s → carries self s s.
Proof. by split. Qed.
Lemma carries_trans self s1 s2 s3 : carries self s1 s2 → carries self s2 s3 → carries self s1 s3.
Proof.
  intros [V1 [E1 C1] T1 D1 F1 G1 B1] [V2 [E2 C2] T2 D2 F2 G2 B2].
  split; [done|split; congruence|congruence|..].
  - intros a. by rewrite D2, D1.
  - set_solver.
  - auto.
  - intros a Ha. rewrite B2, B1; auto.
Qed.
Lemma carries_evolves self n s s' : vm_ok self s' → evolves self n s s' → carries self s s'.
Proof.
  intros Hvm Hev. destruct (ev_cpu _ _ _ _ Hev) as (_ & ? & ?).
  split; [done|done|apply Hev|apply Hev|apply Hev| |apply Hev].
  intros a. by eapply evolves_foreign.
Qed.
Lemma carries_updates self s v w s' : updates self s v w s' → carries self s s'.
Proof.
  intros [V _ F B D G _ C]. split; try done; [by rewrite F|rewrite F; done].
Qed.

(** Taking a frame away from the pool. *)
Lemma take_frame_ok self s :
  vm_ok self s →
  (take_frame s = Ret (None, s) ∧ fs_free (m_fa s) = ∅) ∨
  ∃ f s1, take_frame s = Ret (Some (PhysAddr.new (f * FRAME_SIZE)), s1) ∧ f ∈ fs_free (m_fa s) ∧
    carries self s s1 ∧ m_mem s1 = m_mem s ∧ m_tlb s1 = m_tlb s ∧
    fs_free (m_fa s1) = fs_free (m_fa s) ∖ {[f]} ∧
    ∀ a, a / FRAME_SIZE = f → foreign self s1 a.
Proof.
  intros Hvm. destruct (fs_allocate_law (m_fa s) (vm_fa _ _ Hvm))
    as (r & a' & Hal & Hwf & Htot & Hr). unfold take_frame, mbind. rewrite Hal. cbn [outcome_bind].
  destruct r as [p|].
  - destruct Hr as (f & -> & Hf & Hff). right. exists f, (set_fa s a').
    assert (Hvm1 : vm_ok self (set_fa s a')).
    { destruct Hvm as [_ Hto Hz Hp]. split; cbn [set_fa m_fa m_mem]; [done| | |].
      - eapply tables_ok_mono, Hto. rewrite Hff. set_solver.
      - rewrite Hff. set_solver.
      - intros g. rewrite Hff. intros Hg. apply Hp. set_solver. }
    assert (Hfor : ∀ a, a / FRAME_SIZE ∉ fs_free (m_fa s) ∖ {[f]} →
      (∀ q t, path_ok q → table_at (m_mem s) (root self) q = Some t → a / FRAME_SIZE ≠ t / FRAME_SIZE) →
      foreign self (set_fa s a') a).
    { intros a Ha Ht. split; [|done]. cbn. by rewrite Hff. }
    split_and!; try done.
    + split; try done; cbn [set_fa m_fa]; [rewrite Hff; set_solver|].
      intros a [Ha Ht]. apply Hfor; [set_solver|done].
    + intros a Ha. apply Hfor; [set_solver|]. intros q t Hq Ht Heq.
      destruct (to_table _ _ _ (vm_tables _ _ Hvm) q t Hq Ht) as (_ & _ & _ & Hn).
      rewrite <- Heq, Ha in Hn. done.
  - destruct Hr as [-> Hem]. left. split; [by destruct s|done].
Qed.

(** Giving the frame just taken back. *)
Lemma return_frame_ok self s s2 f :
  vm_ok self s → carries self s s2 → f ∈ fs_free (m_fa s) → f ∉ fs_free (m_fa s2) →
  (∀ a, a / FRAME_SIZE = f → foreign self s2 a) →
  (f * FRAME_SIZE < IDENTITY_MAP_LIMIT → mapped (m_mem s) (f * FRAME_SIZE) FRAME_SIZE) →
  fs_total (m_fa s) ≤ 2 ^ 40 →
  ∃ s3, return_frame (PhysAddr.new (f * FRAME_SIZE)) s2 = Ret (tt, s3) ∧ carries self s s3 ∧
    m_mem s3 = m_mem s2 ∧ m_tlb s3 = m_tlb s2 ∧ fs_free (m_fa s3) = {[f]} ∪ fs_free (m_fa s2).
Proof.
  intros Hvm Hca Hf Hnf Hfor Hmap Htot. pose proof Hca as [Hvm2 Hcpu Ht Hdom Hsub Hfg Hby].
  pose proof (fs_free_range _ _ (vm_fa _ _ Hvm) Hf) as [Hr _].
  destruct (fs_deallocate_law (m_fa s2) (PhysAddr.new (f * FRAME_SIZE)) (vm_fa _ _ Hvm2))
    as (r & a' & Hde & Hwf & Htot' & Hpost).
  { unfold PhysAddr.valid, u64, FRAME_SIZE. cbn. lia. }
  rewrite frame_number_new in Hpost.
  assert (Hff : fs_free a' = {[f]} ∪ fs_free (m_fa s2)).
  { destruct r as [[]|[]]; [apply Hpost|lia|destruct Hpost; done]. }
  exists (set_fa s2 a'). unfold return_frame, mbind. rewrite Hde. cbn [outcome_bind].
  assert (Hfree' : fs_free a' ⊆ fs_free (m_fa s)) by (rewrite Hff; set_solver).
  split_and!; [done| |done|done|done].
  split; try done; cbn [set_fa m_fa m_mem].
  - destruct Hvm2 as [_ Hto Hz Hp]. split; cbn [set_fa m_fa m_mem]; [done| | |].
    + destruct Hto as [H1 H2 H3]. split; [|done..]. intros q t Hq Hqt.
      destruct (H1 q t Hq Hqt) as (? & ? & ? & ?). split_and!; [lia..|done|done|]. rewrite Hff.
      apply not_elem_of_union. split; [|done]. apply not_elem_of_singleton. intros Heq.
      destruct (Hfor (f * FRAME_SIZE)) as [_ Hn]; [by apply Z.div_mul|].
      apply (Hn q t Hq Hqt). rewrite Heq. by apply Z.div_mul.
    + pose proof (vm_zero _ _ Hvm). set_solver.
    + intros g Hg Hlim. rewrite Hff in Hg. apply elem_of_union in Hg as [->%elem_of_singleton|Hg]; [|by apply Hp].
      eapply mapped_dom; [done|]. by apply Hmap.
  - by rewrite Htot'.
  - intros a Ha. destruct (Hfg a Ha) as [H1 H2]. split; [|done]. cbn. rewrite Hff.
    apply not_elem_of_union. split; [|done]. apply not_elem_of_singleton. intros Heq.
    destruct Ha as [Ha _]. by rewrite Heq in Ha.
Qed.

(** The pool: every free frame exists, and frame numbers fit in an entry. *)
Record pool_ok s : Prop := {
  po_mapped : ∀ f, f ∈ fs_free (m_fa s) → mapped (m_mem s) (f * FRAME_SIZE) FRAME_SIZE;
  po_total : fs_total (m_fa s) ≤ 2 ^ 40;
}.
Lemma pool_carries self s s' : carries self s s' → pool_ok s → pool_ok s'.
Proof.
  intros Hca [Hm Ht]. split.
  - intros f Hf. eapply mapped_dom; [apply Hca|]. apply Hm. by apply (ca_free _ _ _ Hca).
  - by rewrite (ca_total _ _ _ Hca).
Qed.

Definition free_count s : Z := Z.of_nat (size (fs_free (m_fa s))).

(** One page of a growth: no frame left; or the page is mapped to a frame of
    its own; or no table frame is left and everything is as before. *)
Lemma page_step self s v :
  vm_ok self s → pool_ok s → is_page_aligned v = true → walk_of self (m_mem s) v = Unmapped →
  (take_frame s = Ret (None, s) ∧ fs_free (m_fa s) = ∅) ∨
  ∃ f s1, take_frame s = Ret (Some (PhysAddr.new (f * FRAME_SIZE)), s1) ∧ f ∈ fs_free (m_fa s) ∧
    ((∃ s', Vmm.map self v (PhysAddr.new (f * FRAME_SIZE)) read_write s1 = Ret (Ok tt, s') ∧
        carries self s s' ∧ (free_count s' + 1 ≤ free_count s ∧ free_count s ≤ free_count s' + 4) ∧
        (∀ a, a / FRAME_SIZE = f → foreign self s' a) ∧
        ∀ u, walk_of self (m_mem s') u =
          if decide (VirtAddr.page u = VirtAddr.page v)
          then Leaf (new_leaf (PhysAddr.new (f * FRAME_SIZE)) read_write) else walk_of self (m_mem s) u) ∨
     (∃ s2 s3, Vmm.map self v (PhysAddr.new (f * FRAME_SIZE)) read_write s1 = Ret (Err OutOfFrames, s2) ∧
        return_frame (PhysAddr.new (f * FRAME_SIZE)) s2 = Ret (tt, s3) ∧
        carries self s s3 ∧ free_count s ≤ free_count s3 + 3 ∧
        (∀ g, g ∈ fs_free (m_fa s3) → g ≠ f → IDENTITY_MAP_LIMIT ≤ g * FRAME_SIZE) ∧
        ∀ u, walk_of self (m_mem s3) u = walk_of self (m_mem s) u)).
Proof.
  intros Hvm Hpool Hal Hun.
  destruct (take_frame_ok self s Hvm) as [?|(f & s1 & Htk & Hf & Hca1 & Hm1 & _ & Hff & Hfor)]; [by left|].
  right. exists f, s1. split_and!; [done..|].
  pose proof (ca_vm _ _ _ Hca1) as Hvm1.
  destruct (map_ok self s1 v (PhysAddr.new (f * FRAME_SIZE)) read_write Hvm1) as (r & s' & Hrun & Hpost).
  assert (Halp : aligned_for_map v (PhysAddr.new (f * FRAME_SIZE)) = true).
  { unfold aligned_for_map. rewrite Hal. apply is_frame_aligned_spec. by apply Z.mod_mul. }
  assert (Hsz : free_count s1 + 1 = free_count s).
  { unfold free_count. rewrite Hff, size_remove, decide_True by done. lia. }
  rewrite <- Hm1 in Hun. destruct r as [[]|e].
  - left. exists s'. destruct Hpost as (_ & _ & s0 & [Hok0 Hev0 _] & Hup).
    pose proof (carries_evolves _ _ _ _ Hok0 Hev0) as Hca0.
    pose proof (carries_updates _ _ _ _ _ Hup) as Hca'. split_and!; [done|..].
    + by eapply carries_trans, carries_trans.
    + assert (fs_free (m_fa s') ⊆ fs_free (m_fa s1)) as Hsub%subseteq_size by (by etrans; [apply Hca'|apply Hca0]).
      unfold free_count in *. lia.
    + pose proof (ev_size _ _ _ _ Hev0). unfold free_count in *. rewrite (up_fa _ _ _ _ _ Hup). lia.
    + intros a Ha. by apply Hca', Hca0, Hfor.
    + intros u. by rewrite (up_walk _ _ _ _ _ Hup), (ev_walk _ _ _ _ Hev0), Hm1.
  - right. destruct (decide (e = NotPageAligned)) as [->|Hne]; [by destruct Hpost; congruence|].
    assert (progress self s1 v 3 s' ∧ map_error self s1 v s' e) as [[Hok0 Hev0 _] Herr]
      by (destruct e; [done|by destruct Hpost as (_ & ? & ?)..]).
    pose proof (carries_evolves _ _ _ _ Hok0 Hev0) as Hca0.
    destruct e; cbn [map_error] in Herr; try done; [naive_solver congruence| |naive_solver congruence].
    destruct Herr as [_ Hnone].
    destruct (return_frame_ok self s s' f) as (s3 & Hret & Hca3 & Hm3 & _ & Hff3); try done.
    + by eapply carries_trans.
    + pose proof (ca_free _ _ _ Hca0). rewrite Hff in *. set_solver.
    + intros a Ha. by apply Hca0, Hfor.
    + intros _. by apply (po_mapped _ Hpool).
    + apply Hpool.
    + exists s', s3. split_and!; [done..| | |].
      * pose proof (ev_size _ _ _ _ Hev0). unfold free_count in *. rewrite Hff3, size_insert, decide_False; [lia|].
        pose proof (ca_free _ _ _ Hca0). rewrite Hff in *. set_solver.
      * intros g Hg Hgf. apply Hnone. rewrite Hff3 in Hg. set_solver.
      * intros u. by rewrite Hm3, (ev_walk _ _ _ _ Hev0), Hm1.
Qed.

(** ** Page numbers of the heap region *)
Definition page_key (u : VirtAddr) : Z := VirtAddr.page u + (2 ^ 52 - 2 ^ 36).
Lemma page_key_heap k :
  HEAP_REGION_START ≤ k * PAGE_SIZE < HEAP_REGION_END → page_key (VirtAddr.new (k * PAGE_SIZE)) = k.
Proof.
  unfold HEAP_REGION_START, HEAP_REGION_END, PAGE_SIZE, page_key, VirtAddr.page, FRAME_SIZE. cbn. dlia.
Qed.
Lemma page_key_eq u v : VirtAddr.page u = VirtAddr.page v ↔ page_key u = page_key v.
Proof. unfold page_key. lia. Qed.

Lemma page_addr_ok s k0 i :
  HEAP_REGION_START ≤ k0 * PAGE_SIZE → 0 ≤ i → (k0 + i) * PAGE_SIZE < HEAP_REGION_END →
  page_addr (k0 * PAGE_SIZE) i s = Ret (VirtAddr.new ((k0 + i) * PAGE_SIZE), s).
Proof.
  unfold page_addr, HEAP_REGION_START, HEAP_REGION_END, PAGE_SIZE, lift, mbind, M_bind. intros.
  rewrite mul64_ok by u64_solve. rewrite add64_ok by u64_solve. by replace (k0 * 4096 + i * 4096) with ((k0 + i) * 4096) by lia.
Qed.

(** ** Unwinding *)
Lemma unwind_ok self s k0 i n :
  vm_ok self s → HEAP_REGION_START ≤ k0 * PAGE_SIZE → 0 ≤ i →
  (k0 + i + Z.of_nat n) * PAGE_SIZE ≤ HEAP_REGION_END →
  (∀ j, i ≤ j < i + Z.of_nat n → ∃ e, walk_of self (m_mem s) (VirtAddr.new ((k0 + j) * PAGE_SIZE)) = Leaf e) →
  ∃ s', unwind_partial_growth n self (k0 * PAGE_SIZE) i s = Ret (tt, s') ∧ carries self s s' ∧
    m_fa s' = m_fa s ∧
    ∀ u, walk_of self (m_mem s') u =
      if decide (k0 + i ≤ page_key u < k0 + i + Z.of_nat n) then Unmapped else walk_of self (m_mem s) u.
Proof.
  revert s i. induction n as [|n IH]; intros s i Hvm Hk0 Hi Hend Hleaf.
  { exists s. split_and!; [done|by apply carries_refl|done|]. intros u. rewrite decide_False by lia. done. }
  assert (Hkey : page_key (VirtAddr.new ((k0 + i) * PAGE_SIZE)) = k0 + i).
  { apply page_key_heap. unfold PAGE_SIZE in *. lia. }
  cbn [unwind_partial_growth]. unfold mbind, M_bind.
  rewrite page_addr_ok by (unfold PAGE_SIZE in *; lia).
  destruct (unmap_ok self s (VirtAddr.new ((k0 + i) * PAGE_SIZE)) Hvm) as (r & s1 & -> & Hpost).
  destruct (Hleaf i ltac:(lia)) as [e He].
  assert (updates self s (VirtAddr.new ((k0 + i) * PAGE_SIZE)) Unmapped s1) as Hup.
  { destruct r as [pa|[]]; cbn [unmap_post] in Hpost; try done; [apply Hpost| |naive_solver congruence..].
    destruct Hpost as [Hpost _]. by rewrite aligned_page in Hpost. }
  destruct (IH s1 (i + 1)) as (s' & Hrun & Hca & Hfa & Hw); [apply Hup|done|lia|lia| |].
  { intros j Hj. rewrite (up_walk _ _ _ _ _ Hup). rewrite decide_False; [apply Hleaf; lia|].
    rewrite page_key_eq, Hkey, page_key_heap by (unfold PAGE_SIZE in *; lia). lia. }
  exists s'. split_and!; [done| |by rewrite Hfa, (up_fa _ _ _ _ _ Hup)|].
  - by eapply carries_trans, Hca; eapply carries_updates.
  - intros u. rewrite Hw, (up_walk _ _ _ _ _ Hup).
    pose proof (page_key_eq u (VirtAddr.new ((k0 + i) * PAGE_SIZE))) as Hpk. rewrite Hkey in Hpk.
    repeat case_decide; try done; lia.
Qed.

(** ** The mapping loop *)
Record mapped_upto self s0 s (k0 n : Z) (fr : Z → Z) : Prop := {
  mu_carries : carries self s0 s;
  mu_walk : ∀ u, walk_of self (m_mem s) u =
    if decide (k0 ≤ page_key u < k0 + n)
    then Leaf (new_leaf (PhysAddr.new (fr (page_key u) * FRAME_SIZE)) read_write)
    else walk_of self (m_mem s0) u;
  mu_free : ∀ k, k0 ≤ k < k0 + n → fr k ∈ fs_free (m_fa s0);
  mu_foreign : ∀ k a, k0 ≤ k < k0 + n → a / FRAME_SIZE = fr k → foreign self s a;
  mu_inj : ∀ j k, k0 ≤ j < k0 + n → k0 ≤ k < k0 + n → fr j = fr k → j = k;
  mu_count : free_count s + n ≤ free_count s0;
  mu_cost : free_count s0 ≤ free_count s + 4 * n;
}.

Definition fresh_pages self s (k0 n : Z) : Prop :=
  ∀ k, k0 ≤ k < k0 + n → walk_of self (m_mem s) (VirtAddr.new (k * PAGE_SIZE)) = Unmapped.

(** A failed growth: every translation as before, and the frames of the
    pages mapped so far are gone: free before, now neither free nor a table. *)
Record failed self s0 s (leaked : Z) : Prop := {
  fl_carries : carries self s0 s;
  fl_walk : ∀ u, walk_of self (m_mem s) u = walk_of self (m_mem s0) u;
  fl_lost : ∃ lost : list Z, NoDup lost ∧ Z.of_nat (length lost) = leaked ∧
    ∀ f, f ∈ lost → f ∈ fs_free (m_fa s0) ∧ foreign self s (f * FRAME_SIZE);
  fl_reason : ∃ f, ∀ g, g ∈ fs_free (m_fa s) → g ≠ f → IDENTITY_MAP_LIMIT ≤ g * FRAME_SIZE;
  fl_cost : free_count s0 ≤ free_count s + 4 * leaked + 3;
}.

Lemma mapped_upto_refl self s k0 fr : vm_ok self s → mapped_upto self s s k0 0 fr.
Proof.
  intros Hvm. split; [by apply carries_refl| |lia..]. intros u. by rewrite decide_False by lia.
Qed.

Lemma mapped_upto_leaf self s0 s k0 n fr k :
  mapped_upto self s0 s k0 n fr → k0 ≤ k < k0 + n →
  HEAP_REGION_START ≤ k * PAGE_SIZE < HEAP_REGION_END →
  walk_of self (m_mem s) (VirtAddr.new (k * PAGE_SIZE)) =
    Leaf (new_leaf (PhysAddr.new (fr k * FRAME_SIZE)) read_write).
Proof. intros Hmu Hk Hr. rewrite (mu_walk _ _ _ _ _ _ Hmu), page_key_heap, decide_True; done. Qed.

(** One more page. *)
Lemma mapped_upto_step self s0 s s' k0 i fr f :
  mapped_upto self s0 s k0 i fr → 0 ≤ i →
  HEAP_REGION_START ≤ (k0 + i) * PAGE_SIZE < HEAP_REGION_END →
  f ∈ fs_free (m_fa s) → carries self s s' → free_count s' + 1 ≤ free_count s ∧ free_count s ≤ free_count s' + 4 →
  (∀ a, a / FRAME_SIZE = f → foreign self s' a) →
  (∀ u, walk_of self (m_mem s') u =
     if decide (VirtAddr.page u = VirtAddr.page (VirtAddr.new ((k0 + i) * PAGE_SIZE)))
     then Leaf (new_leaf (PhysAddr.new (f * FRAME_SIZE)) read_write) else walk_of self (m_mem s) u) →
  mapped_upto self s0 s' k0 (i + 1) (λ k, if decide (k = k0 + i) then f else fr k).
Proof.
  intros [Hca Hw Hfr Hfg Hinj Hcnt Hcost] Hi Hr Hf Hca' Hcnt' Hff Hw'. split.
  - by eapply carries_trans.
  - intros u. rewrite Hw', Hw. rewrite (decide_ext _ (page_key u = k0 + i)); [|by rewrite page_key_eq, page_key_heap].
    repeat case_decide; try done; lia.
  - intros k Hk. case_decide; [|apply Hfr; lia]. by apply (ca_free _ _ _ Hca).
  - intros k a Hk. case_decide; [apply Hff|]. intros Ha. apply Hca'. apply (Hfg k); [lia|done].
  - assert (Hne : ∀ k, k0 ≤ k < k0 + i → fr k ≠ f).
    { intros k Hk Heq. destruct (Hfg k (fr k * FRAME_SIZE) Hk) as [Hn _]; [by apply Z.div_mul|].
      rewrite Z.div_mul in Hn by done. by rewrite Heq in Hn. }
    intros j k Hj Hk. repeat case_decide; subst; try done.
    + intros Heq. destruct (Hne k); [lia|done].
    + intros Heq. destruct (Hne j); [lia|done].
    + apply Hinj; lia.
  - lia.
  - lia.
Qed.

Lemma unwind_failed self s0 s s1 k0 i fr :
  mapped_upto self s0 s k0 i fr → 0 ≤ i → HEAP_REGION_START ≤ k0 * PAGE_SIZE →
  (k0 + i) * PAGE_SIZE ≤ HEAP_REGION_END → fresh_pages self s0 k0 i →
  carries self s s1 → (∀ u, walk_of self (m_mem s1) u = walk_of self (m_mem s) u) →
  (∃ f, ∀ g, g ∈ fs_free (m_fa s1) → g ≠ f → IDENTITY_MAP_LIMIT ≤ g * FRAME_SIZE) →
  free_count s ≤ free_count s1 + 3 →
  ∃ s', unwind_partial_growth (Z.to_nat i) self (k0 * PAGE_SIZE) 0 s1 = Ret (tt, s') ∧ failed self s0 s' i.
Proof.
  intros Hmu Hi Hk0 Hend Hfresh Hca1 Hw1 Hreason Hc1.
  destruct (unwind_ok self s1 k0 0 (Z.to_nat i)) as (s' & Hrun & Hca & Hfa & Hw); [apply Hca1|done|lia| | |].
  - rewrite Z2Nat.id, Z.add_0_r by lia. done.
  - intros j Hj. rewrite Hw1. eexists. eapply mapped_upto_leaf; [done|lia|unfold PAGE_SIZE in *; lia].
  - rewrite Z2Nat.id, Z.add_0_r in Hw by lia. exists s'. split; [done|]. split.
    + eapply carries_trans; [apply Hmu|]. by eapply carries_trans.
    + intros u. rewrite Hw, Hw1, (mu_walk _ _ _ _ _ _ Hmu). case_decide as Hk; [|done].
      rewrite <- (Hfresh (page_key u) Hk). symmetry. apply walk_of_page, page_key_eq.
      rewrite page_key_heap; [done|unfold PAGE_SIZE in *; lia].
    + exists (fr <$> seqZ k0 i). split_and!.
      * apply NoDup_fmap_2_strong; [|apply NoDup_seqZ]. intros j k Hj%elem_of_seqZ Hk%elem_of_seqZ.
        by apply (mu_inj _ _ _ _ _ _ Hmu).
      * rewrite length_fmap, length_seqZ. lia.
      * intros f (k & -> & Hk%elem_of_seqZ)%list_elem_of_fmap. split; [by apply (mu_free _ _ _ _ _ _ Hmu)|].
        apply Hca, Hca1, (mu_foreign _ _ _ _ _ _ Hmu k); [done|by apply Z.div_mul].
    + by rewrite Hfa.
    + pose proof (mu_cost _ _ _ _ _ _ Hmu). unfold free_count in *. rewrite Hfa. lia.
Qed.

Lemma map_pages_ok self s0 s k0 i n fr :
  mapped_upto self s0 s k0 i fr → pool_ok s0 → 0 ≤ i → HEAP_REGION_START ≤ k0 * PAGE_SIZE →
  (k0 + i + Z.of_nat n) * PAGE_SIZE ≤ HEAP_REGION_END → fresh_pages self s0 k0 (i + Z.of_nat n) →
  ∃ b s', map_pages n self (k0 * PAGE_SIZE) i s = Ret (b, s') ∧
    if (b : bool) then ∃ fr', mapped_upto self s0 s' k0 (i + Z.of_nat n) fr'
    else ∃ leaked, i ≤ leaked < i + Z.of_nat n ∧ failed self s0 s' leaked.
Proof.
  revert s i fr. induction n as [|n IH]; intros s i fr Hmu Hpool Hi Hk0 Hend Hfresh.
  { exists true, s. split; [done|]. exists fr. by rewrite Z.add_0_r. }
  assert (Hr : HEAP_REGION_START ≤ (k0 + i) * PAGE_SIZE < HEAP_REGION_END) by (unfold PAGE_SIZE in *; lia).
  assert (Hfr' : fresh_pages self s0 k0 i) by (intros k Hk; apply Hfresh; lia).
  cbn [map_pages]. unfold mbind, M_bind, mret, M_ret. rewrite page_addr_ok by (unfold PAGE_SIZE in *; lia).
  destruct (page_step self s (VirtAddr.new ((k0 + i) * PAGE_SIZE)))
    as [[-> Hem]|(f & s1 & -> & Hf & [(s' & -> & Hca & Hcnt & Hff & Hw)|(s2 & s3 & -> & -> & Hca & Hc3 & Hreason & Hw)])].
  - apply (mu_carries _ _ _ _ _ _ Hmu).
  - eapply pool_carries; [apply Hmu|done].
  - apply aligned_page.
  - rewrite (mu_walk _ _ _ _ _ _ Hmu), page_key_heap, decide_False by (done || lia). apply Hfresh. lia.
  - destruct (unwind_failed self s0 s s k0 i fr) as (s' & -> & Hfail); try done; [unfold PAGE_SIZE in *; lia|..].
    + apply carries_refl, Hmu.
    + exists 0. rewrite Hem. set_solver.
    + lia.
    + exists false, s'. split; [done|]. exists i. split; [lia|done].
  - unfold lift. rewrite add64_ok by (unfold HEAP_REGION_START, HEAP_REGION_END, PAGE_SIZE in *; u64_solve).
    destruct (IH s' (i + 1) (λ k, if decide (k = k0 + i) then f else fr k)) as (b & s'' & Hrun & Hres); try done.
    + by eapply mapped_upto_step.
    + lia.
    + lia.
    + by replace (i + 1 + Z.of_nat n) with (i + Z.of_nat (S n)) by lia.
    + exists b, s''. split; [done|]. destruct b.
      * destruct Hres as [fr' Hres]. exists fr'. by replace (i + Z.of_nat (S n)) with (i + 1 + Z.of_nat n) by lia.
      * destruct Hres as (lk & Hlk & Hres). exists lk. split; [lia|done].
  - destruct (unwind_failed self s0 s s3 k0 i fr) as (s' & -> & Hfail); try done; [unfold PAGE_SIZE in *; lia|by exists f|].
    exists false, s'. split; [done|]. exists i. split; [lia|done].
Qed.

End growth.
