(* ===== verification/HeapSpec.v ===== *)
(** The kernel heap's invariant and the correctness of growth and of the
    free-list operations on the memory the heap maps for itself. *)
From stdpp Require Import base numbers option gmap list_numbers list.
From S2P Require Import Prelude PhysAddr VirtAddr PageTableEntry Memory FrameAllocator FrameSource Vmm PageWalk VmmSpec VmmCorrect VmmTheorems HeapMemory LinkedListAllocator FreeBlocks FreeListSpec FreeListAlloc SpinLock Mmu Heap HeapGrowth.

Section heap.
Context {P : BuildProfile} {A : Type} {FS : FrameSource A}.
Implicit Types (hw : machine unit) (self : VirtualMemoryManager) (a : A).

(** The mapped part of the heap region ends at [hi]; its pages are backed by
    frames of their own, which are not free; what follows is unmapped. *)
Record heap_phys self a hw (hi : Z) (frame : Z → Z) : Prop := {
  hp_vm : vm_ok self (with_frames hw a);
  hp_self : self = cpu_vmm hw;
  hp_pool : pool_ok (with_frames hw a);
  hp_backed : backed hw hi frame;
  hp_private : ∀ k, HEAP_REGION_START ≤ k * PAGE_SIZE < hi → frame k ∉ fs_free a;
  hp_fresh : ∀ k, hi ≤ k * PAGE_SIZE < HEAP_REGION_END → cpu_walk hw (k * PAGE_SIZE) = Unmapped;
}.

Lemma heap_hi self a hw hi frame : heap_phys self a hw hi frame → hi < 2 ^ 64.
Proof. intros Hp. destruct (bd_hi _ _ _ (hp_backed _ _ _ _ _ Hp)). unfold HEAP_REGION_END in *. lia. Qed.

(** Free-list operations keep the physical side. *)
Lemma heap_phys_frame self a hw hw' hi frame :
  mmu_frame hw hw' → heap_phys self a hw hi frame → heap_phys self a hw' hi frame.
Proof.
  intros [_ (_ & _ & Hcr3) Hdom Hwalk Htab Htables Hbk] [Hvm -> Hpool Hb Hpr Hfr].
  assert (Hv : cpu_vmm hw' = cpu_vmm hw) by (unfold cpu_vmm; by rewrite Hcr3).
  split; [|done| |by apply Hbk|done|].
  - destruct Hvm as [? Hto ? Hp]. split; [done|by apply Htables|done|].
    intros f Hf Hlim. eapply mapped_dom; [done|]. by apply Hp.
  - destruct Hpool as [Hm Ht]. split; [|done]. intros f Hf. eapply mapped_dom; [done|]. by apply Hm.
  - intros k Hk. unfold cpu_walk. rewrite Hv, Hwalk. by apply Hfr.
Qed.

(** A byte of a heap page belongs to no table and to no free frame. *)
Lemma heap_foreign self a hw hi frame k x :
  heap_phys self a hw hi frame → HEAP_REGION_START ≤ k * PAGE_SIZE < hi → x / FRAME_SIZE = frame k →
  foreign self (with_frames hw a) x.
Proof.
  intros Hp Hk Hx. split.
  - rewrite Hx. by apply (hp_private _ _ _ _ _ Hp).
  - intros p t Hpok Ht Heq. rewrite (hp_self _ _ _ _ _ Hp) in Ht.
    apply (bk_table _ _ _ (bd_page _ _ _ (hp_backed _ _ _ _ _ Hp) k Hk) p t Hpok Ht). congruence.
Qed.

(** The heap after the memory manager ran: its pages and words are the same
    as long as their translations are. *)
Lemma heap_carries self a hw hi frame s' :
  heap_phys self a hw hi frame → carries self (with_frames hw a) s' →
  (∀ k, HEAP_REGION_START ≤ k * PAGE_SIZE < hi →
     walk_of self (m_mem s') (VirtAddr.new (k * PAGE_SIZE)) =
     walk_of self (m_mem hw) (VirtAddr.new (k * PAGE_SIZE))) →
  backed (without_frames s') hi frame ∧ cpu_vmm (without_frames s') = self ∧
  (∀ q, q mod 8 = 0 → HEAP_REGION_START ≤ q < hi →
    mmu_word (without_frames s') q = mmu_word hw q ∧ mmu_ok (without_frames s') q) ∧
  ∀ x, HEAP_REGION_START ≤ x < hi → mmu_byte (without_frames s') x = mmu_byte hw x.
Proof.
  intros Hp Hca Hw. pose proof Hp as [Hvm Hself Hpool Hb Hpr Hfr].
  assert (Hv : cpu_vmm (without_frames s') = self).
  { rewrite Hself. unfold cpu_vmm, without_frames. cbn [m_cr3]. destruct (ca_cpu _ _ _ Hca) as [_ ->]. done. }
  assert (Hb' : backed (without_frames s') hi frame).
  { destruct Hb as [Hhi Hal Hto Hpage Hinj]. split; [done..| | |done].
    - rewrite Hv. cbn [without_frames m_mem].
      eapply tables_ok_mono; [|apply (vm_tables _ _ (ca_vm _ _ _ Hca))]. set_solver.
    - intros k Hk. destruct (Hpage k Hk) as [Hbw Hbr Hbm Hbt].
      destruct (ca_foreign _ _ _ Hca (frame k * FRAME_SIZE)) as [_ Hft].
      { eapply heap_foreign; [done|done|by apply Z.div_mul]. }
      split; [|done| |].
      + unfold cpu_walk in *. rewrite Hv. cbn [without_frames m_mem]. rewrite Hw by done. by rewrite Hself.
      + eapply mapped_dom; [apply Hca|done].
      + rewrite Hv. intros p t Hpk Ht Heq. apply (Hft p t Hpk Ht). rewrite Heq. by apply Z.div_mul. }
  split_and!; [done..| |]; cycle 1.
  { intros x Hx. unfold mmu_byte. destruct (backed_access _ _ _ _ Hb Hx) as [_ ->].
    destruct (backed_access _ _ _ _ Hb' Hx) as [_ ->]. cbn. apply (ca_bytes _ _ _ Hca).
    eapply (heap_foreign _ _ _ _ _ (x / PAGE_SIZE)); [done|by apply page_in_heap|].
    generalize (frame (x / PAGE_SIZE)). unfold FRAME_SIZE, PAGE_SIZE. intros. dlia. }
  intros q Hq Hr. split; [|split; [done|by exists hi, frame]].
  unfold mmu_word. destruct (backed_access _ _ _ _ Hb Hr) as [_ ->].
  destruct (backed_access _ _ _ _ Hb' Hr) as [_ ->]. apply word_ext. intros i Hi.
  apply (ca_bytes _ _ _ Hca). eapply (heap_foreign _ _ _ _ _ (q / PAGE_SIZE)); [done|by apply page_in_heap|].
  cbn [default id] in Hi. revert Hi. generalize (frame (q / PAGE_SIZE)). unfold FRAME_SIZE, PAGE_SIZE. intros. dlia.
Qed.

(** Heap bytes outside [X] hold what they held. *)
Definition kept_bytes hw hw' (hi : Z) (X : Z → Prop) : Prop :=
  ∀ x, HEAP_REGION_START ≤ x < hi → ¬ X x → mmu_byte hw' x = mmu_byte hw x.

Lemma kept_refl hw hi X : kept_bytes hw hw hi X.
Proof. done. Qed.
Lemma kept_trans hw1 hw2 hw3 hi hi' (X Y : Z → Prop) :
  kept_bytes hw1 hw2 hi X → kept_bytes hw2 hw3 hi' Y → hi ≤ hi' →
  (∀ x, HEAP_REGION_START ≤ x < hi → Y x → X x) → kept_bytes hw1 hw3 hi X.
Proof. intros H1 H2 Hhi HXY x Hx HX. rewrite H2, H1; [done..|lia|]. intros HY. by apply HX, HXY. Qed.
Lemma keeps_bytes (X : Z → Prop) hw hw' hi frame :
  keeps X hw hw' → backed hw hi frame → (∀ q i, q mod 8 = 0 → 0 ≤ i < 8 → X q → X (q + i)) →
  kept_bytes hw hw' hi X.
Proof.
  intros Hk Hb HX x Hx Hn. set (q := x - x mod 8). set (i := x mod 8).
  assert (Hq : q mod 8 = 0 ∧ 0 ≤ i < 8) by (unfold q, i; dlia). destruct Hq as [Hq Hi].
  replace x with (q + i) in * by (unfold q, i; lia). apply (kp_byte _ _ _ Hk); [|auto|done].
  split; [done|]. exists hi, frame. split; [|done]. unfold HEAP_REGION_START in *. dlia.
Qed.

(** Frames that left the pool, at most [n] of them. *)
Definition spent a a' (n : Z) : Prop :=
  fs_free a' ⊆ fs_free a ∧ Z.of_nat (size (fs_free a)) ≤ Z.of_nat (size (fs_free a')) + n.

(** Aligned words of a free list on heap memory lie in the heap region. *)
Lemma covers_heap hi (st : LinkedListAllocator * machine unit) l q :
  rep hi st l → q mod 8 = 0 → covers l q → HEAP_REGION_START ≤ q < hi.
Proof.
  intros Hrep Hq Hc. destruct (rep_owned _ _ _ Hrep q Hq Hc) as (_ & h & f & Hr & _).
  pose proof (covers_range _ _ _ _ (rep_wf _ _ _ Hrep) Hc). lia.
Qed.

(** A failed growth leaves the heap as it was. *)
Lemma heap_failed self a hw hi frame s' leaked al l :
  heap_phys self a hw hi frame → rep hi (al, hw) l → failed self (with_frames hw a) s' leaked →
  heap_phys self (m_fa s') (without_frames s') hi frame ∧ rep hi (al, without_frames s') l ∧
  ∀ x, HEAP_REGION_START ≤ x < hi → mmu_byte (without_frames s') x = mmu_byte hw x.
Proof.
  intros Hp Hrep [Hca Hw _ _ _]. pose proof Hp as [Hvm Hself Hpool Hb Hpr Hfr].
  destruct (heap_carries _ _ _ _ _ _ Hp Hca) as (Hb' & Hv & Hwords & Hbytes); [intros; apply Hw|]. split_and!; [| |exact Hbytes].
  - split; [| | |done| |].
    + replace (with_frames (without_frames s') (m_fa s')) with s' by (by destruct s'). apply Hca.
    + done.
    + replace (with_frames (without_frames s') (m_fa s')) with s' by (by destruct s').
      by eapply pool_carries.
    + intros k Hk Hin. apply (Hpr k Hk). by apply (ca_free _ _ _ Hca).
    + intros k Hk. unfold cpu_walk. rewrite Hv. cbn [without_frames m_mem]. rewrite Hw.
      rewrite Hself. by apply Hfr.
  - eapply rep_ext; [done|]. intros q Hq Hc. apply Hwords; [done|]. by eapply covers_heap.
Qed.

(** A freshly mapped page is backed by a frame of its own. *)
Lemma fresh_backs self a hw k0 n frame s' fr k :
  heap_phys self a hw (k0 * PAGE_SIZE) frame → mapped_upto self (with_frames hw a) s' k0 n fr →
  cpu_vmm (without_frames s') = self → k0 ≤ k < k0 + n →
  walk_of self (m_mem s') (VirtAddr.new (k * PAGE_SIZE)) = Leaf (new_leaf (PhysAddr.new (fr k * FRAME_SIZE)) read_write) →
  backs (without_frames s') k (fr k) ∧ fr k ∉ fs_free (m_fa s').
Proof.
  intros [Hvm Hself Hpool _ _ _] [Hca _ Hfree Hfor _ _ _] Hv Hk Hleaf.
  destruct (Hfor k (fr k * FRAME_SIZE) Hk) as [Hnf Hnt]; [by apply Z.div_mul|].
  rewrite Z.div_mul in Hnf by done. split; [|done].
  assert (Hin := Hfree k Hk). cbn [with_frames m_fa] in Hin.
  destruct (fs_free_range a (fr k)) as [Hr _]; [apply Hvm|done|].
  pose proof (po_total _ Hpool) as Htot. cbn [with_frames m_fa] in Htot. split.
  - unfold cpu_walk. by rewrite Hv.
  - assert (fr k ≠ 0) by (intros H0; rewrite H0 in Hin; by apply (vm_zero _ _ Hvm)). lia.
  - eapply mapped_dom; [apply Hca|]. by apply (po_mapped _ Hpool).
  - rewrite Hv. intros p t Hpk Ht Heq. apply (Hnt p t Hpk Ht). rewrite Heq. by apply Z.div_mul.
Qed.

(** A successful growth extends it. *)
Lemma heap_mapped self a hw k0 n frame s' fr al l :
  heap_phys self a hw (k0 * PAGE_SIZE) frame → rep (k0 * PAGE_SIZE) (al, hw) l → 0 ≤ n →
  (k0 + n) * PAGE_SIZE ≤ HEAP_REGION_END → mapped_upto self (with_frames hw a) s' k0 n fr →
  heap_phys self (m_fa s') (without_frames s') ((k0 + n) * PAGE_SIZE)
    (λ k, if decide (k < k0) then frame k else fr k) ∧
  rep (k0 * PAGE_SIZE) (al, without_frames s') l ∧
  ∀ x, HEAP_REGION_START ≤ x < k0 * PAGE_SIZE → mmu_byte (without_frames s') x = mmu_byte hw x.
Proof.
  intros Hp Hrep Hn Hend Hmu. pose proof Hp as [Hvm Hself Hpool Hb Hpr Hfr].
  pose proof Hmu as [Hca Hw Hfree Hfor Hinj _ _]. destruct (bd_hi _ _ _ Hb) as [Hlo _].
  assert (Hkey : ∀ k, HEAP_REGION_START ≤ k * PAGE_SIZE < HEAP_REGION_END →
    walk_of self (m_mem s') (VirtAddr.new (k * PAGE_SIZE)) =
    if decide (k0 ≤ k < k0 + n) then Leaf (new_leaf (PhysAddr.new (fr k * FRAME_SIZE)) read_write)
    else walk_of self (m_mem hw) (VirtAddr.new (k * PAGE_SIZE))).
  { intros k Hk. rewrite Hw, page_key_heap by done. done. }
  destruct (heap_carries _ _ _ _ _ _ Hp Hca) as (Hb' & Hv & Hwords & Hbytes).
  { intros k Hk. rewrite Hkey, decide_False by (unfold PAGE_SIZE in *; lia). done. }
  assert (Hnew : ∀ k, k0 ≤ k < k0 + n → backs (without_frames s') k (fr k) ∧ fr k ∉ fs_free (m_fa s')).
  { intros k Hk. eapply fresh_backs; [exact Hp|exact Hmu|done|done|]. rewrite Hkey, decide_True; [done|done|].
    unfold PAGE_SIZE in *. lia. }
  assert (Hold : ∀ k, HEAP_REGION_START ≤ k * PAGE_SIZE < k0 * PAGE_SIZE → frame k ∉ fs_free (m_fa s')).
  { intros k Hk Hin. apply (Hpr k Hk). by apply (ca_free _ _ _ Hca). }
  split_and!; [split| |exact Hbytes].
  - replace (with_frames (without_frames s') (m_fa s')) with s' by (by destruct s'). apply Hca.
  - done.
  - replace (with_frames (without_frames s') (m_fa s')) with s' by (by destruct s'). by eapply pool_carries.
  - destruct Hb' as [_ _ Hto' Hpage' Hinj']. split.
    + unfold PAGE_SIZE in *. lia.
    + by apply Z.mod_mul.
    + done.
    + intros k Hk. case_decide; [apply Hpage'; unfold PAGE_SIZE in *; lia|apply Hnew; unfold PAGE_SIZE in *; lia].
    + intros j k Hj Hk. unfold PAGE_SIZE in *. repeat case_decide.
      * apply Hinj'; lia.
      * intros Heq. exfalso. apply (Hpr j); [lia|]. rewrite Heq. apply Hfree. lia.
      * intros Heq. exfalso. apply (Hpr k); [lia|]. rewrite <- Heq. apply Hfree. lia.
      * apply Hinj; lia.
  - intros k Hk. case_decide; [apply Hold; unfold PAGE_SIZE in *; lia|apply Hnew; unfold PAGE_SIZE in *; lia].
  - intros k Hk. unfold cpu_walk. rewrite Hv. cbn [without_frames m_mem].
    rewrite Hkey, decide_False by (unfold PAGE_SIZE in *; lia). rewrite Hself.
    apply Hfr. unfold PAGE_SIZE in *. lia.
  - eapply rep_ext; [done|]. intros q Hq Hc. apply Hwords; [done|]. by eapply covers_heap.
Qed.

End heap.
