(* ===== verification/HeapTheorems.v ===== *)
(** What the kernel heap guarantees. *)
From stdpp Require Import base numbers option gmap list_numbers list.
From S2P Require Import Prelude PhysAddr VirtAddr PageTableEntry Memory FrameAllocator FrameSource Vmm PageWalk VmmSpec VmmCorrect VmmTheorems HeapMemory LinkedListAllocator FreeBlocks FreeListSpec FreeListAlloc FreeListTheorems SpinLock Mmu Heap HeapGrowth HeapSpec.

Section heap.
Context {P : BuildProfile} {A : Type} {FS : FrameSource A}.
Implicit Types (hw : machine unit) (self : VirtualMemoryManager) (a : A) (g : globals A).

Definition heap_limit (state : KernelHeapState) (layout : Layout) : Z :=
  next_unmapped state + pages_for layout * PAGE_SIZE.

(** The heap with its globals in place and every lock free. *)
Record heap_ok self a frame (state : KernelHeapState) g l : Prop := {
  hk_frames : FRAME_ALLOCATOR g = SpinLock.new (Some a);
  hk_vmm : VMM g = SpinLock.new (Some self);
  hk_phys : heap_phys self a (hardware g) (next_unmapped state) frame;
  hk_rep : rep (next_unmapped state) (allocator state, hardware g) l;
}.

Definition size_ok (layout : Layout) : Prop := 0 ≤ layout_size layout ≤ ISIZE_MAX.

Lemma pages_for_bounds layout :
  size_ok layout → 16 ≤ pages_for layout ≤ 2 ^ 51 + 16 ∧ layout_size layout ≤ pages_for layout * PAGE_SIZE.
Proof.
  unfold size_ok, ISIZE_MAX, pages_for, HEAP_GROWTH_MIN_PAGES, PAGE_SIZE. intros Hsz.
  pose proof (div_ceil_spec (layout_size layout) 4096 ltac:(lia)). lia.
Qed.

Lemma growth_range_ok state layout :
  size_ok layout → HEAP_REGION_START ≤ next_unmapped state ≤ HEAP_REGION_END →
  growth_range state layout = Ret (
    if decide (heap_limit state layout ≤ HEAP_REGION_END)
    then Some (pages_for layout * PAGE_SIZE, heap_limit state layout) else None).
Proof.
  intros Hsz Hn. destruct (pages_for_bounds layout Hsz) as [Hp _].
  unfold growth_range, heap_limit, HEAP_REGION_START, HEAP_REGION_END, PAGE_SIZE in *.
  rewrite mul64_ok by u64_solve. cbn [mbind outcome_bind]. f_equal. unfold checked_add.
  destruct (u64b _) eqn:Hu.
  - destruct (Z.leb_spec (next_unmapped state + pages_for layout * 4096) 0xFFFFFFFF80000000); case_decide; (done || lia).
  - rewrite decide_False; [done|]. intros Hle. apply not_true_iff_false in Hu. apply Hu, u64b_spec. u64_solve.
Qed.

(** [grow], branch by branch. *)
Definition grow_post self a frame state g l layout (b : bool) state' g' : Prop :=
  if b then
    next_unmapped state' = heap_limit state layout ∧ heap_limit state layout ≤ HEAP_REGION_END ∧
    ∃ a' frame' l', heap_ok self a' frame' state' g' l' ∧ (length l' ≤ S (length l))%nat ∧
      Z.of_nat (size (fs_free a')) + pages_for layout ≤ Z.of_nat (size (fs_free a)) ∧
      (∀ x, covers l' x ↔ covers l x ∨ next_unmapped state ≤ x < heap_limit state layout) ∧
      spent a a' (4 * pages_for layout) ∧
      kept_bytes (hardware g) (hardware g') (next_unmapped state) (covers l)
  else
    state' = state ∧
    ∃ a', heap_ok self a' frame state' g' l ∧ spent a a' (4 * pages_for layout) ∧
      kept_bytes (hardware g) (hardware g') (next_unmapped state) (covers l) ∧
      ((HEAP_REGION_END < heap_limit state layout ∧ g' = g) ∨
       ∃ leaked, 0 ≤ leaked < pages_for layout ∧
         failed self (with_frames (hardware g) a) (with_frames (hardware g') a') leaked).

Lemma grown_region self a state hw' frame' l bytes :
  heap_phys self a hw' (next_unmapped state + bytes) frame' →
  rep (next_unmapped state) (allocator state, hw') l →
  HEAP_REGION_START ≤ next_unmapped state → next_unmapped state mod 8 = 0 → bytes mod 8 = 0 → 16 ≤ bytes →
  region (next_unmapped state + bytes) (allocator state, hw') l (next_unmapped state) bytes.
Proof.
  intros Hp Hrep Hlo H8 Hb8 Hb. split.
  - eapply rep_mono, Hrep. lia.
  - unfold HEAP_REGION_START in Hlo. lia.
  - done.
  - done.
  - done.
  - done.
  - intros x Hx Hc. pose proof (covers_range _ _ _ _ (rep_wf _ _ _ Hrep) Hc). lia.
  - intros q Hq Hin. split; [done|]. exists (next_unmapped state + bytes), frame'. split; [lia|apply Hp].
Qed.

(** An aligned address is the base of its page. *)
Lemma page_base x : x mod PAGE_SIZE = 0 → x = x / PAGE_SIZE * PAGE_SIZE.
Proof. unfold PAGE_SIZE. intros. dlia. Qed.

(** The pages a growth mapped, added to the free list. *)
Lemma grow_mapped self a frame state g l layout fuel s' fr :
  heap_ok self a frame state g l → size_ok layout → (length l < fuel)%nat → heap_limit state layout ≤ HEAP_REGION_END →
  mapped_upto self (with_frames (hardware g) a) s' (next_unmapped state / PAGE_SIZE) (pages_for layout) fr →
  ∃ al' hw', add_free_region fuel (next_unmapped state) (pages_for layout * PAGE_SIZE) (allocator state, without_frames s') =
      Ret (tt, (al', hw')) ∧
    grow_post self a frame state g l layout true (mkHeapState al' (heap_limit state layout))
      (mkGlobals (SpinLock.new (Some (m_fa s'))) (SpinLock.new (Some self)) hw').
Proof.
  intros [Hfr Hvmm Hp Hrep] Hsz Hfuel Hlim Hmu. pose proof (hp_backed _ _ _ _ _ Hp) as Hb.
  destruct (bd_hi _ _ _ Hb) as [Hlo _]. destruct (pages_for_bounds layout Hsz) as [Hpg _].
  pose proof (page_base _ (bd_aligned _ _ _ Hb)) as Hk0. set (k0 := next_unmapped state / PAGE_SIZE) in *.
  rewrite Hk0 in Hp, Hrep.
  destruct (heap_mapped _ _ _ _ (pages_for layout) _ s' fr _ _ Hp Hrep) as (Hp' & Hrep' & Hby');
    [lia|unfold heap_limit, PAGE_SIZE in *; lia|done|].
  assert (Hlim' : (k0 + pages_for layout) * PAGE_SIZE = next_unmapped state + pages_for layout * PAGE_SIZE)
    by (rewrite Hk0; unfold PAGE_SIZE; lia).
  rewrite Hlim' in Hp'. rewrite <- Hk0 in Hrep', Hby'.
  assert (Hge : next_unmapped state ≤ next_unmapped state + pages_for layout * PAGE_SIZE) by (unfold PAGE_SIZE; lia).
  assert (Hreg : region (next_unmapped state + pages_for layout * PAGE_SIZE)
    (allocator state, without_frames s') l (next_unmapped state) (pages_for layout * PAGE_SIZE)).
  { eapply grown_region; try done; unfold PAGE_SIZE in *; [|dlia|lia]. rewrite Hk0. dlia. }
  destruct (add_free_region_ok _ (heap_hi _ _ _ _ _ Hp') _ _ _ _ fuel Hreg Hfuel)
    as ([al' hw'] & l' & Hadd & [Hrep2 Hc Hlen Hkeep]).
  exists al', hw'. split; [exact Hadd|]. split; [done|]. split; [done|]. exists (m_fa s'). eexists _, l'.
  assert (Hspent : spent a (m_fa s') (4 * pages_for layout))
    by (split; [apply (mu_carries _ _ _ _ _ _ Hmu)|apply (mu_cost _ _ _ _ _ _ Hmu)]).
  split; [|split_and!; [done|apply (mu_count _ _ _ _ _ _ Hmu)|done|exact Hspent|]].
  - split; [done..| |exact Hrep2]. cbn. eapply heap_phys_frame; [apply Hkeep|exact Hp'].
  - eapply kept_trans; [intros x Hx _; by apply Hby'| |exact Hge|].
    { eapply keeps_bytes; [exact Hkeep|apply Hp'|]. intros q i Hq Hi [?|?]; [left|right; unfold PAGE_SIZE in *; dlia].
      by rewrite (covers_word _ _ _ _ _ (rep_wf _ _ _ Hrep')). }
    intros x Hx [?|?]; [done|lia].
Qed.

(** The pages a failed growth took back out. *)
Lemma grow_failed self a frame state g l layout s' leaked :
  heap_ok self a frame state g l → 0 ≤ leaked < pages_for layout →
  failed self (with_frames (hardware g) a) s' leaked →
  grow_post self a frame state g l layout false state
    (mkGlobals (SpinLock.new (Some (m_fa s'))) (SpinLock.new (Some self)) (without_frames s')).
Proof.
  intros [Hfr Hvmm Hp Hrep] Hlk Hfail.
  destruct (heap_failed _ _ _ _ _ _ _ _ _ Hp Hrep Hfail) as (Hp' & Hrep' & Hby').
  pose proof (fl_cost _ _ _ _ Hfail) as Hcost. unfold free_count in Hcost. cbn [with_frames m_fa] in Hcost.
  split; [done|]. exists (m_fa s'). split; [by split|].
  split; [split; [apply (fl_carries _ _ _ _ Hfail)|lia]|]. split; [intros x Hx _; by apply Hby'|].
  right. exists leaked. split; [done|]. cbn. by destruct s'.
Qed.

Lemma grow_ok self a frame state g l layout fuel :
  heap_ok self a frame state g l → size_ok layout → (length l < fuel)%nat →
  ∃ b state' g', grow fuel state layout g = Ret ((b, state'), g') ∧
    grow_post self a frame state g l layout b state' g'.
Proof.
  intros Hok Hsz Hfuel. pose proof Hok as [Hfr Hvmm Hp Hrep].
  pose proof (hp_backed _ _ _ _ _ Hp) as Hb. destruct (bd_hi _ _ _ Hb) as [Hlo Hhi].
  destruct (pages_for_bounds layout Hsz) as [Hpg _].
  unfold grow, mbind. rewrite growth_range_ok by done. cbn [outcome_bind].
  case_decide as Hlim.
  2: { exists false, state, g. split; [done|]. split; [done|]. exists a. split; [done|].
       split; [split; [done|lia]|]. split; [apply kept_refl|]. left. split; [lia|done]. }
  rewrite Hfr, Hvmm, !lock_free by (done || lia). cbn [outcome_bind SpinLock.new data].
  pose proof (page_base _ (bd_aligned _ _ _ Hb)) as Hk0.
  destruct (map_pages_ok self (with_frames (hardware g) a) (with_frames (hardware g) a) (next_unmapped state / PAGE_SIZE) 0
    (Z.to_nat (pages_for layout)) frame) as (b & s' & Hrun & Hres).
  - apply mapped_upto_refl. apply Hp.
  - apply Hp.
  - lia.
  - by rewrite <- Hk0.
  - unfold heap_limit, PAGE_SIZE in *. lia.
  - intros k Hk. rewrite (hp_self _ _ _ _ _ Hp). apply (hp_fresh _ _ _ _ _ Hp).
    unfold heap_limit, PAGE_SIZE in *. lia.
  - rewrite <- Hk0 in Hrun. rewrite Hrun. cbn [outcome_bind]. rewrite Z2Nat.id, Z.add_0_l in Hres by lia. destruct b.
    + destruct Hres as [fr Hmu].
      destruct (grow_mapped self a frame state g l layout fuel s' fr Hok Hsz Hfuel Hlim Hmu) as (al' & hw' & Hadd & Hpost).
      rewrite Hadd. cbn [outcome_bind]. do 3 eexists. split; [reflexivity|exact Hpost].
    + destruct Hres as (leaked & Hlk & Hfail). do 3 eexists. split; [reflexivity|]. by eapply grow_failed.
Qed.

(** ** Allocation *)
Record heap_layout (layout : Layout) : Prop := {
  hl_valid : layout_valid layout;
  hl_size : layout_size layout ≤ ISIZE_MAX - 7;
  hl_align : layout_align layout ≤ 2 ^ 30;
}.
Lemma heap_layout_good layout hi : heap_layout layout → hi ≤ HEAP_REGION_END → good_layout hi layout.
Proof. intros [Hv Hs Ha] Hhi. split_and!; [done..|]. unfold HEAP_REGION_END in Hhi. lia. Qed.
Lemma heap_layout_size layout : heap_layout layout → size_ok layout.
Proof. intros [[_ Hs] Hm _]. unfold size_ok, ISIZE_MAX in *. lia. Qed.

(** One search of the free list. *)
Lemma search_ok self a frame state g l layout fuel :
  heap_ok self a frame state g l → heap_layout layout → (length l < fuel)%nat →
  ∃ p state' g' l', search fuel state layout g = Ret ((p, state'), g') ∧
    heap_ok self a frame state' g' l' ∧ next_unmapped state' = next_unmapped state ∧
    (∀ x, covers l' x → covers l x) ∧
    ((p = 0 ∧ state' = state ∧ g' = g ∧ l' = l ∧
      ∀ al, adjusted_size_align layout = Ret (block_size layout, al) → no_fit (block_size layout) al l) ∨
     (p ≠ 0 ∧ p mod layout_align layout = 0 ∧
      region (next_unmapped state) (allocator state', hardware g') l' p (block_size layout) ∧
      ∀ x, p ≤ x < p + block_size layout → covers l x)) ∧
    kept_bytes (hardware g) (hardware g') (next_unmapped state) (covers l).
Proof.
  intros [Hfr Hvm Hp Hrep] Hlay Hfuel. destruct (bd_hi _ _ _ (hp_backed _ _ _ _ _ Hp)) as [_ Hhi].
  destruct (good_request _ layout (heap_layout_good layout _ Hlay Hhi)) as (al & Hadj & Hreq & Hlim & Hmod).
  unfold search, mbind.
  destruct (alloc_ok _ (heap_hi _ _ _ _ _ Hp) _ l layout fuel _ al Hrep Hadj Hreq Hlim Hfuel)
    as [[-> Hno]|(p & [al' hw'] & l' & l1 & b & t & l2 & -> & Htk)]; cbn [outcome_bind].
  - destruct g as [gf gv hw]. exists 0, state, (mkGlobals gf gv hw), l.
    replace (mkHeapState (allocator state) (next_unmapped state)) with state by (by destruct state).
    split_and!; try done. left. split_and!; try done. intros al2 Hadj2. rewrite Hadj in Hadj2.
    by injection Hadj2 as <-.
  - destruct (taken_region _ (heap_hi _ _ _ _ _ Hp) _ _ _ _ _ _ _ _ _ _ _ Hrep Hreq Htk) as (Hreg & Hfree & Hsub & Hpal).
    do 4 eexists. split; [done|]. split_and!; [| |exact Hsub| |].
    + split; [done..| |apply Htk]. cbn. eapply heap_phys_frame; [apply Htk|done].
    + done.
    + right. pose proof (rg_pos _ _ _ _ _ Hreg). split_and!; [lia|by apply Hmod|exact Hreg|exact Hfree].
    + eapply keeps_bytes; [apply Htk|apply Hp|]. intros q i Hq Hi Hc.
      by rewrite (covers_word _ _ _ _ _ (rep_wf _ _ _ Hrep)).
Qed.

(** After a growth the request fits, if its alignment is at most a page. *)
Lemma grown_fits layout state l al :
  heap_layout layout → layout_align layout ≤ PAGE_SIZE →
  next_unmapped state mod PAGE_SIZE = 0 → wf_from 0 (heap_limit state layout) l →
  (∀ x, next_unmapped state ≤ x < heap_limit state layout → covers l x) →
  adjusted_size_align layout = Ret (block_size layout, al) → ¬ no_fit (block_size layout) al l.
Proof.
  intros Hlay Hal Hn Hwf Hcov Hadj Hno. destruct (pages_for_bounds layout (heap_layout_size layout Hlay)) as [Hpg Hsz].
  destruct (interval_block _ _ _ (next_unmapped state) (pages_for layout * PAGE_SIZE) Hwf)
    as (b & t & Hin & Hb & Hbt); [unfold PAGE_SIZE; lia|done|].
  specialize (Hno b t Hin). destruct (adjusted_ok layout) as (sz & al' & Hadj' & [(k & Hk & Hk2) _ _ _] & Halm & Hszm);
    [apply Hlay..|]. rewrite Hadj in Hadj'. injection Hadj' as Hsz' <-. rewrite Hsz' in *.
  assert (Hal0 : 0 < al) by (rewrite Hk2; apply Z.pow_pos_nonneg; lia).
  assert (Hal8 : al ≤ 2 ^ 12) by (unfold PAGE_SIZE in Hal; lia).
  assert (Hk12 : k ≤ 12) by (rewrite Hk2 in Hal8; apply (Z.pow_le_mono_r_iff 2); lia).
  assert (Hdvd : ∀ n, (n * PAGE_SIZE) mod al = 0).
  { intros n. rewrite Hk2. unfold PAGE_SIZE. replace 4096 with (2 ^ (12 - k) * 2 ^ k)
      by (rewrite <- Z.pow_add_r by lia; replace (12 - k + k) with 12 by lia; done).
    rewrite Z.mul_assoc. apply Z.mod_mul. lia. }
  assert (Hround : ∀ y m, y ≤ m → m mod al = 0 → div_ceil y al * al ≤ m).
  { intros y m Hy Hm. apply Z.div_exact in Hm; [|lia].
    pose proof (div_ceil_mono y al (m / al) Hal0 ltac:(lia)). nia. }
  assert (Hup : up al b ≤ next_unmapped state).
  { apply Hround; [done|]. apply Z.div_exact in Hn; [|done]. rewrite Hn, Z.mul_comm. apply Hdvd. }
  assert (Hszle : sz ≤ pages_for layout * PAGE_SIZE).
  { rewrite Hszm. apply Z.max_lub; [by apply Hround|unfold PAGE_SIZE; lia]. }
  unfold PAGE_SIZE in *. lia.
Qed.

(** ** Properties *)

(** C11: [grow] on every branch.  It always returns with the locks free and
    the heap invariant intact.  On success the heap's end moves up by the
    requested pages (at least 16), each backed by a frame of its own, and
    exactly those bytes join the free list; every byte in use keeps its value.
    On failure the heap, its free list and every translation are as before, and the cause is one of two: the growth would leave the heap
    region, or the frames that page tables can use ran out. *)
Theorem grow_correct self a frame state g l layout fuel :
  heap_ok self a frame state g l → size_ok layout → (length l < fuel)%nat →
  ∃ b state' g', grow fuel state layout g = Ret ((b, state'), g') ∧
    if (b : bool) then
      next_unmapped state' = heap_limit state layout ∧ heap_limit state layout ≤ HEAP_REGION_END ∧
      ∃ a' frame' l', heap_ok self a' frame' state' g' l' ∧
        Z.of_nat (size (fs_free a')) + pages_for layout ≤ Z.of_nat (size (fs_free a)) ∧
        (∀ x, covers l' x ↔ covers l x ∨ next_unmapped state ≤ x < heap_limit state layout) ∧
        kept_bytes (hardware g) (hardware g') (next_unmapped state) (covers l)
    else state' = state ∧ ∃ a', heap_ok self a' frame state' g' l ∧
      (∀ v, cpu_walk (hardware g') v = cpu_walk (hardware g) v) ∧
      (HEAP_REGION_END < heap_limit state layout ∨
       ∃ f, ∀ h, h ∈ fs_free a' → h ≠ f → IDENTITY_MAP_LIMIT ≤ h * FRAME_SIZE).
Proof.
  intros Hok Hsz Hf. destruct (grow_ok self a frame state g l layout fuel Hok Hsz Hf)
    as (b & state' & g' & Hrun & Hpost).
  exists b, state', g'. split; [done|]. destruct b; cbn [grow_post] in Hpost.
  - destruct Hpost as (? & ? & a' & fr' & l' & ? & _ & ? & ? & _ & ?). split_and!; [done..|]. by exists a', fr', l'.
  - destruct Hpost as (? & a' & Hok' & _ & _ & Hwhy). split; [done|]. exists a'. split; [done|].
    destruct Hwhy as [[Hlim ->]|(lk & _ & [_ Hw _ Hreason _])]; [split; [done|by left]|].
    split; [|right; exact Hreason]. intros v. unfold cpu_walk.
    rewrite <- (hp_self _ _ _ _ _ (hk_phys _ _ _ _ _ _ Hok')), <- (hp_self _ _ _ _ _ (hk_phys _ _ _ _ _ _ Hok)).
    apply Hw.
Qed.


(** What one call of [alloc] does, on every branch. *)
Record alloc_post self a (k : kernel A) l layout (p : Z) (k' : kernel A) a' frame' l' : Prop := {
  ap_lock : locked (inner k') = false;
  ap_ok : heap_ok self a' frame' (data (inner k')) (global k') l';
  ap_next : next_unmapped (data (inner k)) ≤ next_unmapped (data (inner k')) ≤ heap_limit (data (inner k)) layout;
  ap_free : ∀ x, covers l' x → covers l x ∨
    next_unmapped (data (inner k)) ≤ x < next_unmapped (data (inner k'));
  ap_block : p ≠ 0 → p mod layout_align layout = 0 ∧
    region (next_unmapped (data (inner k')))
      (allocator (data (inner k')), hardware (global k')) l' p (block_size layout) ∧
    ∀ x, p ≤ x < p + block_size layout → covers l x ∨
      next_unmapped (data (inner k)) ≤ x < next_unmapped (data (inner k'));
  ap_null : p = 0 → layout_align layout ≤ PAGE_SIZE →
    l' = l ∧ data (inner k') = data (inner k) ∧
    (HEAP_REGION_END < heap_limit (data (inner k)) layout ∨
     ∃ f, ∀ h, h ∈ fs_free a' → h ≠ f → IDENTITY_MAP_LIMIT ≤ h * FRAME_SIZE);
  ap_spent : spent a a' (4 * pages_for layout);
  ap_bytes : kept_bytes (hardware (global k)) (hardware (global k')) (next_unmapped (data (inner k))) (covers l);
}.

(** The retry after a growth: the request fits if its alignment is at most a page. *)
Lemma retry_ok self a (k : kernel A) l layout fuel frame st2 g2 :
  heap_ok self a frame (data (inner k)) (global k) l → heap_layout layout → (S (length l) < fuel)%nat →
  grow_post self a frame (data (inner k)) (global k) l layout true st2 g2 →
  ∃ p st3 g3 a' frame' l', search fuel st2 layout g2 = Ret ((p, st3), g3) ∧
    alloc_post self a k l layout p (mkKernel (unlock (mkSpinLock true (data (inner k))) st3) g3) a' frame' l'.
Proof.
  intros Hok Hlay Hf (Hn2 & Hlim & a2 & fr2 & l2 & Hok2 & Hlen2 & _ & Hc2 & Hsp & Hby2). set (state := data (inner k)) in *.
  destruct (search_ok self a2 fr2 st2 g2 l2 layout fuel Hok2 Hlay ltac:(lia))
    as (p & st3 & g3 & l3 & Hrun & Hok3 & Hn3 & Hsub3 & Hres3 & Hby3).
  assert (Hge : next_unmapped state ≤ heap_limit state layout).
  { destruct (pages_for_bounds layout (heap_layout_size _ Hlay)). unfold heap_limit, PAGE_SIZE. lia. }
  exists p, st3, g3, a2, fr2, l3. split; [done|].
  split; cbn [inner data locked unlock global]; fold state; rewrite ?Hn3, ?Hn2; [done|done|lia|..].
  - intros x Hx. by apply Hc2, Hsub3.
  - intros Hp0. destruct Hres3 as [(? & _)|(_ & Hmod & Hreg & Hfree)]; [done|].
    rewrite <- Hn2. split_and!; [done..|]. rewrite Hn2. intros x Hx. by apply Hc2, Hfree.
  - intros -> Hal. exfalso. destruct Hres3 as [(_ & _ & _ & _ & Hno3)|(? & _)]; [|done].
    destruct (bd_hi _ _ _ (hp_backed _ _ _ _ _ (hk_phys _ _ _ _ _ _ Hok2))) as [_ Hhi].
    destruct (good_request _ layout (heap_layout_good layout _ Hlay Hhi)) as (al & Hadj & _).
    eapply (grown_fits layout state l2 al Hlay Hal); [|rewrite <- Hn2; apply Hok2| |done|by apply Hno3].
    + apply (bd_aligned _ _ _ (hp_backed _ _ _ _ _ (hk_phys _ _ _ _ _ _ Hok))).
    + intros x Hx. apply Hc2. by right.
  - exact Hsp.
  - eapply kept_trans; [exact Hby2|exact Hby3|by rewrite Hn2|]. intros x Hx [?|?]%Hc2; [done|lia].
Qed.

Lemma kernel_alloc_ok self a frame (k : kernel A) l layout fuel :
  locked (inner k) = false → heap_ok self a frame (data (inner k)) (global k) l →
  heap_layout layout → (S (length l) < fuel)%nat →
  ∃ p k' a' frame' l', Heap.alloc fuel layout k = Ret (p, k') ∧ alloc_post self a k l layout p k' a' frame' l'.
Proof.
  intros Hun Hok Hlay Hf. set (state := data (inner k)) in *.
  unfold Heap.alloc, mbind. rewrite lock_free by (done || lia). cbn [outcome_bind]. fold state.
  assert (Hpg : 16 ≤ pages_for layout) by (destruct (pages_for_bounds layout (heap_layout_size _ Hlay)); lia).
  assert (Hge : next_unmapped state ≤ heap_limit state layout) by (unfold heap_limit, PAGE_SIZE; lia).
  destruct (search_ok self a frame state (global k) l layout fuel Hok Hlay ltac:(lia))
    as (p & st1 & g1 & l1 & -> & Hok1 & Hn1 & Hsub1 & Hres1 & Hby1). cbn [outcome_bind].
  destruct Hres1 as [(-> & -> & -> & -> & Hno)|(Hp0 & Hmod & Hreg & Hfree)]; cycle 1.
  { destruct (Z.eqb_spec p 0); [done|]. cbn [negb].
    exists p, (mkKernel (unlock (mkSpinLock true state) st1) g1), a, frame, l1. split; [done|].
    split; cbn [inner data locked unlock global]; fold state; rewrite ?Hn1; [done|done|lia|..].
    - intros x Hx. left. auto.
    - intros _. split_and!; [done..|]. intros x Hx. left. auto.
    - done.
    - split; [done|lia].
    - exact Hby1. }
  cbn [Z.eqb negb].
  destruct (grow_ok self a frame state (global k) l layout fuel Hok (heap_layout_size _ Hlay) ltac:(lia))
    as (b & st2 & g2 & -> & Hpost). cbn [outcome_bind]. destruct b; cbn [negb].
  - destruct (retry_ok self a k l layout fuel frame st2 g2 Hok Hlay Hf Hpost)
      as (p & st3 & g3 & a' & frame' & l' & -> & Hpost'). cbn [outcome_bind].
    exists p, (mkKernel (unlock (mkSpinLock true state) st3) g3), a', frame', l'. split; [done|exact Hpost'].
  - destruct Hpost as (-> & a2 & Hok2 & Hsp & Hby2 & Hwhy).
    exists 0, (mkKernel (unlock (mkSpinLock true state) state) g2), a2, frame, l. split; [done|].
    split; cbn [inner data locked unlock global]; fold state; [done|done|lia|by left|done| |done|done].
    intros _ _. split_and!; try done. destruct Hwhy as [[? _]|(lk & _ & [_ _ _ Hreason _])]; [by left|by right].
Qed.

Lemma kernel_dealloc_ok self a frame (k : kernel A) l layout p fuel :
  locked (inner k) = false → heap_ok self a frame (data (inner k)) (global k) l → heap_layout layout →
  region (next_unmapped (data (inner k))) (allocator (data (inner k)), hardware (global k)) l p
    (block_size layout) → (length l < fuel)%nat →
  ∃ k' l', Heap.dealloc fuel p layout k = Ret (tt, k') ∧ locked (inner k') = false ∧
    heap_ok self a frame (data (inner k')) (global k') l' ∧
    next_unmapped (data (inner k')) = next_unmapped (data (inner k)) ∧
    (∀ x, covers l' x ↔ covers l x ∨ p ≤ x < p + block_size layout) ∧
    kept_bytes (hardware (global k)) (hardware (global k')) (next_unmapped (data (inner k))) (covers l').
Proof.
  intros Hun [Hfr Hvm Hp Hrep] Hlay Hreg Hf. destruct (bd_hi _ _ _ (hp_backed _ _ _ _ _ Hp)) as [_ Hhi].
  destruct (good_request _ layout (heap_layout_good layout _ Hlay Hhi)) as (al & Hadj & _).
  unfold Heap.dealloc, mbind. rewrite lock_free by (done || lia). cbn [outcome_bind].
  destruct (dealloc_ok _ (heap_hi _ _ _ _ _ Hp) _ _ layout fuel _ al p Hadj Hreg Hf)
    as ([al' hw'] & l' & -> & [Hrep' Hc _ Hk]). cbn [outcome_bind].
  do 2 eexists. split; [done|]. cbn [inner data locked unlock global next_unmapped].
  split_and!; [done| |done|exact Hc|].
  - split; [done..| |exact Hrep']. cbn. eapply heap_phys_frame; [apply Hk|done].
  - cbn [hardware]. intros x Hx Hn. eapply (keeps_bytes (covers l')); [|apply Hp| |done|done].
    + eapply keeps_weaken, Hk. intros q. by rewrite Hc.
    + intros q i Hq Hi Hcq. by rewrite (covers_word _ _ _ _ _ (rep_wf _ _ _ Hrep')).
Qed.

(** C5: [GlobalAlloc::alloc] of the kernel heap, on every branch.  Called with
    the locks free it returns with the locks free and the invariant intact.
    A non-null result is aligned, lies in the mapped heap region, consists of
    bytes that were free or newly mapped, and shares no byte with what is
    free afterwards.  A null result for an alignment up to a page means that
    growing failed, and then the free list is unchanged: after a successful
    growth the one retry always finds room.  On every branch the bytes in use
    keep their values. *)
Theorem kernel_alloc_correct self a frame (k : kernel A) l layout fuel :
  locked (inner k) = false → heap_ok self a frame (data (inner k)) (global k) l →
  heap_layout layout → (S (length l) < fuel)%nat →
  ∃ p k' a' frame' l', Heap.alloc fuel layout k = Ret (p, k') ∧ locked (inner k') = false ∧
    heap_ok self a' frame' (data (inner k')) (global k') l' ∧
    next_unmapped (data (inner k)) ≤ next_unmapped (data (inner k')) ∧
    (∀ x, covers l' x → covers l x ∨
       next_unmapped (data (inner k)) ≤ x < next_unmapped (data (inner k'))) ∧
    (p ≠ 0 → p mod layout_align layout = 0 ∧
       region (next_unmapped (data (inner k')))
         (allocator (data (inner k')), hardware (global k')) l' p (block_size layout) ∧
       ∀ x, p ≤ x < p + block_size layout → covers l x ∨
         next_unmapped (data (inner k)) ≤ x < next_unmapped (data (inner k'))) ∧
    (p = 0 → layout_align layout ≤ PAGE_SIZE →
       l' = l ∧ data (inner k') = data (inner k) ∧
       (HEAP_REGION_END < heap_limit (data (inner k)) layout ∨
        ∃ f, ∀ h, h ∈ fs_free a' → h ≠ f → IDENTITY_MAP_LIMIT ≤ h * FRAME_SIZE)) ∧
    kept_bytes (hardware (global k)) (hardware (global k')) (next_unmapped (data (inner k))) (covers l).
Proof.
  intros Hun Hok Hlay Hf.
  destruct (kernel_alloc_ok self a frame k l layout fuel Hun Hok Hlay Hf) as (p & k' & a' & fr' & l' & Hrun & Hpost).
  exists p, k', a', fr', l'. destruct Hpost as [? ? [? _] ? ? ? _ ?]. by split_and!.
Qed.

(** [GlobalAlloc::dealloc] of the kernel heap: a block the heap handed out
    goes back; the invariant and the locks are as before, exactly the block's
    bytes become free again and every byte still in use keeps its value. *)
Theorem kernel_dealloc_correct self a frame (k : kernel A) l layout p fuel :
  locked (inner k) = false → heap_ok self a frame (data (inner k)) (global k) l → heap_layout layout →
  region (next_unmapped (data (inner k))) (allocator (data (inner k)), hardware (global k)) l p
    (block_size layout) → (length l < fuel)%nat →
  ∃ k' l', Heap.dealloc fuel p layout k = Ret (tt, k') ∧ locked (inner k') = false ∧
    heap_ok self a frame (data (inner k')) (global k') l' ∧
    next_unmapped (data (inner k')) = next_unmapped (data (inner k)) ∧
    (∀ x, covers l' x ↔ covers l x ∨ p ≤ x < p + block_size layout) ∧
    kept_bytes (hardware (global k)) (hardware (global k')) (next_unmapped (data (inner k))) (covers l').
Proof. apply kernel_dealloc_ok. Qed.

(** Taking the heap lock while it is already held never returns. *)
Lemma alloc_under_held_lock_spins (k : kernel A) layout fuel :
  locked (inner k) = true → Heap.alloc fuel layout k = NoFuel.
Proof. intros Hl. unfold Heap.alloc, mbind. by rewrite lock_taken. Qed.

End heap.

(** ** A kernel with an empty heap *)
Definition demo_globals : globals FrameAllocator :=
  mkGlobals (SpinLock.new (Some demo_fa)) (SpinLock.new (Some demo_vmm)) (without_frames demo).
Definition demo_kernel : kernel FrameAllocator := mkKernel new_heap demo_globals.
Definition demo_layout : Layout := mkLayout 64 8.

Lemma demo_tables : tables_ok (m_mem demo) (root demo_vmm) ∅.
Proof. exact (tables_ok_mono _ _ _ ∅ (empty_subseteq _) (vm_tables _ _ demo_vm_ok)). Qed.
Lemma demo_restored : with_frames (without_frames demo) demo_fa = demo.
Proof. reflexivity. Qed.
Lemma demo_pool : pool_ok (P := release_profile) demo.
Proof.
  split; [|unfold demo; cbn [m_fa]; vm_compute; discriminate]. intros f Hf%demo_free.
  unfold demo. cbn [m_mem]. apply zero_mem_mapped; unfold FRAME_SIZE; lia.
Qed.
Lemma demo_heap_ok :
  heap_ok (P := release_profile) demo_vmm demo_fa (λ _, 0) (data new_heap) demo_globals [].
Proof.
  pose proof demo_vm_ok as Hvm. split; [reflexivity|reflexivity| |].
  - split; [exact Hvm|reflexivity| | | |].
    + exact demo_pool.
    + change (next_unmapped (data new_heap)) with HEAP_REGION_START.
      split; [by split|reflexivity| |intros; lia|intros; lia].
      change (m_mem (hardware demo_globals)) with (m_mem demo).
      change (root (cpu_vmm (hardware demo_globals))) with (root demo_vmm). exact demo_tables.
    + change (next_unmapped (data new_heap)) with HEAP_REGION_START. intros. lia.
    + intros k _. apply walk_zero; [exact demo_entries|apply indices_ok].
  - split; [|intros p _ Hc; by apply covers_nil in Hc|exact I].
    split; [reflexivity|]. split; [reflexivity|exact I].
Qed.
Lemma demo_size_ok : size_ok demo_layout.
Proof. unfold size_ok, ISIZE_MAX. cbn. lia. Qed.
Lemma demo_heap_layout : heap_layout demo_layout.
Proof.
  split; [|unfold ISIZE_MAX; cbn; lia|cbn; lia].
  split; [exists 3; split; [lia|reflexivity]|unfold ISIZE_MAX; cbn; lia].
Qed.
Lemma demo_limit : heap_limit (data new_heap) demo_layout ≤ HEAP_REGION_END.
Proof. vm_compute. discriminate. Qed.

Lemma grow_correct_witness :
  ∃ r, grow (P := release_profile) 1 (data new_heap) demo_layout demo_globals = Ret r.
Proof.
  destruct (grow_correct (P := release_profile) demo_vmm demo_fa (λ _, 0) (data new_heap) demo_globals []
    demo_layout 1 demo_heap_ok demo_size_ok ltac:(cbn; lia)) as (b & st & g & Hrun & _).
  exists ((b, st), g). exact Hrun.
Defined.

(** Five free frames cannot back the sixteen pages of the smallest growth. *)
Lemma demo_grow_fails :
  ∃ st g, grow (P := release_profile) 1 (data new_heap) demo_layout demo_globals = Ret ((false, st), g).
Proof.
  destruct (grow_ok (P := release_profile) demo_vmm demo_fa (λ _, 0) (data new_heap) demo_globals []
    demo_layout 1 demo_heap_ok demo_size_ok ltac:(cbn; lia)) as ([] & st & g & Hrun & Hpost).
  - exfalso. destruct Hpost as (_ & _ & a' & fr' & l' & _ & _ & Hsz & _).
    change (pages_for demo_layout) with 16 in Hsz.
    change (size (fs_free demo_fa)) with (size (free_frames demo_fa)) in Hsz.
    assert (size (free_frames demo_fa) = 5%nat) as H4 by (vm_compute; reflexivity). lia.
  - exists st, g. exact Hrun.
Qed.


Lemma kernel_alloc_correct_witness :
  ∃ p k', Heap.alloc (P := release_profile) 2 demo_layout demo_kernel = Ret (p, k') ∧ locked (inner k') = false.
Proof.
  destruct (kernel_alloc_correct (P := release_profile) demo_vmm demo_fa (λ _, 0) demo_kernel [] demo_layout 2
    eq_refl demo_heap_ok demo_heap_layout ltac:(cbn; lia)) as (p & k' & _ & _ & _ & Hrun & Hl & _).
  exists p, k'. split; [exact Hrun|exact Hl].
Defined.

(** The same kernel with the first heap page mapped and handed out. *)
Definition demo_k0 : Z := HEAP_REGION_START / PAGE_SIZE.

Lemma demo_page_mapped :
  ∃ fr s', mapped_upto (P := release_profile) demo_vmm demo s' demo_k0 1 fr.
Proof.
  destruct (take_frame_ok (P := release_profile) demo_vmm demo demo_vm_ok)
    as [[_ He]|(f & s1 & Htk & Hf & Hca1 & Hm1 & _ & Hff & Hfor)].
  { exfalso. change (fs_free (m_fa demo)) with (free_frames demo_fa) in He.
    assert (size (free_frames demo_fa) = 5%nat) as H4 by (vm_compute; reflexivity).
    rewrite He, size_empty in H4. discriminate H4. }
  assert (Hun : walk_of demo_vmm (m_mem demo) (VirtAddr.new (demo_k0 * PAGE_SIZE)) = Unmapped)
    by (apply walk_zero; [exact demo_entries|apply indices_ok]).
  assert (Hal : is_page_aligned (VirtAddr.new (demo_k0 * PAGE_SIZE)) = true) by apply aligned_page.
  destruct (page_step (P := release_profile) demo_vmm demo _ demo_vm_ok demo_pool Hal Hun)
    as [[Hno _]|(f' & s1' & Htk' & Hf' & [(s' & _ & Hca & Hcnt & Hfg & Hw)|(s2 & s3 & Hmap & _)])].
  - rewrite Htk in Hno. discriminate Hno.
  - exists (λ k, if decide (k = demo_k0 + 0) then f' else 0), s'.
    replace 1 with (0 + 1) by lia. eapply mapped_upto_step; [|lia|by split|exact Hf'|exact Hca|exact Hcnt|exact Hfg|].
    + apply mapped_upto_refl. exact demo_vm_ok.
    + rewrite Z.add_0_r. exact Hw.
  - exfalso. rewrite Htk in Htk'. injection Htk' as Hff' <-.
    destruct (map_ok (P := release_profile) demo_vmm s1 (VirtAddr.new (demo_k0 * PAGE_SIZE))
      (PhysAddr.new (f' * FRAME_SIZE)) read_write (ca_vm _ _ _ Hca1)) as (r & s2' & Hrun & Hpost).
    rewrite Hmap in Hrun. injection Hrun as <- <-. destruct Hpost as (_ & [_ Hev _] & _ & Hnone).
    pose proof (ev_size _ _ _ _ Hev) as Hsz. pose proof (ev_free _ _ _ _ Hev) as Hsub.
    assert (H4 : Z.of_nat (size (fs_free (P := release_profile) (m_fa s1))) = 4).
    { rewrite Hff, size_remove, decide_True by exact Hf.
      change (size (fs_free (m_fa demo))) with (size (free_frames demo_fa)). vm_compute. reflexivity. }
    destruct (size_pos_elem_of (C := gset Z) (fs_free (P := release_profile) (m_fa s2))) as [g Hg]; [lia|].
    pose proof (Hnone g Hg) as Hge. apply Hsub in Hg. rewrite Hff in Hg.
    apply elem_of_difference in Hg as [Hg _]. apply (demo_free g) in Hg.
    unfold IDENTITY_MAP_LIMIT, FRAME_SIZE in Hge. lia.
Qed.

(** A kernel with one page of heap, all of it in use. *)
Lemma demo_freeable : ∃ (k : kernel FrameAllocator) a frame,
  locked (inner k) = false ∧ heap_ok (P := release_profile) demo_vmm a frame (data (inner k)) (global k) [] ∧
  region (next_unmapped (data (inner k))) (allocator (data (inner k)), hardware (global k)) []
    HEAP_REGION_START (block_size demo_layout).
Proof.
  destruct demo_page_mapped as (fr & s' & Hmu).
  destruct demo_heap_ok as [_ _ Hp Hrep].
  destruct (heap_mapped (P := release_profile) demo_vmm demo_fa (without_frames demo) demo_k0 1 (λ _, 0) s' fr
    LinkedListAllocator.new [] Hp Hrep ltac:(lia) ltac:(done) Hmu) as (Hp' & Hrep' & _).
  assert (Hreg : region ((demo_k0 + 1) * PAGE_SIZE) (LinkedListAllocator.new, without_frames s') []
    HEAP_REGION_START (block_size demo_layout)).
  { change (block_size demo_layout) with 64. split; try done.
    - eapply rep_mono, Hrep'. unfold PAGE_SIZE. lia.
    - intros x _ Hc. by apply covers_nil in Hc.
    - intros q Hq Hin. split; [done|]. eexists _, _. split; [|apply Hp'].
      unfold demo_k0, HEAP_REGION_START, PAGE_SIZE in *. dlia. }
  exists (mkKernel (SpinLock.new (mkHeapState LinkedListAllocator.new ((demo_k0 + 1) * PAGE_SIZE)))
    (mkGlobals (SpinLock.new (Some (m_fa s'))) (SpinLock.new (Some demo_vmm)) (without_frames s'))), (m_fa s'). eexists.
  split; [reflexivity|]. split; [|exact Hreg].
  split; [reflexivity|reflexivity|exact Hp'|exact (rg_rep _ _ _ _ _ Hreg)].
Qed.

Lemma kernel_dealloc_correct_witness :
  ∃ k k', locked (inner k) = false ∧
    Heap.dealloc (P := release_profile) (A := FrameAllocator) 1 HEAP_REGION_START demo_layout k = Ret (tt, k').
Proof.
  destruct demo_freeable as (k & a & fr & Hl & Hok & Hreg).
  destruct (kernel_dealloc_correct (P := release_profile) demo_vmm a fr k [] demo_layout
    HEAP_REGION_START 1 Hl Hok demo_heap_layout Hreg ltac:(cbn; lia)) as (k' & l' & Hrun & _).
  exists k, k'. split; [exact Hl|exact Hrun].
Defined.
