(* ===== verification/HeapTermination.v ===== *)
(** The heap's calls terminate.

    The model bounds the walks of the free list and the spinning on the locks
    by fuel.  More fuel never changes a result, so a call that returns with
    some fuel returns the same with any larger amount: it runs to its end. *)
From stdpp Require Import base numbers option gmap list_numbers list.
From S2P Require Import Prelude PhysAddr VirtAddr PageTableEntry Memory FrameAllocator FrameSource Vmm PageWalk VmmSpec VmmTheorems HeapMemory LinkedListAllocator FreeBlocks FreeListSpec FreeListAlloc FreeListTheorems SpinLock Mmu Heap HeapGrowth HeapSpec HeapTheorems.

Lemma lock_mono {T} n m (l : SpinLock T) r : (n ≤ m)%nat → SpinLock.lock n l = Ret r → SpinLock.lock m l = Ret r.
Proof.
  revert m. induction n as [|n IH]; intros [|m] Hle; try done; [lia|]. cbn.
  destruct (compare_exchange l); [done|]. apply IH. lia.
Qed.

(** A sequence of outcomes whose steps keep their results keeps its result. *)
Lemma bind_mono {X Y} (o o' : outcome X) (f f' : X → outcome Y) r :
  (∀ x, o = Ret x → o' = Ret x) → (∀ x, f x = Ret r → f' x = Ret r) →
  (x ← o; f x) = Ret r → (x ← o'; f' x) = Ret r.
Proof. intros Ho Hf (x & Hx & Hr)%bind_Ret. apply bind_Ret. eauto. Qed.

Section fuel.
Context {P : BuildProfile} {A : Type} {FS : FrameSource A}.
Context (n m : nat) (Hle : (n ≤ m)%nat).
Implicit Types (g : globals A) (k : kernel A).

Lemma search_mono state layout g r : search n state layout g = Ret r → search m state layout g = Ret r.
Proof using Hle. unfold search. apply bind_mono; [|done]. intros x. by apply LinkedListAllocator.alloc_mono. Qed.

Lemma grow_mono state layout g r : grow n state layout g = Ret r → grow m state layout g = Ret r.
Proof using Hle.
  unfold grow. apply bind_mono; [done|]. intros [[gb ge]|]; [|done].
  apply bind_mono; [intros x; by apply lock_mono|]. intros [[a|] fl];
    (apply bind_mono; [intros x; by apply lock_mono|]); intros [[vmm|] vl]; try done.
  apply bind_mono; [done|]. intros [[] s]; [|done].
  apply bind_mono; [intros x; by apply add_free_region_mono|done].
Qed.

Lemma heap_alloc_mono layout k r : Heap.alloc n layout k = Ret r → Heap.alloc m layout k = Ret r.
Proof using Hle.
  unfold Heap.alloc. apply bind_mono; [intros x; by apply lock_mono|]. intros [st hl].
  apply bind_mono; [intros x; by apply search_mono|]. intros [[p st1] g1]. destruct (negb _); [done|].
  apply bind_mono; [intros x; by apply grow_mono|]. intros [[b st2] g2]. destruct (negb _); [done|].
  apply bind_mono; [intros x; by apply search_mono|done].
Qed.

Lemma heap_dealloc_mono p layout k r : Heap.dealloc n p layout k = Ret r → Heap.dealloc m p layout k = Ret r.
Proof using Hle.
  unfold Heap.dealloc. apply bind_mono; [intros x; by apply lock_mono|]. intros [st hl].
  apply bind_mono; [|done]. intros x. by apply LinkedListAllocator.dealloc_mono.
Qed.
End fuel.

(** C19: the heap's calls terminate exactly when the heap lock is free.  On a
    heap that satisfies its invariant, with [length l] free blocks, an
    allocation whose lock is free comes to an end after at most
    [length l + 2] steps of any of its walks (the growth may add a block), a
    deallocation after [length l + 1]: with every larger bound the run is the
    same.  A call made while the lock is held, as by the handler of an
    interrupt that came during another call, spins for ever. *)
Theorem heap_calls_terminate {P : BuildProfile} {A : Type} {FS : FrameSource A}
    self a frame (k : kernel A) l layout p :
  heap_ok self a frame (data (inner k)) (global k) l → heap_layout layout →
  region (next_unmapped (data (inner k))) (allocator (data (inner k)), hardware (global k)) l p (block_size layout) →
  (locked (inner k) = false →
     (∃ r, ∀ fuel, (length l + 2 ≤ fuel)%nat → Heap.alloc fuel layout k = Ret r) ∧
     (∃ r, ∀ fuel, (length l + 1 ≤ fuel)%nat → Heap.dealloc fuel p layout k = Ret r)) ∧
  (locked (inner k) = true → ∀ fuel, Heap.alloc fuel layout k = NoFuel ∧ Heap.dealloc fuel p layout k = NoFuel).
Proof.
  intros Hok Hl Hreg. split; intros Hlock; [split|].
  - destruct (kernel_alloc_ok self a frame k l layout (length l + 2) Hlock Hok Hl) as (q & k' & a' & frame' & l' & Hr & _); [lia|].
    exists (q, k'). intros fuel Hf. by apply (heap_alloc_mono (length l + 2)).
  - destruct (kernel_dealloc_ok self a frame k l layout p (length l + 1) Hlock Hok Hl Hreg) as (k' & l' & Hr & _); [lia|].
    exists (tt, k'). intros fuel Hf. by apply (heap_dealloc_mono (length l + 1)).
  - intros fuel. split; [by apply alloc_under_held_lock_spins|]. unfold Heap.dealloc, mbind. by rewrite lock_taken.
Qed.

Lemma heap_calls_terminate_witness :
  ∃ (k : kernel FrameAllocator) r, ∀ fuel, (2 ≤ fuel)%nat →
    Heap.alloc (P := release_profile) fuel demo_layout k = Ret r.
Proof.
  destruct demo_freeable as (k & a & fr & Hl & Hok & Hreg).
  destruct (proj1 (heap_calls_terminate (P := release_profile) demo_vmm a fr k [] demo_layout HEAP_REGION_START
    Hok demo_heap_layout Hreg) Hl) as [[r Hr] _]. exists k, r. exact Hr.
Defined.
