(* ===== verification/Serial.v ===== *)
(** The serial port: [kernel/src/arch/x86_64/serial.rs].

    The port instructions act on a 16550 register file: the byte written to
    the data port goes to the divisor latch while the latch access bit of
    the line control register is set and to the transmitter otherwise.  The
    transmitter takes a time of its own for every byte, counted in reads of
    the line status register; a byte written before it is ready overwrites
    the one it holds.  How long each byte takes and what the other status
    bits say is the environment, the class [Line].  The polling loop has
    fuel; the theorems show that a bound on the transmission times is fuel
    enough. *)
From Stdlib Require Import String Ascii.
From stdpp Require Import base numbers option gmap list_numbers list.
From S2P Require Import Prelude.

Definition COM1 : Z := 0x3F8.
Definition REG_DATA : Z := 0.
Definition REG_INT_ENABLE : Z := 1.
Definition REG_FIFO_CTRL : Z := 2.
Definition REG_LINE_CTRL : Z := 3.
Definition REG_MODEM_CTRL : Z := 4.
Definition REG_LINE_STATUS : Z := 5.
Definition LCR_8N1 : Z := 0x03.
Definition LCR_DLAB : Z := 0x80.
Definition FCR_ENABLE_FIFO : Z := 0x01.
Definition FCR_CLEAR_RX_FIFO : Z := 0x02.
Definition FCR_CLEAR_TX_FIFO : Z := 0x04.
Definition FCR_14BYTE_TRIGGER : Z := 0xC0.
Definition MCR_DTR : Z := 0x01.
Definition MCR_RTS : Z := 0x02.
Definition MCR_OUT2 : Z := 0x08.
Definition LSR_TX_EMPTY : Z := 0x20.
Definition BAUD_DIVISOR_38400 : Z := 3.

(** The bytes of a Rust string literal, and the line end the messages use. *)
Definition text (s : string) : list Z := (λ a, Z.of_N (N_of_ascii a)) <$> list_ascii_of_string s.
Definition CRLF : list Z := [13; 10].

(** ** The device *)
Record uart : Type := mkUart {
  divisor_low : Z;
  divisor_high : Z;
  int_enable : Z;
  fifo_ctrl : Z;
  line_ctrl : Z;
  modem_ctrl : Z;
  busy : nat;        (* status reads until the transmitter is empty *)
  sent : list Z;     (* bytes handed to the transmitter, in order *)
}.

Class Line : Type := {
  delay : nat → nat;   (* how long the n-th byte takes *)
  noise : nat → Z;     (* the other status bits *)
}.

Definition latched (u : uart) : bool := Z.testbit (line_ctrl u) 7.

Section operations.
Context {L : Line}.

Definition outb (port value : Z) : M uart unit := λ u,
  let '(mkUart dl dh ie fc lc mc b out) := u in
  Ret (tt,
    if port =? COM1 + REG_DATA then
      if latched u then mkUart value dh ie fc lc mc b out
      else match b with
           | O => mkUart dl dh ie fc lc mc (delay (length out)) (out ++ [value])
           | S _ => mkUart dl dh ie fc lc mc b (take (length out - 1) out ++ [value])
           end
    else if port =? COM1 + REG_INT_ENABLE then
      if latched u then mkUart dl value ie fc lc mc b out else mkUart dl dh value fc lc mc b out
    else if port =? COM1 + REG_FIFO_CTRL then mkUart dl dh ie value lc mc b out
    else if port =? COM1 + REG_LINE_CTRL then mkUart dl dh ie fc value mc b out
    else if port =? COM1 + REG_MODEM_CTRL then mkUart dl dh ie fc lc value b out
    else u).

Definition inb (port : Z) : M uart Z := λ u,
  let '(mkUart dl dh ie fc lc mc b out) := u in
  if port =? COM1 + REG_LINE_STATUS then
    let other := Z.land (noise (length out + b)) 0xDF in
    match b with
    | O => Ret (Z.lor other LSR_TX_EMPTY, u)
    | S b => Ret (other, mkUart dl dh ie fc lc mc b out)
    end
  else Ret (0, u).

(** ** The driver *)
Definition init : M uart unit :=
  _ ← outb (COM1 + REG_INT_ENABLE) 0x00;
  _ ← outb (COM1 + REG_LINE_CTRL) LCR_DLAB;
  _ ← outb (COM1 + REG_DATA) (Z.land BAUD_DIVISOR_38400 0xFF);
  _ ← outb (COM1 + REG_INT_ENABLE) (Z.land (Z.shiftr BAUD_DIVISOR_38400 8) 0xFF);
  _ ← outb (COM1 + REG_LINE_CTRL) LCR_8N1;
  _ ← outb (COM1 + REG_FIFO_CTRL)
        (Z.lor (Z.lor (Z.lor FCR_ENABLE_FIFO FCR_CLEAR_RX_FIFO) FCR_CLEAR_TX_FIFO) FCR_14BYTE_TRIGGER);
  outb (COM1 + REG_MODEM_CTRL) (Z.lor (Z.lor MCR_DTR MCR_RTS) MCR_OUT2).

(** [while (inb(..) & LSR_TX_EMPTY) == 0 {}] *)
Fixpoint wait_empty (fuel : nat) : M uart unit :=
  match fuel with
  | O => lift NoFuel
  | S fuel =>
    status ← inb (COM1 + REG_LINE_STATUS);
    if Z.land status LSR_TX_EMPTY =? 0 then wait_empty fuel else mret tt
  end.

Fixpoint write_byte (fuel : nat) (byte : Z) : M uart unit :=
  match fuel with
  | O => lift NoFuel
  | S fuel =>
    _ ← (if byte =? 10 then write_byte fuel 13 else mret tt);
    _ ← wait_empty fuel;
    outb (COM1 + REG_DATA) byte
  end.

Fixpoint write_str (fuel : nat) (s : list Z) : M uart unit :=
  match s with
  | [] => mret tt
  | byte :: s => _ ← write_byte fuel byte; write_str fuel s
  end.

Definition HEX_DIGITS : list Z := text "0123456789ABCDEF".

(** [for slot in buf.iter_mut().rev()]: the loop from the last slot back. *)
Definition hex_buffer (value : Z) : outcome (list Z) :=
  r ← for_range 16 0
        (λ i '(buf, v),
           digit ← index HEX_DIGITS (Z.land v 0xF);
           buf ← index_set buf (15 - i) digit;
           Ret ((buf, Z.shiftr v 4), false))
        (replicate 16 0, value);
  Ret (fst r).

Definition write_hex64 (fuel : nat) (value : Z) : M uart unit :=
  buf ← lift (hex_buffer value);
  write_str fuel buf.

End operations.

(** ** Behaviour *)

(** The bytes the driver sends for a string: a carriage return before every
    line feed. *)
Fixpoint expand (s : list Z) : list Z :=
  match s with
  | [] => []
  | b :: s => (if b =? 10 then [13; 10] else [b]) ++ expand s
  end.

Lemma expand_app s t : expand (s ++ t) = expand s ++ expand t.
Proof. induction s as [|b s IH]; cbn; [done|]. by rewrite IH, (assoc_L (++)). Qed.

(** The configuration registers, which sending leaves alone. *)
Definition registers (u : uart) : list Z :=
  [divisor_low u; divisor_high u; int_enable u; fifo_ctrl u; line_ctrl u; modem_ctrl u].

(** Reading a fixed-width hexadecimal number back. *)
Definition hex_value (d : Z) : Z := if d <? 65 then d - 48 else d - 55.
Definition read_hex (ds : list Z) : Z := fold_left (λ acc d, 16 * acc + hex_value d) ds 0.

Section behaviour.
Context {L : Line}.

(** A device that sends: the latch is closed and no byte takes more than
    [bound] status reads. *)
Record sending (bound : nat) (u : uart) : Prop := {
  sn_latch : latched u = false;
  sn_busy : (busy u ≤ bound)%nat;
  sn_delay : ∀ n, (delay n ≤ bound)%nat;
}.

Definition sent_more (u u' : uart) (bs : list Z) : Prop :=
  sent u' = sent u ++ bs ∧ registers u' = registers u.

Lemma sent_more_trans u u1 u2 bs cs :
  sent_more u u1 bs → sent_more u1 u2 cs → sent_more u u2 (bs ++ cs).
Proof. intros [H1 R1] [H2 R2]. split; [by rewrite H2, H1, (assoc_L (++))|congruence]. Qed.

Lemma wait_empty_ready fuel dl dh ie fc lc mc b out :
  (b < fuel)%nat →
  wait_empty fuel (mkUart dl dh ie fc lc mc b out) = Ret (tt, mkUart dl dh ie fc lc mc O out).
Proof.
  revert b. induction fuel as [|fuel IH]; intros b Hb; [lia|]. cbn [wait_empty].
  unfold mbind, M_bind, inb. rewrite Z.eqb_refl. destruct b as [|b].
  - rewrite Z.land_lor_distr_l. change (Z.land LSR_TX_EMPTY LSR_TX_EMPTY) with 32.
    destruct (Z.eqb_spec (Z.lor (Z.land (Z.land (noise (length out + 0)) 223) LSR_TX_EMPTY) 32) 0) as [H0|]; [|done].
    apply Z.lor_eq_0_iff in H0 as [_ ?]. done.
  - rewrite <- Z.land_assoc. change (Z.land 223 LSR_TX_EMPTY) with 0. rewrite Z.land_0_r.
    cbn [Z.eqb]. apply IH. lia.
Qed.

Lemma transmit_sent bound fuel u byte :
  sending bound u → (bound < fuel)%nat →
  ∃ u', (_ ← wait_empty fuel; outb (COM1 + REG_DATA) byte) u = Ret (tt, u') ∧
    sending bound u' ∧ sent_more u u' [byte].
Proof.
  intros [Hl Hb Hd] Hf. destruct u as [dl dh ie fc lc mc b out]. cbn in Hb. eexists.
  unfold mbind, M_bind. rewrite wait_empty_ready by lia. split; [reflexivity|].
  unfold outb. rewrite Z.eqb_refl. unfold latched in *. cbn [line_ctrl] in *. rewrite Hl.
  split; [split; cbn; [done|apply Hd|done]|done].
Qed.

Lemma write_byte_sent bound fuel u byte :
  sending bound u → (bound + 1 < fuel)%nat →
  ∃ u', write_byte (S fuel) byte u = Ret (tt, u') ∧ sending bound u' ∧ sent_more u u' (expand [byte]).
Proof.
  intros Hu Hf. cbn [write_byte expand]. destruct (Z.eqb_spec byte 10) as [->|].
  - destruct fuel as [|fuel]; [lia|]. change (write_byte (S fuel) 13)
      with (_ ← mret tt; _ ← wait_empty fuel; outb (COM1 + REG_DATA) 13).
    destruct (transmit_sent bound fuel u 13 Hu) as (u1 & Hr1 & Hu1 & Hs1); [lia|].
    destruct (transmit_sent bound (S fuel) u1 10 Hu1) as (u2 & Hr2 & Hu2 & Hs2); [lia|].
    exists u2. split; [|split; [done|by apply (sent_more_trans u u1 u2 [13] [10])]].
    apply M_bind_Ret. exists tt, u1. split; [|done]. by apply M_bind_Ret; exists tt, u.
  - destruct (transmit_sent bound fuel u byte Hu) as (u1 & Hr1 & Hu1 & Hs1); [lia|].
    exists u1. split; [|done]. by apply M_bind_Ret; exists tt, u.
Qed.

Lemma write_str_sent bound fuel u s :
  sending bound u → (bound + 2 < fuel)%nat →
  ∃ u', write_str fuel s u = Ret (tt, u') ∧ sending bound u' ∧ sent_more u u' (expand s).
Proof.
  intros Hu Hf. revert u Hu. induction s as [|b s IH]; intros u Hu.
  { exists u. split; [done|]. split; [done|]. split; [by rewrite app_nil_r|done]. }
  destruct fuel as [|fuel]; [lia|].
  destruct (write_byte_sent bound fuel u b Hu) as (u1 & Hr1 & Hu1 & Hs1); [lia|].
  destruct (IH u1 Hu1) as (u2 & Hr2 & Hu2 & Hs2). exists u2.
  split; [by apply M_bind_Ret; exists tt, u1|]. split; [done|].
  change (b :: s) with ([b] ++ s). rewrite expand_app. by eapply sent_more_trans.
Qed.

End behaviour.

(** ** Hexadecimal output *)

Definition hex_char (d : Z) : Z := if d <? 10 then d + 48 else d + 55.

Lemma hex_digit_index d : 0 ≤ d < 16 → index HEX_DIGITS d = Ret (hex_char d).
Proof.
  intros Hd. assert (Hin : d ∈ seqZ 0 16) by (apply elem_of_seqZ; lia).
  assert (Hall : Forall (λ d, index HEX_DIGITS d = Ret (hex_char d)) (seqZ 0 16))
    by (vm_compute; by repeat constructor).
  rewrite Forall_forall in Hall. by apply Hall.
Qed.

Lemma hex_value_char d : 0 ≤ d < 16 → hex_value (hex_char d) = d.
Proof. intros. unfold hex_value, hex_char. repeat case_match; lia. Qed.

(** The [n] low digits of a number, most significant first. *)
Fixpoint hex_digits (n : nat) (v : Z) : list Z :=
  match n with
  | O => []
  | S n => hex_digits n (v / 16) ++ [hex_char (v mod 16)]
  end.

Lemma hex_digits_length n v : length (hex_digits n v) = n.
Proof. revert v. induction n as [|n IH]; intros; cbn; [done|]. rewrite length_app, IH. cbn. lia. Qed.

Lemma hex_digits_in n v : Forall (.∈ HEX_DIGITS) (hex_digits n v).
Proof.
  revert v. induction n as [|n IH]; intros v; cbn; [done|]. apply Forall_app. split; [done|].
  apply Forall_singleton. assert (Hd : index HEX_DIGITS (v mod 16) = Ret (hex_char (v mod 16)))
    by (apply hex_digit_index, Z.mod_pos_bound; lia).
  apply index_Ret in Hd as [_ Hd]. by apply list_elem_of_lookup_2 in Hd.
Qed.

Lemma read_hex_digits n v : 0 ≤ v < 16 ^ Z.of_nat n → read_hex (hex_digits n v) = v.
Proof.
  unfold read_hex. revert v. induction n as [|n IH]; intros v Hv; [cbn in *; lia|].
  rewrite Nat2Z.inj_succ, Z.pow_succ_r in Hv by lia.
  cbn [hex_digits]. rewrite fold_left_app, IH by (split; [apply Z.div_pos|apply Z.div_lt_upper_bound]; lia).
  cbn -[hex_value hex_char]. rewrite hex_value_char by (apply Z.mod_pos_bound; lia). dlia.
Qed.

Lemma hex_digits_plain n v : 0 ≤ v → expand (hex_digits n v) = hex_digits n v.
Proof.
  revert v. induction n as [|n IH]; intros v Hv; [done|]. cbn [hex_digits].
  rewrite expand_app, IH by (apply Z.div_pos; lia). f_equal. cbn.
  pose proof (Z.mod_pos_bound v 16). unfold hex_char.
  destruct (Z.ltb_spec (v mod 16) 10), (Z.eqb_spec (v mod 16 + 48) 10), (Z.eqb_spec (v mod 16 + 55) 10); done || lia.
Qed.

Lemma hex_loop n acc v :
  (n ≤ 16)%nat → 0 ≤ v →
  for_range n (16 - Z.of_nat n)
    (λ i '(buf, v), digit ← index HEX_DIGITS (Z.land v 0xF);
       buf ← index_set buf (15 - i) digit; Ret ((buf, Z.shiftr v 4), false))
    (replicate n 0 ++ acc, v) = Ret (hex_digits n v ++ acc, v / 16 ^ Z.of_nat n).
Proof.
  revert acc v. induction n as [|n IH]; intros acc v Hn Hv.
  { cbn. by rewrite Z.div_1_r. }
  cbn [for_range]. change (Z.land v 0xF) with (Z.land v (Z.ones 4)). rewrite Z.land_ones by lia. change (2 ^ 4) with 16.
  rewrite hex_digit_index by (apply Z.mod_pos_bound; lia). cbn [mbind outcome_bind].
  rewrite index_set_ok by (rewrite length_app, length_replicate; lia). cbn [mbind outcome_bind].
  replace (Z.to_nat (15 - (16 - Z.of_nat (S n)))) with n by lia.
  rewrite replicate_S_end, <- (assoc_L (++)), insert_app_r_alt by (rewrite length_replicate; lia).
  rewrite length_replicate, Nat.sub_diag. cbn [insert list_insert app].
  rewrite Z.shiftr_div_pow2 by lia. change (2 ^ 4) with 16.
  replace (16 - Z.of_nat (S n) + 1) with (16 - Z.of_nat n) by lia.
  rewrite IH by (try apply Z.div_pos; lia). cbn [hex_digits]. f_equal. f_equal; [by rewrite <- (assoc_L (++))|].
  rewrite Zdiv.Zdiv_Zdiv by lia. f_equal. rewrite Nat2Z.inj_succ, Z.pow_succ_r by lia. done.
Qed.

Lemma hex_buffer_digits v : 0 ≤ v → hex_buffer v = Ret (hex_digits 16 v).
Proof.
  intros Hv. unfold hex_buffer. change 0 with (16 - Z.of_nat 16) at 1.
  rewrite <- (app_nil_r (replicate 16 0)), hex_loop by lia. cbn [mbind outcome_bind fst].
  by rewrite app_nil_r.
Qed.

Lemma write_hex64_sent {L : Line} bound fuel u v :
  sending bound u → (bound + 2 < fuel)%nat → 0 ≤ v →
  ∃ u', write_hex64 fuel v u = Ret (tt, u') ∧ sending bound u' ∧ sent_more u u' (hex_digits 16 v).
Proof.
  intros Hu Hf Hv. destruct (write_str_sent bound fuel u (hex_digits 16 v) Hu Hf) as (u' & Hr & Hu' & Hs).
  rewrite hex_digits_plain in Hs by done. exists u'. split; [|done].
  unfold write_hex64, lift. rewrite (hex_buffer_digits v Hv). exact Hr.
Qed.

(** ** Output of larger programs

    [writes bound m a bs]: on a sending device [m] returns [a], and what it
    sends is [bs] with the line feeds expanded. *)
Definition writes {L : Line} {A} (bound : nat) (m : M uart A) (a : A) (bs : list Z) : Prop :=
  ∀ u, sending bound u → ∃ u', m u = Ret (a, u') ∧ sending bound u' ∧ sent_more u u' (expand bs).

Section writes.
Context {L : Line} (bound fuel : nat) (Hfuel : (bound + 2 < fuel)%nat).

Lemma writes_str s : writes bound (write_str fuel s) tt s.
Proof using Hfuel. intros u Hu. by apply write_str_sent. Qed.

Lemma writes_hex v : u64 v → writes bound (write_hex64 fuel v) tt (hex_digits 16 v).
Proof using Hfuel.
  intros [Hv _] u Hu. rewrite hex_digits_plain by done. by apply write_hex64_sent.
Qed.

Lemma writes_ret {A} (a : A) : writes bound (mret a) a [].
Proof.
  intros u Hu. exists u. split; [done|]. split; [done|]. split; [by rewrite app_nil_r|done].
Qed.

Lemma writes_bind {A B} (m : M uart A) a bs (k : A → M uart B) b cs :
  writes bound m a bs → writes bound (k a) b cs → writes bound (x ← m; k x) b (bs ++ cs).
Proof.
  intros Hm Hk u Hu. destruct (Hm u Hu) as (u1 & Hr1 & Hu1 & Hs1). destruct (Hk u1 Hu1) as (u2 & Hr2 & Hu2 & Hs2).
  exists u2. split; [by apply M_bind_Ret; exists a, u1|]. split; [done|].
  rewrite expand_app. by eapply sent_more_trans.
Qed.

Lemma writes_when (c : bool) (m : M uart unit) bs :
  writes bound m tt bs → writes bound (if c then m else mret tt) tt (if c then bs else []).
Proof. intros. destruct c; [done|apply writes_ret]. Qed.

Lemma writes_eq {A} (m : M uart A) a bs cs : writes bound m a bs → bs = cs → writes bound m a cs.
Proof. by intros ? <-. Qed.

End writes.

(** Derive what a program writes from its text, statement by statement. *)
Create HintDb serial.
Ltac written := repeat match goal with
  | |- writes _ (write_str _ _) _ _ => apply writes_str; assumption
  | |- writes _ (write_hex64 _ _) _ _ => apply writes_hex; assumption
  | |- writes _ (mret _) _ _ => apply writes_ret
  | |- writes _ (mbind _ _) _ _ => eapply writes_bind
  | |- writes _ (if _ then _ else mret tt) _ _ => apply writes_when
  | |- writes _ _ _ _ => solve [eauto with serial]
  end.

(** C29: output is lossless and terminates.  On a device whose latch is closed
    and whose transmitter needs at most [bound] status reads per byte, three
    more than that is fuel enough: [write_str] returns, no byte is
    overwritten or reordered, and what goes out is the string with a
    carriage return before every line feed; no register changes.  A message
    that already ends in CR LF therefore goes out with two carriage
    returns. *)
Theorem write_str_transmits {L : Line} bound fuel u s :
  sending bound u → (bound + 2 < fuel)%nat →
  ∃ u', write_str fuel s u = Ret (tt, u') ∧ sending bound u' ∧ registers u' = registers u ∧
    sent u' = sent u ++ expand s ∧ expand CRLF = [13; 13; 10] ∧
    (10 ∉ s → expand s = s).
Proof.
  intros Hu Hf. destruct (write_str_sent bound fuel u s Hu Hf) as (u' & Hr & Hu' & Hs & Hreg).
  exists u'. split_and!; try done. clear. induction s as [|b s IH]; [done|]. intros Hn. cbn.
  rewrite IH by set_solver. destruct (Z.eqb_spec b 10); [set_solver|done].
Qed.

(** [write_hex64] prints 16 hexadecimal digits, most significant first,
    that read back as the very value, for every 64-bit value. *)
Theorem write_hex64_roundtrip {L : Line} bound fuel u v :
  sending bound u → (bound + 2 < fuel)%nat → u64 v →
  ∃ u' ds, write_hex64 fuel v u = Ret (tt, u') ∧ sending bound u' ∧ sent u' = sent u ++ ds ∧
    length ds = 16%nat ∧ Forall (.∈ HEX_DIGITS) ds ∧ read_hex ds = v.
Proof.
  intros Hu Hf Hv. unfold u64 in Hv.
  destruct (write_hex64_sent bound fuel u v Hu Hf) as (u' & Hr & Hu' & Hs & _); [lia|].
  exists u', (hex_digits 16 v). split_and!; try done.
  - apply hex_digits_in.
  - by apply read_hex_digits.
Qed.

(** [init] programs the port and sends nothing.  From any state the
    divisor is 3 (38400 baud), the line is 8N1 with the latch closed, the
    FIFOs are on and cleared with the 14-byte trigger and DTR, RTS and OUT2
    are up.  Interrupts end disabled when the latch was closed at the start;
    an open latch diverts the first write, and then the old interrupt mask
    survives. *)
Lemma serial_init_ok {L : Line} u :
  ∃ u', init u = Ret (tt, u') ∧ divisor_low u' + 256 * divisor_high u' = 3 ∧
    line_ctrl u' = LCR_8N1 ∧ latched u' = false ∧
    fifo_ctrl u' = 0xC7 ∧ modem_ctrl u' = 0x0B ∧ sent u' = sent u ∧ busy u' = busy u ∧
    int_enable u' = (if latched u then int_enable u else 0).
Proof.
  destruct u as [dl dh ie fc lc mc b out].
  set (l := latched (mkUart dl dh ie fc lc mc b out)).
  exists (mkUart 3 0 (if l then ie else 0) 0xC7 3 0x0B b out). split; [|by split_and!].
  unfold init. apply M_bind_Ret.
  exists tt, (if l then mkUart dl 0 ie fc lc mc b out else mkUart dl dh 0 fc lc mc b out).
  split; [by unfold outb; fold l; destruct l|]. destruct l; reflexivity.
Qed.

Lemma init_sending {L : Line} bound u :
  (busy u ≤ bound)%nat → (∀ n, (delay n ≤ bound)%nat) →
  ∃ u', init u = Ret (tt, u') ∧ sending bound u' ∧ sent u' = sent u.
Proof.
  intros Hb Hd. destruct (serial_init_ok u) as (u' & Hr & _ & _ & Hl & _ & _ & Hs & Hbu & _).
  exists u'. split; [done|]. split; [|done]. split; [done|by rewrite Hbu|done].
Qed.


(** ** Witnesses: a line where every byte takes two status reads *)
Definition demo_line : Line := {| delay := λ _, 2%nat; noise := λ n, Z.of_nat n |}.
Definition demo_uart : uart := mkUart 3 0 0 0xC7 3 0x0B 1 [].

Lemma demo_sending : sending (L := demo_line) 2 demo_uart.
Proof. split; [done|cbn; lia|cbn; lia]. Qed.

Lemma write_str_transmits_witness :
  ∃ u', write_str (L := demo_line) 5 (text "Hi" ++ CRLF) demo_uart = Ret (tt, u') ∧
    sent u' = [72; 105; 13; 13; 10].
Proof.
  destruct (write_str_transmits (L := demo_line) 2 5 demo_uart (text "Hi" ++ CRLF) demo_sending)
    as (u' & Hr & _ & _ & Hs & _); [lia|]. by exists u'.
Defined.

Lemma write_hex64_roundtrip_witness :
  ∃ u' ds, write_hex64 (L := demo_line) 5 0xDEADBEEF demo_uart = Ret (tt, u') ∧ sent u' = ds ∧
    read_hex ds = 0xDEADBEEF.
Proof.
  destruct (write_hex64_roundtrip (L := demo_line) 2 5 demo_uart 0xDEADBEEF demo_sending)
    as (u' & ds & Hr & _ & Hs & _ & _ & Hv); [lia|unfold u64; lia|]. by exists u', ds.
Defined.
