(* ===== verification/Gdt.v ===== *)
(** The global descriptor table and the task state segment:
    [kernel/src/arch/x86_64/gdt.rs].

    The statics (table and task state) and the processor's segment state are
    one record.  The instructions [lgdt], the far return, [mov] to a segment
    register and [ltr] act on it as the architecture documents: a selector is
    checked against the table the processor was pointed at, and a selector
    that names no suitable descriptor is a fault, which no handler can take
    this early and which the model calls [Undef].  Where the linker puts the
    statics is the class [Image]. *)
From stdpp Require Import base numbers option gmap list_numbers list.
From S2P Require Import Prelude.

(** Rust's [<<] on [u64]: bits shifted past the top are lost. *)
Definition shl64 (x k : Z) : Z := wrap64 (Z.shiftl x k).

Definition segment_descriptor (access : Z) (long_mode : bool) : Z :=
  let limit_low := 0xFFFF in
  let base := 0 in
  let flags := if long_mode then 0xA else 0xC in
  let limit_high := 0xF in
  Z.lor (Z.lor (Z.lor (Z.lor (Z.lor limit_low
    (shl64 base 16)) (shl64 access 40)) (shl64 limit_high 48)) (shl64 flags 52)) (shl64 base 56).

Definition ACCESS_KERNEL_CODE : Z := 0x9A.
Definition ACCESS_KERNEL_DATA : Z := 0x92.
Definition ACCESS_TSS : Z := 0x89.
Definition KERNEL_CODE_SELECTOR : Z := 0x08.
Definition KERNEL_DATA_SELECTOR : Z := 0x10.
Definition TSS_SELECTOR : Z := 0x18.
Definition DOUBLE_FAULT_IST_INDEX : Z := 1.
Definition DOUBLE_FAULT_STACK_SIZE : Z := 4096 * 4.

Record TaskStateSegment : Type := mkTss {
  reserved_1 : Z;
  privilege_stack_table : list Z;
  reserved_2 : Z;
  interrupt_stack_table : list Z;
  reserved_3 : Z;
  reserved_4 : Z;
  iomap_base : Z;
}.

(** [repr(C, packed)]: the fields one after the other. *)
Definition tss_field_sizes : list Z := [4; 3 * 8; 8; 7 * 8; 8; 2; 2].
Definition size_of_TSS : Z := foldr Z.add 0 tss_field_sizes.
Definition TSS_static : TaskStateSegment :=
  mkTss 0 (replicate 3 0) 0 (replicate 7 0) 0 0 size_of_TSS.
Definition GDT_static : list Z := replicate 5 0.

Record DescriptorTablePointer : Type := mkPointer { limit : Z; base : Z }.

Definition tss_descriptor (tss_addr : Z) : Z * Z :=
  let limit := size_of_TSS - 1 in
  let base_low_24 := Z.land tss_addr 0xFFFFFF in
  let base_mid_8 := Z.land (Z.shiftr tss_addr 24) 0xFF in
  let base_high_32 := Z.shiftr tss_addr 32 in
  let low := Z.lor (Z.lor (Z.lor limit (shl64 base_low_24 16)) (shl64 ACCESS_TSS 40)) (shl64 base_mid_8 56) in
  (low, base_high_32).

(** ** The processor *)

(** The fields of a descriptor as the processor reads them. *)
Definition desc_limit (d : Z) : Z := Z.lor (Z.land d 0xFFFF) (Z.shiftl (Z.land (Z.shiftr d 48) 0xF) 16).
Definition desc_access (d : Z) : Z := Z.land (Z.shiftr d 40) 0xFF.
Definition desc_long (d : Z) : bool := Z.testbit d 53 && negb (Z.testbit d 54).
Definition desc_base (low high : Z) : Z :=
  Z.lor (Z.lor (Z.land (Z.shiftr low 16) 0xFFFFFF) (Z.shiftl (Z.land (Z.shiftr low 56) 0xFF) 24))
    (Z.shiftl (Z.land high 0xFFFFFFFF) 32).

(** Access byte: present, ring 0, and which kind of segment; the accessed
    bit (bit 0) is free. *)
Definition is_code (d : Z) : bool := Z.land (desc_access d) 0xF8 =? 0x98.
Definition is_data (d : Z) : bool := Z.land (desc_access d) 0xFA =? 0x92.
Definition is_available_tss (d : Z) : bool := desc_access d =? 0x89.

Class Image : Type := {
  addr_TSS : Z;
  addr_GDT : Z;
  addr_DOUBLE_FAULT_STACK : Z;
}.

Record seg_state : Type := mkSeg {
  TSS : TaskStateSegment;
  GDT : list Z;
  gdtr : DescriptorTablePointer;
  cs : Z;
  data_segments : list Z;            (* ds, es, ss, fs, gs *)
  tr : Z;
  task : Z * Z;                      (* base and limit cached by [ltr] *)
}.

Section operations.
Context {P : BuildProfile} {I : Image}.

(** The descriptor a selector names: [n] words of the table the processor
    uses, if the table reaches that far. *)
Definition fetch (s : seg_state) (sel n : Z) : outcome (list Z) :=
  if (base (gdtr s) =? addr_GDT) && negb (sel / 8 =? 0) && (sel mod 8 =? 0) && (sel + 8 * n - 1 <=? limit (gdtr s))
  then Ret (take (Z.to_nat n) (drop (Z.to_nat (sel / 8)) (GDT s))) else Undef.

Definition lgdt (p : DescriptorTablePointer) : M seg_state unit := λ '(mkSeg t g _ c d r k),
  Ret (tt, mkSeg t g p c d r k).

Definition far_return (sel : Z) : M seg_state unit := λ s,
  ds ← fetch s sel 1;
  let '(mkSeg t g p _ d r k) := s in
  match ds with
  | [w] => if is_code w && desc_long w then Ret (tt, mkSeg t g p sel d r k) else Undef
  | _ => Undef
  end.

(** [mov] of the same selector to each of the five data segment registers. *)
Definition load_data_segments (sel : Z) : M seg_state unit := λ s,
  ds ← fetch s sel 1;
  let '(mkSeg t g p c _ r k) := s in
  match ds with
  | [w] => if is_data w then Ret (tt, mkSeg t g p c (replicate 5 sel) r k) else Undef
  | _ => Undef
  end.

(** [ltr] caches the segment and marks its descriptor busy in the table. *)
Definition ltr (sel : Z) : M seg_state unit := λ s,
  ds ← fetch s sel 2;
  let '(mkSeg t g p c d _ _) := s in
  match ds with
  | [low; high] =>
    if is_available_tss low
    then Ret (tt, mkSeg t (<[Z.to_nat (sel / 8) := Z.lor low (Z.shiftl 1 41)]> g) p c d sel
                    (desc_base low high, desc_limit low))
    else Undef
  | _ => Undef
  end.

(** ** The code *)
Definition set_gdt (i v : Z) : M seg_state unit := λ '(mkSeg t g p c d r k),
  g ← index_set g i v; Ret (tt, mkSeg t g p c d r k).
Definition set_ist (i v : Z) : M seg_state unit := λ '(mkSeg t g p c d r k),
  ist ← index_set (interrupt_stack_table t) i v;
  Ret (tt, mkSeg (mkTss (reserved_1 t) (privilege_stack_table t) (reserved_2 t) ist
                    (reserved_3 t) (reserved_4 t) (iomap_base t)) g p c d r k).

Definition reload_segments : M seg_state unit :=
  _ ← far_return KERNEL_CODE_SELECTOR;
  load_data_segments KERNEL_DATA_SELECTOR.

Definition init : M seg_state unit :=
  let tss_addr := addr_TSS in
  double_fault_stack_top ← lift (add64 addr_DOUBLE_FAULT_STACK DOUBLE_FAULT_STACK_SIZE);
  _ ← set_ist (DOUBLE_FAULT_IST_INDEX - 1) double_fault_stack_top;
  _ ← set_gdt 0 0;
  _ ← set_gdt 1 (segment_descriptor ACCESS_KERNEL_CODE true);
  _ ← set_gdt 2 (segment_descriptor ACCESS_KERNEL_DATA false);
  let '(tss_low, tss_high) := tss_descriptor tss_addr in
  _ ← set_gdt 3 tss_low;
  _ ← set_gdt 4 tss_high;
  let gdt_ptr := {| limit := 5 * 8 - 1; base := addr_GDT |} in
  _ ← lgdt gdt_ptr;
  _ ← reload_segments;
  ltr TSS_SELECTOR.

End operations.

(** ** Descriptors *)

(** The task descriptor as a sum of its disjoint fields. *)
Lemma tss_descriptor_fields a :
  u64 a →
  tss_descriptor a = (103 + a mod 2 ^ 24 * 2 ^ 16 + 0x89 * 2 ^ 40 + (a / 2 ^ 24) mod 2 ^ 8 * 2 ^ 56, a / 2 ^ 32).
Proof.
  intros Ha. unfold tss_descriptor. change 0xFFFFFF with (Z.ones 24). change 0xFF with (Z.ones 8).
  rewrite !Z.land_ones, !Z.shiftr_div_pow2 by lia. f_equal.
  unfold shl64, wrap64. rewrite !Z.shiftl_mul_pow2 by lia.
  pose proof (Z.mod_pos_bound a (2 ^ 24)). pose proof (Z.mod_pos_bound (a / 2 ^ 24) (2 ^ 8)).
  set (x := a mod 2 ^ 24) in *. set (y := (a / 2 ^ 24) mod 2 ^ 8) in *.
  rewrite (Z.mod_small (x * 2 ^ 16)), (Z.mod_small (y * 2 ^ 56)), (Z.mod_small (ACCESS_TSS * 2 ^ 40)) by (unfold ACCESS_TSS; lia).
  change (size_of_TSS - 1) with 103. change ACCESS_TSS with 0x89.
  rewrite (Z.lor_comm 103), (lor_add (x * 2 ^ 16) 103 16) by (rewrite ?Z.mod_mul; lia).
  rewrite (Z.lor_comm _ (0x89 * 2 ^ 40)), (lor_add (0x89 * 2 ^ 40) _ 40) by (done || lia).
  rewrite (Z.lor_comm _ (y * 2 ^ 56)), (lor_add (y * 2 ^ 56) _ 56) by (rewrite ?Z.mod_mul; lia). lia.
Qed.

Lemma tss_descriptor_decode a :
  u64 a →
  let '(low, high) := tss_descriptor a in
  desc_base low high = a ∧ desc_limit low = size_of_TSS - 1 ∧ is_available_tss low = true.
Proof.
  intros Ha. rewrite tss_descriptor_fields by done. unfold u64 in *.
  pose proof (Z.mod_pos_bound a (2 ^ 24)). pose proof (Z.mod_pos_bound (a / 2 ^ 24) (2 ^ 8)).
  assert (Hhi : 0 ≤ a / 2 ^ 32 < 2 ^ 32) by dlia.
  assert (Hall : a = a mod 2 ^ 24 + (a / 2 ^ 24) mod 2 ^ 8 * 2 ^ 24 + a / 2 ^ 32 * 2 ^ 32) by dlia.
  set (x := a mod 2 ^ 24) in *. set (y := (a / 2 ^ 24) mod 2 ^ 8) in *. set (z := a / 2 ^ 32) in *.
  clearbody x y z. unfold desc_base, desc_limit, is_available_tss, desc_access.
  change 0xFFFFFFFF with (Z.ones 32). change 0xFFFFFF with (Z.ones 24).
  change 0xFFFF with (Z.ones 16). change 0xFF with (Z.ones 8). change 0xF with (Z.ones 4).
  rewrite !Z.land_ones, !Z.shiftr_div_pow2, !Z.shiftl_mul_pow2 by lia.
  set (low := 103 + x * 2 ^ 16 + 137 * 2 ^ 40 + y * 2 ^ 56).
  assert (Hx : (low / 2 ^ 16) mod 2 ^ 24 = x) by (subst low; dlia).
  assert (Hy : (low / 2 ^ 56) mod 2 ^ 8 = y) by (subst low; dlia).
  assert (Hl : low mod 2 ^ 16 = 103) by (subst low; dlia).
  assert (Hg : (low / 2 ^ 48) mod 2 ^ 4 = 0) by (subst low; dlia).
  assert (Ht : (low / 2 ^ 40) mod 2 ^ 8 = 137) by (subst low; dlia).
  rewrite Hx, Hy, Hl, Hg, Ht, (Z.mod_small z) by lia. split_and!; [|done|done].
  rewrite (Z.lor_comm x), (lor_add (y * 2 ^ 24) x 24) by (rewrite ?Z.mod_mul; lia).
  rewrite Z.lor_comm, (lor_add (z * 2 ^ 32) _ 32) by (rewrite ?Z.mod_mul; lia). lia.
Qed.

Lemma fetch_ok {I : Image} s sel n :
  base (gdtr s) = addr_GDT →
  negb (sel / 8 =? 0) && (sel mod 8 =? 0) && (sel + 8 * n - 1 <=? limit (gdtr s)) = true →
  fetch s sel n = Ret (take (Z.to_nat n) (drop (Z.to_nat (sel / 8)) (GDT s))).
Proof.
  intros Hb Hs. unfold fetch. rewrite Hb, Z.eqb_refl. cbn [andb].
  destruct (negb _ && _); [|done]. cbn [andb] in *. by rewrite Hs.
Qed.

(** The state [init] ends in, computed from the state it starts in. *)
Lemma init_run {P : BuildProfile} {I : Image} r1 pst r2 i0 ist r3 r4 io g0 g1 g2 g3 g4 p c d r k low high :
  u64 (addr_DOUBLE_FAULT_STACK + DOUBLE_FAULT_STACK_SIZE) → tss_descriptor addr_TSS = (low, high) →
  is_available_tss low = true →
  init (mkSeg (mkTss r1 pst r2 (i0 :: ist) r3 r4 io) [g0; g1; g2; g3; g4] p c d r k) =
  Ret (tt, mkSeg (mkTss r1 pst r2 ((addr_DOUBLE_FAULT_STACK + DOUBLE_FAULT_STACK_SIZE) :: ist) r3 r4 io)
     [0; segment_descriptor ACCESS_KERNEL_CODE true; segment_descriptor ACCESS_KERNEL_DATA false;
      Z.lor low (Z.shiftl 1 41); high]
     {| limit := 39; base := addr_GDT |} KERNEL_CODE_SELECTOR (replicate 5 KERNEL_DATA_SELECTOR) TSS_SELECTOR
     (desc_base low high, desc_limit low)).
Proof.
  intros Htop Ht Hav. unfold init. rewrite Ht.
  apply M_bind_Ret. eexists _, _. split; [unfold lift; by rewrite add64_ok|].
  apply M_bind_Ret. eexists tt, _. split.
  { unfold set_ist. rewrite index_set_ok by (unfold DOUBLE_FAULT_IST_INDEX; cbn [interrupt_stack_table length]; lia). reflexivity. }
  do 6 (apply M_bind_Ret; eexists tt, _; split; [reflexivity|]).
  apply M_bind_Ret. eexists tt, _. split.
  { apply M_bind_Ret. eexists tt, _. split.
    - unfold far_return. rewrite fetch_ok by reflexivity. reflexivity.
    - unfold load_data_segments. rewrite fetch_ok by reflexivity. reflexivity. }
  unfold ltr. rewrite fetch_ok by reflexivity. cbn -[is_available_tss desc_base desc_limit Z.lor].
  match goal with |- match ?l with _ => _ end = _ => change l with [low; high] end. cbv iota. rewrite Hav. reflexivity.
Qed.

Lemma gdt_init_ok {P : BuildProfile} {I : Image} (s : seg_state) :
  length (GDT s) = 5%nat → length (interrupt_stack_table (TSS s)) = 7%nat →
  u64 addr_TSS → u64 addr_DOUBLE_FAULT_STACK → u64 (addr_DOUBLE_FAULT_STACK + DOUBLE_FAULT_STACK_SIZE) →
  ∃ s' code data, init s = Ret (tt, s') ∧
    gdtr s' = {| limit := 39; base := addr_GDT |} ∧ length (GDT s') = 5%nat ∧ GDT s' !! 0%nat = Some 0 ∧
    cs s' = KERNEL_CODE_SELECTOR ∧ fetch s' (cs s') 1 = Ret [code] ∧
      is_code code = true ∧ desc_long code = true ∧
    data_segments s' = replicate 5 KERNEL_DATA_SELECTOR ∧ fetch s' KERNEL_DATA_SELECTOR 1 = Ret [data] ∧
      is_data data = true ∧
    tr s' = TSS_SELECTOR ∧ task s' = (addr_TSS, size_of_TSS - 1) ∧
    interrupt_stack_table (TSS s') =
      (addr_DOUBLE_FAULT_STACK + DOUBLE_FAULT_STACK_SIZE) :: tail (interrupt_stack_table (TSS s)) ∧
    privilege_stack_table (TSS s') = privilege_stack_table (TSS s) ∧ iomap_base (TSS s') = iomap_base (TSS s).
Proof.
  destruct s as [t g p c d r k]. cbn [GDT TSS]. intros Hg Hi Htss Hst Htop.
  destruct g as [|g0 [|g1 [|g2 [|g3 [|g4 [|]]]]]]; try discriminate Hg.
  destruct t as [r1 pst r2 ist r3 r4 io]. cbn [interrupt_stack_table] in Hi.
  destruct ist as [|i0 ist]; [discriminate Hi|]. cbn in Hi.
  pose proof (tss_descriptor_decode addr_TSS Htss) as Hd. destruct (tss_descriptor addr_TSS) as [low high] eqn:Ht.
  destruct Hd as (Hbase & Hlim & Hav).
  eexists _, (segment_descriptor ACCESS_KERNEL_CODE true), (segment_descriptor ACCESS_KERNEL_DATA false).
  split; [by apply init_run|]. cbn [GDT TSS gdtr cs data_segments tr task]. rewrite Hbase, Hlim.
  rewrite !fetch_ok by reflexivity. by split_and!.
Qed.

(** C30: [init] leaves the processor on a sound descriptor table.  For every
    placement of the statics and whatever segment state the firmware left,
    no load faults; the code selector names a present ring-0 64-bit code
    segment, the data selector a present ring-0 writable data segment in all
    five registers, the null descriptor is zero, and the task register holds
    a task state segment at the address of the static with its exact limit.
    Stack 1 of the interrupt stack table is the end of the double-fault
    stack, the other six stacks and every other field are as before. *)
Theorem init_loads_segments {P : BuildProfile} {I : Image} (s : seg_state) :
  length (GDT s) = 5%nat → length (interrupt_stack_table (TSS s)) = 7%nat →
  u64 addr_TSS → u64 addr_DOUBLE_FAULT_STACK → u64 (addr_DOUBLE_FAULT_STACK + DOUBLE_FAULT_STACK_SIZE) →
  ∃ s' code data, init s = Ret (tt, s') ∧
    gdtr s' = {| limit := 39; base := addr_GDT |} ∧ length (GDT s') = 5%nat ∧ GDT s' !! 0%nat = Some 0 ∧
    cs s' = KERNEL_CODE_SELECTOR ∧ fetch s' (cs s') 1 = Ret [code] ∧
      is_code code = true ∧ desc_long code = true ∧
    data_segments s' = replicate 5 KERNEL_DATA_SELECTOR ∧ fetch s' KERNEL_DATA_SELECTOR 1 = Ret [data] ∧
      is_data data = true ∧
    tr s' = TSS_SELECTOR ∧ task s' = (addr_TSS, size_of_TSS - 1) ∧
    interrupt_stack_table (TSS s') =
      (addr_DOUBLE_FAULT_STACK + DOUBLE_FAULT_STACK_SIZE) :: tail (interrupt_stack_table (TSS s)) ∧
    privilege_stack_table (TSS s') = privilege_stack_table (TSS s) ∧ iomap_base (TSS s') = iomap_base (TSS s).
Proof. apply gdt_init_ok. Qed.

(** ** Witness *)
Definition demo_image : Image :=
  {| addr_TSS := 0xFFFFFFFF80123040; addr_GDT := 0xFFFFFFFF80124000;
     addr_DOUBLE_FAULT_STACK := 0xFFFFFFFF80200000 |}.

Lemma init_loads_segments_witness :
  ∃ s', init (P := release_profile) (I := demo_image)
          (mkSeg TSS_static GDT_static (mkPointer 0 0) 0x38 [] 0 (0, 0)) = Ret (tt, s') ∧
    task s' = (0xFFFFFFFF80123040, 103) ∧ cs s' = 8.
Proof.
  destruct (init_loads_segments (P := release_profile) (I := demo_image)
    (mkSeg TSS_static GDT_static (mkPointer 0 0) 0x38 [] 0 (0, 0)))
    as (s' & code & data & Hr & _ & _ & _ & Hcs & _ & _ & _ & _ & _ & _ & _ & Htask & _);
    [reflexivity|reflexivity|apply u64b_spec; reflexivity ..|].
  by exists s'.
Defined.
