(* ===== verification/Idt.v ===== *)
(** The interrupt descriptor table: [kernel/src/arch/x86_64/idt.rs].

    A gate is the packed 16-byte structure of the source; [gate_bytes] lays
    it out in memory and [read_gate] is the processor's reading of those
    bytes (offset split over three fields, selector, stack index, type). *)
From stdpp Require Import base numbers option gmap list_numbers list.
From S2P Require Import Prelude Memory Gdt.

Definition TYPE_ATTR_INTERRUPT_GATE : Z := 0x8E.

Record IdtEntry : Type := mkIdtEntry {
  offset_low : Z;
  selector : Z;
  ist : Z;
  type_attr : Z;
  offset_mid : Z;
  offset_high : Z;
  reserved : Z;
}.

Definition missing : IdtEntry := mkIdtEntry 0 0 0 0 0 0 0.

(** The [as u16] and [as u32] casts keep the low bits. *)
Definition set_handler (self : IdtEntry) (handler ist : Z) : IdtEntry := {|
  offset_low := handler mod 2 ^ 16;
  offset_mid := Z.shiftr handler 16 mod 2 ^ 16;
  offset_high := Z.shiftr handler 32 mod 2 ^ 32;
  selector := KERNEL_CODE_SELECTOR;
  ist := ist;
  type_attr := TYPE_ATTR_INTERRUPT_GATE;
  reserved := reserved self;
|}.

Definition IDT_static : list IdtEntry := replicate 256 missing.

Definition set_entry (idt : list IdtEntry) (vector handler ist : Z) : outcome (list IdtEntry) :=
  e ← index idt vector;
  index_set idt vector (set_handler e handler ist).

(** ** Layout and the processor's reading *)

Definition gate_bytes (e : IdtEntry) : list Z :=
  le_bytes 2 (offset_low e) ++ le_bytes 2 (selector e) ++ le_bytes 1 (ist e) ++ le_bytes 1 (type_attr e) ++
  le_bytes 2 (offset_mid e) ++ le_bytes 4 (offset_high e) ++ le_bytes 4 (reserved e).
Definition table_bytes (idt : list IdtEntry) : list Z := idt ≫= gate_bytes.
Definition size_of_IDT : Z := Z.of_nat (length (table_bytes IDT_static)).

Record gate : Type := mkGate { gate_offset : Z; gate_selector : Z; gate_stack : Z }.

(** Vector [v] of the table at [p]: a gate, or nothing when the table ends
    before it, it is not a present ring-0 interrupt gate. *)
Definition read_gate (rd : Z → option Z) (p : DescriptorTablePointer) (v : Z) : option gate :=
  let a := base p + 16 * v in
  if limit p <? 16 * v + 15 then None else
  low ← load_le 2 rd a;
  sel ← load_le 2 rd (a + 2);
  stack ← load_le 1 rd (a + 4);
  attr ← load_le 1 rd (a + 5);
  mid ← load_le 2 rd (a + 6);
  high ← load_le 4 rd (a + 8);
  if attr =? 0x8E
  then Some (mkGate (Z.lor (Z.lor low (Z.shiftl mid 16)) (Z.shiftl high 32)) sel (Z.land stack 7))
  else None.

(** Memory that holds the table at address [p]. *)
Definition table_at (p : Z) (idt : list IdtEntry) (a : Z) : option Z :=
  if a <? p then None else table_bytes idt !! Z.to_nat (a - p).

Lemma gate_bytes_length e : length (gate_bytes e) = 16%nat.
Proof. reflexivity. Qed.

Lemma table_lookup idt (v i : nat) :
  (i < 16)%nat → table_bytes idt !! (16 * v + i)%nat = (e ← idt !! v; gate_bytes e !! i).
Proof.
  intros Hi. unfold table_bytes. revert v. induction idt as [|e idt IH]; intros v; [done|].
  cbn [mbind list_bind]. destruct v as [|v].
  - rewrite lookup_app_l by (rewrite gate_bytes_length; lia). by replace (16 * 0 + i)%nat with i by lia.
  - rewrite lookup_app_r by (rewrite gate_bytes_length; lia). rewrite gate_bytes_length.
    replace (16 * S v + i - 16)%nat with (16 * v + i)%nat by lia. apply IH.
Qed.

Lemma table_at_byte p idt (v i : nat) e :
  idt !! v = Some e → (i < 16)%nat → table_at p idt (p + 16 * Z.of_nat v + Z.of_nat i) = gate_bytes e !! i.
Proof.
  intros He Hi. unfold table_at. destruct (Z.ltb_spec (p + 16 * Z.of_nat v + Z.of_nat i) p); [lia|].
  replace (Z.to_nat _) with (16 * v + i)%nat by lia. rewrite table_lookup, He by done. done.
Qed.

(** A little-endian field of a gate, read back. *)
Lemma load_field_at p idt v e n (i : nat) x :
  idt !! v = Some e → (i + n ≤ 16)%nat → (∀ k, (k < n)%nat → gate_bytes e !! (i + k)%nat = le_bytes n x !! k) →
  0 ≤ x < 2 ^ (8 * Z.of_nat n) →
  load_le n (table_at p idt) (p + 16 * Z.of_nat v + Z.of_nat i) = Some x.
Proof.
  intros He. revert i x. induction n as [|n IH]; intros i x Hi Hb Hx; cbn [load_le].
  { cbn in Hx. f_equal. lia. }
  rewrite (table_at_byte p idt v i e He) by lia.
  rewrite <- (Nat.add_0_r i), (Hb O) by lia. cbn [le_bytes lookup list_lookup mbind option_bind].
  replace (8 * Z.of_nat (S n)) with (8 + 8 * Z.of_nat n) in Hx by lia. rewrite Z.pow_add_r in Hx by lia.
  replace (p + 16 * Z.of_nat v + Z.of_nat (i + 0) + 1) with (p + 16 * Z.of_nat v + Z.of_nat (S i)) by lia.
  rewrite (IH (S i) (x / 256)); [cbn; f_equal; dlia|lia| |].
  - intros k Hk. replace (S i + k)%nat with (i + S k)%nat by lia. by rewrite Hb by lia.
  - split; [apply Z.div_pos; lia|apply Z.div_lt_upper_bound; lia].
Qed.

(** The processor reads an installed gate as the handler it was set to. *)
Lemma read_gate_set idt (v : nat) e h i p lim :
  idt !! v = Some (set_handler e h i) → u64 h → 0 ≤ i < 8 → 16 * Z.of_nat v + 15 ≤ lim →
  read_gate (table_at p idt) {| limit := lim; base := p |} (Z.of_nat v) =
    Some {| gate_offset := h; gate_selector := KERNEL_CODE_SELECTOR; gate_stack := i |}.
Proof.
  intros He Hh Hi Hlim. unfold u64 in Hh. unfold read_gate. cbn [base limit].
  destruct (Z.ltb_spec lim (16 * Z.of_nat v + 15)); [lia|].
  set (a := p + 16 * Z.of_nat v).
  assert (Hf : ∀ n (k : nat) x b, b = a + Z.of_nat k → (k + n ≤ 16)%nat →
    (∀ j, (j < n)%nat → gate_bytes (set_handler e h i) !! (k + j)%nat = le_bytes n x !! j) →
    0 ≤ x < 2 ^ (8 * Z.of_nat n) → load_le n (table_at p idt) b = Some x)
    by (intros; subst a b; eapply load_field_at; eauto).
  assert (Hj : ∀ n (Q : nat → Prop), Forall Q (seq 0 n) → ∀ j, (j < n)%nat → Q j)
    by (intros n Q HQ j Hjn; rewrite Forall_forall in HQ; apply HQ, elem_of_seq; lia).
  rewrite (Hf 2%nat 0%nat (h mod 2 ^ 16) a); [|lia|lia|apply Hj; by repeat constructor|apply Z.mod_pos_bound; lia].
  cbn [mbind option_bind].
  rewrite (Hf 2%nat 2%nat KERNEL_CODE_SELECTOR (a + 2)); [|lia|lia|apply Hj; by repeat constructor|done]. cbn [mbind option_bind].
  rewrite (Hf 1%nat 4%nat i (a + 4)); [|lia|lia|apply Hj; by repeat constructor|cbn; lia]. cbn [mbind option_bind].
  rewrite (Hf 1%nat 5%nat TYPE_ATTR_INTERRUPT_GATE (a + 5)); [|lia|lia|apply Hj; by repeat constructor|done]. cbn [mbind option_bind].
  rewrite (Hf 2%nat 6%nat (Z.shiftr h 16 mod 2 ^ 16) (a + 6)); [|lia|lia|apply Hj; by repeat constructor|apply Z.mod_pos_bound; lia].
  cbn [mbind option_bind].
  rewrite (Hf 4%nat 8%nat (Z.shiftr h 32 mod 2 ^ 32) (a + 8)); [|lia|lia|apply Hj; by repeat constructor|apply Z.mod_pos_bound; lia].
  cbn [mbind option_bind]. change (TYPE_ATTR_INTERRUPT_GATE =? 142) with true. cbv iota.
  change 7 with (Z.ones 3). rewrite Z.land_ones, (Z.mod_small i (2 ^ 3)) by lia. do 2 f_equal.
  rewrite !Z.shiftr_div_pow2, !Z.shiftl_mul_pow2 by lia.
  pose proof (Z.mod_pos_bound h (2 ^ 16)). pose proof (Z.mod_pos_bound (h / 2 ^ 16) (2 ^ 16)).
  rewrite (Z.lor_comm (h mod _)), (lor_add _ (h mod 2 ^ 16) 16) by (rewrite ?Z.mod_mul; lia).
  rewrite Z.lor_comm, (lor_add _ _ 32) by (rewrite ?Z.mod_mul; lia). dlia.
Qed.

(** A slot that was never set reads as no gate. *)
Lemma read_gate_missing idt (v : nat) p lim :
  idt !! v = Some missing → read_gate (table_at p idt) {| limit := lim; base := p |} (Z.of_nat v) = None.
Proof.
  intros He. unfold read_gate. cbn [base limit]. destruct (Z.ltb_spec lim (16 * Z.of_nat v + 15)); [done|].
  set (a := p + 16 * Z.of_nat v).
  assert (Hf : ∀ n (k : nat) b, b = a + Z.of_nat k → (k + n ≤ 16)%nat →
    load_le n (table_at p idt) b = Some 0).
  { intros n k b -> Hk. eapply load_field_at; [done|done| |split; [lia|by apply Z.pow_pos_nonneg; lia]].
    intros j Hj. assert (Hz : ∀ m, le_bytes m 0 = replicate m 0) by (induction m as [|m IHm]; [done|];
      cbn [le_bytes replicate]; change (0 / 256) with 0; by rewrite IHm).
    rewrite Hz, lookup_replicate_2 by done. change (gate_bytes missing) with (replicate 16 0).
    by rewrite lookup_replicate_2 by lia. }
  rewrite (Hf 2%nat 0%nat a) by lia. cbn [mbind option_bind].
  rewrite (Hf 2%nat 2%nat (a + 2)) by lia. cbn [mbind option_bind]. rewrite (Hf 1%nat 4%nat (a + 4)) by lia. cbn [mbind option_bind].
  rewrite (Hf 1%nat 5%nat (a + 5)) by lia. cbn [mbind option_bind]. rewrite (Hf 2%nat 6%nat (a + 6)) by lia. cbn [mbind option_bind].
  rewrite (Hf 4%nat 8%nat (a + 8)) by lia. done.
Qed.

Lemma set_entry_ok idt (v : nat) h i e :
  idt !! v = Some e → set_entry idt (Z.of_nat v) h i = Ret (<[v := set_handler e h i]> idt).
Proof.
  intros He. unfold set_entry. rewrite (index_ok idt (Z.of_nat v) e) by (rewrite ?Nat2Z.id; done || lia).
  cbn [mbind outcome_bind]. apply lookup_lt_Some in He.
  rewrite index_set_ok by lia. by rewrite Nat2Z.id.
Qed.
