(* ===== verification/Exceptions.v ===== *)
(** The exception handlers: [kernel/src/arch/x86_64/exceptions.rs], and the
    loading of the table, [idt::init].

    The 32 handlers the macros generate are a list (vector, name, whether an
    error code is popped).  Where the linker puts them is the class
    [HandlerCode].  Delivery of an exception is the processor's: it reads
    the gate from the bytes of the table, picks the stack and enters the
    handler at the gate's offset; entering a handler whose signature does
    not match what was pushed is [Undef].  The endless [hlt] loop of a fatal
    report is the result [Halted]. *)
From Stdlib Require Import String.
From stdpp Require Import base numbers option gmap list_numbers list.
From S2P Require Import Prelude Memory Serial Gdt Idt.

Record InterruptStackFrame : Type := mkFrame {
  frame_rip : Z; frame_cs : Z; frame_rflags : Z; frame_rsp : Z; frame_ss : Z;
}.

Inductive control : Type := Resumed | Halted.

Record handler : Type := mkHandler { h_vector : Z; h_name : string; h_error : bool }.

Class HandlerCode : Type := handler_address : nat → Z.

Section reporting.
Context {L : Line}.

(** Is any bit of [mask] set? *)
Definition has (error_code mask : Z) : bool := negb (Z.land error_code mask =? 0).

Definition report_page_fault_error_code (fuel : nat) (error_code : Z) : M uart unit :=
  _ ← write_str fuel (text "  Cause: ");
  _ ← write_str fuel (if has error_code 1 then text "protection violation (page present)"
                      else text "non-present page");
  _ ← write_str fuel (text ", ");
  _ ← write_str fuel (if has error_code 2 then text "write" else text "read");
  _ ← write_str fuel (text ", ");
  _ ← write_str fuel (if has error_code 4 then text "user-mode" else text "supervisor-mode");
  _ ← (if has error_code 8 then write_str fuel (text ", reserved-bit-set page table entry") else mret tt);
  _ ← (if has error_code 16 then write_str fuel (text ", instruction fetch") else mret tt);
  write_str fuel CRLF.

(** [cr2] is the value [read_cr2] reads. *)
Definition report (fuel : nat) (cr2 vector : Z) (name : string) (error_code : option Z)
    (frame : InterruptStackFrame) : M uart control :=
  _ ← write_str fuel (CRLF ++ text "!!! CPU EXCEPTION !!!" ++ CRLF);
  _ ← write_str fuel (text "Vector: 0x");
  _ ← write_hex64 fuel vector;
  _ ← write_str fuel (text " (");
  _ ← write_str fuel (text name);
  _ ← write_str fuel (text ")" ++ CRLF);
  _ ← match error_code with
      | Some code =>
        _ ← write_str fuel (text "Error code: 0x");
        _ ← write_hex64 fuel code;
        _ ← write_str fuel CRLF;
        if vector =? 14 then report_page_fault_error_code fuel code else mret tt
      | None => mret tt
      end;
  _ ← (if vector =? 14 then
        _ ← write_str fuel (text "CR2 (faulting address): 0x");
        _ ← write_hex64 fuel cr2;
        write_str fuel CRLF
      else mret tt);
  _ ← write_str fuel (text "RIP: 0x");
  _ ← write_hex64 fuel (frame_rip frame);
  _ ← write_str fuel (text "  CS: 0x");
  _ ← write_hex64 fuel (frame_cs frame);
  _ ← write_str fuel (CRLF ++ text "RFLAGS: 0x");
  _ ← write_hex64 fuel (frame_rflags frame);
  _ ← write_str fuel (CRLF ++ text "RSP: 0x");
  _ ← write_hex64 fuel (frame_rsp frame);
  _ ← write_str fuel (text "  SS: 0x");
  _ ← write_hex64 fuel (frame_ss frame);
  _ ← write_str fuel CRLF;
  if vector =? 3 then
    _ ← write_str fuel (text "(Breakpoint — resuming execution.)" ++ CRLF);
    mret Resumed
  else
    _ ← write_str fuel (text "Kernel halted." ++ CRLF);
    mret Halted.

(** What the macros generate: the error code is passed on when the handler
    takes one.  [pushed] is what the processor pushed. *)
Definition run_handler (fuel : nat) (cr2 : Z) (h : handler) (pushed : option Z) (frame : InterruptStackFrame) :
    M uart control :=
  match h_error h, pushed with
  | true, Some code => report fuel cr2 (h_vector h) (h_name h) (Some code) frame
  | false, None => report fuel cr2 (h_vector h) (h_name h) None frame
  | _, _ => lift Undef
  end.

End reporting.

Definition handlers : list handler := [
  mkHandler 0 "Divide Error (#DE)" false;
  mkHandler 1 "Debug (#DB)" false;
  mkHandler 2 "Non-Maskable Interrupt" false;
  mkHandler 3 "Breakpoint (#BP)" false;
  mkHandler 4 "Overflow (#OF)" false;
  mkHandler 5 "Bound Range Exceeded (#BR)" false;
  mkHandler 6 "Invalid Opcode (#UD)" false;
  mkHandler 7 "Device Not Available (#NM)" false;
  mkHandler 8 "Double Fault (#DF)" true;
  mkHandler 9 "Reserved (legacy Coprocessor Segment Overrun)" false;
  mkHandler 10 "Invalid TSS (#TS)" true;
  mkHandler 11 "Segment Not Present (#NP)" true;
  mkHandler 12 "Stack-Segment Fault (#SS)" true;
  mkHandler 13 "General Protection Fault (#GP)" true;
  mkHandler 14 "Page Fault (#PF)" true;
  mkHandler 15 "Reserved" false;
  mkHandler 16 "x87 Floating-Point Exception (#MF)" false;
  mkHandler 17 "Alignment Check (#AC)" true;
  mkHandler 18 "Machine Check (#MC)" false;
  mkHandler 19 "SIMD Floating-Point Exception (#XM)" false;
  mkHandler 20 "Virtualization Exception (#VE)" false;
  mkHandler 21 "Control Protection Exception (#CP)" true;
  mkHandler 22 "Reserved" false;
  mkHandler 23 "Reserved" false;
  mkHandler 24 "Reserved" false;
  mkHandler 25 "Reserved" false;
  mkHandler 26 "Reserved" false;
  mkHandler 27 "Reserved" false;
  mkHandler 28 "Hypervisor Injection Exception (#HV)" false;
  mkHandler 29 "VMM Communication Exception (#VC)" true;
  mkHandler 30 "Security Exception (#SX)" true;
  mkHandler 31 "Reserved" false
].

(** The installations, in order: vector, index of the handler function, and
    the interrupt stack. *)
Definition installs : list (Z * nat * Z) := [
  (0, 0%nat, 0); (1, 1%nat, 0); (2, 2%nat, 0); (3, 3%nat, 0);
  (4, 4%nat, 0); (5, 5%nat, 0); (6, 6%nat, 0); (7, 7%nat, 0);
  (8, 8%nat, DOUBLE_FAULT_IST_INDEX); (9, 9%nat, 0); (10, 10%nat, 0); (11, 11%nat, 0);
  (12, 12%nat, 0); (13, 13%nat, 0); (14, 14%nat, 0); (15, 15%nat, 0);
  (16, 16%nat, 0); (17, 17%nat, 0); (18, 18%nat, 0); (19, 19%nat, 0);
  (20, 20%nat, 0); (21, 21%nat, 0); (22, 22%nat, 0); (23, 23%nat, 0);
  (24, 24%nat, 0); (25, 25%nat, 0); (26, 26%nat, 0); (27, 27%nat, 0);
  (28, 28%nat, 0); (29, 29%nat, 0); (30, 30%nat, 0); (31, 31%nat, 0)
].

Section loading.
Context {H : HandlerCode}.

Fixpoint install_all (todo : list (Z * nat * Z)) (idt : list IdtEntry) : outcome (list IdtEntry) :=
  match todo with
  | [] => Ret idt
  | (vector, f, stack) :: todo => idt ← set_entry idt vector (handler_address f) stack; install_all todo idt
  end.
Definition install_handlers (idt : list IdtEntry) : outcome (list IdtEntry) := install_all installs idt.

(** [idt::init]: fill the static table and point the processor at it. *)
Definition idt_init (addr_IDT : Z) (idt : list IdtEntry) : outcome (list IdtEntry * DescriptorTablePointer) :=
  idt ← install_handlers idt;
  Ret (idt, {| limit := (size_of_IDT - 1) mod 2 ^ 16; base := addr_IDT |}).

(** ** Delivery by the processor *)

(** The vectors for which the architecture pushes an error code. *)
Definition pushes_error_code (v : Z) : bool :=
  existsb (Z.eqb v) [8; 10; 11; 12; 13; 14; 17; 21; 29; 30].

(** Reading the gate, picking the stack, finding the code at the offset. *)
Definition enter (rd : Z → option Z) (idtr : DescriptorTablePointer) (stacks : list Z) (rsp v : Z) :
    option (handler * Z) :=
  g ← read_gate rd idtr v;
  stack ← (if gate_stack g =? 0 then Some rsp else stacks !! Z.to_nat (gate_stack g - 1));
  i ← list_find (λ f, handler_address f = gate_offset g) (seq 0 32);
  h ← handlers !! snd i;
  Some (h, stack).

End loading.

(** ** What a report says *)

Definition cause_line (code : Z) : list Z :=
  text "  Cause: " ++
  (if Z.testbit code 0 then text "protection violation (page present)" else text "non-present page") ++
  text ", " ++ (if Z.testbit code 1 then text "write" else text "read") ++
  text ", " ++ (if Z.testbit code 2 then text "user-mode" else text "supervisor-mode") ++
  (if Z.testbit code 3 then text ", reserved-bit-set page table entry" else []) ++
  (if Z.testbit code 4 then text ", instruction fetch" else []) ++ CRLF.

(** A labelled 64-bit value in hexadecimal. *)
Definition labelled (label : string) (v : Z) : list Z := text label ++ hex_digits 16 v.

Definition transcript (cr2 v : Z) (name : string) (code : option Z) (f : InterruptStackFrame) : list Z :=
  CRLF ++ text "!!! CPU EXCEPTION !!!" ++ CRLF ++
  labelled "Vector: 0x" v ++ text " (" ++ text name ++ text ")" ++ CRLF ++
  match code with
  | Some c => labelled "Error code: 0x" c ++ CRLF ++ (if v =? 14 then cause_line c else [])
  | None => []
  end ++
  (if v =? 14 then labelled "CR2 (faulting address): 0x" cr2 ++ CRLF else []) ++
  labelled "RIP: 0x" (frame_rip f) ++ labelled "  CS: 0x" (frame_cs f) ++ CRLF ++
  labelled "RFLAGS: 0x" (frame_rflags f) ++ CRLF ++
  labelled "RSP: 0x" (frame_rsp f) ++ labelled "  SS: 0x" (frame_ss f) ++ CRLF ++
  (if v =? 3 then text "(Breakpoint — resuming execution.)" else text "Kernel halted.") ++ CRLF.

Definition frame_ok (f : InterruptStackFrame) : Prop :=
  Forall u64 [frame_rip f; frame_cs f; frame_rflags f; frame_rsp f; frame_ss f].

Lemma has_bit code k : 0 ≤ k → has code (Z.shiftl 1 k) = Z.testbit code k.
Proof. intros. unfold has. rewrite land_one_bit by done. apply negb_involutive. Qed.

Section facts.
Context {L : Line} (bound fuel : nat) (Hfuel : (bound + 2 < fuel)%nat).

Lemma cause_written code : writes bound (report_page_fault_error_code fuel code) tt (cause_line code).
Proof.
  unfold report_page_fault_error_code, cause_line.
  change 1 with (Z.shiftl 1 0) at 1. change 2 with (Z.shiftl 1 1). change 4 with (Z.shiftl 1 2).
  change 8 with (Z.shiftl 1 3). change 16 with (Z.shiftl 1 4). rewrite !has_bit by lia.
  written.
Qed.

#[local] Hint Resolve cause_written : serial.

Lemma report_written cr2 v name code f :
  u64 cr2 → u64 v → (∀ c, code = Some c → u64 c) → frame_ok f →
  writes bound (report fuel cr2 v name code f) (if v =? 3 then Resumed else Halted) (transcript cr2 v name code f).
Proof using Hfuel.
  intros Hcr2 Hv Hc Hf. unfold frame_ok in Hf. rewrite !Forall_cons in Hf. destruct Hf as (? & ? & ? & ? & ? & _).
  assert (Hcode : match code with Some c => u64 c | None => True end) by (destruct code; auto). clear Hc.
  unfold report, transcript, labelled.
  destruct code as [c|], (v =? 14), (v =? 3); (eapply writes_eq; [written|]);
    cbn [app]; by rewrite ?app_nil_r, <- ?app_assoc.
Qed.
End facts.

(** ** The table *)

Lemma install_all_spec {H : HandlerCode} todo idt :
  NoDup (snd ∘ fst <$> todo) → Forall (λ '(v, f, _), v = Z.of_nat f ∧ (f < length idt)%nat) todo →
  ∃ idt', install_all todo idt = Ret idt' ∧ length idt' = length idt ∧
    (∀ v f st, (v, f, st) ∈ todo → ∃ e, idt' !! f = Some (set_handler e (handler_address f) st)) ∧
    (∀ w, w ∉ (snd ∘ fst <$> todo) → idt' !! w = idt !! w).
Proof.
  revert idt. induction todo as [|[[v f] st] todo IH]; intros idt Hnd Hall.
  { exists idt. split_and!; [done|done|set_solver|done]. }
  cbn in Hnd. apply NoDup_cons in Hnd as [Hf Hnd]. apply Forall_cons in Hall as [[-> Hlt] Hall].
  destruct (lookup_lt_is_Some_2 idt f Hlt) as [e He].
  destruct (IH (<[f := set_handler e (handler_address f) st]> idt) Hnd) as (idt' & Hr & Hl & Hin & Hout).
  { eapply Forall_impl; [exact Hall|]. intros [[v g] st'] [? ?]. by rewrite length_insert. }
  exists idt'. split_and!.
  - cbn [install_all]. by rewrite (set_entry_ok idt f _ _ e He).
  - by rewrite Hl, length_insert.
  - intros v' f' st' [[= -> -> ->]|Hin']%elem_of_cons; [|by eapply Hin].
    exists e. rewrite Hout by done. by rewrite list_lookup_insert_eq.
  - intros w Hw. cbn in Hw. apply not_elem_of_cons in Hw as [Hne Hw].
    rewrite Hout by done. by rewrite list_lookup_insert_ne.
Qed.

Lemma install_handlers_spec {H : HandlerCode} idt :
  length idt = 256%nat →
  ∃ idt', install_handlers idt = Ret idt' ∧ length idt' = 256%nat ∧
    (∀ v, (v < 32)%nat → ∃ e, idt' !! v = Some (set_handler e (handler_address v) (if (v =? 8)%nat then 1 else 0))) ∧
    (∀ v, (32 ≤ v)%nat → idt' !! v = idt !! v).
Proof.
  intros Hl. destruct (install_all_spec installs idt) as (idt' & Hr & Hl' & Hin & Hout).
  { apply (bool_decide_unpack _). vm_compute. done. }
  { rewrite Hl. repeat (constructor; [split; [done|lia]|]). constructor. }
  exists idt'. split_and!; [done|congruence| |].
  - intros v Hv. apply (Hin (Z.of_nat v)).
    assert (Hall : Forall (λ v, (Z.of_nat v, v, if (v =? 8)%nat then 1 else 0) ∈ installs) (seq 0 32))
      by (apply (bool_decide_unpack _); vm_compute; done).
    rewrite Forall_forall in Hall. apply Hall, elem_of_seq. lia.
  - intros v Hv. apply Hout. intros Hin'.
    assert (Hall : Forall (λ f, f < 32)%nat (snd ∘ fst <$> installs)) by (apply (bool_decide_unpack _); vm_compute; done).
    rewrite Forall_forall in Hall. apply Hall in Hin'. lia.
Qed.

(** Handler code as the linker lays it out: 64-bit addresses, no two
    handlers at the same one. *)
Record code_ok {H : HandlerCode} : Prop := {
  co_range : ∀ f, (f < 32)%nat → u64 (handler_address f);
  co_inj : ∀ f g, (f < 32)%nat → (g < 32)%nat → handler_address f = handler_address g → f = g;
}.
Arguments code_ok : clear implicits.

Lemma idt_init_spec {H : HandlerCode} p idt :
  length idt = 256%nat → ∃ idt', install_handlers idt = Ret idt' ∧
    idt_init p idt = Ret (idt', {| limit := 4095; base := p |}).
Proof.
  intros Hl. destruct (install_handlers_spec idt Hl) as (idt' & Hr & _). exists idt'. split; [done|].
  unfold idt_init. rewrite Hr. cbn [mbind outcome_bind].
  assert (Hs : size_of_IDT = 4096) by (vm_compute; reflexivity). by rewrite Hs.
Qed.

Lemma find_handler {H : HandlerCode} v :
  code_ok H → (v < 32)%nat → list_find (λ f, handler_address f = handler_address v) (seq 0 32) = Some (v, v).
Proof.
  intros Hc Hv. apply list_find_Some. split_and!; [by apply lookup_seq|done|].
  intros j y [-> Hj]%lookup_seq Hlt Heq. apply (co_inj Hc) in Heq; lia.
Qed.

Lemma handler_at v : (v < 32)%nat →
  ∃ h, handlers !! v = Some h ∧ h_vector h = Z.of_nat v ∧ h_error h = pushes_error_code (Z.of_nat v).
Proof.
  intros Hv.
  assert (Hall : Forall (λ v, match handlers !! v with
      | Some h => h_vector h = Z.of_nat v ∧ h_error h = pushes_error_code (Z.of_nat v) | None => False end) (seq 0 32))
    by (vm_compute; by repeat constructor).
  rewrite Forall_forall in Hall. specialize (Hall v). rewrite elem_of_seq in Hall.
  destruct (handlers !! v) as [h|]; [exists h; naive_solver lia|naive_solver lia].
Qed.

(** A handler run with what the processor pushes for its vector. *)
Lemma handler_reports {L : Line} bound fuel u cr2 h v code f :
  (bound + 2 < fuel)%nat → sending bound u → u64 cr2 → u64 v → u64 code → frame_ok f →
  h_vector h = v → h_error h = pushes_error_code v →
  ∃ u', run_handler fuel cr2 h (if pushes_error_code v then Some code else None) f u =
      Ret (if v =? 3 then Resumed else Halted, u') ∧ sending bound u' ∧
    sent u' = sent u ++ expand (transcript cr2 v (h_name h) (if pushes_error_code v then Some code else None) f).
Proof.
  intros Hfuel Hu Hcr2 Hv Hcode Hf Hvec Herr.
  destruct (report_written bound fuel Hfuel cr2 v (h_name h) (if pushes_error_code v then Some code else None) f
    Hcr2 Hv) with (u := u) as (u' & Hrun & Hu' & Hs & _); [|exact Hf|exact Hu|].
  { intros x Hx. destruct (pushes_error_code v); [injection Hx as <-; exact Hcode|discriminate Hx]. }
  exists u'. split; [|split; [exact Hu'|exact Hs]].
  unfold run_handler. rewrite Hvec, Herr. destruct (pushes_error_code v); exact Hrun.
Qed.

(** The loaded table: a gate for each of the first 32 vectors and no other. *)
Lemma gates_installed {H : HandlerCode} p :
  code_ok H → ∃ idt idtr, idt_init p IDT_static = Ret (idt, idtr) ∧
    (∀ v, (v < 32)%nat → read_gate (table_at p idt) idtr (Z.of_nat v) =
       Some (mkGate (handler_address v) KERNEL_CODE_SELECTOR (if (v =? 8)%nat then 1 else 0))) ∧
    (∀ v, (32 ≤ v < 256)%nat → read_gate (table_at p idt) idtr (Z.of_nat v) = None).
Proof.
  intros Hc. assert (Hlen : length IDT_static = 256%nat) by done.
  destruct (install_handlers_spec IDT_static Hlen) as (idt & Hr & _ & Hlow & Hhigh).
  destruct (idt_init_spec p IDT_static Hlen) as (idt1 & Hr1 & Hinit). assert (idt1 = idt) as -> by congruence.
  exists idt, {| limit := 4095; base := p |}. split; [done|]. split.
  - intros v Hv. destruct (Hlow v Hv) as [e He].
    erewrite read_gate_set; [done|exact He|by apply (co_range Hc)|case_match; lia|lia].
  - intros v Hv. apply read_gate_missing. rewrite Hhigh by lia. apply lookup_replicate_2. lia.
Qed.

(** Through a gate of that kind the processor enters the vector's own handler. *)
Lemma enter_gate {H : HandlerCode} rd idtr stacks top rsp (v : nat) :
  code_ok H → (v < 32)%nat → stacks !! 0%nat = Some top →
  read_gate rd idtr (Z.of_nat v) = Some (mkGate (handler_address v) KERNEL_CODE_SELECTOR (if (v =? 8)%nat then 1 else 0)) →
  ∃ h, enter rd idtr stacks rsp (Z.of_nat v) = Some (h, if Z.of_nat v =? 8 then top else rsp) ∧
    handlers !! v = Some h ∧ h_vector h = Z.of_nat v ∧ h_error h = pushes_error_code (Z.of_nat v).
Proof.
  intros Hc Hv Hst Hg. destruct (handler_at v Hv) as (h & Hh & Hvec & Herr). exists h. split; [|done].
  unfold enter. rewrite Hg. cbn [mbind option_bind gate_offset gate_stack]. rewrite (find_handler v Hc Hv).
  destruct (Nat.eqb_spec v 8) as [->|Hne].
  - change (1 =? 0) with false. cbv iota. change (Z.to_nat (1 - 1)) with O. rewrite Hst.
    cbn [mbind option_bind snd]. by rewrite Hh.
  - change (0 =? 0) with true. cbn [mbind option_bind snd]. rewrite Hh. cbn [mbind option_bind].
    by destruct (Z.eqb_spec (Z.of_nat v) 8); [lia|].
Qed.

(** C31: the 32 exceptions reach their handlers.  After [idt::init] on the
    static table the processor finds, for every vector below 32 and just for
    those, the handler generated for that very vector, in the kernel code
    segment; the double fault alone switches to the first interrupt stack.
    Each handler pops an error code exactly when the processor pushed one;
    it reports the vector, the decoded error code, CR2 for a page fault and
    the interrupted registers, and then halts, except for the breakpoint,
    which resumes. *)
Theorem exceptions_delivered {L : Line} {H : HandlerCode} bound fuel u p stacks top rsp cr2 v code f :
  code_ok H → sending bound u → (bound + 2 < fuel)%nat → stacks !! 0%nat = Some top →
  u64 cr2 → u64 code → frame_ok f → 0 ≤ v < 256 →
  ∃ idt idtr, idt_init p IDT_static = Ret (idt, idtr) ∧
    let entered := enter (table_at p idt) idtr stacks rsp v in
    let pushed := if pushes_error_code v then Some code else None in
    (32 ≤ v → entered = None) ∧
    (v < 32 → ∃ h u', entered = Some (h, if v =? 8 then top else rsp) ∧ handlers !! Z.to_nat v = Some h ∧ h_vector h = v ∧
      run_handler fuel cr2 h pushed f u = Ret (if v =? 3 then Resumed else Halted, u') ∧ sending bound u' ∧
      sent u' = sent u ++ expand (transcript cr2 v (h_name h) pushed f)).
Proof.
  intros Hc Hu Hfuel Hst Hcr2 Hcode Hf Hv.
  destruct (gates_installed p Hc) as (idt & idtr & Hinit & Hlow & Hhigh). exists idt, idtr. split; [done|]. cbv zeta.
  rewrite <- (Z2Nat.id v) by lia. set (n := Z.to_nat v) in *. split.
  - intros Hn. unfold enter. by rewrite Hhigh by lia.
  - intros Hn. destruct (enter_gate _ _ stacks top rsp n Hc ltac:(lia) Hst (Hlow n ltac:(lia))) as (h & He & Hh & Hvec & Herr).
    destruct (handler_reports bound fuel u cr2 h (Z.of_nat n) code f Hfuel Hu Hcr2) as (u' & Hrun);
      [unfold u64; lia|exact Hcode|exact Hf|exact Hvec|exact Herr|].
    exists h, u'. split; [exact He|]. split; [by rewrite Nat2Z.id|]. split; [exact Hvec|exact Hrun].
Qed.

(** The five bits a cause line shows. *)
Definition fault_bits (code : Z) : list bool := Z.testbit code <$> [0; 1; 2; 3; 4].

Definition cause_of (bs : list bool) : list Z := cause_line (foldr (λ b acc, Z.b2z b + 2 * acc) 0 bs).

Lemma cause_line_bits code : cause_line code = cause_of (fault_bits code).
Proof.
  unfold cause_of, fault_bits. cbn [fmap list_fmap]. unfold cause_line.
  by destruct (Z.testbit code 0), (Z.testbit code 1), (Z.testbit code 2), (Z.testbit code 3), (Z.testbit code 4).
Qed.

Fixpoint bool_lists (n : nat) : list (list bool) :=
  match n with O => [[]] | S n => (cons true <$> bool_lists n) ++ (cons false <$> bool_lists n) end.

Lemma bool_lists_all (l : list bool) : l ∈ bool_lists (length l).
Proof.
  induction l as [|b l IH]; cbn; [by apply list_elem_of_singleton|].
  apply elem_of_app. destruct b; [left|right]; by apply list_elem_of_fmap_2.
Qed.

(** What tells the 32 lines apart: the first letter of the cause and the
    length. *)
Definition cause_key (line : list Z) : option Z * nat := (line !! 9%nat, length line).

Lemma cause_keys_distinct : NoDup ((λ bs, cause_key (expand (cause_of bs))) <$> bool_lists 5).
Proof. apply (bool_decide_unpack _). vm_compute. done. Qed.

Lemma cause_of_inj bs cs :
  length bs = 5%nat → length cs = 5%nat → expand (cause_of bs) = expand (cause_of cs) → bs = cs.
Proof.
  intros Hb Hc Heq. pose proof (bool_lists_all bs) as Hbin. pose proof (bool_lists_all cs) as Hcin.
  rewrite Hb in Hbin. rewrite Hc in Hcin.
  apply list_elem_of_lookup in Hbin as [i Hi]. apply list_elem_of_lookup in Hcin as [j Hj].
  assert (i = j) as ->; [|congruence].
  eapply NoDup_lookup; [apply cause_keys_distinct| |]; rewrite list_lookup_fmap; [by rewrite Hi|].
  rewrite Hj. cbn [fmap option_fmap option_map]. by rewrite Heq.
Qed.

(** The decoded cause of a page fault is exact.  For every error code the
    report returns, and two codes give the same line if and only if they
    agree on the present, write, user, reserved and fetch bits. *)
Theorem page_fault_cause_exact {L : Line} bound fuel u c1 c2 :
  sending bound u → (bound + 2 < fuel)%nat →
  ∃ u1 u2, report_page_fault_error_code fuel c1 u = Ret (tt, u1) ∧
    report_page_fault_error_code fuel c2 u = Ret (tt, u2) ∧
    (sent u1 = sent u2 ↔ ∀ i, 0 ≤ i < 5 → Z.testbit c1 i = Z.testbit c2 i).
Proof.
  intros Hu Hf. destruct (cause_written bound fuel Hf c1 u Hu) as (u1 & Hr1 & _ & Hs1 & _).
  destruct (cause_written bound fuel Hf c2 u Hu) as (u2 & Hr2 & _ & Hs2 & _).
  exists u1, u2. split; [done|]. split; [done|]. rewrite Hs1, Hs2, !cause_line_bits. split.
  - intros Heq%app_inv_head%cause_of_inj; [|done|done]. unfold fault_bits in Heq. cbn in Heq.
    injection Heq as H0 H1 H2 H3 H4. intros i Hi.
    assert (i = 0 ∨ i = 1 ∨ i = 2 ∨ i = 3 ∨ i = 4) as [->|[->|[->|[->| ->]]]] by lia; done.
  - intros Hbits. do 2 f_equal. unfold cause_of, fault_bits. cbn [fmap list_fmap].
    by rewrite (Hbits 0), (Hbits 1), (Hbits 2), (Hbits 3), (Hbits 4) by lia.
Qed.

(** ** Witnesses *)
Definition demo_code : HandlerCode := λ f, 0xFFFFFFFF80100000 + 64 * Z.of_nat f.
Definition demo_frame : InterruptStackFrame := mkFrame 0xFFFFFFFF80101234 8 0x202 0x7FF0 0x10.

Lemma demo_code_ok : code_ok demo_code.
Proof. split; unfold handler_address, demo_code, u64; intros; lia. Qed.

Lemma exceptions_delivered_witness :
  ∃ idt idtr h, idt_init (H := demo_code) 0x5000 IDT_static = Ret (idt, idtr) ∧
    enter (H := demo_code) (table_at 0x5000 idt) idtr [0x9000] 0x7000 8 = Some (h, 0x9000) ∧ h_vector h = 8.
Proof.
  destruct (exceptions_delivered (L := demo_line) (H := demo_code) 2 5 demo_uart 0x5000 [0x9000] 0x9000 0x7000 0 8 0 demo_frame)
    as (idt & idtr & Hinit & _ & Hlow);
    [apply demo_code_ok|apply demo_sending|lia|done|unfold u64; lia|unfold u64; lia
    |repeat (constructor; [unfold u64; cbn; lia|]); constructor|lia|].
  destruct Hlow as (h & u' & He & _ & Hv & _); [lia|]. exists idt, idtr, h. split; [exact Hinit|]. split; [exact He|exact Hv].
Defined.

Lemma page_fault_cause_exact_witness :
  ∃ u1 u2, report_page_fault_error_code (L := demo_line) 5 3 demo_uart = Ret (tt, u1) ∧
    report_page_fault_error_code (L := demo_line) 5 2 demo_uart = Ret (tt, u2) ∧ sent u1 ≠ sent u2.
Proof.
  destruct (page_fault_cause_exact (L := demo_line) 2 5 demo_uart 3 2 demo_sending)
    as (u1 & u2 & Hr1 & Hr2 & Hiff); [lia|]. exists u1, u2. split; [done|]. split; [done|].
  intros Heq. apply Hiff with (i := 0) in Heq; [discriminate Heq|lia].
Defined.
