(* ===== verification/SelfTest.v ===== *)
(** The boot self-test of the frame allocator:
    [run_frame_allocator_boot_self_test] of [kernel/src/main.rs].

    The test runs on the allocator and the serial port together.  It is
    modelled statement by statement, every failure branch included; the
    theorem says for which allocators it passes. *)
From Stdlib Require Import String.
From stdpp Require Import base numbers option gmap list_numbers list.
From S2P Require Import Prelude PhysAddr FrameAllocator Serial.

(** A component beside the serial port. *)
Definition console {S A} (m : M uart A) : M (S * uart) A := λ '(s, u),
  r ← m u; let '(a, u') := r : A * uart in Ret (a, (s, u')).
Definition within {S A} (f : S → outcome (A * S)) : M (S * uart) A := λ '(s, u),
  r ← f s; let '(a, s') := r : A * S in Ret (a, (s', u)).

Definition line (s : string) : list Z := text s ++ CRLF.

Section speaking.
Context {L : Line} {S : Type}.

Definition say (fuel : nat) (t : list Z) : M (S * uart) unit := console (write_str fuel t).
Definition say_hex (fuel : nat) (v : Z) : M (S * uart) unit := console (write_hex64 fuel v).
(** [serial::write_str(..); return false;] *)
Definition fail_with (fuel : nat) (s : string) : M (S * uart) bool := _ ← say fuel (line s); mret false.
(** A check that reports success and goes on. *)
Definition pass_with (fuel : nat) (s : string) : M (S * uart) bool := _ ← say fuel (line s); mret true.
End speaking.

(** [if !check { return false; }] and on. *)
Definition check {S} (c k : M S bool) : M S bool := ok ← c; if ok : bool then k else mret false.
Notation "c &&! k" := (check c k) (at level 100, k at level 200).

Definition TEST_COUNT : nat := 16.

Section test.
Context {P : BuildProfile} {L : Line} (fuel : nat).

Definition frames_free_now : M (FrameAllocator * uart) Z := within (λ fa, Ret (frames_free fa, fa)).

(** [for slot in allocated.iter_mut()]: [None] when the test returned early. *)
Fixpoint fill (slots : nat) : M (FrameAllocator * uart) (option (list Z)) :=
  match slots with
  | O => mret (Some [])
  | Datatypes.S slots =>
    r ← within allocate;
    match r with
    | Some addr =>
      rest ← fill slots;
      mret (cons (PhysAddr.as_u64 addr) <$> rest)
    | None =>
      _ ← fail_with fuel "  FAIL: allocate() returned None unexpectedly early.";
      mret None
    end
  end.

(** [for i in 0..TEST_COUNT { for j in (i + 1)..TEST_COUNT { .. } }] *)
Fixpoint all_distinct (allocated : list Z) : bool :=
  match allocated with
  | [] => true
  | a :: rest => negb (existsb (Z.eqb a) rest) && all_distinct rest
  end.

(** [for &addr in allocated.iter()]: [false] when the test returned early. *)
Fixpoint give_back (allocated : list Z) : M (FrameAllocator * uart) bool :=
  match allocated with
  | [] => mret true
  | addr :: rest =>
    r ← within (λ fa, deallocate fa (PhysAddr.new addr));
    match r with
    | Ok _ => give_back rest
    | Err _ => fail_with fuel "  FAIL: deallocate() rejected a frame this test just allocated."
    end
  end.

(** The checks on the 16 allocations, and their release. *)
Definition check_allocated (free_before : Z) (allocated : list Z) : M (FrameAllocator * uart) bool :=
  if negb (all_distinct allocated) then
    fail_with fuel "  FAIL: allocate() returned the same frame twice."
  else
  _ ← say fuel (line "  [OK] 16 allocations, all frames distinct.");
  after ← frames_free_now;
  expected ← lift (sub64 free_before (Z.of_nat TEST_COUNT));
  if negb (after =? expected) then
    fail_with fuel "  FAIL: frames_free() bookkeeping incorrect after allocation."
  else
  _ ← say fuel (line "  [OK] frames_free() bookkeeping correct after allocation.");
  freed ← give_back allocated;
  if negb freed then mret false else
  after ← frames_free_now;
  if negb (after =? free_before) then
    fail_with fuel "  FAIL: frames_free() did not return to its pre-test value after freeing everything."
  else
  _ ← say fuel (line "  [OK] All 16 frames freed; frames_free() returned to its original value.");
  _ ← say fuel (line "Frame allocator boot self-test: ALL CHECKS PASSED.");
  mret true.

Definition run_frame_allocator_boot_self_test : M (FrameAllocator * uart) bool :=
  _ ← say fuel (CRLF ++ line "Running frame allocator boot self-test...");
  free_before ← frames_free_now;
  if free_before =? 0 then
    fail_with fuel "  FAIL: zero free frames reported — memory map parsing likely broken."
  else
  _ ← say fuel (text "  [OK] Free frames after init: 0x");
  _ ← say_hex fuel free_before;
  _ ← say fuel CRLF;
  filled ← fill TEST_COUNT;
  match filled with
  | None => mret false
  | Some allocated => check_allocated free_before allocated
  end.

End test.

(** ** Behaviour *)
Lemma within_run {S X} (m : S → outcome (X * S)) s u x s' :
  m s = Ret (x, s') → within m (s, u) = Ret (x, (s', u)).
Proof. unfold within. by intros ->. Qed.

Section speaking_lemmas.
Context {L : Line} {S : Type} (bound fuel : nat) (Hfuel : (bound + 2 < fuel)%nat).
Implicit Types (s : S) (u : uart).

Lemma say_run {B} t (k : M (S * uart) B) s u :
  sending bound u →
  ∃ u', sending bound u' ∧ sent u' = sent u ++ expand t ∧ (_ ← say fuel t; k) (s, u) = k (s, u').
Proof using Hfuel.
  intros Hu. destruct (write_str_sent bound fuel u t Hu Hfuel) as (u' & Hr & Hu' & Hs & _).
  exists u'. split; [done|]. split; [done|]. unfold say, console, mbind, M_bind. by rewrite Hr.
Qed.

Lemma say_hex_run {B} v (k : M (S * uart) B) s u :
  sending bound u → 0 ≤ v →
  ∃ u', sending bound u' ∧ sent u' = sent u ++ hex_digits 16 v ∧ (_ ← say_hex fuel v; k) (s, u) = k (s, u').
Proof using Hfuel.
  intros Hu Hv. destruct (write_hex64_sent bound fuel u v Hu Hfuel Hv) as (u' & Hr & Hu' & Hs & _).
  exists u'. split; [done|]. split; [done|]. unfold say_hex, console, mbind, M_bind. by rewrite Hr.
Qed.

Lemma fail_run t s u :
  sending bound u → ∃ u', sending bound u' ∧ fail_with fuel t (s, u) = Ret (false, (s, u')).
Proof using Hfuel.
  intros Hu. destruct (say_run (line t) (mret false) s u Hu) as (u' & Hu' & _ & Hr). exists u'. by split.
Qed.

Lemma pass_run s u t :
  sending bound u → ∃ u', sending bound u' ∧ sent u' = sent u ++ expand (line t) ∧
    pass_with fuel t (s, u) = Ret (true, (s, u')).
Proof using Hfuel.
  intros Hu. destruct (say_run (line t) (mret true) s u Hu) as (u' & Hu' & Hs & Hr).
  exists u'. by split_and!.
Qed.
End speaking_lemmas.

Lemma check_run {S} (c k : M S bool) st st' : c st = Ret (true, st') → (c &&! k) st = k st'.
Proof. intros Hc. unfold check. by rewrite (M_run _ _ _ _ _ Hc). Qed.

(** The same where a statement or a check may panic. *)
Lemma ends_within {S A B} err (m : S → outcome (A * S)) (k : A → M (S * uart) B) s u Q R :
  ends err (m s) Q → (∀ a s', Q a s' → ends err (k a (s', u)) R) → ends err ((x ← within m; k x) (s, u)) R.
Proof.
  intros Hm Hk. apply (ends_bind err (within m) k (s, u) (λ a st, Q a st.1 ∧ st.2 = u)).
  - unfold within. destruct (m s) as [[a s']| | |]; by try exact Hm.
  - intros a [s' u'] [HQ Heq]. cbn [fst snd] in *. subst u'. by apply Hk.
Qed.
Definition passing {S} (err : panic → Prop) (o : outcome (bool * S)) (Q : S → Prop) : Prop :=
  ends err o (λ ok s, ok = true ∧ Q s).
Lemma passing_ret {S} err (o : outcome (bool * S)) s (Q : S → Prop) : o = Ret (true, s) → Q s → passing err o Q.
Proof. by intros ->. Qed.
Lemma passing_check {S} err (c k : M S bool) st (Q R : S → Prop) :
  passing err (c st) Q → (∀ st', Q st' → passing err (k st') R) → passing err ((c &&! k) st) R.
Proof. intros Hc Hk. eapply ends_bind; [exact Hc|]. cbn. intros ok st' [-> HQ]. by apply Hk. Qed.

Lemma all_distinct_NoDup l : NoDup l → all_distinct l = true.
Proof.
  induction 1 as [|a l Ha _ IH]; cbn; [done|]. rewrite IH, andb_true_r. apply negb_true_iff.
  apply not_true_iff_false. rewrite existsb_exists. intros (b & Hb & ->%Z.eqb_eq).
  by apply Ha, list_elem_of_In.
Qed.

Section loops.
Context {P : BuildProfile} {L : Line} (bound fuel : nat) (Hfuel : (bound + 2 < fuel)%nat).
Implicit Types (fa : FrameAllocator) (u : uart).

Definition addresses (fs : list Z) : list Z := (λ f, f * FRAME_SIZE) <$> fs.

(** Allocating [n] frames in a row. *)
Lemma fill_enough n fa u :
  wf fa → (n ≤ size (free_frames fa))%nat →
  ∃ fs fa', fill fuel n (fa, u) = Ret (Some (addresses fs), (fa', u)) ∧ wf fa' ∧
    total_frames fa' = total_frames fa ∧ length fs = n ∧ NoDup fs ∧ (list_to_set fs : gset Z) ⊆ free_frames fa ∧
    free_frames fa' = free_frames fa ∖ list_to_set fs.
Proof using Type.
  clear Hfuel bound.
  revert fa. induction n as [|n IH]; intros fa Hwf Hn.
  { exists [], fa. split_and!; first [done|constructor|set_solver]. }
  destruct (allocate_ok fa Hwf) as (r & fa1 & Hr & Hwf1 & Ht1 & _ & Hpost).
  destruct r as [a|]; [|destruct Hpost as [_ He]; rewrite He, size_empty in Hn; lia].
  destruct Hpost as (k & _ & -> & Hin & Hff & _). set (f := (next_hint fa + k) mod total_frames fa) in *.
  assert (Hsz : (n ≤ size (free_frames fa1))%nat).
  { rewrite Hff, size_difference, size_singleton by set_solver. lia. }
  destruct (IH fa1 Hwf1 Hsz) as (fs & fa' & Hrun & Hwf' & Ht' & Hlen & Hnd & Hsub & Hfree).
  exists (f :: fs), fa'. split_and!; try done.
  - cbn [fill]. apply M_bind_Ret. exists (Some (PhysAddr.new (f * FRAME_SIZE))), (fa1, u).
    split; [unfold within; by rewrite Hr|]. apply M_bind_Ret. by exists (Some (addresses fs)), (fa', u).
  - congruence.
  - cbn. congruence.
  - constructor; [|done]. intros Hf%(elem_of_list_to_set (C := gset Z)). set_solver.
  - set_solver.
  - rewrite Hfree, Hff. set_solver.
Qed.

Lemma fill_short n fa u :
  wf fa → sending bound u → (size (free_frames fa) < n)%nat →
  ∃ fa' u', fill fuel n (fa, u) = Ret (None, (fa', u')) ∧ wf fa' ∧ sending bound u'.
Proof using Hfuel.
  revert fa u. induction n as [|n IH]; intros fa u Hwf Hu Hn; [lia|]. cbn [fill].
  destruct (allocate_ok fa Hwf) as (r & fa1 & Hr & Hwf1 & _ & _ & Hpost). destruct r as [a|].
  - destruct Hpost as (k & _ & -> & Hin & Hff & _).
    destruct (IH fa1 u Hwf1 Hu) as (fa' & u' & Hrun & Hwf' & Hu').
    { pose proof (size_elem_pos _ _ Hin). rewrite Hff, size_difference, size_singleton by set_solver. lia. }
    exists fa', u'. split; [|done]. apply M_bind_Ret. eexists _, _. split; [unfold within; by rewrite Hr|].
    apply M_bind_Ret. by exists None, (fa', u').
  - destruct (fail_run bound fuel Hfuel "  FAIL: allocate() returned None unexpectedly early." fa1 u Hu)
      as (u' & Hu' & Hf).
    exists fa1, u'. split; [|done]. apply M_bind_Ret. eexists _, _. split; [unfold within; by rewrite Hr|].
    apply M_bind_Ret. by exists false, (fa1, u').
Qed.

(** Giving back frames that are all in use. *)
Lemma give_back_used fs fa u :
  wf fa → NoDup fs → Forall (λ f, 0 ≤ f < total_frames fa ∧ f ∉ free_frames fa) fs →
  ∃ fa', give_back fuel (addresses fs) (fa, u) = Ret (true, (fa', u)) ∧ wf fa' ∧
    total_frames fa' = total_frames fa ∧ free_frames fa' = free_frames fa ∪ list_to_set fs.
Proof using Type.
  clear Hfuel bound.
  revert fa. induction fs as [|f fs IH]; intros fa Hwf Hnd Hall.
  { exists fa. split_and!; try done. set_solver. }
  apply NoDup_cons in Hnd as [Hf Hnd]. apply Forall_cons in Hall as [[Hr Hnf] Hall].
  pose proof (wf_total _ Hwf) as Htot.
  assert (Hfn : frame_number (PhysAddr.new (f * FRAME_SIZE)) = f) by (apply Z.div_mul; done).
  destruct (deallocate_ok fa (PhysAddr.new (f * FRAME_SIZE)) Hwf) as (r & fa1 & Hrun & Hwf1 & Ht1 & _ & _ & Hpost).
  { unfold PhysAddr.valid, PhysAddr.as_u64, PhysAddr.new, FRAME_SIZE, u64. cbn [phys_0]. lia. }
  rewrite Hfn in Hpost. destruct r as [[]|[]]; [|lia|naive_solver]. destruct Hpost as (_ & _ & Hff).
  destruct (IH fa1 Hwf1 Hnd) as (fa' & Hrun' & Hwf' & Ht' & Hff').
  { rewrite Ht1, Hff. rewrite Forall_forall in Hall |- *. intros g Hg. destruct (Hall g Hg). split; [done|]. set_solver. }
  exists fa'. split_and!; [|done|congruence|rewrite Hff', Hff; set_solver].
  cbn [addresses fmap list_fmap give_back]. apply M_bind_Ret. exists (Ok tt), (fa1, u). split; [|done].
  unfold within. by rewrite Hrun.
Qed.

End loops.

Lemma frames_free_run {P : BuildProfile} {B} (k : Z → M (FrameAllocator * uart) B) fa u :
  (x ← frames_free_now; k x) (fa, u) = k (frames_free fa) (fa, u).
Proof. done. Qed.

(** The taken frames, seen from the counters. *)
Lemma taken_counts (fa fa' : FrameAllocator) (fs : list Z) :
  wf fa → wf fa' → NoDup fs → (list_to_set fs : gset Z) ⊆ free_frames fa →
  free_frames fa' = free_frames fa ∖ list_to_set fs →
  frames_free fa' = frames_free fa - Z.of_nat (length fs).
Proof.
  intros Hwf Hwf' Hnd Hsub Hff. rewrite (wf_count _ Hwf'), (wf_count _ Hwf), Hff.
  rewrite size_difference, (size_list_to_set fs) by done.
  apply subseteq_size in Hsub. rewrite size_list_to_set in Hsub by done. lia.
Qed.

(** Run the next message of the program in the goal. *)
Ltac speak Hfuel u' Hu' Hs :=
  match goal with
  | Hu : sending _ ?u |- context [mbind (λ _, ?k) (say _ ?t) (?s, ?u)] =>
    destruct (say_run _ _ Hfuel t k s u Hu) as (u' & Hu' & Hs & ->)
  | Hu : sending _ ?u |- context [mbind (λ _, ?k) (say_hex _ ?v) (?s, ?u)] =>
    destruct (say_hex_run _ _ Hfuel v k s u Hu ltac:(lia)) as (u' & Hu' & Hs & ->)
  end.

(** The second half passes on what a sound allocator handed out. *)
Lemma check_allocated_passes {P : BuildProfile} {L : Line} bound fuel fa fa1 fs u :
  (bound + 2 < fuel)%nat → sending bound u → wf fa → wf fa1 → total_frames fa1 = total_frames fa →
  length fs = TEST_COUNT → NoDup fs → (list_to_set fs : gset Z) ⊆ free_frames fa →
  free_frames fa1 = free_frames fa ∖ list_to_set fs →
  ∃ fa' u' log, check_allocated fuel (frames_free fa) (addresses fs) (fa1, u) = Ret (true, (fa', u')) ∧
    wf fa' ∧ sending bound u' ∧ total_frames fa' = total_frames fa ∧
    free_frames fa' = free_frames fa ∧ frames_free fa' = frames_free fa ∧
    sent u' = log ++ expand (line "Frame allocator boot self-test: ALL CHECKS PASSED.").
Proof.
  intros Hfuel Hu Hwf Hwf1 Ht1 Hlen Hnd Hsub Hff. pose proof (wf_count _ Hwf) as Hc. pose proof (wf_total _ Hwf) as Htot.
  pose proof (taken_counts fa fa1 fs Hwf Hwf1 Hnd Hsub Hff) as Hc1. pose proof (wf_count _ Hwf1). rewrite Hlen in Hc1.
  pose proof (free_frames_size fa Hwf) as Hmax.
  unfold check_allocated. rewrite all_distinct_NoDup; cbn [negb].
  2: { apply NoDup_fmap_2_strong; [|done]. unfold FRAME_SIZE. intros; lia. }
  speak Hfuel u1 Hu1 Hs1. rewrite frames_free_run.
  erewrite lift_run by (apply sub64_ok; unfold u64, TEST_COUNT in *; lia).
  destruct (Z.eqb_spec (frames_free fa1) (frames_free fa - Z.of_nat TEST_COUNT)); [|lia]. cbn [negb].
  speak Hfuel u2 Hu2 Hs2.
  destruct (give_back_used fuel fs fa1 u2 Hwf1 Hnd) as (fa2 & Hback & Hwf2 & Ht2 & Hff2).
  { rewrite Forall_forall. intros f Hf%(elem_of_list_to_set (C := gset Z)). rewrite Ht1, Hff. split; [|set_solver].
    by apply elem_of_free_frames, Hsub. }
  assert (Hfree : free_frames fa2 = free_frames fa) by (rewrite Hff2, Hff, difference_union_L; set_solver).
  assert (Hc2 : frames_free fa2 = frames_free fa) by (by rewrite (wf_count _ Hwf2), Hfree).
  rewrite (M_run _ _ _ _ _ Hback). cbn [negb]. rewrite frames_free_run, Hc2, Z.eqb_refl. cbn [negb].
  speak Hfuel u3 Hu3 Hs3. speak Hfuel u4 Hu4 Hs4. exists fa2, u4, (sent u3). split_and!; try done. congruence.
Qed.

Lemma frame_self_test_ok {P : BuildProfile} {L : Line} bound fuel fa u :
  wf fa → sending bound u → (bound + 2 < fuel)%nat →
  ∃ fa' u', run_frame_allocator_boot_self_test fuel (fa, u) = Ret (16 <=? frames_free fa, (fa', u')) ∧
    wf fa' ∧ sending bound u' ∧
    (16 ≤ frames_free fa → total_frames fa' = total_frames fa ∧ free_frames fa' = free_frames fa ∧ frames_free fa' = frames_free fa ∧
      ∃ log, sent u' = log ++ expand (line "Frame allocator boot self-test: ALL CHECKS PASSED.")).
Proof.
  intros Hwf Hu Hfuel. pose proof (wf_count _ Hwf) as Hcount. pose proof (wf_total _ Hwf) as Htot.
  unfold run_frame_allocator_boot_self_test.
  speak Hfuel u1 Hu1 Hs1.
  rewrite frames_free_run. destruct (Z.eqb_spec (frames_free fa) 0) as [H0|H0].
  { edestruct (fail_run (S := FrameAllocator) bound fuel Hfuel) as (u2 & Hu2 & ->); [exact Hu1|].
    exists fa, u2. destruct (Z.leb_spec 16 (frames_free fa)); [lia|]. split_and!; try done; lia. }
  speak Hfuel u2 Hu2 Hs2.
  speak Hfuel u3 Hu3 Hs3.
  speak Hfuel u4 Hu4 Hs4.
  destruct (Z.leb_spec 16 (frames_free fa)) as [Hmany|Hfew].
  2: { destruct (fill_short bound fuel Hfuel TEST_COUNT fa u4 Hwf Hu4) as (fa' & u' & Hrun & Hwf' & Hu');
         [unfold TEST_COUNT; lia|].
       exists fa', u'. split_and!; [by apply M_bind_Ret; exists None, (fa', u')|done|done|lia]. }
  destruct (fill_enough fuel TEST_COUNT fa u4 Hwf) as (fs & fa1 & Hrun & Hwf1 & Ht1 & Hlen & Hnd & Hsub & Hff);
    [unfold TEST_COUNT; lia|].
  destruct (check_allocated_passes bound fuel fa fa1 fs u4) as (fa' & u' & log & Hr & Hwf' & Hu' & ? & ? & ? & ?); try done.
  exists fa', u'. rewrite (M_run _ _ _ _ _ Hrun). split_and!; try done. intros _. split_and!; try done. by exists log.
Qed.

(** The boot self-test of the frame allocator passes exactly on the
    allocators that have 16 free frames.  It always returns (given a serial
    line that drains); when it passes, the free set and the counter are what
    they were before and the log ends with the success line. *)
Theorem frame_self_test_exact {P : BuildProfile} {L : Line} bound fuel fa u :
  wf fa → sending bound u → (bound + 2 < fuel)%nat →
  ∃ fa' u', run_frame_allocator_boot_self_test fuel (fa, u) = Ret (16 <=? frames_free fa, (fa', u')) ∧
    wf fa' ∧ sending bound u' ∧
    (16 ≤ frames_free fa → total_frames fa' = total_frames fa ∧ free_frames fa' = free_frames fa ∧ frames_free fa' = frames_free fa ∧
      ∃ log, sent u' = log ++ expand (line "Frame allocator boot self-test: ALL CHECKS PASSED.")).
Proof. apply frame_self_test_ok. Qed.

Definition roomy_allocator : FrameAllocator := mkFrameAllocator 0x9000 [0; 0; 0] 24 24 0.
Lemma roomy_allocator_wf : wf roomy_allocator.
Proof. split; [reflexivity|cbn; lia|by repeat constructor|vm_compute; reflexivity|cbn; lia]. Qed.

Lemma frame_self_test_exact_witness :
  ∃ fa' u', run_frame_allocator_boot_self_test (P := release_profile) (L := demo_line) 5 (roomy_allocator, demo_uart) =
    Ret (true, (fa', u')) ∧ frames_free fa' = 24.
Proof.
  destruct (frame_self_test_exact (P := release_profile) (L := demo_line) 2 5 roomy_allocator demo_uart)
    as (fa' & u' & Hr & _ & _ & Hpass); [apply roomy_allocator_wf|apply demo_sending|lia|].
  exists fa', u'. split; [exact Hr|]. apply Hpass. cbn. lia.
Defined.
