(* ===== verification/VmmSelfTest.v ===== *)
(** The boot self-test of the virtual memory manager:
    [run_vmm_boot_self_test] of [kernel/src/main.rs].

    The test runs on the machine (memory, page tables, frame allocator) and
    the serial port.  The address of the test's own code is given by the
    linker and is an argument.  Raw accesses to the test page go through the
    page tables, as in [Mmu].  Every early [return false] is a branch. *)
From Stdlib Require Import String.
From stdpp Require Import base numbers option gmap list_numbers list.
From S2P Require Import Prelude PhysAddr VirtAddr PageTableEntry Memory BootInfo FrameAllocator FrameSource Vmm PageWalk VmmSpec VmmCorrect VmmTheorems HeapMemory Mmu Heap HeapGrowth Serial SelfTest.

Definition TEST_VADDR : Z := 0xFFFF880000000000.
Definition TEST_PATTERN : Z := 0xDEADBEEFCAFEBABE.

Section test.
Context {P : BuildProfile} {A : Type} {FS : FrameSource A} {L : Line}.
Context (fuel : nat) (self : VirtualMemoryManager).
Abbreviation state := (machine A * uart)%type.

Definition translate_now (v : Z) : M state (option PhysAddr) :=
  within (λ s : machine A, r ← translate (m_mem s) self (VirtAddr.new v); Ret (r, s)).
Definition flags_now (v : Z) : M state (option PageFlags) :=
  within (λ s : machine A, r ← flags_at (m_mem s) self (VirtAddr.new v); Ret (r, s)).
Definition deallocate_now (phys : PhysAddr) : M state (result unit DeallocError) :=
  within (λ s : machine A, r ← fs_deallocate (m_fa s) phys;
            let '(x, a) := r : result unit DeallocError * A in Ret (x, set_fa s a)).

(** Check 1: the kernel's own code resolves into the kernel image. *)
Definition check_kernel_code (self_fn_vaddr : Z) (boot_info : BootInfo) : M state bool :=
  r ← translate_now self_fn_vaddr;
  match r with
  | Some phys =>
    in_range ← lift (if kernel_physical_base boot_info <=? PhysAddr.as_u64 phys
                     then e ← add64 (kernel_physical_base boot_info) (kernel_size_bytes boot_info);
                          Ret (PhysAddr.as_u64 phys <? e)
                     else Ret false);
    if negb in_range then
      fail_with fuel "  FAIL: translate() of kernel code address landed outside the kernel's own physical image."
    else pass_with fuel "  [OK] translate() correctly resolves an address inside the bootloader's existing higher-half (2 MiB huge-page) kernel mapping."
  | None =>
    fail_with fuel "  FAIL: translate() could not resolve a kernel code address (huge-page walk broken)."
  end.

(** Check 2, first part: a fresh page at the base of the heap region. *)
Definition map_test_page : M state (option PhysAddr) :=
  o ← within take_frame;
  match o with
  | None =>
    _ ← fail_with fuel "  FAIL: frame allocator exhausted before the VMM self-test could run.";
    mret None
  | Some test_frame =>
    r ← within (Vmm.map self (VirtAddr.new TEST_VADDR) test_frame read_write);
    match r with
    | Err _ =>
      _ ← fail_with fuel "  FAIL: map() of a fresh page in the kernel heap region failed.";
      mret None
    | Ok _ =>
      _ ← pass_with fuel "  [OK] map() succeeded for a fresh page in the (previously unmapped) kernel heap region.";
      mret (Some test_frame)
    end
  end.

(** Check 2, second part: write through the new page and read back. *)
Definition check_readback : M state bool :=
  _ ← within (λ s, s' ← mmu_store s TEST_VADDR TEST_PATTERN; Ret (tt, s'));
  readback ← within (λ s, x ← mmu_load s TEST_VADDR; Ret (x, s));
  if negb (readback =? TEST_PATTERN) then
    fail_with fuel "  FAIL: read-back through the new mapping did not match what was written."
  else pass_with fuel "  [OK] Write-then-read-back through the new mapping round-tripped correctly.".

(** Check 3a: the stored permissions. *)
Definition check_flags : M state bool :=
  r ← flags_now TEST_VADDR;
  match r with
  | Some flags =>
    if writable flags && negb (no_execute flags)
    then pass_with fuel "  [OK] Stored permission flags match exactly what map() was asked for."
    else fail_with fuel "  FAIL: stored permission flags do not match what map() was asked for."
  | None => fail_with fuel "  FAIL: flags_at() found no mapping immediately after a successful map()."
  end.

(** Check 3: the frame. *)
Definition check_translation (test_frame : PhysAddr) : M state bool :=
  r ← translate_now TEST_VADDR;
  if bool_decide (r = Some test_frame)
  then pass_with fuel "  [OK] translate() reports the correct physical frame for the new mapping."
  else fail_with fuel "  FAIL: translate() did not report the frame map() was given.".

(** Check 4: a second map of the same page is refused. *)
Definition check_remap : M state bool :=
  second_frame ← within take_frame;
  rejected ← match second_frame with
             | None => mret true
             | Some sf =>
               r ← within (Vmm.map self (VirtAddr.new TEST_VADDR) sf read_write);
               _ ← deallocate_now sf;
               match r with
               | Ok _ => fail_with fuel "  FAIL: map() allowed mapping an already-mapped address."
               | Err _ => mret true
               end
             end;
  if rejected : bool then pass_with fuel "  [OK] map() correctly rejects an already-mapped address." else mret false.

(** Check 5: unmap returns the frame and the page is gone. *)
Definition check_unmap (test_frame : PhysAddr) : M state bool :=
  r ← within (unmap self (VirtAddr.new TEST_VADDR));
  if negb (match r with Ok phys => bool_decide (phys = test_frame) | Err _ => false end) then
    fail_with fuel "  FAIL: unmap() did not return the originally-mapped frame."
  else
  t ← translate_now TEST_VADDR;
  match t with
  | Some _ => fail_with fuel "  FAIL: translate() still resolves the address after unmap()."
  | None => pass_with fuel "  [OK] unmap() succeeded; translate() now correctly reports no mapping."
  end.

(** Check 6: a second unmap is refused. *)
Definition check_unmap_again : M state bool :=
  r ← within (unmap self (VirtAddr.new TEST_VADDR));
  match r with
  | Ok _ => fail_with fuel "  FAIL: unmap() succeeded on an address that was already unmapped."
  | Err _ => pass_with fuel "  [OK] unmap() correctly rejects an already-unmapped address."
  end.

(** The test frame goes back; closing notes. *)
Definition release_test_frame (test_frame : PhysAddr) : M state bool :=
  r ← deallocate_now test_frame;
  match r with
  | Err _ => fail_with fuel "  FAIL: could not free the test frame back to the allocator after unmap()."
  | Ok _ =>
    _ ← say fuel (line "  NOTE: WRITABLE/NO_EXECUTE flags are set correctly (see mm/page_table_entry.rs");
    _ ← say fuel (line "        unit tests) but hardware ENFORCEMENT of them is not verified here —");
    _ ← say fuel (line "        that requires a page-fault handler, which does not exist yet.");
    pass_with fuel "Virtual memory manager boot self-test: ALL CHECKS PASSED."
  end.

Definition run_vmm_boot_self_test (self_fn_vaddr : Z) (boot_info : BootInfo) : M state bool :=
  _ ← say fuel (CRLF ++ line "Running virtual memory manager boot self-test...");
  check_kernel_code self_fn_vaddr boot_info &&!
  (o ← map_test_page;
   match o with
   | None => mret false
   | Some test_frame =>
     check_readback &&! check_flags &&! check_translation test_frame &&! check_remap &&!
     check_unmap test_frame &&! check_unmap_again &&! release_test_frame test_frame
   end).

End test.

(** ** When the test passes *)
Section passes.
Context {P : BuildProfile} {A : Type} {FS : FrameSource A} {L : Line}.
Context (bound fuel : nat) (Hfuel : (bound + 2 < fuel)%nat) (self : VirtualMemoryManager).
Implicit Types (s : machine A) (u : uart) (f : Z).
Abbreviation test_page := (VirtAddr.new TEST_VADDR).
Abbreviation test_frame f := (PhysAddr.new (f * FRAME_SIZE)).

(** Free frames that can become page tables. *)
Definition low_frames s : gset Z := filter (λ f, f * FRAME_SIZE < IDENTITY_MAP_LIMIT) (fs_free (m_fa s)).

(** What the test needs from the boot state: the manager is the one of the
    active tables, the pool is sound, the heap region is still unmapped at its
    base, and the kernel's code is mapped inside its image. *)
Record ready s (self_fn_vaddr : Z) (boot_info : BootInfo) : Prop := {
  rd_vm : vm_ok self s;
  rd_cr3 : cpu_vmm s = self;
  rd_pool : pool_ok s;
  rd_unmapped : walk_of self (m_mem s) test_page = Unmapped;
  rd_image : u64 (kernel_physical_base boot_info + kernel_size_bytes boot_info);
  rd_code : ∃ pa, resolve (walk_of self (m_mem s) (VirtAddr.new self_fn_vaddr)) (VirtAddr.new self_fn_vaddr) = Some pa ∧
    kernel_physical_base boot_info ≤ PhysAddr.as_u64 pa < kernel_physical_base boot_info + kernel_size_bytes boot_info;
}.

(** During the test: from [s0] one frame [f] was taken for the test page,
    whose walk is [w]; every other page is as it was. *)
Record during s0 s f (w : mapping) : Prop := {
  du_carries : carries self s0 s;
  du_taken : f ∈ fs_free (m_fa s0) ∧ f ∉ fs_free (m_fa s);
  du_foreign : ∀ a, a / FRAME_SIZE = f → foreign self s a;
  du_walk : ∀ v, walk_of self (m_mem s) v =
    if decide (VirtAddr.page v = VirtAddr.page test_page) then w else walk_of self (m_mem s0) v;
  du_size : free_count s0 ≤ free_count s + 4;
}.

(** With four frames left for tables a map of an unmapped page succeeds. *)
Lemma map_enough s v phys fl :
  vm_ok self s → aligned_for_map v phys = true → walk_of self (m_mem s) v = Unmapped →
  (4 ≤ size (low_frames s))%nat →
  ∃ s', Vmm.map self v phys fl s = Ret (Ok tt, s') ∧ free_count s ≤ free_count s' + 3.
Proof using Type.
  clear Hfuel bound fuel.
  intros Hvm Hal Hun Hlow. destruct (map_ok self s v phys fl Hvm) as (r & s' & Hrun & Hpost).
  destruct r as [[]|e].
  - exists s'. split; [done|]. destruct Hpost as (_ & _ & s1 & [_ Hev _] & Hup).
    unfold free_count. rewrite (up_fa _ _ _ _ _ Hup). apply Hev.
  - exfalso. destruct (decide (e = NotPageAligned)) as [->|Hne]; [destruct Hpost; congruence|].
    assert (progress self s v 3 s' ∧ map_error self s v s' e) as [[_ Hev _] Herr]
      by (destruct e; [done|by destruct Hpost as (_ & ? & ?)..]).
    destruct e; cbn [map_error] in Herr; try done; [naive_solver congruence| |naive_solver congruence].
    destruct Herr as [_ Hnone]. pose proof (ev_size _ _ _ _ Hev) as Hsz. pose proof (ev_free _ _ _ _ Hev) as Hsub.
    assert (Hin : low_frames s ⊆ fs_free (m_fa s) ∖ fs_free (m_fa s')).
    { intros g. unfold low_frames. rewrite elem_of_filter, elem_of_difference. intros [Hl Hg].
      split; [done|]. intros Hg'%Hnone. lia. }
    apply subseteq_size in Hin. rewrite size_difference in Hin by done. lia.
Qed.

Lemma low_after_take s s1 f :
  fs_free (m_fa s1) = fs_free (m_fa s) ∖ {[f]} → (size (low_frames s) ≤ S (size (low_frames s1)))%nat.
Proof using Type.
  clear Hfuel bound fuel.
  intros Hff. assert (Hsub : low_frames s ⊆ {[f]} ∪ low_frames s1).
  { unfold low_frames. rewrite Hff. intros g. rewrite elem_of_union, !elem_of_filter, elem_of_difference.
    destruct (decide (g = f)); set_solver. }
  apply subseteq_size in Hsub. pose proof (size_union_alt {[f]} (low_frames s1)) as Hu.
  rewrite size_singleton in Hu.
  assert (size (low_frames s1 ∖ {[f]}) ≤ size (low_frames s1))%nat by (apply subseteq_size; set_solver). lia.
Qed.

Lemma test_page_aligned : is_page_aligned test_page = true.
Proof. done. Qed.

(** The first two statements: the page is mapped, or there were not five
    frames that can become tables. *)
Lemma test_mapped s0 u code bi :
  ready s0 code bi → sending bound u →
  ∃ o s u', map_test_page fuel self (s0, u) = Ret (o, (s, u')) ∧ sending bound u' ∧
    match o with
    | Some fr => ∃ f, fr = test_frame f ∧ during s0 s f (Leaf (new_leaf (test_frame f) read_write))
    | None => (size (low_frames s0) < 5)%nat
    end.
Proof using Hfuel.
  intros Hrd Hu. unfold map_test_page.
  destruct (page_step self s0 test_page (rd_vm _ _ _ Hrd) (rd_pool _ _ _ Hrd) test_page_aligned (rd_unmapped _ _ _ Hrd))
    as [[Htk Hem]|(f & s1 & Htk & Hf & [(s & Hmap & Hca & [_ Hsz] & Hfor & Hw)|(s2 & s3 & Hmap & _ & Hca & Hsz & Hhigh & _)])];
    erewrite M_run by (apply within_run, Htk); cbv beta iota.
  - destruct (fail_run bound fuel Hfuel "  FAIL: frame allocator exhausted before the VMM self-test could run." s0 u Hu) as (u' & Hu' & Hfail). erewrite M_run by exact Hfail.
    exists None, s0, u'. split; [done|]. split; [done|].
    assert (Hnone : low_frames s0 = ∅) by (unfold low_frames; rewrite Hem; set_solver). rewrite Hnone, size_empty. lia.
  - erewrite M_run by (apply within_run, Hmap). cbv beta iota.
    destruct (pass_run bound fuel Hfuel s u "  [OK] map() succeeded for a fresh page in the (previously unmapped) kernel heap region." Hu)
      as (u' & Hu' & _ & Hpass). erewrite M_run by exact Hpass.
    exists (Some (test_frame f)), s, u'. split; [done|]. split; [done|]. exists f. split; [done|]. split; [done| |done|done|done].
    split; [done|]. intros Hin. destruct (Hfor (f * FRAME_SIZE)) as [Hn _]; [by apply Z.div_mul|].
    rewrite Z.div_mul in Hn by done. done.
  - erewrite M_run by (apply within_run, Hmap). cbv beta iota.
    destruct (fail_run bound fuel Hfuel "  FAIL: map() of a fresh page in the kernel heap region failed." s2 u Hu) as (u' & Hu' & Hfail). erewrite M_run by exact Hfail.
    exists None, s2, u'. split; [done|]. split; [done|].
    assert (Hin : low_frames s0 ⊆ {[f]} ∪ fs_free (m_fa s0) ∖ fs_free (m_fa s3)).
    { intros g. unfold low_frames. rewrite elem_of_filter, elem_of_union, elem_of_difference, elem_of_singleton. intros [Hl Hg].
      destruct (decide (g = f)); [by left|right]. split; [done|]. intros Hg'. specialize (Hhigh g Hg' ltac:(done)). lia. }
    apply subseteq_size in Hin. rewrite size_union_alt, size_singleton in Hin.
    pose proof (subseteq_size ((fs_free (m_fa s0) ∖ fs_free (m_fa s3)) ∖ {[f]}) (fs_free (m_fa s0) ∖ fs_free (m_fa s3)) ltac:(set_solver)) as Hle.
    rewrite (size_difference (fs_free (m_fa s0))) in Hle by apply Hca. unfold free_count in Hsz. lia.
Qed.

Lemma during_frame s0 s f w code bi : ready s0 code bi → during s0 s f w → 0 < f < 2 ^ 40 ∧ mapped (m_mem s0) (f * FRAME_SIZE) FRAME_SIZE.
Proof.
  intros Hrd Hdu. destruct (du_taken _ _ _ _ Hdu) as [Hf _].
  destruct (fs_free_range _ _ (vm_fa _ _ (rd_vm _ _ _ Hrd)) Hf) as [Hr _].
  pose proof (vm_zero _ _ (rd_vm _ _ _ Hrd)). destruct (rd_pool _ _ _ Hrd) as [Hm Ht].
  split; [|by apply Hm]. assert (f ≠ 0) by (intros ->; done). lia.
Qed.

Lemma during_cr3 s0 s f w code bi : ready s0 code bi → during s0 s f w → cpu_vmm s = self.
Proof.
  intros Hrd Hdu. rewrite <- (rd_cr3 _ _ _ Hrd). unfold cpu_vmm.
  destruct (ca_cpu _ _ _ (du_carries _ _ _ _ Hdu)) as [_ ->]. done.
Qed.

(** The mapped test page is ordinary heap memory. *)
Lemma during_backed s0 s f code bi :
  ready s0 code bi → during s0 s f (Leaf (new_leaf (test_frame f) read_write)) →
  backed s (HEAP_REGION_START + PAGE_SIZE) (λ _, f).
Proof.
  intros Hrd Hdu. pose proof (during_cr3 _ _ _ _ _ _ Hrd Hdu) as Hcr.
  destruct (during_frame _ _ _ _ _ _ Hrd Hdu) as [Hr Hm].
  assert (Hk : ∀ k, HEAP_REGION_START ≤ k * PAGE_SIZE < HEAP_REGION_START + PAGE_SIZE → k * PAGE_SIZE = TEST_VADDR)
    by (unfold HEAP_REGION_START, PAGE_SIZE, TEST_VADDR; intros; lia).
  split.
  - unfold HEAP_REGION_START, HEAP_REGION_END, PAGE_SIZE. lia.
  - done.
  - rewrite Hcr. eapply tables_ok_mono, (vm_tables _ _ (ca_vm _ _ _ (du_carries _ _ _ _ Hdu))). set_solver.
  - intros k Hkk%Hk. split; [|done| |].
    + unfold cpu_walk. rewrite Hkk, Hcr, (du_walk _ _ _ _ Hdu). by rewrite decide_True.
    + eapply mapped_dom; [apply (du_carries _ _ _ _ Hdu)|done].
    + rewrite Hcr. intros p t Hp Ht Heq. destruct (du_foreign _ _ _ _ Hdu (f * FRAME_SIZE)) as [_ Hn]; [by apply Z.div_mul|].
      apply (Hn p t Hp Ht). rewrite Heq. by apply Z.div_mul.
  - intros j k Hj%Hk Hk'%Hk _. unfold PAGE_SIZE in *. lia.
Qed.

(** A store to the test page touches only the test frame. *)
Lemma test_store s0 s f code bi x :
  ready s0 code bi → during s0 s f (Leaf (new_leaf (test_frame f) read_write)) → u64 x →
  ∃ s', mmu_store s TEST_VADDR x = Ret s' ∧ mmu_load s' TEST_VADDR = Ret x ∧
    during s0 s' f (Leaf (new_leaf (test_frame f) read_write)).
Proof.
  intros Hrd Hdu Hx. pose proof (during_backed _ _ _ _ _ Hrd Hdu) as Hb. pose proof (during_cr3 _ _ _ _ _ _ Hrd Hdu) as Hcr.
  assert (Hp : HEAP_REGION_START ≤ TEST_VADDR < HEAP_REGION_START + PAGE_SIZE)
    by (unfold HEAP_REGION_START, PAGE_SIZE, TEST_VADDR; lia).
  assert (Hok : mmu_ok s TEST_VADDR) by (split; [done|by exists (HEAP_REGION_START + PAGE_SIZE), (λ _, f)]).
  destruct (mmu_store_ok s TEST_VADDR x Hok Hx) as (m' & Hst & Hw & _ & Hfr & _). exists (set_mem s m').
  assert (Hby : ∀ a, a / FRAME_SIZE ≠ f → m' !! a = m_mem s !! a).
  { destruct (backed_access _ _ _ _ Hb Hp) as [Hwk Hph]. destruct (backed_word_ok _ _ _ _ Hb Hp eq_refl) as (Hv & Hpa & Hm).
    destruct (write_volatile_ok _ _ x Hpa Hm Hx) as (m'' & Hwr & _ & Hother & _).
    unfold mmu_store in Hst. rewrite Hv, Hwk, Hph in Hst. cbn [page_writable andb] in Hst.
    rewrite new_leaf_writable in Hst. cbn [read_write writable defined mbind outcome_bind] in Hst. rewrite Hwr in Hst.
    cbn [outcome_bind] in Hst. injection Hst as Hst. subst m''. intros a Ha. apply Hother. intros Hin. apply Ha.
    revert Hin. unfold FRAME_SIZE, PAGE_SIZE. change (TEST_VADDR mod 4096) with 0. intros. dlia. }
  pose proof (mf_walk _ _ Hfr) as Hwalk. rewrite Hcr in Hwalk. cbn [set_mem m_mem] in Hwalk.
  pose proof (mf_table _ _ Hfr) as Htab. rewrite Hcr in Htab. cbn [set_mem m_mem] in Htab.
  assert (Hfg : ∀ a, foreign self s a → foreign self (set_mem s m') a).
  { intros a [H1 H2]. split; [done|]. intros p t Hpp. cbn [set_mem m_mem]. rewrite Htab by done. by apply H2. }
  split; [done|]. split; [rewrite mmu_load_ok, Hw; [done|]; split; [done|]; exists (HEAP_REGION_START + PAGE_SIZE), (λ _, f); split; [done|by apply Hfr]|].
  destruct Hdu as [[V C T D F G B] Htk Hfo Hwk Hsz]. split; try done.
  - split; try done; cbn [set_mem m_mem m_fa m_cr3 m_efer].
    + destruct V as [V1 V2 V3 V4]. split; cbn [set_mem m_mem m_fa]; [done| |done|].
      * rewrite <- Hcr. apply (mf_tables _ _ Hfr). by rewrite Hcr.
      * intros g Hg Hl. eapply mapped_dom; [apply Hfr|by apply V4].
    + intros a. rewrite <- D. apply Hfr.
    + intros a Ha. by apply Hfg, G.
    + intros a Ha. rewrite Hby; [by apply B|]. intros Heq. destruct Ha as [Ha _]. rewrite Heq in Ha. by destruct Htk.
  - intros a Ha. by apply Hfg, Hfo.
  - intros v. cbn [set_mem m_mem]. by rewrite Hwalk.
Qed.

(** A check passes and leaves the test in the state [w]. *)
Definition passes s0 f (w w' : mapping) (c : M (machine A * uart) bool) : Prop :=
  ∀ s u, during s0 s f w → sending bound u →
    ∃ s' u', c (s, u) = Ret (true, (s', u')) ∧ during s0 s' f w' ∧ sending bound u'.

Lemma passes_with s0 s f w t u :
  during s0 s f w → sending bound u →
  ∃ s' u', pass_with fuel t (s, u) = Ret (true, (s', u')) ∧ during s0 s' f w ∧ sending bound u'.
Proof using Hfuel. intros Hdu Hu. destruct (pass_run bound fuel Hfuel s u t Hu) as (u' & Hu' & _ & Hr). by exists s, u'. Qed.

Context (s0 : machine A) (code : Z) (bi : BootInfo) (Hrd : ready s0 code bi) (f : Z).
Abbreviation mapped_leaf := (Leaf (new_leaf (test_frame f) read_write)).

Lemma during_vm s w : during s0 s f w → vm_ok self s.
Proof. intros Hdu. apply Hdu. Qed.

Lemma during_here s w : during s0 s f w → walk_of self (m_mem s) test_page = w.
Proof. intros Hdu. rewrite (du_walk _ _ _ _ Hdu). by rewrite decide_True. Qed.

Lemma test_frame_addr : 0 < f < 2 ^ 40 → addr (new_leaf (test_frame f) read_write) = test_frame f.
Proof.
  intros Hf. apply new_leaf_addr; [apply is_frame_aligned_spec; by apply Z.mod_mul|]. unfold FRAME_SIZE. cbn. lia.
Qed.

Lemma readback_passes : passes s0 f mapped_leaf mapped_leaf (check_readback fuel).
Proof using Hfuel Hrd.
  intros s u Hdu Hu. destruct (test_store s0 s f code bi TEST_PATTERN Hrd Hdu) as (s' & Hst & Hld & Hdu'); [done|].
  unfold check_readback. erewrite M_run by (apply within_run; by rewrite Hst).
  erewrite M_run by (apply within_run; by rewrite Hld). rewrite Z.eqb_refl. by apply passes_with.
Qed.

Lemma flags_pass : passes s0 f mapped_leaf mapped_leaf (check_flags fuel self).
Proof using Hfuel.
  intros s u Hdu Hu. unfold check_flags, flags_now.
  erewrite M_run by (apply within_run; by rewrite (flags_at_walk self s test_page (during_vm _ _ Hdu))).
  rewrite (during_here _ _ Hdu). cbn [leaf_flags writable no_execute]. rewrite new_leaf_writable, new_leaf_no_execute.
  by apply passes_with.
Qed.

Lemma translate_here s u w :
  during s0 s f w → translate_now self TEST_VADDR (s, u) = Ret (resolve w test_page, (s, u)).
Proof.
  intros Hdu. apply within_run. rewrite (translate_walk self s test_page (during_vm _ _ Hdu)).
  by rewrite (during_here _ _ Hdu).
Qed.

Lemma translation_passes : passes s0 f mapped_leaf mapped_leaf (check_translation fuel self (test_frame f)).
Proof using Hfuel Hrd.
  intros s u Hdu Hu. destruct (during_frame _ _ _ _ _ _ Hrd Hdu) as [Hf _].
  unfold check_translation. rewrite (M_run _ _ _ _ _ (translate_here s u _ Hdu)). cbn [resolve].
  rewrite (test_frame_addr Hf). change (page_offset test_page) with 0. rewrite Z.lor_0_r.
  rewrite bool_decide_true by done. by apply passes_with.
Qed.

Lemma unmap_passes : passes s0 f mapped_leaf Unmapped (check_unmap fuel self (test_frame f)).
Proof using Hfuel Hrd.
  intros s u Hdu Hu. destruct (during_frame _ _ _ _ _ _ Hrd Hdu) as [Hf _].
  destruct (unmap_ok self s test_page (during_vm _ _ Hdu)) as (r & s' & Hrun & Hpost).
  pose proof (during_here _ _ Hdu) as Hw.
  destruct r as [pa|[]]; cbn [unmap_post] in Hpost; [|naive_solver congruence..].
  destruct Hpost as (_ & (e & He & ->) & Hup). rewrite Hw in He. injection He as <-.
  assert (Hdu' : during s0 s' f Unmapped).
  { pose proof (carries_updates _ _ _ _ _ Hup) as Hca. destruct Hdu as [C T F W Z]. split.
    - by eapply carries_trans.
    - by rewrite (up_fa _ _ _ _ _ Hup).
    - intros a Ha. by apply (ca_foreign _ _ _ Hca), F.
    - intros v. rewrite (up_walk _ _ _ _ _ Hup). case_decide; [done|]. rewrite W. by rewrite decide_False.
    - unfold free_count. by rewrite (up_fa _ _ _ _ _ Hup). }
  unfold check_unmap. rewrite (M_run _ _ _ _ _ (within_run _ _ u _ _ Hrun)). rewrite (test_frame_addr Hf).
  rewrite bool_decide_true by done. cbn [negb]. rewrite (M_run _ _ _ _ _ (translate_here s' u _ Hdu')).
  cbn [resolve]. by apply passes_with.
Qed.

Lemma unmap_again_passes : passes s0 f Unmapped Unmapped (check_unmap_again fuel self).
Proof using Hfuel.
  intros s u Hdu Hu. destruct (unmap_ok self s test_page (during_vm _ _ Hdu)) as (r & s' & Hrun & Hpost).
  pose proof (during_here _ _ Hdu) as Hw. unfold check_unmap_again. rewrite (M_run _ _ _ _ _ (within_run _ _ u _ _ Hrun)).
  destruct r as [pa|[]]; cbn [unmap_post] in Hpost; [naive_solver congruence|by destruct Hpost| |done|naive_solver congruence].
  destruct Hpost as (_ & -> & _). by apply passes_with.
Qed.

(** A frame that is in use goes back to the pool. *)
Lemma deallocate_now_ok s s2 g u :
  vm_ok self s → pool_ok s → carries self s s2 → g ∈ fs_free (m_fa s) → g ∉ fs_free (m_fa s2) →
  (∀ a, a / FRAME_SIZE = g → foreign self s2 a) →
  ∃ s3, deallocate_now (test_frame g) (s2, u) = Ret (Ok tt, (s3, u)) ∧ carries self s s3 ∧
    m_mem s3 = m_mem s2 ∧ fs_free (m_fa s3) = {[g]} ∪ fs_free (m_fa s2).
Proof.
  intros Hvm Hpool Hca Hg Hng Hfor.
  destruct (return_frame_ok self s s2 g) as (s3 & Hret & Hca3 & Hm3 & _ & Hff); try done;
    [intros _; by apply (po_mapped _ Hpool)|apply Hpool|].
  exists s3. split; [|done]. destruct (fs_free_range _ _ (vm_fa _ _ Hvm) Hg) as [Hr _].
  destruct (fs_deallocate_law (m_fa s2) (test_frame g) (vm_fa _ _ (ca_vm _ _ _ Hca))) as (r & a' & Hde & _ & _ & Hpost).
  { pose proof (po_total _ Hpool). unfold PhysAddr.valid, u64, FRAME_SIZE. cbn. lia. }
  rewrite frame_number_new in Hpost. rewrite <- (ca_total _ _ _ Hca) in Hr.
  apply within_run. unfold return_frame, mbind in Hret. rewrite Hde in Hret. cbn in Hret. injection Hret as <-.
  unfold mbind. rewrite Hde. cbn. destruct r as [[]|[]]; [done|lia|naive_solver].
Qed.

Lemma map_rejects_mapped s v phys fl e :
  vm_ok self s → aligned_for_map v phys = true → walk_of self (m_mem s) v = Leaf e →
  Vmm.map self v phys fl s = Ret (Err AlreadyMapped, s).
Proof.
  intros Hvm Hal Hw. destruct (map_ok self s v phys fl Hvm) as (r & s' & Hrun & Hpost).
  destruct r as [[]|[]]; cbn [map_post map_error] in Hpost.
  - destruct Hpost as (_ & Hun & _). congruence.
  - destruct Hpost. congruence.
  - destruct Hpost as (_ & _ & -> & _). exact Hrun.
  - destruct Hpost as (_ & _ & Hun & _). congruence.
  - by destruct Hpost as (_ & _ & []).
  - destruct Hpost as (_ & _ & _ & n & e' & Hh). congruence.
Qed.

Lemma remap_passes : passes s0 f mapped_leaf mapped_leaf (check_remap fuel self).
Proof using Hfuel Hrd.
  intros s u Hdu Hu. pose proof (during_vm _ _ Hdu) as Hvm. pose proof (during_here _ _ Hdu) as Hw. unfold check_remap.
  destruct (take_frame_ok self s Hvm) as [[Htk _]|(g & s1 & Htk & Hg & Hca1 & Hm1 & _ & Hff & Hfor)].
  { rewrite (M_run _ _ _ _ _ (within_run _ _ u _ _ Htk)). rewrite (M_run _ _ _ true (s, u)) by done. by apply passes_with. }
  rewrite (M_run _ _ _ _ _ (within_run _ _ u _ _ Htk)).
  pose proof (pool_carries _ _ _ (du_carries _ _ _ _ Hdu) (rd_pool _ _ _ Hrd)) as Hpool.
  assert (Hmap : Vmm.map self test_page (test_frame g) read_write s1 = Ret (Err AlreadyMapped, s1)).
  { eapply map_rejects_mapped; [apply Hca1| |by rewrite Hm1].
    unfold aligned_for_map. rewrite test_page_aligned. apply is_frame_aligned_spec. by apply Z.mod_mul. }
  destruct (deallocate_now_ok s s1 g u) as (s3 & Hde & Hca3 & Hm3 & Hff3); try done; [rewrite Hff; set_solver|].
  assert (Hdu3 : during s0 s3 f mapped_leaf).
  { assert (Hfree : fs_free (m_fa s3) = fs_free (m_fa s)).
    { rewrite Hff3, Hff, (comm_L (∪)), difference_union_L. set_solver. }
    destruct Hdu as [C T F W Z]. split; [by eapply carries_trans|by rewrite Hfree| | |unfold free_count; by rewrite Hfree].
    - intros a Ha. by apply (ca_foreign _ _ _ Hca3), F.
    - intros v. rewrite Hm3, Hm1. apply W. }
  rewrite (M_run _ _ _ true (s3, u)); [by apply passes_with|].
  rewrite (M_run _ _ _ _ _ (within_run _ _ u _ _ Hmap)). by rewrite (M_run _ _ _ _ _ Hde).
Qed.

(** The last step: the frame is back, the tables translate as before. *)
Lemma release_passes s u :
  during s0 s f Unmapped → sending bound u →
  ∃ s' u' log, release_test_frame fuel (test_frame f) (s, u) = Ret (true, (s', u')) ∧ sending bound u' ∧
    carries self s0 s' ∧ (∀ v, walk_of self (m_mem s') v = walk_of self (m_mem s0) v) ∧
    free_count s0 ≤ free_count s' + 3 ∧
    sent u' = log ++ expand (line "Virtual memory manager boot self-test: ALL CHECKS PASSED.").
Proof using Hfuel Hrd.
  intros Hdu Hu. destruct Hdu as [C [T1 T2] F W Z].
  destruct (deallocate_now_ok s0 s f u (rd_vm _ _ _ Hrd) (rd_pool _ _ _ Hrd)) as (s3 & Hde & Hca3 & Hm3 & Hff3); try done.
  unfold release_test_frame. rewrite (M_run _ _ _ _ _ Hde).
  speak Hfuel u1 Hu1 Hs1. speak Hfuel u2 Hu2 Hs2. speak Hfuel u3 Hu3 Hs3.
  destruct (pass_run bound fuel Hfuel s3 u3 "Virtual memory manager boot self-test: ALL CHECKS PASSED." Hu3) as (u4 & Hu4 & Hs4 & Hr).
  exists s3, u4, (sent u3). split; [exact Hr|]. split; [done|]. split; [done|]. split; [|split; [|exact Hs4]].
  - intros v. rewrite Hm3, W. case_decide as Hpg; [|done]. rewrite (walk_of_page _ _ _ _ Hpg).
    symmetry. apply Hrd.
  - unfold free_count in *. rewrite Hff3, size_insert, decide_False by done. lia.
Qed.

End passes.

Section theorem.
Context {P : BuildProfile} {A : Type} {FS : FrameSource A} {L : Line}.

Lemma kernel_code_passes bound fuel self (s : machine A) u code bi :
  (bound + 2 < fuel)%nat → ready self s code bi → sending bound u →
  ∃ u', check_kernel_code fuel self code bi (s, u) = Ret (true, (s, u')) ∧ sending bound u'.
Proof.
  intros Hfuel Hrd Hu. destruct (rd_code _ _ _ _ Hrd) as (pa & Hres & Hlo & Hhi). unfold check_kernel_code.
  assert (Htr : translate_now self code (s, u) = Ret (Some pa, (s, u))).
  { apply within_run. rewrite (translate_walk self s _ (rd_vm _ _ _ _ Hrd)), Hres. done. }
  rewrite (M_run _ _ _ _ _ Htr). destruct (Z.leb_spec (kernel_physical_base bi) (PhysAddr.as_u64 pa)); [|lia].
  erewrite lift_run by (rewrite add64_ok by apply Hrd; reflexivity).
  destruct (Z.ltb_spec (PhysAddr.as_u64 pa) (kernel_physical_base bi + kernel_size_bytes bi)); [|lia]. cbn [negb].
  edestruct (pass_run bound fuel Hfuel s u) as (u' & Hu' & _ & Hr); [done|]. exists u'. split; [exact Hr|done].
Qed.

(** The test always returns; it fails only for want of frames. *)
Lemma vmm_self_test_total bound fuel self (s : machine A) u code bi :
  ready self s code bi → sending bound u → (bound + 2 < fuel)%nat →
  ∃ ok s' u', run_vmm_boot_self_test fuel self code bi (s, u) = Ret (ok, (s', u')) ∧ sending bound u' ∧
    if (ok : bool) then carries self s s' ∧ (∀ v, walk_of self (m_mem s') v = walk_of self (m_mem s) v) ∧
      free_count s ≤ free_count s' + 3 ∧
      ∃ log, sent u' = log ++ expand (line "Virtual memory manager boot self-test: ALL CHECKS PASSED.")
    else (size (low_frames s) < 5)%nat.
Proof.
  intros Hrd Hu Hfuel. unfold run_vmm_boot_self_test. speak Hfuel u1 Hu1 Hs1.
  destruct (kernel_code_passes bound fuel self s u1 code bi Hfuel Hrd Hu1) as (u2 & Hr2 & Hu2).
  rewrite (check_run _ _ _ _ Hr2).
  destruct (test_mapped bound fuel Hfuel self s u2 code bi Hrd Hu2) as (o & s3 & u3 & Hr3 & Hu3 & Ho).
  rewrite (M_run _ _ _ _ _ Hr3). destruct o as [fr|]; [|by exists false, s3, u3]. destruct Ho as (f & -> & Hdu3).
  pose proof (readback_passes bound fuel Hfuel self s code bi Hrd f) as C1.
  pose proof (flags_pass bound fuel Hfuel self s f) as C2.
  pose proof (translation_passes bound fuel Hfuel self s code bi Hrd f) as C3.
  pose proof (remap_passes bound fuel Hfuel self s code bi Hrd f) as C4.
  pose proof (unmap_passes bound fuel Hfuel self s code bi Hrd f) as C5.
  pose proof (unmap_again_passes bound fuel Hfuel self s f) as C6.
  destruct (C1 _ _ Hdu3 Hu3) as (s4 & u4 & R1 & D4 & U4). rewrite (check_run _ _ _ _ R1).
  destruct (C2 _ _ D4 U4) as (s5 & u5 & R2 & D5 & U5). rewrite (check_run _ _ _ _ R2).
  destruct (C3 _ _ D5 U5) as (s6 & u6 & R3 & D6 & U6). rewrite (check_run _ _ _ _ R3).
  destruct (C4 _ _ D6 U6) as (s7 & u7 & R4 & D7 & U7). rewrite (check_run _ _ _ _ R4).
  destruct (C5 _ _ D7 U7) as (s8 & u8 & R5 & D8 & U8). rewrite (check_run _ _ _ _ R5).
  destruct (C6 _ _ D8 U8) as (s9 & u9 & R6 & D9 & U9). rewrite (check_run _ _ _ _ R6).
  destruct (release_passes bound fuel Hfuel self s code bi Hrd f s9 u9 D9 U9)
    as (s' & u' & log & Hr & Hu' & Hca & Hwalk & Hsz & Hlog).
  exists true, s', u'. split; [exact Hr|]. split_and!; try done. by exists log.
Qed.

(** C32: the boot self-test of the virtual memory manager, on every boot state
    it is meant for: tables that are sound and active, the base of the heap
    region unmapped and the kernel's code mapped inside its image.  It always
    returns, it passes whenever five free frames in the identity-mapped range
    are left, and it fails only for want of frames, never because a check went
    wrong.  When it passes it has exercised map, a write and read through the
    page, the stored flags, the rejection of a second map, unmap and the
    rejection of a second unmap; afterwards every address translates as
    before, the test frame is free again and at most three frames have become
    page tables. *)
Theorem vmm_self_test_passes bound fuel self (s : machine A) u code bi :
  ready self s code bi → sending bound u → (bound + 2 < fuel)%nat →
  ∃ ok s' u', run_vmm_boot_self_test fuel self code bi (s, u) = Ret (ok, (s', u')) ∧ sending bound u' ∧
    ((5 ≤ size (low_frames s))%nat → ok = true) ∧
    (ok = true → vm_ok self s' ∧ m_cr3 s' = m_cr3 s ∧
      (∀ v, translate (m_mem s') self v = translate (m_mem s) self v) ∧
      fs_free (m_fa s') ⊆ fs_free (m_fa s) ∧ free_count s ≤ free_count s' + 3 ∧
      ∃ log, sent u' = log ++ expand (line "Virtual memory manager boot self-test: ALL CHECKS PASSED.")).
Proof.
  intros Hrd Hu Hfuel.
  destruct (vmm_self_test_total bound fuel self s u code bi Hrd Hu Hfuel) as (ok & s' & u' & Hr & Hu' & Hpost).
  exists ok, s', u'. split; [exact Hr|]. split; [done|]. destruct ok; [|split; [lia|done]].
  destruct Hpost as (Hca & Hwalk & Hsz & Hlog). split; [done|]. intros _. split; [apply Hca|]. split; [apply Hca|].
  split; [|split; [apply Hca|by split]].
  intros v. rewrite !translate_walk by (apply Hca || apply Hrd). by rewrite Hwalk.
Qed.

End theorem.

(** ** A boot state: sixteen frames, the root table in frame 1, and the
    kernel's code page mapped at the bottom of its image *)
Definition boot_fa : FrameAllocator := mkFrameAllocator 0 [3; 0] 16 14 0.
Definition bare : machine FrameAllocator :=
  mkMachine (zero_mem 0x1000 0xF000) boot_fa ∅ 0xD01 0x1000.
Definition code_page : Z := 0xFFFFFFFF80000000.
Definition image : BootInfo :=
  mkBootInfo BOOTINFO_MAGIC 1 96 0 0 0 0 0 0x100000 0xFFFFFFFF80000000 0x1000 0 0.

Lemma boot_fa_wf : wf boot_fa.
Proof. split; [done|done|repeat constructor; lia|vm_compute; reflexivity|done]. Qed.
Lemma boot_free f : f ∈ free_frames boot_fa → 2 ≤ f < 16.
Proof.
  intros [Hr Hu]%elem_of_free_frames. cbn in Hr.
  destruct (decide (f = 0)) as [->|]; [done|]. destruct (decide (f = 1)) as [->|]; [done|]. lia.
Qed.
Lemma bare_entries i : idx_ok i → ent (m_mem bare) (root demo_vmm) i = cleared.
Proof.
  intros Hi. unfold ent, bare. cbn [m_mem]. unfold idx_ok, root in *.
  rewrite zero_mem_word; [done|cbn; lia|cbn; lia].
Qed.
Lemma bare_vm_ok : vm_ok (P := release_profile) demo_vmm bare.
Proof.
  assert (Hroot : mapped (zero_mem 0x1000 0xF000) 0x1000 FRAME_SIZE) by (by apply zero_mem_mapped).
  split.
  - apply boot_fa_wf.
  - apply empty_tree_ok.
    + split_and!; [done..|]. intros Hf%boot_free. change (root demo_vmm / FRAME_SIZE) with 1 in Hf. lia.
    + exact bare_entries.
  - intros Hf%boot_free. lia.
  - intros f Hf%boot_free _. unfold FRAME_SIZE. apply zero_mem_mapped; lia.
Qed.

Lemma bare_unmapped v : walk_of demo_vmm (m_mem bare) v = Unmapped.
Proof. apply walk_zero; [exact bare_entries|apply indices_ok]. Qed.

Lemma low_all (s : machine FrameAllocator) :
  free_frames (m_fa s) ⊆ free_frames boot_fa → low_frames (P := release_profile) s = free_frames (m_fa s).
Proof.
  intros Hsub. unfold low_frames. apply set_eq. intros f. rewrite elem_of_filter. split; [tauto|].
  intros Hf. split; [|done]. apply Hsub, boot_free in Hf. unfold FRAME_SIZE, IDENTITY_MAP_LIMIT. lia.
Qed.

Lemma boot_state_ready : ∃ s, ready (P := release_profile) demo_vmm s code_page image ∧
  (5 ≤ size (low_frames (P := release_profile) s))%nat.
Proof.
  assert (Hsize : size (free_frames boot_fa) = 14%nat) by (vm_compute; reflexivity).
  destruct (map_enough (P := release_profile) demo_vmm bare (VirtAddr.new code_page) (PhysAddr.new 0x100000) read_write)
    as (s & Hmap & Hsz); [exact bare_vm_ok|vm_compute; reflexivity|apply bare_unmapped| |].
  { rewrite low_all by (exact (reflexivity _)).
    change (size (free_frames boot_fa) ≥ 4)%nat. lia. }
  destruct (map_ok (P := release_profile) demo_vmm bare (VirtAddr.new code_page) (PhysAddr.new 0x100000) read_write bare_vm_ok)
    as (r & s' & Hrun & Hpost). rewrite Hmap in Hrun. injection Hrun as <- <-.
  destruct Hpost as (_ & _ & s1 & [Hok1 Hev1 _] & Hup).
  pose proof (carries_trans _ _ _ _ (carries_evolves _ _ _ _ Hok1 Hev1) (carries_updates _ _ _ _ _ Hup)) as Hca.
  assert (Hw : ∀ v, walk_of demo_vmm (m_mem s) v =
    if decide (VirtAddr.page v = VirtAddr.page (VirtAddr.new code_page))
    then Leaf (new_leaf (PhysAddr.new 0x100000) read_write) else Unmapped).
  { intros v. rewrite (up_walk _ _ _ _ _ Hup), (ev_walk _ _ _ _ Hev1), bare_unmapped. done. }
  exists s. split.
  2: { rewrite low_all by (exact (ca_free _ _ _ Hca)). unfold free_count in Hsz.
    change (size (fs_free (m_fa bare))) with (size (free_frames boot_fa)) in Hsz.
    change (size (fs_free (m_fa s))) with (size (free_frames (m_fa s))) in Hsz. lia. }
  split.
  - apply Hca.
  - unfold cpu_vmm. destruct (ca_cpu _ _ _ Hca) as [_ ->]. reflexivity.
  - eapply pool_carries; [exact Hca|]. split.
    + intros f Hf%boot_free. unfold bare. cbn [m_mem]. unfold FRAME_SIZE. apply zero_mem_mapped; lia.
    + change (16 ≤ 2 ^ 40). lia.
  - rewrite Hw, decide_False; [reflexivity|]. vm_compute. discriminate.
  - apply u64b_spec. reflexivity.
  - exists (PhysAddr.new 0x100000). rewrite Hw, decide_True by reflexivity. split; [vm_compute; reflexivity|].
    cbn. lia.
Qed.

Lemma vmm_self_test_passes_witness :
  ∃ s s' u', run_vmm_boot_self_test (P := release_profile) (L := demo_line) 5 demo_vmm code_page image (s, demo_uart) =
    Ret (true, (s', u')).
Proof.
  destruct boot_state_ready as (s & Hs & Hlow).
  destruct (vmm_self_test_passes (P := release_profile) (L := demo_line) 2 5 demo_vmm s demo_uart code_page image Hs demo_sending)
    as (ok & s' & u' & Hr & _ & Hok & _); [lia|]. exists s, s', u'. rewrite (Hok Hlow) in Hr. exact Hr.
Defined.
