(* ===== verification/GlobalAlloc.v ===== *)
(** The contract between the kernel heap and the code that allocates on it.

    [GlobalAlloc] holds what a client of the heap can do: allocate, release,
    and read and write integers at addresses.  [LawfulAlloc] is the contract:
    the client owns a list of blocks, each with its bytes; an allocation adds
    a block, a release removes one, a write changes one, and no operation
    changes a byte of any other block.  [la_credit] counts the pages the heap may
    still have to map.  [la_fails] says whether memory can run out: when it
    cannot, an allocation the credit covers succeeds. *)
From stdpp Require Import base numbers option gmap list_numbers list.
From S2P Require Import Prelude Memory LinkedListAllocator FreeListTheorems Mmu Heap HeapTheorems.

Class GlobalAlloc (K : Type) : Type := {
  ga_alloc : Layout → M K Z;
  ga_dealloc : Z → Layout → M K unit;
  ga_read : nat → Z → M K Z;
  ga_write : nat → Z → Z → M K unit;
}.

(** A block: its address and its bytes. *)
Abbreviation block := (Z * list Z)%type.

Definition width (n : nat) : Prop := n = 1%nat ∨ n = 2%nat ∨ n = 4%nat ∨ n = 8%nat.
Definition fits (n : nat) (x : Z) : Prop := 0 ≤ x < 2 ^ (8 * Z.of_nat n).

(** The bytes [ys] written at offset [off]. *)
Definition overwrite (off : nat) (ys bs : list Z) : list Z := take off bs ++ ys ++ drop (off + length ys) bs.

Record client_layout (layout : Layout) : Prop := {
  cl_heap : heap_layout layout;
  cl_align : layout_align layout ≤ PAGE_SIZE;
}.

Class LawfulAlloc (K : Type) {G : GlobalAlloc K} : Type := {
  la_owns : K → list block → Z → Prop;
  la_fails : Prop;
  la_perm k L L' c : L ≡ₚ L' → la_owns k L c → la_owns k L' c;
  la_credit k L c c' : 0 ≤ c' ≤ c → la_owns k L c → la_owns k L c';
  la_range k L c p bs : la_owns k L c → (p, bs) ∈ L → bs ≠ [] →
    HEAP_REGION_START ≤ p ∧ p + Z.of_nat (length bs) ≤ HEAP_REGION_END;
  la_apart k L c p bs q cs : la_owns k ((p, bs) :: (q, cs) :: L) c → bs ≠ [] → cs ≠ [] → p ≠ q;
  la_alloc k L c layout : la_owns k L c → client_layout layout → pages_for layout ≤ c →
    ∃ p k', ga_alloc layout k = Ret (p, k') ∧
      ((p = 0 ∧ la_fails) ∨
       p ≠ 0 ∧ p mod 8 = 0 ∧ ∃ bs, Z.of_nat (length bs) = block_size layout ∧
         la_owns k' ((p, bs) :: L) (c - pages_for layout));
  la_dealloc k L c layout p bs : la_owns k ((p, bs) :: L) c → client_layout layout →
    p mod 8 = 0 → Z.of_nat (length bs) = block_size layout →
    ∃ k', ga_dealloc p layout k = Ret (tt, k') ∧ la_owns k' L c;
  la_read k L c p bs n off x : la_owns k L c → (p, bs) ∈ L → width n → fits n x →
    (p + Z.of_nat off) mod Z.of_nat n = 0 → take n (drop off bs) = le_bytes n x →
    ga_read n (p + Z.of_nat off) k = Ret (x, k);
  la_write k L c p bs n off x : la_owns k ((p, bs) :: L) c → width n →
    (p + Z.of_nat off) mod Z.of_nat n = 0 → (off + n ≤ length bs)%nat →
    ∃ k', ga_write n (p + Z.of_nat off) x k = Ret (tt, k') ∧
      la_owns k' ((p, overwrite off (le_bytes n x) bs) :: L) c;
}.

(** ** Bytes of integers *)
Lemma length_le_bytes n x : length (le_bytes n x) = n.
Proof. revert x. induction n as [|n IH]; intros x; cbn; [done|]. by rewrite IH. Qed.
Lemma le_bytes_range n x : Forall (λ b, 0 ≤ b < 256) (le_bytes n x).
Proof. revert x. induction n; intros x; cbn; constructor; [apply Z.mod_pos_bound; lia|done]. Qed.
Lemma le_bytes_1 b : 0 ≤ b < 256 → le_bytes 1 b = [b].
Proof. intros Hb. cbn. by rewrite Z.mod_small. Qed.
Lemma load_le_bytes_of n rd a x :
  fits n x → (∀ k b, le_bytes n x !! k = Some b → rd (a + Z.of_nat k) = Some b) → load_le n rd a = Some x.
Proof.
  unfold fits. revert a x. induction n as [|n IH]; intros a x Hx Hrd; cbn [load_le le_bytes] in *.
  { cbn in Hx. f_equal. lia. }
  replace (8 * Z.of_nat (S n)) with (8 + 8 * Z.of_nat n) in Hx by lia. rewrite Z.pow_add_r in Hx by lia.
  pose proof (Hrd 0%nat _ eq_refl) as H0. rewrite Z.add_0_r in H0. rewrite H0. cbn [mbind option_bind].
  rewrite (IH (a + 1) (x / 256)); cbn [mbind option_bind].
  - f_equal. dlia.
  - split; [apply Z.div_pos; lia|apply Z.div_lt_upper_bound; lia].
  - intros k b Hk. specialize (Hrd (S k) b Hk). by replace (a + 1 + Z.of_nat k) with (a + Z.of_nat (S k)) by lia.
Qed.

Definition encode (n : nat) (xs : list Z) : list Z := xs ≫= le_bytes n.
Lemma length_encode n xs : length (encode n xs) = (n * length xs)%nat.
Proof.
  unfold encode. induction xs as [|x xs IH]; cbn; [lia|]. rewrite length_app, IH, length_le_bytes. lia.
Qed.
Lemma encode_app n xs ys : encode n (xs ++ ys) = encode n xs ++ encode n ys.
Proof. apply bind_app. Qed.
Lemma encode_range n xs : Forall (λ b, 0 ≤ b < 256) (encode n xs).
Proof.
  induction xs as [|x xs IH]; cbn; [constructor|]. apply Forall_app. split; [apply le_bytes_range|done].
Qed.
Lemma encode_lookup n xs i x spare :
  xs !! i = Some x → take n (drop (i * n) (encode n xs ++ spare)) = le_bytes n x.
Proof.
  intros Hi. rewrite <- (take_drop_middle xs i x Hi), encode_app. cbn.
  assert (Hlen : length (encode n (take i xs)) = (i * n)%nat).
  { rewrite length_encode, length_take_le; [lia|]. apply lookup_lt_Some in Hi. lia. }
  rewrite <- !app_assoc, <- Hlen, drop_app_length. apply take_app_length'. by rewrite length_le_bytes.
Qed.

(** ** Overwriting *)
Lemma length_overwrite off ys bs :
  (off + length ys ≤ length bs)%nat → length (overwrite off ys bs) = length bs.
Proof. intros H. unfold overwrite. rewrite !length_app, length_take_le, length_drop by lia. lia. Qed.
Lemma overwrite_lookup off ys bs i :
  (off + length ys ≤ length bs)%nat →
  overwrite off ys bs !! i =
    if decide (off ≤ i < off + length ys)%nat then ys !! (i - off)%nat else bs !! i.
Proof.
  intros H. unfold overwrite. case_decide.
  - rewrite lookup_app_r by (rewrite length_take_le; lia). rewrite length_take_le by lia.
    by rewrite lookup_app_l by lia.
  - destruct (decide (i < off)%nat).
    + rewrite lookup_app_l by (rewrite length_take_le; lia). by rewrite lookup_take_lt by lia.
    + rewrite lookup_app_r by (rewrite length_take_le; lia). rewrite length_take_le by lia.
      rewrite lookup_app_r by lia. rewrite lookup_drop. f_equal. lia.
Qed.
Lemma overwrite_app (ys xs rest : list Z) :
  overwrite (length xs) ys (xs ++ rest) = xs ++ ys ++ drop (length ys) rest.
Proof. unfold overwrite. by rewrite take_app_length, <- drop_drop, drop_app_length. Qed.
Lemma overwrite_cons off b ys bs :
  (off + S (length ys) ≤ length bs)%nat →
  overwrite (S off) ys (overwrite off [b] bs) = overwrite off (b :: ys) bs.
Proof.
  intros H. apply list_eq. intros i. rewrite !overwrite_lookup; cbn [length]; try lia.
  2: { rewrite length_overwrite; cbn [length]; lia. }
  repeat case_decide; try lia; try done.
  - by replace (i - off)%nat with (S (i - S off)) by lia.
  - by replace (i - off)%nat with 0%nat by lia.
Qed.
Lemma overwrite_nil off bs : overwrite off [] bs = bs.
Proof. unfold overwrite. cbn [app length]. by rewrite Nat.add_0_r, take_drop. Qed.

Lemma store_le_lookup n m a v m' i b :
  store_le n m a v = Some m' → le_bytes n v !! i = Some b → m' !! (a + Z.of_nat i) = Some b.
Proof.
  revert m a v i. induction n as [|n IH]; intros m a v i; cbn [store_le le_bytes]; [done|].
  destruct (m !! a) eqn:Ha; cbn; [|done]. intros Hs. destruct i as [|i]; cbn.
  - intros [= <-]. rewrite Z.add_0_r. rewrite (store_le_other _ _ _ _ _ _ Hs) by lia. apply lookup_insert_eq.
  - intros Hi. specialize (IH _ _ _ _ Hs Hi). by replace (a + Z.of_nat (S i)) with (a + 1 + Z.of_nat i) by lia.
Qed.
