(* ===== verification/AllocCrate.v ===== *)
(** The parts of the [alloc] crate the kernel uses on its heap: [Box<u64>],
    [Vec<T>] for the integer types and [vec!] for bytes.

    They are written as the standard library writes them: [Box::new]
    allocates and aborts on null, [Vec::push] doubles the capacity through
    [GlobalAlloc::realloc], whose provided version allocates, copies and
    releases.  The lemmas are proved against the allocator's contract. *)
From stdpp Require Import base numbers option gmap list_numbers list.
From S2P Require Import Prelude Memory LinkedListAllocator FreeListAlloc FreeListTheorems Mmu Heap HeapTheorems GlobalAlloc.

Record Vec : Type := mkVec { vec_ptr : Z; vec_cap : Z; vec_len : Z }.

(** [Layout::array::<T>(cap)] for an integer type of [n] bytes, whose
    alignment is its size. *)
Definition array_layout (n : nat) (cap : Z) : Layout := mkLayout (cap * Z.of_nat n) (Z.of_nat n).
Definition box_layout : Layout := mkLayout 8 8.

(** An empty vector does not allocate; its pointer dangles. *)
Definition vec_new (n : nat) : Vec := mkVec (Z.of_nat n) 0 0.
Definition min_non_zero_cap (n : nat) : Z :=
  if (n =? 1)%nat then 8 else if (n <=? 1024)%nat then 4 else 1.

Section operations.
Context {K : Type} {G : GlobalAlloc K}.

(** [handle_alloc_error] on a null pointer. *)
Definition non_null (p : Z) : M K Z := if p =? 0 then lift (Panic AllocFailed) else mret p.

(** [ptr::copy_nonoverlapping] and [ptr::write_bytes], byte by byte. *)
Fixpoint copy (len : nat) (src dst : Z) : M K unit :=
  match len with
  | O => mret tt
  | S len => b ← ga_read 1 src; _ ← ga_write 1 dst b; copy len (src + 1) (dst + 1)
  end.
Fixpoint write_bytes (len : nat) (dst b : Z) : M K unit :=
  match len with
  | O => mret tt
  | S len => _ ← ga_write 1 dst b; write_bytes len (dst + 1) b
  end.

(** The provided method [GlobalAlloc::realloc]. *)
Definition realloc (ptr : Z) (layout : Layout) (new_size : Z) : M K Z :=
  new_ptr ← ga_alloc (mkLayout new_size (layout_align layout));
  if new_ptr =? 0 then mret 0 else
  _ ← copy (Z.to_nat (Z.min (layout_size layout) new_size)) ptr new_ptr;
  _ ← ga_dealloc ptr layout;
  mret new_ptr.

(** [RawVec::grow_one]. *)
Definition next_cap (n : nat) (cap : Z) : Z := Z.max (min_non_zero_cap n) (Z.max (cap * 2) (cap + 1)).
Definition grow_one (n : nat) (v : Vec) : M K Vec :=
  let cap := next_cap n (vec_cap v) in
  if ISIZE_MAX - (Z.of_nat n - 1) <? cap * Z.of_nat n then lift (Panic CapacityOverflow) else
  raw ← (if vec_cap v =? 0 then ga_alloc (array_layout n cap)
         else realloc (vec_ptr v) (array_layout n (vec_cap v)) (cap * Z.of_nat n));
  p ← non_null raw;
  mret (mkVec p cap (vec_len v)).

Definition push (n : nat) (v : Vec) (x : Z) : M K Vec :=
  v ← (if vec_len v =? vec_cap v then grow_one n v else mret v);
  _ ← ga_write n (vec_ptr v + vec_len v * Z.of_nat n) x;
  mret (mkVec (vec_ptr v) (vec_cap v) (vec_len v + 1)).

(** [v[i]], and reading through an iterator. *)
Definition vec_index (n : nat) (v : Vec) (i : Z) : M K Z :=
  if (0 <=? i) && (i <? vec_len v) then ga_read n (vec_ptr v + i * Z.of_nat n)
  else lift (Panic IndexOutOfBounds).

Definition vec_drop (n : nat) (v : Vec) : M K unit :=
  if vec_cap v =? 0 then mret tt else ga_dealloc (vec_ptr v) (array_layout n (vec_cap v)).

(** [vec![elem; count]] for bytes. *)
Definition vec_from_elem (elem count : Z) : M K Vec :=
  if count =? 0 then mret (vec_new 1) else
  raw ← ga_alloc (array_layout 1 count);
  p ← non_null raw;
  _ ← write_bytes (Z.to_nat count) p elem;
  mret (mkVec p count count).

(** [Box<u64>]: a box is its pointer. *)
Definition box_new (x : Z) : M K Z :=
  raw ← ga_alloc box_layout;
  p ← non_null raw;
  _ ← ga_write 8 p x;
  mret p.
Definition box_get (p : Z) : M K Z := ga_read 8 p.
Definition box_drop (p : Z) : M K unit := ga_dealloc p box_layout.

End operations.

(** ** Layouts *)
Lemma width_pow n : width n → ∃ j, 0 ≤ j ≤ 3 ∧ Z.of_nat n = 2 ^ j.
Proof. intros [->|[->|[->| ->]]]; [exists 0|exists 1|exists 2|exists 3]; (split; [lia|done]). Qed.

Lemma block_size_ge layout : heap_layout layout → layout_size layout ≤ block_size layout ∧ 16 ≤ block_size layout.
Proof.
  intros [Hv Hm _]. destruct (adjusted_ok layout Hv Hm) as (sz & al & Hadj & [(j & Hj & Hj2) _ Hmin _] & Hal & Hsz).
  unfold block_size. rewrite Hadj. split; [|done]. rewrite Hsz.
  assert (0 < al) by (rewrite Hj2; apply Z.pow_pos_nonneg; lia).
  pose proof (div_ceil_spec (layout_size layout) al ltac:(lia)). lia.
Qed.
Lemma array_client n cap : width n → 0 ≤ cap → cap * Z.of_nat n ≤ 2 ^ 40 → client_layout (array_layout n cap).
Proof.
  intros Hn Hc Hs. destruct (width_pow n Hn) as (j & Hj & Hj2).
  assert (Z.of_nat n ≤ 8) by (destruct Hn as [->|[->|[->| ->]]]; lia).
  split; [|cbn; unfold PAGE_SIZE; lia]. split; [|cbn; unfold ISIZE_MAX; lia|cbn; lia].
  split; [exists j; split; [lia|done]|]. cbn. unfold ISIZE_MAX. nia.
Qed.
Lemma box_client : client_layout box_layout.
Proof. apply (array_client 8 1); [unfold width; tauto|lia|lia]. Qed.

Section specs.
Context {K : Type} {G : GlobalAlloc K} {LA : LawfulAlloc K}.
Implicit Types (k : K) (L : list block) (c : Z).

(** The only panic of the operations: an allocation failed, where it can. *)
Definition out_of_memory (p : panic) : Prop := la_fails ∧ p = AllocFailed.

(** ** Copying and filling *)
Lemma copy_ok len k L c p ps q qs i :
  la_owns k ((q, qs) :: (p, ps) :: L) c → (i + len ≤ length ps)%nat → (i + len ≤ length qs)%nat →
  Forall (λ b, 0 ≤ b < 256) (take len (drop i ps)) →
  ∃ k', copy len (p + Z.of_nat i) (q + Z.of_nat i) k = Ret (tt, k') ∧
    la_owns k' ((q, overwrite i (take len (drop i ps)) qs) :: (p, ps) :: L) c.
Proof.
  revert k qs i. induction len as [|len IH]; intros k qs i Ho Hp Hq Hb; cbn [copy].
  { exists k. split; [done|]. by rewrite overwrite_nil. }
  destruct (lookup_lt_is_Some_2 ps i) as [b Hi]; [lia|].
  rewrite (drop_S _ _ _ Hi) in Hb |- *. cbn [take] in Hb |- *. apply Forall_cons in Hb as [Hb0 Hb].
  erewrite M_run by (eapply (la_read k _ c p ps 1 i b);
    [exact Ho|set_solver|by left|unfold fits; cbn; lia|apply Z.mod_1_r|by rewrite (drop_S _ _ _ Hi), le_bytes_1]).
  destruct (la_write k _ c q qs 1 i b Ho) as (k1 & Hw & Ho1); [by left|apply Z.mod_1_r|lia|].
  erewrite M_run by exact Hw. rewrite le_bytes_1 in Ho1 by done.
  destruct (IH k1 _ (S i) Ho1) as (k2 & Hr & Ho2).
  - lia.
  - rewrite length_overwrite; cbn [length]; lia.
  - done.
  - replace (p + Z.of_nat i + 1) with (p + Z.of_nat (S i)) by lia.
    replace (q + Z.of_nat i + 1) with (q + Z.of_nat (S i)) by lia.
    exists k2. split; [exact Hr|]. rewrite overwrite_cons in Ho2; [done|].
    rewrite length_take, length_drop. lia.
Qed.

Lemma write_bytes_ok len k L c q qs i b :
  la_owns k ((q, qs) :: L) c → (i + len ≤ length qs)%nat → 0 ≤ b < 256 →
  ∃ k', write_bytes len (q + Z.of_nat i) b k = Ret (tt, k') ∧
    la_owns k' ((q, overwrite i (replicate len b) qs) :: L) c.
Proof.
  revert k qs i. induction len as [|len IH]; intros k qs i Ho Hq Hb; cbn [write_bytes].
  { exists k. split; [done|]. by rewrite overwrite_nil. }
  destruct (la_write k _ c q qs 1 i b Ho) as (k1 & Hw & Ho1); [by left|apply Z.mod_1_r|lia|].
  erewrite M_run by exact Hw. rewrite le_bytes_1 in Ho1 by done.
  destruct (IH k1 _ (S i) Ho1) as (k2 & Hr & Ho2); [rewrite length_overwrite; cbn [length]; lia|done|].
  replace (q + Z.of_nat i + 1) with (q + Z.of_nat (S i)) by lia.
  exists k2. split; [exact Hr|]. rewrite overwrite_cons in Ho2; [done|]. rewrite length_replicate. lia.
Qed.

(** ** Vectors *)

(** The vector [v] holds the integers [xs] and owns the blocks [B]: none
    while its capacity is zero, one large enough for the capacity after. *)
Record vec_rep (n : nat) (v : Vec) (xs : list Z) (B : list block) : Prop := {
  vr_len : vec_len v = Z.of_nat (length xs);
  vr_fits : Forall (fits n) xs;
  vr_cap : vec_len v ≤ vec_cap v;
  vr_block : if decide (vec_cap v = 0) then B = [] else
    vec_ptr v mod 8 = 0 ∧ ∃ spare, B = [(vec_ptr v, encode n xs ++ spare)] ∧
      Z.of_nat (length (encode n xs ++ spare)) = block_size (array_layout n (vec_cap v));
}.

Lemma vec_new_rep n : vec_rep n (vec_new n) [] [].
Proof. by split. Qed.

Lemma realloc_ok n k L c p ps cap cap' :
  la_owns k ((p, ps) :: L) c → width n → 0 ≤ cap ≤ cap' → cap' * Z.of_nat n ≤ 2 ^ 40 → p mod 8 = 0 →
  Z.of_nat (length ps) = block_size (array_layout n cap) →
  Forall (λ b, 0 ≤ b < 256) (take (Z.to_nat (cap * Z.of_nat n)) ps) →
  pages_for (array_layout n cap') ≤ c →
  ∃ q k', realloc p (array_layout n cap) (cap' * Z.of_nat n) k = Ret (q, k') ∧
    ((q = 0 ∧ la_fails) ∨ q ≠ 0 ∧ q mod 8 = 0 ∧ ∃ rest,
      la_owns k' ((q, take (Z.to_nat (cap * Z.of_nat n)) ps ++ rest) :: L) (c - pages_for (array_layout n cap')) ∧
      Z.of_nat (length (take (Z.to_nat (cap * Z.of_nat n)) ps ++ rest)) = block_size (array_layout n cap')).
Proof.
  intros Ho Hn Hcap Hmax Hp Hlen Hb Hpg.
  assert (Hc : client_layout (array_layout n cap)) by (apply array_client; [done|lia|nia]).
  assert (Hc' : client_layout (array_layout n cap')) by (apply array_client; [done|lia|done]).
  destruct (block_size_ge _ (cl_heap _ Hc)) as [Hs _]. destruct (block_size_ge _ (cl_heap _ Hc')) as [Hs' _].
  cbn [array_layout layout_size] in Hs, Hs'.
  destruct (la_alloc k _ c (array_layout n cap') Ho Hc' Hpg) as (q & k1 & Hal & Hres).
  unfold realloc. change (mkLayout (cap' * Z.of_nat n) (layout_align (array_layout n cap))) with (array_layout n cap').
  erewrite M_run by exact Hal. destruct Hres as [[-> Hbad]|(Hq0 & Hq & qs & Hql & Ho1)]; [exists 0, k1; by split; [|left]|].
  destruct (Z.eqb_spec q 0); [done|]. cbn [array_layout layout_size].
  set (len := Z.to_nat (cap * Z.of_nat n)) in *.
  replace (Z.to_nat (Z.min (cap * Z.of_nat n) (cap' * Z.of_nat n))) with len by (unfold len; f_equal; nia).
  destruct (copy_ok len k1 L _ p ps q qs 0 Ho1) as (k2 & Hcp & Ho2); [unfold len; nia|unfold len; nia|done|].
  rewrite !Z.add_0_r in Hcp. erewrite M_run by exact Hcp. rewrite drop_0 in Ho2.
  eapply la_perm in Ho2; [|apply perm_swap].
  destruct (la_dealloc k2 _ _ (array_layout n cap) p ps Ho2 Hc Hp Hlen) as (k3 & Hde & Ho3).
  change (mkLayout (cap * Z.of_nat n) (Z.of_nat n)) with (array_layout n cap). erewrite M_run by exact Hde.
  assert (Hov : overwrite 0 (take len ps) qs = take len ps ++ drop (length (take len ps)) qs) by done.
  rewrite Hov in Ho3. exists q, k3. split; [done|]. right. split_and!; [done..|].
  exists (drop (length (take len ps)) qs). split; [done|].
  rewrite <- Hov, length_overwrite; [done|]. rewrite length_take. unfold len. nia.
Qed.

Lemma grow_one_ok n k L c v xs B :
  vec_rep n v xs B → width n → vec_len v = vec_cap v → la_owns k (B ++ L) c →
  next_cap n (vec_cap v) * Z.of_nat n ≤ 2 ^ 40 → pages_for (array_layout n (next_cap n (vec_cap v))) ≤ c →
  ends out_of_memory (grow_one n v k) (λ v' k', ∃ B', vec_rep n v' xs B' ∧
    vec_cap v' = next_cap n (vec_cap v) ∧ vec_len v' = vec_len v ∧
    la_owns k' (B' ++ L) (c - pages_for (array_layout n (next_cap n (vec_cap v))))).
Proof.
  intros [Hl Hf Hc Hb] Hn Hfull Ho Hmax Hpg. set (cap' := next_cap n (vec_cap v)) in *.
  assert (Hn8 : 1 ≤ Z.of_nat n ≤ 8) by (destruct Hn as [->|[->|[->| ->]]]; lia).
  assert (Hcap' : vec_cap v < cap') by (unfold cap', next_cap; lia).
  unfold grow_one. fold cap'.
  destruct (Z.ltb_spec (ISIZE_MAX - (Z.of_nat n - 1)) (cap' * Z.of_nat n)); [unfold ISIZE_MAX in *; lia|].
  case_decide as H0.
  - subst B. rewrite H0. cbn [Z.eqb]. assert (xs = []) as -> by (destruct xs; [done|cbn in Hl; lia]).
    destruct (la_alloc k L c (array_layout n cap')) as (p & k1 & Hal & Hres);
      [done|apply array_client; (done || lia)|done|].
    erewrite M_run by exact Hal. unfold non_null. destruct Hres as [[-> Hbad]|(Hp0 & Hp & bs & Hbl & Ho1)]; [by split|].
    destruct (Z.eqb_spec p 0); [done|].
    exists [(p, bs)]. split; [|by split_and!].
    split; cbn [vec_len vec_cap vec_ptr]; [done|done|lia|]. rewrite decide_False by lia. split; [done|]. by exists bs.
  - destruct Hb as [Hp (spare & -> & Hlen)]. destruct (Z.eqb_spec (vec_cap v) 0); [done|].
    assert (Henc : Z.to_nat (vec_cap v * Z.of_nat n) = length (encode n xs)) by (rewrite length_encode; nia).
    destruct (realloc_ok n k L c (vec_ptr v) (encode n xs ++ spare) (vec_cap v) cap')
      as (q & k1 & Hr & Hres); try done; try lia.
    { rewrite Henc, take_app_length. apply encode_range. }
    erewrite M_run by exact Hr. unfold non_null. destruct Hres as [[-> Hbad]|(Hq0 & Hq & rest & Ho1 & Hl1)]; [by split|].
    destruct (Z.eqb_spec q 0); [done|].
    rewrite Henc, take_app_length in Ho1, Hl1.
    exists [(q, encode n xs ++ rest)]. split; [|by split_and!].
    split; cbn [vec_len vec_cap vec_ptr]; [done|done|lia|]. rewrite decide_False by lia. split; [done|]. by exists rest.
Qed.

(** Writing the next element of a vector with room. *)
Lemma push_room n k L c v xs B x :
  vec_rep n v xs B → width n → vec_len v < vec_cap v → vec_cap v * Z.of_nat n ≤ 2 ^ 40 → fits n x →
  la_owns k (B ++ L) c →
  ∃ k' B', ga_write n (vec_ptr v + vec_len v * Z.of_nat n) x k = Ret (tt, k') ∧
    vec_rep n (mkVec (vec_ptr v) (vec_cap v) (vec_len v + 1)) (xs ++ [x]) B' ∧ la_owns k' (B' ++ L) c.
Proof.
  intros [Hl Hf Hc Hb] Hn Hroom Hmax Hx Ho. destruct (decide (vec_cap v = 0)) as [|Hne]; [lia|].
  destruct Hb as [Hp (spare & -> & Hlen)].
  assert (Hcl : client_layout (array_layout n (vec_cap v))) by (apply array_client; [done|lia|done]).
  destruct (block_size_ge _ (cl_heap _ Hcl)) as [Hs _]. cbn [array_layout layout_size] in Hs.
  assert (Hsp : (n ≤ length spare)%nat).
  { rewrite length_app, length_encode in Hlen. nia. }
  destruct (la_write k L c (vec_ptr v) (encode n xs ++ spare) n (length (encode n xs)) x) as (k1 & Hw & Ho1); [done|done| |..].
  { rewrite length_encode. destruct Hn as [->|[->|[->| ->]]]; dlia. }
  { rewrite length_app. lia. }
  replace (vec_ptr v + vec_len v * Z.of_nat n) with (vec_ptr v + Z.of_nat (length (encode n xs)))
    by (rewrite length_encode; lia).
  rewrite overwrite_app, length_le_bytes in Ho1.
  assert (Henc : encode n (xs ++ [x]) = encode n xs ++ le_bytes n x).
  { rewrite encode_app. cbn. by rewrite app_nil_r. }
  exists k1, [(vec_ptr v, encode n xs ++ le_bytes n x ++ drop n spare)]. split; [exact Hw|]. split; [|exact Ho1].
  split; cbn [vec_len vec_cap vec_ptr]; [rewrite length_app; cbn; lia|by apply Forall_app_2; [|constructor]|lia|].
  rewrite decide_False by done. split; [done|]. exists (drop n spare). rewrite Henc, <- app_assoc. split; [done|].
  rewrite <- Hlen, !length_app, length_le_bytes, length_drop. lia.
Qed.

(** [push]: the element is appended; a full vector grows first. *)
Lemma push_ok n k L c v xs B x :
  vec_rep n v xs B → width n → fits n x → next_cap n (vec_cap v) * Z.of_nat n ≤ 2 ^ 40 →
  let cost := if decide (vec_len v = vec_cap v) then pages_for (array_layout n (next_cap n (vec_cap v))) else 0 in
  cost ≤ c → la_owns k (B ++ L) c →
  ends out_of_memory (push n v x k) (λ v' k', ∃ B', vec_rep n v' (xs ++ [x]) B' ∧
    vec_cap v' = (if decide (vec_len v = vec_cap v) then next_cap n (vec_cap v) else vec_cap v) ∧
    la_owns k' (B' ++ L) (c - cost)).
Proof.
  intros Hrep Hn Hx Hmax cost Hcost Ho. unfold push. unfold cost in *. clear cost. pose proof (vr_cap _ _ _ _ Hrep) as Hle.
  assert (Hgrow : vec_cap v ≤ next_cap n (vec_cap v)) by (unfold next_cap; lia).
  case_decide as Hfull.
  - rewrite Hfull, Z.eqb_refl. eapply ends_bind; [by apply (grow_one_ok n k L c v xs B)|].
    intros v1 k1 (B1 & Hrep1 & Hc1 & Hl1 & Ho1).
    edestruct (push_room n k1 L) as (k2 & B2 & Hw & Hrep2 & Ho2); [exact Hrep1|exact Hn| |by rewrite Hc1|exact Hx|exact Ho1|].
    { rewrite Hl1, Hc1, Hfull. unfold next_cap. lia. }
    erewrite M_run by exact Hw. exists B2. by split_and!.
  - destruct (Z.eqb_spec (vec_len v) (vec_cap v)); [done|]. erewrite M_run by done.
    destruct (push_room n k L c v xs B x Hrep Hn) as (k2 & B2 & Hw & Hrep2 & Ho2); [lia|nia|done|done|].
    erewrite M_run by exact Hw. exists B2. rewrite Z.sub_0_r. by split_and!.
Qed.

(** Reading element [i]. *)
Lemma vec_index_ok n k L c v xs B i x :
  vec_rep n v xs B → width n → la_owns k (B ++ L) c → xs !! i = Some x →
  vec_index n v (Z.of_nat i) k = Ret (x, k).
Proof.
  intros [Hl Hf Hc Hb] Hn Ho Hi. pose proof (lookup_lt_Some _ _ _ Hi) as Hlt.
  unfold vec_index. destruct (Z.leb_spec 0 (Z.of_nat i)), (Z.ltb_spec (Z.of_nat i) (vec_len v)); try lia. cbn [andb].
  case_decide; [lia|]. destruct Hb as [Hp (spare & -> & _)].
  replace (Z.of_nat i * Z.of_nat n) with (Z.of_nat (i * n)) by lia.
  eapply (la_read k _ c (vec_ptr v) (encode n xs ++ spare) n (i * n) x); [exact Ho|set_solver|done| | |].
  - by eapply Forall_lookup_1.
  - destruct Hn as [->|[->|[->| ->]]]; dlia.
  - by apply encode_lookup.
Qed.

Lemma vec_index_at n k L c v xs B i x :
  vec_rep n v xs B → width n → la_owns k (B ++ L) c → 0 ≤ i → xs !! Z.to_nat i = Some x →
  vec_index n v i k = Ret (x, k).
Proof. intros Hrep Hn Ho Hi Hx. rewrite <- (Z2Nat.id i) by done. by eapply vec_index_ok. Qed.

Lemma vec_drop_ok n k L c v xs B :
  vec_rep n v xs B → width n → vec_cap v * Z.of_nat n ≤ 2 ^ 40 → la_owns k (B ++ L) c →
  ∃ k', vec_drop n v k = Ret (tt, k') ∧ la_owns k' L c.
Proof.
  intros [Hl Hf Hc Hb] Hn Hmax Ho. unfold vec_drop. destruct (Z.eqb_spec (vec_cap v) 0) as [H0|H0]; case_decide; try done.
  - subst B. by exists k.
  - destruct Hb as [Hp (spare & -> & Hlen)].
    destruct (la_dealloc k L c (array_layout n (vec_cap v)) (vec_ptr v) (encode n xs ++ spare)) as (k1 & Hd & Ho1);
      [done|apply array_client; (done || lia)|done|done|]. by exists k1.
Qed.

Lemma vec_from_elem_ok k L c b count :
  la_owns k L c → 0 ≤ b < 256 → 0 < count ≤ 2 ^ 40 → pages_for (array_layout 1 count) ≤ c →
  ends out_of_memory (vec_from_elem b count k) (λ v k', ∃ B, vec_cap v = count ∧
    vec_rep 1 v (replicate (Z.to_nat count) b) B ∧ la_owns k' (B ++ L) (c - pages_for (array_layout 1 count))).
Proof.
  intros Ho Hb Hc Hpg. assert (Hw1 : width 1) by (by left).
  assert (Hcl : client_layout (array_layout 1 count)) by (apply array_client; (done || lia)).
  destruct (block_size_ge _ (cl_heap _ Hcl)) as [Hs _]. cbn [array_layout layout_size] in Hs.
  destruct (la_alloc k L c (array_layout 1 count) Ho Hcl Hpg) as (p & k1 & Hal & Hres).
  unfold vec_from_elem. destruct (Z.eqb_spec count 0); [lia|]. erewrite M_run by exact Hal.
  unfold non_null. destruct Hres as [[-> Hbad]|(Hp0 & Hp & bs & Hbl & Ho1)]; [by split|].
  destruct (Z.eqb_spec p 0); [done|]. erewrite (M_run (mret p)) by done.
  destruct (write_bytes_ok (Z.to_nat count) k1 L _ p bs 0 b Ho1) as (k2 & Hw & Ho2); [lia|done|].
  rewrite Z.add_0_r in Hw. erewrite M_run by exact Hw.
  assert (Henc : encode 1 (replicate (Z.to_nat count) b) = replicate (Z.to_nat count) b).
  { generalize (Z.to_nat count). intros m. induction m as [|m IH]; cbn; [done|].
    change (b mod 256 :: encode 1 (replicate m b) = b :: replicate m b). by rewrite IH, Z.mod_small. }
  assert (Hlen : (0 + length (replicate (Z.to_nat count) b) ≤ length bs)%nat) by (rewrite length_replicate; lia).
  exists [(p, overwrite 0 (replicate (Z.to_nat count) b) bs)]. split; [done|]. split; [|exact Ho2]. split; cbn [vec_len vec_cap vec_ptr].
  - rewrite length_replicate. lia.
  - apply Forall_replicate. unfold fits. cbn. lia.
  - done.
  - rewrite decide_False by lia. split; [done|]. exists (drop (length (replicate (Z.to_nat count) b)) bs).
    rewrite Henc. split; [done|]. rewrite <- Hbl. f_equal. by apply (length_overwrite 0).
Qed.

(** ** Boxes *)
Definition box_rep (p x : Z) (B : block) : Prop :=
  fits 8 x ∧ p mod 8 = 0 ∧ ∃ spare, B = (p, le_bytes 8 x ++ spare) ∧
    Z.of_nat (length (le_bytes 8 x ++ spare)) = block_size box_layout.

Lemma box_new_ok k L c x :
  la_owns k L c → fits 8 x → pages_for box_layout ≤ c →
  ends out_of_memory (box_new x k) (λ p k', ∃ B, box_rep p x B ∧ la_owns k' (B :: L) (c - pages_for box_layout)).
Proof.
  intros Ho Hx Hpg. destruct (la_alloc k L c box_layout Ho box_client Hpg) as (p & k1 & Hal & Hres).
  destruct (block_size_ge _ (cl_heap _ box_client)) as [Hs _]. cbn [box_layout layout_size] in Hs.
  unfold box_new. erewrite M_run by exact Hal. unfold non_null.
  destruct Hres as [[-> Hbad]|(Hp0 & Hp & bs & Hbl & Ho1)]; [by split|]. destruct (Z.eqb_spec p 0); [done|].
  erewrite (M_run (mret p)) by done.
  destruct (la_write k1 L _ p bs 8 0 x Ho1) as (k2 & Hw & Ho2); [unfold width; tauto|by rewrite Z.add_0_r|lia|].
  rewrite Z.add_0_r in Hw. erewrite M_run by exact Hw.
  eexists. split; [|exact Ho2]. split_and!; [done..|].
  exists (drop 8 bs). split; [done|]. rewrite <- Hbl. f_equal. by apply (length_overwrite 0 (le_bytes 8 x)); cbn; lia.
Qed.

Lemma box_get_ok k L c p x B :
  box_rep p x B → la_owns k L c → B ∈ L → box_get p k = Ret (x, k).
Proof.
  intros (Hx & Hp & spare & -> & _) Ho Hin. unfold box_get. rewrite <- (Z.add_0_r p).
  eapply (la_read k L c p _ 8 0 x Ho Hin); [unfold width; tauto|done|by rewrite Z.add_0_r|].
  rewrite drop_0. apply take_app_length'. by rewrite length_le_bytes.
Qed.

Lemma box_drop_ok k L c p x B :
  box_rep p x B → la_owns k (B :: L) c → ∃ k', box_drop p k = Ret (tt, k') ∧ la_owns k' L c.
Proof.
  intros (Hx & Hp & spare & -> & Hlen) Ho. by apply (la_dealloc k L c box_layout p _ Ho box_client).
Qed.

Lemma box_range k L c p x B :
  box_rep p x B → la_owns k L c → B ∈ L → HEAP_REGION_START ≤ p < HEAP_REGION_END.
Proof.
  intros (Hx & Hp & spare & -> & Hlen) Ho Hin. destruct (la_range k L c _ _ Ho Hin) as [? Hhi]; [done|].
  rewrite length_app, length_le_bytes in Hhi. lia.
Qed.

End specs.
