(* ===== verification/HeapClient.v ===== *)
(** The kernel heap keeps the allocator's contract.

    Reads and writes of kernel code go through the page tables at their own
    width.  A client owns blocks of heap memory; [heap_owns] ties them to the
    heap's invariant and to a credit of pages, for which there is address
    space; in [kernel_owns] there are also the four frames (the page and three
    tables) that mapping each of them can take. *)
From stdpp Require Import base numbers option gmap list_numbers list.
From S2P Require Import Prelude PhysAddr VirtAddr PageTableEntry Memory FrameAllocator FrameSource Vmm PageWalk VmmSpec VmmCorrect VmmTheorems HeapMemory LinkedListAllocator FreeBlocks FreeListSpec FreeListAlloc FreeListTheorems SpinLock Mmu Heap HeapGrowth HeapSpec HeapTheorems GlobalAlloc.

(** Accesses of kernel code to an [n]-byte integer at a virtual address. *)
Definition aligned_ptr (n : nat) (v : Z) : bool := negb (v =? 0) && (v mod Z.of_nat n =? 0).
Definition mmu_read {B} (n : nat) (s : machine B) (v : Z) : outcome Z :=
  if aligned_ptr n v then pa ← defined (phys_of s v); defined (load_le n (λ a, m_mem s !! a) pa) else Undef.
Definition mmu_write {B} (n : nat) (s : machine B) (v x : Z) : outcome (machine B) :=
  if aligned_ptr n v && page_writable (cpu_walk s v) then
    pa ← defined (phys_of s v); m ← defined (store_le n (m_mem s) pa x); Ret (set_mem s m)
  else Undef.

Section operations.
Context {P : BuildProfile} {A : Type} {FS : FrameSource A}.

Definition with_hardware (k : kernel A) (hw : machine unit) : kernel A :=
  mkKernel (inner k) (mkGlobals (FRAME_ALLOCATOR (global k)) (VMM (global k)) hw).

(** The global allocator and the memory, as kernel code uses them. *)
Definition kernel_alloc (fuel : nat) : GlobalAlloc (kernel A) := {|
  ga_alloc := Heap.alloc fuel;
  ga_dealloc := Heap.dealloc fuel;
  ga_read n v := λ k, x ← mmu_read n (hardware (global k)) v; Ret (x, k);
  ga_write n v x := λ k, hw ← mmu_write n (hardware (global k)) v x; Ret (tt, with_hardware k hw);
|}.
End operations.

(** ** Accesses to backed pages *)
Section access.
Context {B : Type}.
Implicit Types (s : machine B).

Lemma width_div n v i :
  width n → v mod Z.of_nat n = 0 → 0 ≤ i < Z.of_nat n →
  (v + i) / PAGE_SIZE = v / PAGE_SIZE ∧ (v + i) mod PAGE_SIZE = v mod PAGE_SIZE + i ∧ v mod PAGE_SIZE + Z.of_nat n ≤ PAGE_SIZE.
Proof. unfold PAGE_SIZE. intros [->|[->|[->| ->]]] Hv Hi; dlia. Qed.

(** The physical addresses behind an aligned access. *)
Lemma backed_run s hi frame n v i :
  backed s hi frame → width n → v mod Z.of_nat n = 0 → HEAP_REGION_START ≤ v < hi → 0 ≤ i < Z.of_nat n →
  HEAP_REGION_START ≤ v + i < hi ∧
  phys_of s (v + i) = Some (frame (v / PAGE_SIZE) * FRAME_SIZE + v mod PAGE_SIZE + i).
Proof.
  intros Hb Hn Hv Hr Hi. destruct (width_div n v i Hn Hv Hi) as (Hdiv & Hmod & Hle).
  assert (Hr' : HEAP_REGION_START ≤ v + i < hi).
  { pose proof (bd_aligned _ _ _ Hb). unfold PAGE_SIZE in *. dlia. }
  destruct (backed_access _ _ _ _ Hb Hr') as [_ ->]. rewrite Hdiv, Hmod. split; [done|]. f_equal. lia.
Qed.

Lemma aligned_ptr_ok n v : HEAP_REGION_START ≤ v → v mod Z.of_nat n = 0 → aligned_ptr n v = true.
Proof.
  intros Hv Hm. unfold aligned_ptr, HEAP_REGION_START in *. rewrite Hm.
  destruct (Z.eqb_spec v 0); [lia|done].
Qed.

Lemma mmu_read_ok s hi frame n v x :
  backed s hi frame → width n → v mod Z.of_nat n = 0 → HEAP_REGION_START ≤ v < hi → fits n x →
  (∀ i b, le_bytes n x !! i = Some b → mmu_byte s (v + Z.of_nat i) = Some b) →
  mmu_read n s v = Ret x.
Proof.
  intros Hb Hn Hv Hr Hx Hbytes. unfold mmu_read. rewrite aligned_ptr_ok by (done || lia).
  destruct (backed_access _ _ _ _ Hb Hr) as [_ Hph]. rewrite Hph. cbn [defined mbind outcome_bind].
  rewrite (load_le_bytes_of n _ _ x Hx); [done|]. intros i b Hi. specialize (Hbytes i b Hi).
  assert (Hlt : (i < n)%nat) by (apply lookup_lt_Some in Hi; by rewrite length_le_bytes in Hi).
  unfold mmu_byte in Hbytes. destruct (backed_run s hi frame n v (Z.of_nat i)) as [_ Hp]; [done..|lia|].
  by rewrite Hp in Hbytes.
Qed.

Lemma backed_page_mapped s hi frame x :
  backed s hi frame → HEAP_REGION_START ≤ x < hi →
  mapped (m_mem s) (frame (x / PAGE_SIZE) * FRAME_SIZE) FRAME_SIZE ∧ is_Some (mmu_byte s x).
Proof.
  intros Hb Hx. pose proof (bd_page _ _ _ Hb _ (page_in_heap _ _ Hx)) as [_ _ Hm _]. split; [done|].
  unfold mmu_byte. destruct (backed_access _ _ _ _ Hb Hx) as [_ ->]. cbn. apply Hm.
  generalize (frame (x / PAGE_SIZE)). unfold FRAME_SIZE, PAGE_SIZE. intros. dlia.
Qed.

(** A write of an owned integer: its bytes change, every other heap byte,
    every table and every translation stays. *)
Lemma mmu_write_ok s hi frame n v x :
  backed s hi frame → width n → v mod Z.of_nat n = 0 → HEAP_REGION_START ≤ v < hi →
  ∃ s', mmu_write n s v x = Ret s' ∧ mmu_frame s s' ∧
    (∀ i b, le_bytes n x !! i = Some b → mmu_byte s' (v + Z.of_nat i) = Some b) ∧
    (∀ y, HEAP_REGION_START ≤ y < hi → ¬ (v ≤ y < v + Z.of_nat n) → mmu_byte s' y = mmu_byte s y).
Proof.
  intros Hb Hn Hv Hr. destruct (backed_access _ _ _ _ Hb Hr) as [Hw Hph].
  destruct (backed_page_mapped s hi frame v Hb Hr) as [Hm _]. set (f := frame (v / PAGE_SIZE)) in *.
  assert (Hn0 : 0 < Z.of_nat n) by (destruct Hn as [->|[->|[->| ->]]]; lia).
  destruct (width_div n v 0 Hn Hv) as (_ & _ & Hfit); [lia|].
  set (pa := f * FRAME_SIZE + v mod PAGE_SIZE) in *.
  assert (Hoff : 0 ≤ v mod PAGE_SIZE) by (apply Z.mod_pos_bound; done).
  destruct (store_le_Some n (m_mem s) pa x) as [m' Hs].
  { intros i Hi. apply Hm. unfold pa, FRAME_SIZE, PAGE_SIZE in *. lia. }
  assert (Hother := store_le_other n (m_mem s) pa x m'). assert (Hdom := store_le_dom n (m_mem s) pa x m').
  assert (Hframe : mmu_frame s (set_mem s m')).
  { apply (frame_write_frame _ _ f); [apply Hb| | |intros a; by apply Hdom].
    - apply (bd_page _ _ _ Hb). by apply page_in_heap.
    - intros a Ha. apply Hother; [done|]. intros Hin. apply Ha. unfold pa, FRAME_SIZE, PAGE_SIZE in *. dlia. }
  assert (Hphs : ∀ y, phys_of (set_mem s m') y = phys_of s y).
  { intros y. unfold phys_of, cpu_walk. by rewrite <- (mf_walk _ _ Hframe). }
  exists (set_mem s m'). split_and!; [|done| |].
  - unfold mmu_write. rewrite aligned_ptr_ok by (done || lia). rewrite Hw, Hph. cbn [page_writable andb].
    rewrite new_leaf_writable. cbn [read_write writable defined mbind outcome_bind]. by rewrite Hs.
  - intros i b Hi. assert (Hlt : (i < n)%nat) by (apply lookup_lt_Some in Hi; by rewrite length_le_bytes in Hi).
    unfold mmu_byte. rewrite Hphs. destruct (backed_run s hi frame n v (Z.of_nat i)) as [_ ->]; [done..|lia|].
    cbn. by eapply store_le_lookup.
  - intros y Hy Hout. unfold mmu_byte. rewrite Hphs. destruct (backed_access _ _ _ _ Hb Hy) as [_ ->]. cbn.
    apply Hother; [done|]. intros Hin.
    assert (Heq : frame (y / PAGE_SIZE) = f).
    { unfold pa, FRAME_SIZE, PAGE_SIZE in *. generalize dependent (frame (y / 4096)). intros. dlia. }
    assert (Hk : y / PAGE_SIZE = v / PAGE_SIZE) by (apply (bd_inj _ _ _ Hb); [by apply page_in_heap..|done]).
    rewrite Heq in Hin. unfold pa, FRAME_SIZE, PAGE_SIZE in *. dlia.
Qed.
End access.

(** ** Owning blocks *)
Definition in_block (b : block) (x : Z) : Prop := b.1 ≤ x < b.1 + Z.of_nat (length b.2).
Fixpoint apart (L : list block) : Prop :=
  match L with
  | [] => True
  | b :: L => Forall (λ b', ∀ x, in_block b x → ¬ in_block b' x) L ∧ apart L
  end.

Lemma apart_perm L L' : L ≡ₚ L' → apart L → apart L'.
Proof.
  induction 1 as [|b L L' Hp IH|b1 b2 L|L1 L2 L3 _ IH1 _ IH2]; cbn [apart]; [done| | |auto].
  - intros [Hb HL]. split; [by rewrite <- Hp|auto].
  - rewrite !Forall_cons. intros ((H12 & H1) & H2 & HL). split_and!; try done. intros x Hx Hx2. by apply (H12 x).
Qed.

Section owning.
Context {P : BuildProfile} {A : Type} {FS : FrameSource A}.
Context (self : VirtualMemoryManager) (top : Z) (short : Prop) (fuel : nat).
Implicit Types (k : kernel A) (hw : machine unit) (a : A) (l : blocks) (L : list block).

(** The free frames page tables can use. *)
Definition low_pool a : gset Z := filter (λ f, f * FRAME_SIZE < IDENTITY_MAP_LIMIT) (fs_free a).

Definition block_held hw (hi : Z) l (b : block) : Prop :=
  ∀ i x, b.2 !! i = Some x → HEAP_REGION_START ≤ b.1 + Z.of_nat i < hi ∧
    ¬ covers l (b.1 + Z.of_nat i) ∧ mmu_byte hw (b.1 + Z.of_nat i) = Some x.

(** Memory is [short], or there are frames for the credit. *)
Record owns_with k L (c : Z) a frame l : Prop := {
  ow_lock : locked (inner k) = false;
  ow_heap : heap_ok self a frame (data (inner k)) (global k) l;
  ow_held : Forall (block_held (hardware (global k)) (next_unmapped (data (inner k))) l) L;
  ow_apart : apart L;
  ow_credit : 0 ≤ c;
  ow_frames : short ∨ 4 * c + 2 ≤ Z.of_nat (size (low_pool a));
  ow_room : next_unmapped (data (inner k)) + c * PAGE_SIZE ≤ top;
}.
Definition heap_owns k L (c : Z) : Prop := ∃ a frame l, owns_with k L c a frame l.

Lemma block_held_in hw hi l b x :
  block_held hw hi l b → in_block b x → HEAP_REGION_START ≤ x < hi ∧ ¬ covers l x.
Proof.
  intros Hb Hx. unfold in_block in Hx. destruct (lookup_lt_is_Some_2 b.2 (Z.to_nat (x - b.1))) as [y Hy]; [lia|].
  specialize (Hb _ _ Hy). replace (b.1 + Z.of_nat (Z.to_nat (x - b.1))) with x in Hb by lia. tauto.
Qed.

(** A held block stays held while its bytes stay and stay out of the free list. *)
Lemma block_held_mono hw hw' hi hi' l l' b :
  block_held hw hi l b → hi ≤ hi' →
  (∀ x, in_block b x → HEAP_REGION_START ≤ x < hi → ¬ covers l x → ¬ covers l' x ∧ mmu_byte hw' x = mmu_byte hw x) →
  block_held hw' hi' l' b.
Proof.
  intros Hb Hhi Hx i y Hi. destruct (Hb i y Hi) as (Hr & Hn & Hby).
  destruct (Hx (b.1 + Z.of_nat i)) as [Hn' Hby']; [|done..|].
  - pose proof (lookup_lt_Some _ _ _ Hi). unfold in_block. lia.
  - split_and!; [lia|lia|done|by rewrite Hby'].
Qed.

Lemma low_spent a a' n :
  spent a a' n → Z.of_nat (size (low_pool a)) ≤ Z.of_nat (size (low_pool a')) + n.
Proof.
  intros [Hsub Hn].
  assert (Hd : low_pool a ⊆ low_pool a' ∪ (fs_free a ∖ fs_free a')).
  { intros f. unfold low_pool. rewrite elem_of_union, !elem_of_filter, elem_of_difference.
    destruct (decide (f ∈ fs_free a')); naive_solver. }
  apply subseteq_size in Hd. rewrite size_union_alt in Hd.
  assert (Hs : (size ((fs_free a ∖ fs_free a') ∖ low_pool a') ≤ size (fs_free a ∖ fs_free a'))%nat)
    by (apply subseteq_size; set_solver).
  rewrite (size_difference (fs_free a)) in Hs by done. apply subseteq_size in Hsub. lia.
Qed.

(** With only one usable frame left the pool has at most one low frame. *)
Lemma low_exhausted a f :
  (∀ h, h ∈ fs_free a → h ≠ f → IDENTITY_MAP_LIMIT ≤ h * FRAME_SIZE) → Z.of_nat (size (low_pool a)) ≤ 1.
Proof.
  intros Hh. assert (Hs : low_pool a ⊆ {[f]}).
  { intros h. unfold low_pool. rewrite elem_of_filter, elem_of_singleton. intros [Hl Hin].
    destruct (decide (h = f)); [done|]. specialize (Hh h Hin ltac:(done)). lia. }
  apply subseteq_size in Hs. rewrite size_singleton in Hs. lia.
Qed.

(** The free list fits in the fuel. *)
Lemma free_list_length k L c a frame l :
  owns_with k L c a frame l → 16 * Z.of_nat (length l) ≤ top - HEAP_REGION_START + 1.
Proof.
  intros [_ [_ _ Hp Hrep] _ _ Hc _ Hroom].
  assert (Hwf : wf_from (HEAP_REGION_START - 1) (next_unmapped (data (inner k))) l).
  { eapply wf_from_lower; [apply Hrep|]. intros b t Hin.
    destruct (wf_elem _ _ _ _ _ (rep_wf _ _ _ Hrep) Hin) as (_ & Hb8 & _ & Ht & _).
    assert (Hc' : covers l b) by (exists b, t; split; [done|lia]).
    pose proof (covers_heap _ _ _ _ Hrep Hb8 Hc'). lia. }
  destruct (bd_hi _ _ _ (hp_backed _ _ _ _ _ Hp)) as [Hlo _].
  apply wf_length in Hwf; unfold PAGE_SIZE in *; lia.
Qed.

Lemma block_size_props layout : heap_layout layout → block_size layout mod 8 = 0 ∧ 16 ≤ block_size layout.
Proof.
  intros [Hv Hm _]. destruct (adjusted_ok layout Hv Hm) as (sz & al & Hadj & [_ Hsz Hmin _] & _).
  unfold block_size. by rewrite Hadj.
Qed.

(** The bytes a fresh block holds. *)
Definition bytes_at hw (p : Z) (n : nat) : list Z := (λ i, default 0 (mmu_byte hw (p + Z.of_nat i))) <$> seq 0 n.
Lemma bytes_at_lookup hw p n i x : bytes_at hw p n !! i = Some x → (i < n)%nat ∧ x = default 0 (mmu_byte hw (p + Z.of_nat i)).
Proof.
  unfold bytes_at. rewrite list_lookup_fmap. intros (j & Hj & ->)%fmap_Some. apply lookup_seq in Hj as [-> ?]. done.
Qed.

Context (Hfuel : top - HEAP_REGION_START + 64 ≤ 16 * Z.of_nat fuel) (Htop : top ≤ HEAP_REGION_END).

(** What an allocation gives: a fresh block, everything held before still held. *)
Lemma owns_alloc k L c layout :
  heap_owns k L c → client_layout layout → pages_for layout ≤ c →
  ∃ p k', Heap.alloc fuel layout k = Ret (p, k') ∧
    ((p = 0 ∧ short) ∨ p ≠ 0 ∧ p mod 8 = 0 ∧ ∃ bs,
      Z.of_nat (length bs) = block_size layout ∧ heap_owns k' ((p, bs) :: L) (c - pages_for layout)).
Proof using Hfuel Htop.
  intros (a & frame & l & Hw) [Hlay Hal] Hpg. pose proof (free_list_length _ _ _ _ _ _ Hw) as Hlen.
  destruct Hw as [Hlk Hok Hheld Hap Hc Hfr Hroom].
  destruct (kernel_alloc_ok self a frame k l layout fuel Hlk Hok Hlay ltac:(lia)) as (p & k' & a' & fr' & l' & Hrun & Hpost).
  destruct Hpost as [Hlk' Hok' [Hn Hn'] Hfree Hblk Hnull Hsp Hby]. unfold heap_limit in *.
  pose proof (low_spent _ _ _ Hsp) as Hlow. destruct (pages_for_bounds layout (heap_layout_size _ Hlay)) as [Hpb _].
  exists p, k'. split; [done|]. destruct (decide (p = 0)) as [Hp0|Hp0].
  { left. split; [done|]. destruct Hfr as [?|Hfr]; [done|exfalso].
    destruct (Hnull Hp0 Hal) as (_ & _ & [?|[f Hf]]); [unfold PAGE_SIZE in *; lia|].
    pose proof (low_exhausted _ _ Hf). lia. }
  right. destruct (Hblk Hp0) as (_ & Hreg & Hold). destruct (block_size_props layout Hlay) as [_ Hb16].
  set (bs := bytes_at (hardware (global k')) p (Z.to_nat (block_size layout))).
  assert (Hbl : Z.of_nat (length bs) = block_size layout) by (unfold bs, bytes_at; rewrite length_fmap, length_seq; lia).
  split; [done|]. split; [exact (rg_addr _ _ _ _ _ Hreg)|]. exists bs. split; [done|]. exists a', fr', l'.
  split; [done..| | |lia|destruct Hfr; [by left|right; lia]|].
  - apply Forall_cons. split.
    + intros i x Hi. cbn [fst snd] in *. apply bytes_at_lookup in Hi as [Hi ->].
      assert (Hr : HEAP_REGION_START ≤ p + Z.of_nat i < next_unmapped (data (inner k'))).
      { destruct (rg_owned _ _ _ _ _ Hreg p) as (_ & h & f & Hr & _); [exact (rg_addr _ _ _ _ _ Hreg)|lia|].
        pose proof (rg_end _ _ _ _ _ Hreg). lia. }
      split_and!; [lia|lia|apply (rg_disjoint _ _ _ _ _ Hreg); lia|].
      destruct (backed_page_mapped _ _ _ _ (hp_backed _ _ _ _ _ (hk_phys _ _ _ _ _ _ Hok')) Hr) as [_ [b Hb]].
      cbn [hardware global] in Hb. by rewrite Hb.
    + eapply Forall_impl; [exact Hheld|]. intros b Hb. eapply block_held_mono; [exact Hb|done|].
      intros x Hx Hr Hnc. split; [|by apply Hby]. intros [?|?]%Hfree; [done|lia].
  - cbn [apart]. split; [|done]. eapply Forall_impl; [exact Hheld|]. intros b Hb x Hx Hxb.
    destruct (block_held_in _ _ _ _ _ Hb Hxb) as [Hr Hnc]. unfold in_block in Hx. cbn [fst snd] in Hx.
    destruct (Hold x) as [?|?]; [lia|done|lia].
  - unfold PAGE_SIZE in *. lia.
Qed.

Lemma owns_dealloc k L c layout p bs :
  heap_owns k ((p, bs) :: L) c → client_layout layout → p mod 8 = 0 →
  Z.of_nat (length bs) = block_size layout →
  ∃ k', Heap.dealloc fuel p layout k = Ret (tt, k') ∧ heap_owns k' L c.
Proof using Hfuel Htop.
  intros (a & frame & l & Hw) [Hlay Hal] Hp8 Hlen. pose proof (free_list_length _ _ _ _ _ _ Hw) as Hll.
  destruct Hw as [Hlk Hok [Hb Hheld]%Forall_cons [Hap Hap'] Hc Hfr Hroom].
  destruct (block_size_props layout Hlay) as [Hb8 Hb16].
  assert (Hin : ∀ x, p ≤ x < p + block_size layout →
    HEAP_REGION_START ≤ x < next_unmapped (data (inner k)) ∧ ¬ covers l x).
  { intros x Hx. apply (block_held_in _ _ _ _ _ Hb). unfold in_block. cbn. lia. }
  assert (Hreg : region (next_unmapped (data (inner k))) (allocator (data (inner k)), hardware (global k)) l p
    (block_size layout)).
  { destruct (Hin p ltac:(lia)) as [Hp _]. destruct (Hin (p + block_size layout - 1) ltac:(lia)) as [He _].
    split; [apply Hok|unfold HEAP_REGION_START in *; lia|done|done|done|lia|intros x Hx; by apply Hin|].
    intros q Hq Hx. split; [done|]. exists (next_unmapped (data (inner k))), frame. split; [by apply Hin|apply Hok]. }
  destruct (kernel_dealloc_ok self a frame k l layout p fuel Hlk Hok Hlay Hreg ltac:(lia))
    as (k' & l' & Hrun & Hlk' & Hok' & Hn & Hc' & Hby).
  exists k'. split; [done|]. exists a, frame, l'. split; try done; [|by rewrite Hn].
  rewrite Forall_forall in Hheld, Hap |- *. intros b' Hin'. eapply block_held_mono; [by apply Hheld|by rewrite Hn|].
  intros x Hx Hr Hnc.
  assert (Hnc' : ¬ covers l' x).
  { intros [?|?]%Hc'; [done|]. apply (Hap b' Hin' x); [unfold in_block; cbn; lia|done]. }
  split; [done|]. by apply Hby.
Qed.

Lemma owns_read k L c p bs n off x :
  heap_owns k L c → (p, bs) ∈ L → width n → fits n x → (p + Z.of_nat off) mod Z.of_nat n = 0 →
  take n (drop off bs) = le_bytes n x →
  (y ← mmu_read n (hardware (global k)) (p + Z.of_nat off); Ret (y, k)) = Ret (x, k).
Proof using Type.
  clear Hfuel Htop. intros (a & frame & l & [_ Hok Hheld _ _ _ _]) Hin Hn Hx Hal Hb. rewrite Forall_forall in Hheld.
  pose proof (Hheld _ Hin) as Hblk. cbn [fst snd] in Hblk.
  assert (Hbytes : ∀ i b, le_bytes n x !! i = Some b →
    HEAP_REGION_START ≤ p + Z.of_nat off + Z.of_nat i < next_unmapped (data (inner k)) ∧
    mmu_byte (hardware (global k)) (p + Z.of_nat off + Z.of_nat i) = Some b).
  { intros i b Hi. rewrite <- Hb in Hi.
    assert (Hlt : (i < n)%nat) by (apply lookup_lt_Some in Hi; rewrite length_take in Hi; lia).
    rewrite lookup_take_lt, lookup_drop in Hi by done.
    destruct (Hblk _ _ Hi) as (Hr & _ & Hby). cbn [fst snd] in *.
    by replace (p + Z.of_nat off + Z.of_nat i) with (p + Z.of_nat (off + i)) by lia. }
  rewrite (mmu_read_ok _ (next_unmapped (data (inner k))) frame n _ x); [done|apply Hok|done|done| |done|].
  - destruct (lookup_lt_is_Some_2 (le_bytes n x) 0) as [b Hb0].
    { rewrite length_le_bytes. destruct Hn as [->|[->|[->| ->]]]; lia. }
    destruct (Hbytes 0%nat b Hb0) as [Hr _]. lia.
  - intros i b Hi. by apply Hbytes.
Qed.

(** A write inside a held block keeps the heap's invariant. *)
Lemma write_heap_ok a frame state g l hw' v n :
  heap_ok self a frame state g l → mmu_frame (hardware g) hw' → width n → v mod Z.of_nat n = 0 →
  (∀ y, v ≤ y < v + Z.of_nat n → ¬ covers l y) →
  (∀ y, HEAP_REGION_START ≤ y < next_unmapped state → ¬ (v ≤ y < v + Z.of_nat n) →
     mmu_byte hw' y = mmu_byte (hardware g) y) →
  heap_ok self a frame state (mkGlobals (FRAME_ALLOCATOR g) (VMM g) hw') l.
Proof using Type.
  clear Hfuel Htop. intros [Hfr Hvm Hp Hrep] Hf Hn Hal Hnc Hby. pose proof (heap_phys_frame _ _ _ _ _ _ Hf Hp) as Hp'.
  split; [done|done|done|]. cbn [hardware]. eapply rep_ext; [exact Hrep|]. intros q Hq Hc.
  pose proof (covers_heap _ _ _ _ Hrep Hq Hc) as Hr.
  pose proof (hp_backed _ _ _ _ _ Hp) as Hb. pose proof (hp_backed _ _ _ _ _ Hp') as Hb'.
  split; [|split; [done|by exists (next_unmapped state), frame]].
  change (mmu_word hw' q = mmu_word (hardware g) q). unfold mmu_word.
  destruct (backed_access _ _ _ _ Hb Hr) as [_ ->]. destruct (backed_access _ _ _ _ Hb' Hr) as [_ ->].
  cbn [default]. apply word_ext. intros i Hi.
  set (pa := frame (q / PAGE_SIZE) * FRAME_SIZE + q mod PAGE_SIZE) in *. cbn in Hi.
  destruct (backed_bytes _ _ _ q (i - pa) Hb Hr Hq) as [Hr1 Hph1]; [lia|].
  destruct (backed_bytes _ _ _ q (i - pa) Hb' Hr Hq) as [_ Hph2]; [lia|].
  assert (Hyc : covers l (q + (i - pa))) by (by rewrite (covers_word _ _ _ _ _ (rep_wf _ _ _ Hrep)) by (done || lia)).
  specialize (Hby (q + (i - pa)) Hr1). unfold mmu_byte in Hby. rewrite Hph1, Hph2 in Hby. cbn in Hby.
  fold pa in Hby. replace (pa + (i - pa)) with i in Hby by lia. apply Hby. intros Hin. by apply (Hnc _ Hin).
Qed.

Lemma owns_write k L c p bs n off x :
  heap_owns k ((p, bs) :: L) c → width n → (p + Z.of_nat off) mod Z.of_nat n = 0 → (off + n ≤ length bs)%nat →
  ∃ k', (hw ← mmu_write n (hardware (global k)) (p + Z.of_nat off) x; Ret (tt, with_hardware k hw)) = Ret (tt, k') ∧
    heap_owns k' ((p, overwrite off (le_bytes n x) bs) :: L) c.
Proof using Type.
  clear Hfuel Htop. intros (a & frame & l & [Hlk Hok [Hb Hheld]%Forall_cons [Hap Hap'] Hc Hfr Hroom]) Hn Hal Hlen.
  assert (Hn0 : (0 < n)%nat) by (destruct Hn as [->|[->|[->| ->]]]; lia).
  assert (Hin : ∀ y, p + Z.of_nat off ≤ y < p + Z.of_nat off + Z.of_nat n → in_block (p, bs) y)
    by (intros y Hy; unfold in_block; cbn; lia).
  destruct (block_held_in _ _ _ _ _ Hb (Hin (p + Z.of_nat off) ltac:(lia))) as [Hr _].
  destruct (mmu_write_ok _ _ frame n (p + Z.of_nat off) x (hp_backed _ _ _ _ _ (hk_phys _ _ _ _ _ _ Hok)) Hn Hal Hr)
    as (hw' & Hw & Hf & Hnew & Hold).
  exists (with_hardware k hw'). rewrite Hw. split; [done|]. exists a, frame, l.
  assert (Hlen' : (off + length (le_bytes n x) ≤ length bs)%nat) by (by rewrite length_le_bytes).
  split; cbn [with_hardware inner global hardware]; try done.
  - eapply write_heap_ok; try done. intros y Hy. by eapply block_held_in, Hin.
  - apply Forall_cons. split.
    + intros i b. cbn [fst snd]. rewrite overwrite_lookup, length_le_bytes by done. case_decide as Hi; intros Hb'.
      * destruct (lookup_lt_is_Some_2 bs i) as [b0 Hb0]; [lia|]. destruct (Hb i b0 Hb0) as (Hr' & Hnc & _).
        split_and!; [apply Hr'|apply Hr'|done|]. specialize (Hnew _ _ Hb'). rewrite <- Hnew. f_equal. lia.
      * destruct (Hb i b Hb') as (Hr' & Hnc & Hby). cbn [fst snd] in *. split_and!; [apply Hr'|apply Hr'|done|].
        rewrite Hold; [done|done|lia].
    + rewrite Forall_forall in Hheld, Hap |- *. intros b' Hin'. eapply block_held_mono; [by apply Hheld|done|].
      intros y Hy Hry Hnc. split; [done|]. apply Hold; [done|]. intros Hyin. by apply (Hap b' Hin' y); [apply Hin|].
  - cbn [apart]. split; [|done]. eapply Forall_impl; [exact Hap|]. cbn. intros b' Hb' y Hy. apply Hb'.
    unfold in_block in *. cbn [fst snd] in *. by rewrite length_overwrite in Hy.
Qed.

#[local] Program Instance kernel_lawful : LawfulAlloc (kernel A) (G := kernel_alloc fuel) := {|
  la_owns := heap_owns;
  la_fails := short;
|}.
Next Obligation.
  intros k L L' c Hp (a & fr & l & []). exists a, fr, l. split; try done; [by rewrite <- Hp|by eapply apart_perm].
Qed.
Next Obligation.
  intros k L c c' Hc (a & fr & l & [? ? ? ? ? Hf ?]). exists a, fr, l.
  split; try done; [lia|destruct Hf; [by left|right; lia]|unfold PAGE_SIZE in *; lia].
Qed.
Next Obligation.
  intros k L c p bs (a & fr & l & [_ Hok Hheld _ _ _ _]) Hin Hne. rewrite Forall_forall in Hheld.
  assert (0 < Z.of_nat (length bs)) by (destruct bs; [done|cbn; lia]).
  destruct (block_held_in _ _ _ _ p (Hheld _ Hin)) as [Hlo _]; [unfold in_block; cbn; lia|].
  destruct (block_held_in _ _ _ _ (p + Z.of_nat (length bs) - 1) (Hheld _ Hin)) as [Hhi _]; [unfold in_block; cbn; lia|].
  destruct (bd_hi _ _ _ (hp_backed _ _ _ _ _ (hk_phys _ _ _ _ _ _ Hok))). lia.
Qed.
Next Obligation.
  intros k L c p bs q cs (a & fr & l & [_ _ _ [[Hap _]%Forall_cons _] _ _ _]) Hb Hc ->.
  apply (Hap q); unfold in_block; cbn; [destruct bs; [done|cbn; lia]|destruct cs; [done|cbn; lia]].
Qed.
Next Obligation. exact owns_alloc. Qed.
Next Obligation. exact owns_dealloc. Qed.
Next Obligation. exact owns_read. Qed.
Next Obligation. exact owns_write. Qed.

End owning.

(** Owning blocks on a heap with memory for its credit. *)
Definition kernel_owns {P : BuildProfile} {A : Type} {FS : FrameSource A} self top (k : kernel A) L c : Prop :=
  heap_owns self top False k L c.


Lemma demo_owns : kernel_owns (P := release_profile) demo_vmm HEAP_REGION_START demo_kernel [] 0.
Proof.
  exists demo_fa, (λ _, 0), []. split; [reflexivity|exact demo_heap_ok|constructor|done|done| |done]. right.
  assert (Hs : size (low_pool (P := release_profile) demo_fa) = 5%nat) by (vm_compute; reflexivity). lia.
Qed.
