(* ===== verification/HeapSelfTest.v ===== *)
(** The boot self-test of the kernel heap: [run_heap_boot_self_test] of
    [kernel/src/main.rs].

    The test allocates through [Box] and [Vec]; it is modelled over any
    allocator and proved against the allocator's contract, then applied to
    the kernel heap.  A value that goes out of scope is dropped, on the paths
    that return early too. *)
From Stdlib Require Import String.
From stdpp Require Import base numbers option gmap list_numbers list.
From S2P Require Import Prelude Memory FrameSource Vmm LinkedListAllocator FreeListAlloc FreeListTheorems SpinLock Mmu Heap HeapTheorems Serial SelfTest GlobalAlloc AllocCrate HeapClient.

(** [for i in ..]: leave the loop with [false] as soon as the body does. *)
Fixpoint for_all {S} (n : nat) (i : Z) (body : Z → M S bool) : M S bool :=
  match n with
  | O => mret true
  | Datatypes.S n => ok ← body i; if (ok : bool) then for_all n (i + 1) body else mret false
  end.

Definition SMALL_COUNT : nat := 100.
Definition LARGE_COUNT : nat := Z.to_nat 20000.
Definition BOXED_VALUE : Z := 0xDEADBEEFCAFEBABE.

Section test.
Context {P : BuildProfile} {K : Type} {G : GlobalAlloc K} {L : Line} (fuel : nat).

(** Check 1: one [Box]. *)
Definition check_boxed (boxed : Z) : M (K * uart) bool :=
  if (boxed <? HEAP_REGION_START) || (HEAP_REGION_END <=? boxed) then
    fail_with fuel "  FAIL: heap allocation address is outside the kernel heap region (ADR-002)."
  else
  value ← within (box_get boxed);
  if negb (value =? BOXED_VALUE) then fail_with fuel "  FAIL: Box value did not round-trip correctly." else
  pass_with fuel "  [OK] Box<u64> allocated in the correct heap region, value round-tripped.".
Definition check_one_box : M (K * uart) bool :=
  boxed ← within (box_new BOXED_VALUE);
  ok ← check_boxed boxed;
  _ ← within (box_drop boxed);
  mret ok.

(** Check 2: a hundred boxes in a [Vec]. *)
Fixpoint push_boxes (n : nat) (i : Z) (v : Vec) : M K Vec :=
  match n with
  | O => mret v
  | S n => b ← box_new i; v ← push 8 v b; push_boxes n (i + 1) v
  end.
Definition boxes_distinct (v : Vec) : M K bool :=
  for_all SMALL_COUNT 0 (λ i, for_all (SMALL_COUNT - Z.to_nat (i + 1)) (i + 1) (λ j,
    a ← vec_index 8 v i; b ← vec_index 8 v j; mret (negb (a =? b)))).
Definition boxes_intact (v : Vec) : M K bool :=
  for_all (Z.to_nat (vec_len v)) 0 (λ i, b ← vec_index 8 v i; x ← box_get b; mret (x =? i)).
(** Dropping the vector drops its boxes, then its buffer. *)
Fixpoint drop_elements (n : nat) (i : Z) (v : Vec) : M K unit :=
  match n with
  | O => mret tt
  | S n => b ← vec_index 8 v i; _ ← box_drop b; drop_elements n (i + 1) v
  end.
Definition drop_boxes (v : Vec) : M K unit := _ ← drop_elements (Z.to_nat (vec_len v)) 0 v; vec_drop 8 v.

Definition check_small (small_allocs : Vec) : M (K * uart) bool :=
  distinct ← within (boxes_distinct small_allocs);
  if negb distinct then fail_with fuel "  FAIL: two live heap allocations share the same address." else
  intact ← within (boxes_intact small_allocs);
  if negb intact then fail_with fuel "  FAIL: a small allocation's value was corrupted." else
  pass_with fuel "  [OK] 100 small allocations, all distinct addresses, all values intact.".
Definition check_many_boxes : M (K * uart) bool :=
  small_allocs ← within (push_boxes SMALL_COUNT 0 (vec_new 8));
  ok ← check_small small_allocs;
  _ ← within (drop_boxes small_allocs);
  mret ok.

(** Check 3: a vector that grows many times. *)
Fixpoint push_range (n : nat) (i : Z) (v : Vec) : M K Vec :=
  match n with
  | O => mret v
  | S n => v ← push 4 v i; push_range n (i + 1) v
  end.
Fixpoint sum_vec (n : nat) (i : Z) (v : Vec) (acc : Z) : M K Z :=
  match n with
  | O => mret acc
  | S n => x ← vec_index 4 v i; acc ← lift (add64 acc x); sum_vec n (i + 1) v acc
  end.
Fixpoint sum_range (n : nat) (i acc : Z) : outcome Z :=
  match n with
  | O => Ret acc
  | S n => acc ← add64 acc i; sum_range n (i + 1) acc
  end.
Definition check_large (large_vec : Vec) : M (K * uart) bool :=
  if negb (vec_len large_vec =? Z.of_nat LARGE_COUNT) then
    fail_with fuel "  FAIL: large Vec did not reach the expected length."
  else
  sum ← within (sum_vec (Z.to_nat (vec_len large_vec)) 0 large_vec 0);
  expected_sum ← lift (sum_range LARGE_COUNT 0 0);
  if negb (sum =? expected_sum) then
    fail_with fuel "  FAIL: large Vec contents were corrupted (checksum mismatch)."
  else
  pass_with fuel "  [OK] 20,000-element Vec<u32> (multiple growth cycles) built and checksum verified.".
Definition check_large_vec : M (K * uart) bool :=
  large_vec ← within (push_range LARGE_COUNT 0 (vec_new 4));
  ok ← check_large large_vec;
  _ ← within (vec_drop 4 large_vec);
  mret ok.

(** Check 4: allocate and release repeatedly. *)
Definition churned (churn : Vec) : M K bool :=
  if negb (vec_len churn =? 8192) then mret false else
  a ← vec_index 1 churn 0;
  if negb (a =? 0xAA) then mret false else
  b ← vec_index 1 churn 8191;
  mret (b =? 0xAA).
Definition check_churn : M (K * uart) bool :=
  churn ← within (vec_from_elem 0xAA 8192);
  good ← within (churned churn);
  ok ← (if negb good then fail_with fuel "  FAIL: churned allocation had incorrect contents." else mret true);
  _ ← within (vec_drop 1 churn);
  mret ok.
Definition check_reuse : M (K * uart) bool :=
  for_all 5 0 (λ _, check_churn) &&!
  pass_with fuel "  [OK] Repeated large alloc/free cycles completed (freed space is being reused).".

Definition run_heap_boot_self_test : M (K * uart) bool :=
  _ ← say fuel (CRLF ++ line "Running kernel heap allocator boot self-test...");
  check_one_box &&! check_many_boxes &&! check_large_vec &&! check_reuse &&!
  pass_with fuel "Kernel heap allocator boot self-test: ALL CHECKS PASSED.".

End test.

(** ** Loops *)
Lemma for_all_inv {S} err (I : Z → S → Prop) n i body s :
  I i s →
  (∀ j t, i ≤ j < i + Z.of_nat n → I j t → passing err (body j t) (I (j + 1))) →
  passing err (for_all n i body s) (I (i + Z.of_nat n)).
Proof.
  revert i s. induction n as [|n IH]; intros i s HI Hstep; cbn [for_all].
  - split; [done|]. by rewrite Z.add_0_r.
  - eapply ends_bind; [apply Hstep; [lia|done]|]. cbn. intros ok t [-> Ht].
    replace (i + Z.of_nat (Datatypes.S n)) with (i + 1 + Z.of_nat n) by lia. apply IH; [done|].
    intros j t' Hj. apply Hstep. lia.
Qed.
Lemma for_all_pure {S} n i (body : Z → M S bool) s :
  (∀ j, i ≤ j < i + Z.of_nat n → body j s = Ret (true, s)) → for_all n i body s = Ret (true, s).
Proof.
  intros Hb. destruct (ends_sure _ _ _ (for_all_inv (λ _, False) (λ _ t, t = s) n i body s eq_refl
    ltac:(intros j t Hj ->; eapply passing_ret; [by apply Hb|done])) (λ _ H, H)) as (ok & s' & Hr & -> & ->). done.
Qed.

Lemma sum_range_ok {P : BuildProfile} n i acc :
  0 ≤ i → 0 ≤ acc → acc + Z.of_nat n * (i + Z.of_nat n) < 2 ^ 64 →
  sum_range n i acc = Ret (acc + foldr Z.add 0 (seqZ i (Z.of_nat n))).
Proof.
  revert i acc. induction n as [|n IH]; intros i acc Hi Ha Hmax; cbn [sum_range].
  { change (Ret acc = Ret (acc + 0)). f_equal. lia. }
  assert (Hmax' : acc + i + Z.of_nat n * (i + 1 + Z.of_nat n) < 2 ^ 64) by (rewrite Nat2Z.inj_succ in Hmax; lia).
  rewrite add64_ok by (unfold u64; nia). cbn [mbind outcome_bind].
  rewrite IH by (done || lia). rewrite (seqZ_cons i) by lia. cbn [foldr].
  replace (Z.succ i) with (i + 1) by lia. replace (Z.pred (Z.of_nat (S n))) with (Z.of_nat n) by lia. f_equal. lia.
Qed.

Lemma seqZ_snoc i : 0 ≤ i → seqZ 0 (i + 1) = seqZ 0 i ++ [i].
Proof. intros Hi. rewrite seqZ_app by lia. by rewrite (seqZ_cons (0 + i) 1). Qed.

Lemma pages_small layout : 0 ≤ layout_size layout ≤ 131072 → 16 ≤ pages_for layout ≤ 32.
Proof.
  intros Hs. unfold pages_for, PAGE_SIZE, HEAP_GROWTH_MIN_PAGES.
  pose proof (div_ceil_mono (layout_size layout) 4096 32 ltac:(lia) ltac:(lia)). lia.
Qed.

Section vectors.
Context {P : BuildProfile} {K : Type} {G : GlobalAlloc K} {LA : LawfulAlloc K}.
Implicit Types (k : K) (R : list block) (c : Z).

(** ** Vectors that double: capacities are powers of two, and the growths
    still to come up to [2^J] elements are paid for. *)
Definition doubling (J cap : Z) : Prop := cap = 0 ∨ ∃ j, 2 ≤ j ≤ J ∧ cap = 2 ^ j.
Definition potential (J cap : Z) : Z := 32 * (J - Z.max 1 (Z.log2 cap)).

Lemma doubling_bounds J cap : 2 ≤ J → doubling J cap → 0 ≤ cap ≤ 2 ^ J ∧ 0 ≤ potential J cap.
Proof.
  intros HJ [->|(j & Hj & ->)]; unfold potential.
  - cbn. assert (0 < 2 ^ J) by (apply Z.pow_pos_nonneg; lia). lia.
  - rewrite Z.log2_pow2 by lia. assert (2 ^ j ≤ 2 ^ J) by (apply Z.pow_le_mono_r; lia).
    assert (0 < 2 ^ j) by (apply Z.pow_pos_nonneg; lia). lia.
Qed.

Lemma doubling_next n J cap :
  n ≠ 1%nat → (n ≤ 1024)%nat → 2 ≤ J → doubling J cap → cap < 2 ^ J →
  doubling J (next_cap n cap) ∧ potential J cap = potential J (next_cap n cap) + 32 ∧ next_cap n cap ≤ 2 ^ J.
Proof.
  intros Hn1 Hn HJ Hd Hlt.
  assert (Hmin : min_non_zero_cap n = 4).
  { unfold min_non_zero_cap. destruct (Nat.eqb_spec n 1); [done|]. destruct (Nat.leb_spec n 1024); [done|lia]. }
  destruct Hd as [->|(j & Hj & ->)].
  - assert (Hnc : next_cap n 0 = 2 ^ 2) by (unfold next_cap; rewrite Hmin; done). rewrite Hnc.
    split_and!; [right; exists 2; split; [lia|done]|unfold potential; rewrite Z.log2_pow2 by lia; change (Z.log2 0) with 0; lia|apply Z.pow_le_mono_r; lia].
  - assert (Hjlt : j < J) by (apply (Z.pow_lt_mono_r_iff 2); lia).
    assert (2 ^ 2 ≤ 2 ^ j) by (apply Z.pow_le_mono_r; lia).
    assert (Hnc : next_cap n (2 ^ j) = 2 ^ (j + 1)).
    { unfold next_cap. rewrite Hmin, Z.pow_add_r by lia. lia. }
    rewrite Hnc. split_and!; [right; exists (j + 1); split; [lia|done]| |apply Z.pow_le_mono_r; lia].
    unfold potential. rewrite !Z.log2_pow2 by lia. lia.
Qed.

Lemma push_doubling n J k R c v xs B x :
  vec_rep n v xs B → width n → n ≠ 1%nat → fits n x → 2 ≤ J → doubling J (vec_cap v) →
  Z.of_nat (length xs) < 2 ^ J → 2 ^ J * Z.of_nat n ≤ 131072 → 0 ≤ c →
  la_owns k (B ++ R) (c + potential J (vec_cap v)) →
  ends out_of_memory (push n v x k) (λ v' k', ∃ B', vec_rep n v' (xs ++ [x]) B' ∧ doubling J (vec_cap v') ∧
    la_owns k' (B' ++ R) (c + potential J (vec_cap v'))).
Proof.
  intros Hrep Hn Hn1 Hx HJ Hd Hlt Hmax Hc Ho. pose proof (vr_len _ _ _ _ Hrep) as Hl.
  destruct (doubling_bounds J _ HJ Hd) as [Hcb Hpot].
  assert (Hn8 : 1 ≤ Z.of_nat n ≤ 8) by (destruct Hn as [->|[->|[->| ->]]]; lia).
  assert (Hnb : next_cap n (vec_cap v) ≤ 2 * 2 ^ J + 4).
  { unfold next_cap, min_non_zero_cap. destruct (Nat.eqb_spec n 1); [done|]. destruct (Nat.leb_spec n 1024); lia. }
  eapply ends_mono; [apply (push_ok n k R (c + potential J (vec_cap v)) v xs B x Hrep Hn Hx); [nia| |done]|done|cbn beta].
  - case_decide as Hfull; [|lia]. destruct (doubling_next n J (vec_cap v)) as (_ & Hp & Hle); [done|lia|done|done|lia|].
    destruct (pages_small (array_layout n (next_cap n (vec_cap v)))); [cbn; unfold next_cap in *; nia|].
    destruct (doubling_bounds J (next_cap n (vec_cap v)) HJ) as [_ ?]; [|lia].
    by apply doubling_next; [|lia|..|lia].
  - intros v' k' (B' & Hrep' & Hcap & Ho'). exists B'. split; [done|]. rewrite Hcap. case_decide as Hfull.
    + destruct (doubling_next n J (vec_cap v)) as (Hd' & Hp & Hle); [done|lia|done|done|lia|]. split; [done|].
      destruct (pages_small (array_layout n (next_cap n (vec_cap v)))); [cbn; unfold next_cap in *; nia|].
      destruct (doubling_bounds J _ HJ Hd') as [_ Hpot'].
      eapply la_credit; [|exact Ho']. lia.
    + rewrite Z.sub_0_r in Ho'. done.
Qed.

Lemma push_range_ok J n i v k R c B :
  vec_rep 4 v (seqZ 0 i) B → 0 ≤ i → 2 ≤ J → doubling J (vec_cap v) → i + Z.of_nat n ≤ 2 ^ J →
  2 ^ J * 4 ≤ 131072 → 0 ≤ c → la_owns k (B ++ R) (c + potential J (vec_cap v)) →
  ends out_of_memory (push_range n i v k) (λ v' k', ∃ B', vec_rep 4 v' (seqZ 0 (i + Z.of_nat n)) B' ∧
    doubling J (vec_cap v') ∧ la_owns k' (B' ++ R) c).
Proof.
  intros Hrep Hi HJ Hd Hn Hmax Hc Ho. revert i v k B Hrep Hi Hd Hn Ho.
  induction n as [|n IH]; intros i v k B Hrep Hi Hd Hn Ho; cbn [push_range].
  { exists B. rewrite Z.add_0_r. destruct (doubling_bounds J _ HJ Hd). split_and!; try done.
    eapply la_credit, Ho. lia. }
  eapply ends_bind; [apply (push_doubling 4 J k R c v _ B i Hrep); try done|].
  - unfold width. tauto.
  - unfold fits. cbn. lia.
  - rewrite length_seqZ. lia.
  - intros v1 k1 (B1 & Hrep1 & Hd1 & Ho1). replace (seqZ 0 i ++ [i]) with (seqZ 0 (i + 1)) in Hrep1 by (by apply seqZ_snoc).
    replace (i + Z.of_nat (S n)) with (i + 1 + Z.of_nat n) by lia. apply (IH (i + 1) v1 k1 B1 Hrep1); (done || lia).
Qed.

Lemma sum_vec_ok n i acc v xs B k R c :
  vec_rep 4 v xs B → la_owns k (B ++ R) c → 0 ≤ i → 0 ≤ acc →
  (∀ j, i ≤ j < i + Z.of_nat n → xs !! Z.to_nat j = Some j) →
  acc + Z.of_nat n * (i + Z.of_nat n) < 2 ^ 64 →
  sum_vec n i v acc k = Ret (acc + foldr Z.add 0 (seqZ i (Z.of_nat n)), k).
Proof.
  intros Hrep Ho. revert i acc. induction n as [|n IH]; intros i acc Hi Ha Hxs Hmax; cbn [sum_vec].
  { change (Ret (acc, k) = Ret (acc + 0, k)). do 2 f_equal. lia. }
  assert (Hmax' : acc + i + Z.of_nat n * (i + 1 + Z.of_nat n) < 2 ^ 64) by (rewrite Nat2Z.inj_succ in Hmax; lia).
  erewrite M_run by (eapply vec_index_at; [exact Hrep|unfold width; tauto|exact Ho|done|apply Hxs; lia]).
  erewrite lift_run by (apply add64_ok; unfold u64; nia).
  rewrite IH; [|lia|lia|intros j Hj; apply Hxs; lia|done]. rewrite (seqZ_cons i) by lia. cbn [foldr].
  replace (Z.succ i) with (i + 1) by lia. replace (Z.pred (Z.of_nat (S n))) with (Z.of_nat n) by lia. do 2 f_equal. lia.
Qed.

(** ** Vectors of boxes *)
Lemma boxes_NoDup k ps xs Bs R c :
  Forall3 box_rep ps xs Bs → la_owns k (Bs ++ R) c → NoDup ps.
Proof.
  intros Hall. revert R. induction Hall as [|p x b ps xs Bs Hb Hall IH]; intros R Ho; constructor.
  - intros Hin. apply list_elem_of_lookup in Hin as [i Hi].
    destruct (Forall3_lookup_l _ _ _ _ _ _ Hall Hi) as (y & b' & _ & Hb' & Hrep').
    apply list_elem_of_lookup_2, elem_of_Permutation in Hb' as [Bs' HBs].
    destruct Hb as (_ & _ & sp & -> & _), Hrep' as (_ & _ & sp' & -> & _).
    apply (la_apart k (Bs' ++ R) c p (le_bytes 8 x ++ sp) p (le_bytes 8 y ++ sp')); [|done|done|done].
    eapply la_perm; [|exact Ho]. cbn. by rewrite HBs.
  - apply (IH (b :: R)). eapply la_perm; [|exact Ho]. cbn. apply Permutation_middle.
Qed.

Lemma push_boxes_ok J n i v ps Bs k R c B :
  vec_rep 8 v ps B → Forall3 box_rep ps (seqZ 0 i) Bs → 0 ≤ i → 2 ≤ J → doubling J (vec_cap v) →
  i + Z.of_nat n ≤ 2 ^ J → 2 ^ J * 8 ≤ 131072 → 0 ≤ c →
  la_owns k (B ++ Bs ++ R) (c + 16 * Z.of_nat n + potential J (vec_cap v)) →
  ends out_of_memory (push_boxes n i v k) (λ v' k', ∃ B' ps' Bs', vec_rep 8 v' ps' B' ∧
    Forall3 box_rep ps' (seqZ 0 (i + Z.of_nat n)) Bs' ∧ doubling J (vec_cap v') ∧ la_owns k' (B' ++ Bs' ++ R) c).
Proof.
  intros Hrep Hall Hi HJ Hd Hn Hmax Hc Ho. revert i v ps Bs k B Hrep Hall Hi Hd Hn Ho.
  induction n as [|n IH]; intros i v ps Bs k B Hrep Hall Hi Hd Hn Ho; cbn [push_boxes].
  { exists B, ps, Bs. rewrite Z.add_0_r. destruct (doubling_bounds J _ HJ Hd). split_and!; try done.
    eapply la_credit, Ho. lia. }
  destruct (doubling_bounds J _ HJ Hd) as [_ Hpot].
  assert (Hpg : pages_for box_layout = 16) by (vm_compute; reflexivity).
  eapply ends_bind; [eapply (box_new_ok k); [exact Ho|unfold fits; cbn; lia|rewrite Hpg; lia]|].
  intros p k1 (b & Hbox & Ho1).
  assert (Ho1' : la_owns k1 (B ++ (Bs ++ [b]) ++ R) (c + 16 * Z.of_nat n + potential J (vec_cap v))).
  { eapply la_perm, la_credit, Ho1; [|rewrite Hpg; lia]. rewrite <- (app_assoc Bs), !(app_assoc B). apply Permutation_middle. }
  pose proof (box_range k1 _ _ p i b Hbox Ho1 ltac:(set_solver)) as Hp.
  destruct (Forall3_length_lr _ _ _ _ Hall). pose proof (Forall3_length_lm _ _ _ _ Hall) as Hlen.
  rewrite length_seqZ in Hlen.
  eapply ends_bind; [apply (push_doubling 8 J k1 ((Bs ++ [b]) ++ R) (c + 16 * Z.of_nat n) v ps B p Hrep); try done; try lia|].
  - unfold width. tauto.
  - unfold fits, HEAP_REGION_START, HEAP_REGION_END in *. cbn. lia.
  - intros v2 k2 (B2 & Hrep2 & Hd2 & Ho2). replace (i + Z.of_nat (S n)) with (i + 1 + Z.of_nat n) by lia.
    apply (IH (i + 1) v2 (ps ++ [p]) (Bs ++ [b]) k2 B2 Hrep2); try done; try lia.
    rewrite seqZ_snoc by done. by apply Forall3_app; [|constructor; [|constructor]].
Qed.

Lemma boxes_distinct_ok v ps B k R c :
  vec_rep 8 v ps B → la_owns k (B ++ R) c → NoDup ps → length ps = SMALL_COUNT →
  boxes_distinct v k = Ret (true, k).
Proof.
  intros Hrep Ho Hnd Hlen. unfold boxes_distinct. apply for_all_pure. intros i Hi. apply for_all_pure. intros j Hj.
  unfold SMALL_COUNT in *.
  destruct (lookup_lt_is_Some_2 ps (Z.to_nat i)) as [a Ha]; [lia|].
  destruct (lookup_lt_is_Some_2 ps (Z.to_nat j)) as [b Hb]; [lia|].
  erewrite M_run by (eapply vec_index_at; [exact Hrep|unfold width; tauto|exact Ho|lia|exact Ha]).
  erewrite M_run by (eapply vec_index_at; [exact Hrep|unfold width; tauto|exact Ho|lia|exact Hb]).
  destruct (Z.eqb_spec a b) as [->|]; [|done]. pose proof (NoDup_lookup _ _ _ _ Hnd Ha Hb). lia.
Qed.

Lemma boxes_intact_ok v ps Bs B k R c :
  vec_rep 8 v ps B → Forall3 box_rep ps (seqZ 0 (Z.of_nat (length ps))) Bs → la_owns k (B ++ Bs ++ R) c →
  boxes_intact v k = Ret (true, k).
Proof.
  intros Hrep Hall Ho. unfold boxes_intact. rewrite (vr_len _ _ _ _ Hrep), Nat2Z.id. apply for_all_pure. intros i Hi.
  destruct (lookup_lt_is_Some_2 ps (Z.to_nat i)) as [p Hp]; [lia|].
  destruct (Forall3_lookup_l _ _ _ _ _ _ Hall Hp) as (x & b & Hx & Hb & Hbox).
  apply lookup_seqZ in Hx as [-> _].
  erewrite M_run by (eapply vec_index_at; [exact Hrep|unfold width; tauto|exact Ho|lia|exact Hp]).
  erewrite M_run by (eapply box_get_ok; [exact Hbox|exact Ho|]; apply list_elem_of_lookup_2 in Hb; set_solver).
  rewrite Z.add_0_l, Z2Nat.id by lia. by rewrite Z.eqb_refl.
Qed.

Lemma drop_elements_ok v all B ps xs Bs R c i k :
  vec_rep 8 v all B → Forall3 box_rep ps xs Bs → 0 ≤ i →
  (∀ j p, ps !! j = Some p → all !! (Z.to_nat i + j)%nat = Some p) → la_owns k (B ++ Bs ++ R) c →
  ∃ k', drop_elements (length ps) i v k = Ret (tt, k') ∧ la_owns k' (B ++ R) c.
Proof.
  intros Hrep Hall. revert i k. induction Hall as [|p x b ps xs Bs Hb Hall IH]; intros i k Hi Hps Ho; cbn [drop_elements length].
  { by exists k. }
  erewrite M_run by (eapply vec_index_at; [exact Hrep|unfold width; tauto|exact Ho|done|
    rewrite <- (Nat.add_0_r (Z.to_nat i)); by apply Hps]).
  eapply la_perm in Ho; [|symmetry; cbn; apply Permutation_middle].
  destruct (box_drop_ok k _ _ _ _ _ Hb Ho) as (k1 & Hr & Ho1). erewrite M_run by exact Hr.
  apply IH; [lia| |done]. intros j q Hj. replace (Z.to_nat (i + 1) + j)%nat with (Z.to_nat i + S j)%nat by lia.
  by apply Hps.
Qed.

End vectors.

(** ** The checks pass *)
Section passes.
Context {P : BuildProfile} {K : Type} {G : GlobalAlloc K} {LA : LawfulAlloc K} {L : Line}.
Context (bound fuel : nat) (Hfuel : (bound + 2 < fuel)%nat).
Implicit Types (k : K) (R : list block) (c : Z) (u : uart).

(** What a check leaves: the blocks of others and what credit it did not use. *)
Definition leaves R c (st : K * uart) : Prop := la_owns st.1 R c ∧ sending bound st.2.

Lemma check_one_box_ok k u R c :
  la_owns k R (c + 16) → 0 ≤ c → sending bound u →
  passing out_of_memory (check_one_box fuel (k, u)) (leaves R c).
Proof using Hfuel.
  intros Ho Hc Hu. assert (Hpg : pages_for box_layout = 16) by (vm_compute; reflexivity).
  assert (Hx : fits 8 BOXED_VALUE) by (unfold fits, BOXED_VALUE; cbn; lia).
  eapply ends_within; [apply (box_new_ok k R (c + 16) BOXED_VALUE Ho Hx); rewrite Hpg; lia|].
  intros p k1 (b & Hbox & Ho1).
  destruct (box_range k1 _ _ p _ b Hbox Ho1) as [Hlo Hhi]; [set_solver|].
  assert (Hchk : ∃ u', check_boxed fuel p (k1, u) = Ret (true, (k1, u')) ∧ sending bound u').
  { unfold check_boxed. destruct (Z.ltb_spec p HEAP_REGION_START), (Z.leb_spec HEAP_REGION_END p); try lia. cbn [orb].
    erewrite M_run by (apply within_run; eapply box_get_ok; [exact Hbox|exact Ho1|set_solver]).
    rewrite Z.eqb_refl. cbn [negb].
    edestruct (pass_run bound fuel Hfuel k1 u) as (u' & Hu' & _ & Hp); [done|]. exists u'. split; [exact Hp|done]. }
  destruct Hchk as (u' & Hchk & Hu'). erewrite M_run by exact Hchk.
  destruct (box_drop_ok k1 R _ _ _ _ Hbox Ho1) as (k2 & Hd & Ho2). erewrite M_run by (apply within_run, Hd).
  split; [done|]. split; [|done]. eapply la_credit, Ho2. rewrite Hpg. lia.
Qed.

Lemma check_many_boxes_ok k u R c :
  la_owns k R (c + 1792) → 0 ≤ c → sending bound u →
  passing out_of_memory (check_many_boxes fuel (k, u)) (leaves R c).
Proof using Hfuel.
  intros Ho Hc Hu.
  eapply ends_within; [apply (push_boxes_ok 7 SMALL_COUNT 0 (vec_new 8) [] [] k R c []);
    [apply vec_new_rep|constructor|lia|lia|by left|unfold SMALL_COUNT; lia|lia|done| ]|].
  { eapply la_credit, Ho. unfold SMALL_COUNT, potential. cbn. lia. }
  intros v k1 (B & ps & Bs & Hrep & Hall & Hd & Ho1).
  rewrite Z.add_0_l in Hall. pose proof (Forall3_length_lm _ _ _ _ Hall) as Hlen. rewrite length_seqZ, Nat2Z.id in Hlen.
  assert (Hnd : NoDup ps).
  { eapply boxes_NoDup; [exact Hall|]. eapply la_perm; [|exact Ho1]. rewrite app_assoc, (Permutation_app_comm B Bs), <- app_assoc. done. }
  assert (Hchk : ∃ u', check_small fuel v (k1, u) = Ret (true, (k1, u')) ∧ sending bound u').
  { unfold check_small. erewrite M_run by (apply within_run; by eapply boxes_distinct_ok). cbn [negb].
    erewrite M_run by (apply within_run; eapply boxes_intact_ok; [exact Hrep|by rewrite Hlen|exact Ho1]). cbn [negb].
    edestruct (pass_run bound fuel Hfuel k1 u) as (u' & Hu' & _ & Hp); [done|]. exists u'. split; [exact Hp|done]. }
  destruct Hchk as (u' & Hchk & Hu'). erewrite M_run by exact Hchk.
  destruct (drop_elements_ok v ps B ps _ Bs R c 0 k1 Hrep Hall) as (k2 & Hd2 & Ho2); [lia|done|done|].
  destruct (doubling_bounds 7 _ ltac:(lia) Hd) as [Hcb _].
  destruct (vec_drop_ok 8 k2 R c v ps B Hrep) as (k3 & Hd3 & Ho3); [unfold width; tauto|lia|done|].
  assert (Hdrop : drop_boxes v k1 = Ret (tt, k3)).
  { unfold drop_boxes. rewrite (vr_len _ _ _ _ Hrep), Nat2Z.id. erewrite M_run by exact Hd2. exact Hd3. }
  by erewrite M_run by (apply within_run, Hdrop).
Qed.

Lemma check_large_vec_ok k u R c :
  la_owns k R (c + 448) → 0 ≤ c → sending bound u →
  passing out_of_memory (check_large_vec fuel (k, u)) (leaves R c).
Proof using Hfuel.
  intros Ho Hc Hu. set (N := LARGE_COUNT). assert (HN : Z.of_nat N = 20000) by reflexivity.
  eapply ends_within; [apply (push_range_ok 15 N 0 (vec_new 4) k R c []); [apply vec_new_rep|lia|lia|by left|lia|lia|done|]|].
  { eapply la_credit, Ho. unfold potential. cbn. lia. }
  intros v k1 (B & Hrep & Hd & Ho1).
  rewrite Z.add_0_l, HN in Hrep. pose proof (vr_len _ _ _ _ Hrep) as Hlen. rewrite length_seqZ, Z2Nat.id in Hlen by lia.
  assert (Hchk : ∃ u', check_large fuel v (k1, u) = Ret (true, (k1, u')) ∧ sending bound u').
  { unfold check_large. rewrite Hlen. fold N. rewrite HN, Z.eqb_refl. cbn [negb]. change (Z.to_nat 20000) with N.
    erewrite M_run by (apply within_run; eapply sum_vec_ok; [exact Hrep|exact Ho1|lia|lia| |lia];
      intros j Hj; rewrite lookup_seqZ_lt by lia; f_equal; lia).
    erewrite lift_run by (apply sum_range_ok; lia). rewrite Z.eqb_refl. cbn [negb].
    edestruct (pass_run bound fuel Hfuel k1 u) as (u' & Hu' & _ & Hp); [done|]. exists u'. split; [exact Hp|done]. }
  destruct Hchk as (u' & Hchk & Hu'). erewrite M_run by exact Hchk.
  destruct (doubling_bounds 15 _ ltac:(lia) Hd) as [Hcb _].
  destruct (vec_drop_ok 4 k1 R c v _ B Hrep) as (k3 & Hd3 & Ho3); [unfold width; tauto|lia|done|].
  by erewrite M_run by (apply within_run, Hd3).
Qed.

Lemma check_churn_ok k u R c :
  la_owns k R (c + 16) → 0 ≤ c → sending bound u →
  passing out_of_memory (check_churn fuel (k, u)) (leaves R c).
Proof using Hfuel.
  intros Ho Hc Hu. assert (Hpg : pages_for (array_layout 1 8192) = 16) by (vm_compute; reflexivity).
  eapply ends_within; [apply (vec_from_elem_ok k R (c + 16) 0xAA 8192 Ho); [lia|lia|rewrite Hpg; lia]|].
  intros v k1 (B & Hcap & Hrep & Ho1).
  pose proof (vr_len _ _ _ _ Hrep) as Hlen. rewrite length_replicate in Hlen.
  assert (Hlk : ∀ i, 0 ≤ i < 8192 → vec_index 1 v i k1 = Ret (0xAA, k1)).
  { intros i Hi. eapply vec_index_at; [exact Hrep|by left|exact Ho1|lia|]. apply lookup_replicate_2. lia. }
  assert (Hg : churned v k1 = Ret (true, k1)).
  { unfold churned. rewrite Hlen, Z2Nat.id, Z.eqb_refl by lia. cbn [negb].
    erewrite M_run by (apply Hlk; lia). rewrite Z.eqb_refl. cbn [negb]. by erewrite M_run by (apply Hlk; lia). }
  erewrite M_run by (apply within_run, Hg). cbn [negb]. erewrite (M_run (mret true)) by done.
  edestruct (vec_drop_ok 1 k1 R) as (k3 & Hd3 & Ho3); [exact Hrep|by left|rewrite Hcap; lia|exact Ho1|].
  erewrite M_run by (apply within_run, Hd3). split; [done|]. split; [|done].
  eapply la_credit, Ho3. rewrite Hpg. lia.
Qed.

Lemma check_reuse_ok k u R c :
  la_owns k R (c + 80) → 0 ≤ c → sending bound u →
  passing out_of_memory (check_reuse fuel (k, u)) (leaves R c).
Proof using Hfuel.
  intros Ho Hc Hu. eapply passing_check.
  - apply (for_all_inv out_of_memory (λ i, leaves R (c + 16 * (5 - i)))).
    { split; [|done]. eapply la_credit, Ho. lia. }
    intros j [k0 u0] Hj [Ho0 Hu0]. replace (5 - (j + 1)) with (4 - j) by lia.
    apply check_churn_ok; [|lia|done]. eapply la_credit, Ho0. lia.
  - intros [k1 u1] [Ho1 Hu1].
    edestruct (pass_run bound fuel Hfuel k1 u1) as (u' & Hu' & _ & Hp); [done|]. eapply passing_ret; [exact Hp|].
    split; [|done]. eapply la_credit, Ho1. lia.
Qed.

(** The whole test needs a credit of 2336 pages. *)
Lemma heap_self_test_ends k u R c :
  la_owns k R (c + 2336) → 0 ≤ c → sending bound u →
  passing out_of_memory (run_heap_boot_self_test fuel (k, u)) (λ st, leaves R c st ∧
    ∃ log, sent st.2 = log ++ expand (line "Kernel heap allocator boot self-test: ALL CHECKS PASSED.")).
Proof using Hfuel.
  intros Ho Hc Hu. unfold run_heap_boot_self_test. speak Hfuel u0 Hu0 Hs0.
  eapply passing_check; [apply (check_one_box_ok k u0 R (c + 2320)); [by eapply la_credit, Ho; lia|lia|done]|].
  intros [k1 u1] [Ho1 Hu1]. eapply passing_check; [apply (check_many_boxes_ok k1 u1 R (c + 528)); [by eapply la_credit, Ho1; lia|lia|done]|].
  intros [k2 u2] [Ho2 Hu2]. eapply passing_check; [apply (check_large_vec_ok k2 u2 R (c + 80)); [by eapply la_credit, Ho2; lia|lia|done]|].
  intros [k3 u3] [Ho3 Hu3]. eapply passing_check; [apply (check_reuse_ok k3 u3 R c); [done|lia|done]|].
  intros [k4 u4] [Ho4 Hu4].
  destruct (pass_run bound fuel Hfuel k4 u4 "Kernel heap allocator boot self-test: ALL CHECKS PASSED." Hu4) as (u5 & Hu5 & Hs5 & Hp).
  eapply passing_ret; [exact Hp|]. split; [done|]. by exists (sent u4).
Qed.

(** With memory for the credit it passes. *)
Lemma heap_self_test_ok k u R c :
  ¬ la_fails → la_owns k R (c + 2336) → 0 ≤ c → sending bound u →
  ∃ k' u' log, run_heap_boot_self_test fuel (k, u) = Ret (true, (k', u')) ∧ la_owns k' R c ∧ sending bound u' ∧
    sent u' = log ++ expand (line "Kernel heap allocator boot self-test: ALL CHECKS PASSED.").
Proof using Hfuel.
  intros Hf Ho Hc Hu. destruct (ends_sure _ _ _ (heap_self_test_ends k u R c Ho Hc Hu)) as (ok & [k' u'] & Hr & -> & [Ho' Hu'] & log & Hs).
  { intros p [? _]. done. }
  by exists k', u', log.
Qed.

End passes.

(** C33: the boot self-test of the kernel heap passes, and it leaves no trace.
    On every heap that satisfies its invariant and has a credit of 2336 pages
    (each worth four free frames, the page and three tables), the four checks
    succeed: one boxed value reads back, a hundred boxes are distinct and
    intact, twenty thousand pushed integers (through every reallocation) sum to
    the closed form, and blocks freed in one round serve the next.  No panic,
    no exhausted fuel; blocks other code owned keep their bytes, the
    invariant holds, and no block of the test is left. *)
Theorem heap_self_test_passes {P : BuildProfile} {A : Type} {FS : FrameSource A} {L : Line}
    bound fuel self top (k : kernel A) u R c :
  (bound + 2 < fuel)%nat → top - HEAP_REGION_START + 64 ≤ 16 * Z.of_nat fuel → top ≤ HEAP_REGION_END →
  kernel_owns self top k R (c + 2336) → 0 ≤ c → sending bound u →
  ∃ k' u' log, run_heap_boot_self_test (G := kernel_alloc fuel) fuel (k, u) = Ret (true, (k', u')) ∧
    kernel_owns self top k' R c ∧ sending bound u' ∧
    sent u' = log ++ expand (line "Kernel heap allocator boot self-test: ALL CHECKS PASSED.").
Proof.
  intros Hfuel Hheap Htop. pose (LA := kernel_lawful self top False fuel Hheap Htop).
  exact (heap_self_test_ok (LA := LA) bound fuel Hfuel k u R c (λ H, H)).
Qed.
