(* ===== verification/InterruptTest.v ===== *)
(** The boot self-test of interrupts and exceptions:
    [run_interrupts_boot_self_test] of [kernel/src/main.rs].

    [system] is the running kernel: the heap and its globals, the segment
    state and the interrupt table.  An exception is delivered through the
    table the processor was pointed at: the gate must be present, its
    selector must name a 64-bit code segment of the loaded descriptor table,
    and the stacks come from the loaded task state segment.  Where execution
    was interrupted and whether the firmware left write protection on
    (CR0.WP) are parameters. *)
From Stdlib Require Import String.
From stdpp Require Import base numbers option gmap list_numbers list.
From S2P Require Import Prelude PhysAddr VirtAddr PageTableEntry Memory FrameAllocator FrameSource Vmm PageWalk VmmSpec VmmCorrect VmmTheorems HeapMemory LinkedListAllocator SpinLock Mmu Heap HeapGrowth HeapSpec HeapTheorems Serial Gdt Idt Exceptions SelfTest VmmSelfTest GlobalAlloc HeapClient.

Record system (A : Type) : Type := mkSystem {
  sys_kernel : kernel A;
  sys_seg : seg_state;
  sys_idt : list IdtEntry;
  sys_idtr : DescriptorTablePointer;
}.
Arguments mkSystem {A} _ _ _ _.
Arguments sys_kernel {A} _.
Arguments sys_seg {A} _.
Arguments sys_idt {A} _.
Arguments sys_idtr {A} _.

(** What the processor and the firmware contribute: where the static table
    lies, the state pushed at the two exceptions of the test, and CR0.WP. *)
Class Cpu : Type := {
  addr_IDT : Z;
  int3_frame : InterruptStackFrame;
  fault_frame : InterruptStackFrame;
  cr0_wp : bool;
}.

Definition READONLY_TEST_VADDR : Z := 0xFFFF880010000000.
Definition readonly_flags : PageFlags := {| writable := false; no_execute := false |}.

(** A byte store of kernel code: done, or a page fault with its error code
    (bit 0: the page is present, bit 1: a write). *)
Inductive store_result : Type := Stored (s : machine unit) | Faulted (error_code : Z).
Definition store_u8 {C : Cpu} (s : machine unit) (v x : Z) : outcome store_result :=
  match cpu_walk s v with
  | Unmapped => Ret (Faulted 2)
  | w =>
    if cr0_wp && negb (page_writable w) then Ret (Faulted 3) else
    pa ← defined (phys_of s v);
    m ← defined (store_le 1 (m_mem s) pa x);
    Ret (Stored (set_mem s m))
  end.

Section test.
Context {P : BuildProfile} {A : Type} {FS : FrameSource A} {L : Line} {I : Image} {H : HandlerCode} {C : Cpu}.
Context (fuel : nat).
Abbreviation state := (system A * uart)%type.

Definition on_kernel {B} (m : M (kernel A) B) : M state B :=
  within (λ s, r ← m (sys_kernel s); let '(b, k) := r : B * kernel A in
               Ret (b, mkSystem k (sys_seg s) (sys_idt s) (sys_idtr s))).

(** Delivery of vector [v]; [code] is pushed if the architecture says so. *)
Definition deliver (v code cr2 : Z) (frame : InterruptStackFrame) : M state control := λ '(s, u),
  let rd := table_at addr_IDT (sys_idt s) in
  g ← defined (read_gate rd (sys_idtr s) v);
  ds ← fetch (sys_seg s) (gate_selector g) 1;
  if negb (match ds with [d] => is_code d && desc_long d | _ => false end) then Undef else
  if negb (fst (task (sys_seg s)) =? addr_TSS) then Undef else
  hs ← defined (enter rd (sys_idtr s) (interrupt_stack_table (TSS (sys_seg s))) (frame_rsp frame) v);
  r ← run_handler fuel cr2 (fst hs) (if pushes_error_code v then Some code else None) frame u;
  let '(c, u') := r : control * uart in Ret (c, (s, u')).

(** The block that maps the page read-only, both locks held. *)
Definition map_readonly_page : M (kernel A) unit := λ k,
  let g := global k in
  fr ← SpinLock.lock fuel (FRAME_ALLOCATOR g);
  let '(frames, frame_guard) := fr : option A * SpinLock (option A) in
  vr ← SpinLock.lock fuel (VMM g);
  let '(manager, vmm_guard) := vr : option VirtualMemoryManager * SpinLock (option VirtualMemoryManager) in
  match frames, manager with
  | Some a, Some vmm =>
    tr ← take_frame (with_frames (hardware g) a);
    let '(o, s) := tr : option PhysAddr * machine A in
    match o with
    | None => Panic ExpectFailed
    | Some test_frame =>
      mr ← Vmm.map vmm (VirtAddr.new READONLY_TEST_VADDR) test_frame readonly_flags s;
      let '(r, s) := mr : result unit MapError * machine A in
      match r with
      | Err _ => Panic ExpectFailed
      | Ok _ => Ret (tt, mkKernel (inner k) (mkGlobals (unlock frame_guard (Some (m_fa s)))
                           (unlock vmm_guard (Some vmm)) (without_frames s)))
      end
    end
  | _, _ => Panic ExpectFailed
  end.

Definition write_readonly : M (kernel A) (option Z) := λ k,
  r ← store_u8 (hardware (global k)) READONLY_TEST_VADDR 0xFF;
  match r with
  | Stored hw => Ret (None, with_hardware k hw)
  | Faulted code => Ret (Some code, k)
  end.

(** Check 2 and the end: the page fault, or the final [hlt] loop.  A handler
    that resumed would run into the same fault for ever. *)
Definition trigger_page_fault : M state control :=
  _ ← say fuel (CRLF ++ line "Mapping a read-only test page, then deliberately writing to it");
  _ ← say fuel (line "to verify WRITABLE=false is actually enforced by the CPU");
  _ ← say fuel (line "(closing a gap left unverified since the VMM milestone).");
  _ ← say fuel (line "(The kernel will halt via the page fault handler — this is expected.)");
  _ ← on_kernel map_readonly_page;
  fault ← on_kernel write_readonly;
  match fault with
  | None => mret Halted
  | Some code =>
    c ← deliver 14 code READONLY_TEST_VADDR fault_frame;
    match c with Halted => mret Halted | Resumed => lift NoFuel end
  end.

Definition run_interrupts_boot_self_test : M state control :=
  _ ← say fuel (CRLF ++ line "Running interrupts/exceptions boot self-test...");
  _ ← say fuel (line "  Triggering INT3 (breakpoint)...");
  c ← deliver 3 0 0 int3_frame;
  match c with
  | Halted => mret Halted
  | Resumed =>
    _ ← say fuel (line "  [OK] Execution resumed correctly after the breakpoint handler returned.");
    _ ← say fuel (CRLF ++ line "Interrupts/exceptions boot self-test (non-fatal path): PASSED.");
    _ ← say fuel (line "INTERRUPTS AND EXCEPTIONS SUBSYSTEM: GDT, IDT, and breakpoint");
    _ ← say fuel (line "(non-fatal exception) round-trip all verified.");
    trigger_page_fault
  end.

End test.

(** ** Delivery *)
Section delivery.
Context {P : BuildProfile} {A : Type} {FS : FrameSource A} {L : Line} {I : Image} {H : HandlerCode} {C : Cpu}.
Context (bound fuel : nat) (Hfuel : (bound + 2 < fuel)%nat).
Implicit Types (s : system A) (u : uart) (f : InterruptStackFrame).

(** Both tables loaded. *)
Record armed s : Prop := {
  ar_gate : ∀ v, (v < 32)%nat → read_gate (table_at addr_IDT (sys_idt s)) (sys_idtr s) (Z.of_nat v) =
    Some (mkGate (handler_address v) KERNEL_CODE_SELECTOR (if (v =? 8)%nat then 1 else 0));
  ar_code : ∃ d, fetch (sys_seg s) KERNEL_CODE_SELECTOR 1 = Ret [d] ∧ is_code d && desc_long d = true;
  ar_task : fst (task (sys_seg s)) = addr_TSS;
  ar_stack : ∃ top, interrupt_stack_table (TSS (sys_seg s)) !! 0%nat = Some top;
}.

Lemma deliver_ok s u (v : nat) code cr2 f :
  armed s → code_ok H → sending bound u → (v < 32)%nat → u64 code → u64 cr2 → frame_ok f →
  ∃ h u', handlers !! v = Some h ∧
    deliver fuel (Z.of_nat v) code cr2 f (s, u) = Ret (if Z.of_nat v =? 3 then Resumed else Halted, (s, u')) ∧
    sending bound u' ∧ sent u' = sent u ++ expand (transcript cr2 (Z.of_nat v) (h_name h)
      (if pushes_error_code (Z.of_nat v) then Some code else None) f).
Proof using Hfuel.
  intros [Hg (d & Hd & Hdc) Ht (top & Hst)] Hc Hu Hv Hcode Hcr2 Hf.
  destruct (enter_gate _ _ _ top (frame_rsp f) v Hc Hv Hst (Hg v Hv)) as (h & He & Hh & Hvec & Herr).
  destruct (handler_reports bound fuel u cr2 h (Z.of_nat v) code f Hfuel Hu Hcr2) as (u' & Hr & Hu' & Hs);
    [unfold u64; lia|done|done|done|done|].
  exists h, u'. split; [done|]. split; [|by split].
  unfold deliver. rewrite (Hg v Hv). cbn [defined mbind outcome_bind gate_selector]. rewrite Hd. cbn [mbind outcome_bind].
  rewrite Hdc, Ht, Z.eqb_refl. cbn [negb]. rewrite He. cbn [defined mbind outcome_bind fst]. by rewrite Hr.
Qed.

(** ** The read-only page *)

(** The only panic: fewer than five frames could become tables. *)
Definition out_of_frames (a : A) (p : panic) : Prop := p = ExpectFailed ∧ Z.of_nat (size (low_pool a)) < 5.

Lemma map_readonly_ok self a frame (k : kernel A) l :
  heap_ok self a frame (data (inner k)) (global k) l → next_unmapped (data (inner k)) ≤ READONLY_TEST_VADDR →
  ends (out_of_frames a) (map_readonly_page fuel k) (λ _ k', ∃ fr,
    0 < fr < 2 ^ 40 ∧ mapped (m_mem (hardware (global k'))) (fr * FRAME_SIZE) FRAME_SIZE ∧
    cpu_walk (hardware (global k')) READONLY_TEST_VADDR = Leaf (new_leaf (PhysAddr.new (fr * FRAME_SIZE)) readonly_flags)).
Proof using Hfuel.
  intros [Hfr Hvm Hp Hrep] Hnext. pose proof (hp_vm _ _ _ _ _ Hp) as Hok.
  set (s0 := with_frames (hardware (global k)) a) in *. assert (Hlf : low_frames s0 = low_pool a) by done.
  assert (Hun : walk_of self (m_mem s0) (VirtAddr.new READONLY_TEST_VADDR) = Unmapped).
  { rewrite (hp_self _ _ _ _ _ Hp). apply (hp_fresh _ _ _ _ _ Hp (READONLY_TEST_VADDR / PAGE_SIZE)).
    unfold READONLY_TEST_VADDR, PAGE_SIZE, HEAP_REGION_END in *. change (0xFFFF880010000000 / 4096 * 4096) with 0xFFFF880010000000. lia. }
  unfold map_readonly_page. rewrite Hfr, Hvm, !lock_free by (done || lia). cbn [mbind outcome_bind SpinLock.new data].
  fold s0. destruct (take_frame_ok self s0 Hok) as [[Htk Hem]|(f & s1 & Htk & Hf & Hca1 & Hm1 & _ & Hff & _)]; rewrite Htk; cbn [mbind outcome_bind].
  { split; [done|].
    assert (Hnone : low_pool a = ∅) by (unfold low_pool; change (fs_free a) with (fs_free (m_fa s0)); rewrite Hem; set_solver).
    rewrite Hnone, size_empty. lia. }
  assert (Hal : aligned_for_map (VirtAddr.new READONLY_TEST_VADDR) (PhysAddr.new (f * FRAME_SIZE)) = true).
  { apply andb_true_iff. split; [done|]. apply is_frame_aligned_spec. by apply Z.mod_mul. }
  destruct (map_ok self s1 (VirtAddr.new READONLY_TEST_VADDR) (PhysAddr.new (f * FRAME_SIZE)) readonly_flags (ca_vm _ _ _ Hca1))
    as (r & s2 & Hmap & Hpost). rewrite Hmap. cbn [mbind outcome_bind]. destruct r as [[]|e].
  2: { split; [done|]. destruct (decide (4 ≤ size (low_frames s1))%nat) as [H4|H4].
       - destruct (map_enough self s1 (VirtAddr.new READONLY_TEST_VADDR) (PhysAddr.new (f * FRAME_SIZE)) readonly_flags)
           as (s2' & Hmap' & _); [apply Hca1|done|by rewrite Hm1|done|]. rewrite Hmap in Hmap'. discriminate Hmap'.
       - pose proof (low_after_take s0 s1 f Hff). rewrite Hlf in *. lia. }
  destruct Hpost as (_ & _ & s3 & [Hok3 Hev3 _] & Hup).
  pose proof (carries_trans _ _ _ _ Hca1 (carries_trans _ _ _ _ (carries_evolves _ _ _ _ Hok3 Hev3) (carries_updates _ _ _ _ _ Hup))) as Hca.
  assert (Hcr : cpu_vmm (without_frames s2) = self).
  { rewrite (hp_self _ _ _ _ _ Hp). unfold cpu_vmm, without_frames. cbn [m_cr3]. destruct (ca_cpu _ _ _ Hca) as [_ ->]. done. }
  destruct (fs_free_range _ _ (vm_fa _ _ Hok) Hf) as [Hrange _]. destruct (hp_pool _ _ _ _ _ Hp) as [Hpm Hpt]. cbn in Hpt.
  assert (Hf0 : f ≠ 0) by (intros ->; by apply (vm_zero _ _ Hok)).
  exists f. cbn [global hardware]. split; [change (m_fa s0) with a in Hrange; lia|]. split.
  - eapply mapped_dom; [apply Hca|]. by apply Hpm.
  - unfold cpu_walk. rewrite Hcr. cbn [without_frames m_mem]. by rewrite (up_walk _ _ _ _ _ Hup), decide_True.
Qed.

(** The deliberate write: refused under write protection, done without. *)
Lemma write_readonly_ok (k : kernel A) fr :
  0 < fr < 2 ^ 40 → mapped (m_mem (hardware (global k))) (fr * FRAME_SIZE) FRAME_SIZE →
  cpu_walk (hardware (global k)) READONLY_TEST_VADDR = Leaf (new_leaf (PhysAddr.new (fr * FRAME_SIZE)) readonly_flags) →
  if cr0_wp then write_readonly k = Ret (Some 3, k) else ∃ k', write_readonly k = Ret (None, k').
Proof using Type.
  clear Hfuel bound fuel. intros Hr Hm Hw. unfold write_readonly, store_u8. rewrite Hw. cbn [page_writable].
  rewrite new_leaf_writable. destruct cr0_wp; [done|]. cbn [andb].
  assert (Hph : phys_of (hardware (global k)) READONLY_TEST_VADDR = Some (fr * FRAME_SIZE)).
  { unfold phys_of. rewrite Hw. cbn [resolve fmap option_fmap option_map]. rewrite new_leaf_addr.
    - change (page_offset (VirtAddr.new READONLY_TEST_VADDR)) with 0. cbn. by rewrite Z.lor_0_r.
    - apply is_frame_aligned_spec. by apply Z.mod_mul.
    - unfold FRAME_SIZE. cbn. lia. }
  rewrite Hph. cbn [defined mbind outcome_bind].
  destruct (store_le_Some 1 (m_mem (hardware (global k))) (fr * FRAME_SIZE) 0xFF) as [m Hst].
  { intros i Hi. apply Hm. unfold FRAME_SIZE in *. lia. }
  rewrite Hst. cbn [defined mbind outcome_bind]. by eexists.
Qed.

End delivery.

Lemma on_kernel_run {A X} (m : M (kernel A) X) (s : system A) u x k :
  m (sys_kernel s) = Ret (x, k) → on_kernel m (s, u) = Ret (x, (mkSystem k (sys_seg s) (sys_idt s) (sys_idtr s), u)).
Proof. intros Hm. apply within_run. by rewrite Hm. Qed.

Lemma ends_on_kernel {A X Y} err (m : M (kernel A) X) (c : X → M (system A * uart) Y) (s : system A) u Q R :
  ends err (m (sys_kernel s)) Q →
  (∀ x k, Q x k → ends err (c x (mkSystem k (sys_seg s) (sys_idt s) (sys_idtr s), u)) R) →
  ends err ((x ← on_kernel m; c x) (s, u)) R.
Proof.
  intros Hm Hc. apply (ends_within err _ c s u (λ x s', ∃ k, Q x k ∧ s' = mkSystem k (sys_seg s) (sys_idt s) (sys_idtr s))).
  - destruct (m (sys_kernel s)) as [[x k]| | |]; try exact Hm. by exists k.
  - intros x s' (k & HQ & ->). by apply Hc.
Qed.

Section theorem.
Context {P : BuildProfile} {A : Type} {FS : FrameSource A} {L : Line} {I : Image} {H : HandlerCode} {C : Cpu}.
Context (bound fuel : nat) (Hfuel : (bound + 2 < fuel)%nat).
Implicit Types (s : system A) (u : uart).

(** What the log ends with. *)
Definition last_words : list Z :=
  if cr0_wp then transcript READONLY_TEST_VADDR 14 "Page Fault (#PF)" (Some 3) fault_frame
  else line "(The kernel will halt via the page fault handler — this is expected.)".

Lemma trigger_ok s u self a frame l :
  armed s → code_ok H → sending bound u → frame_ok fault_frame →
  heap_ok self a frame (data (inner (sys_kernel s))) (global (sys_kernel s)) l →
  next_unmapped (data (inner (sys_kernel s))) ≤ READONLY_TEST_VADDR →
  ends (out_of_frames a) (trigger_page_fault fuel (s, u)) (λ c st, c = Halted ∧ sending bound st.2 ∧
    ∃ log, sent st.2 = log ++ expand last_words).
Proof using Hfuel.
  intros Har Hc Hu Hff Hok Hn. unfold trigger_page_fault.
  speak Hfuel u1 Hu1 Hs1. speak Hfuel u2 Hu2 Hs2. speak Hfuel u3 Hu3 Hs3. speak Hfuel u4 Hu4 Hs4.
  eapply ends_on_kernel; [apply (map_readonly_ok bound fuel Hfuel self a frame _ l Hok Hn)|]. intros _ k1 (fr & Hr & Hm & Hw).
  pose proof (write_readonly_ok k1 fr Hr Hm Hw) as Hwr. unfold last_words. destruct cr0_wp.
  - erewrite M_run by (apply on_kernel_run, Hwr). cbn [sys_seg sys_idt sys_idtr].
    set (s1 := mkSystem k1 (sys_seg s) (sys_idt s) (sys_idtr s)).
    destruct (deliver_ok bound fuel Hfuel s1 u4 14 3 READONLY_TEST_VADDR fault_frame) as (h & u5 & Hh & Hd & Hu5 & Hs5);
      [by destruct Har; split|done|done|lia|by split|by split|done|].
    change (Z.of_nat 14) with 14 in *. erewrite M_run by exact Hd. cbn [Z.eqb Pos.eqb].
    split; [done|]. split; [done|]. exists (sent u4). cbn [snd].
    rewrite Hs5. change (pushes_error_code 14) with true. cbv iota.
    injection Hh as <-. done.
  - destruct Hwr as [k2 Hwr]. erewrite M_run by (apply on_kernel_run, Hwr).
    split; [done|]. split; [done|]. exists (sent u3). exact Hs4.
Qed.

Lemma interrupts_self_test_ends s u self a frame l :
  armed s → code_ok H → sending bound u → frame_ok int3_frame → frame_ok fault_frame →
  heap_ok self a frame (data (inner (sys_kernel s))) (global (sys_kernel s)) l →
  next_unmapped (data (inner (sys_kernel s))) ≤ READONLY_TEST_VADDR →
  ends (out_of_frames a) (run_interrupts_boot_self_test fuel (s, u)) (λ c st, c = Halted ∧ sending bound st.2 ∧
    ∃ log, sent st.2 = log ++ expand last_words).
Proof using Hfuel.
  intros Har Hc Hu Hf3 Hff Hok Hn. unfold run_interrupts_boot_self_test.
  speak Hfuel u1 Hu1 Hs1. speak Hfuel u2 Hu2 Hs2.
  destruct (deliver_ok bound fuel Hfuel s u2 3 0 0 int3_frame) as (h & u3 & _ & Hd & Hu3 & _);
    [done|done|done|lia|by split|by split|done|].
  change (Z.of_nat 3) with 3 in *. erewrite M_run by exact Hd. cbn [Z.eqb Pos.eqb].
  speak Hfuel u4 Hu4 Hs4. speak Hfuel u5 Hu5 Hs5. speak Hfuel u6 Hu6 Hs6. speak Hfuel u7 Hu7 Hs7.
  by eapply trigger_ok.
Qed.

(** The interrupt self-test ends as intended.  With both descriptor
    tables loaded and the heap in place the breakpoint is reported and
    execution resumes after it; then the page is mapped read-only and
    written.  If the firmware left CR0.WP set the write faults with the error
    code of a write to a present page and CR2 holds the page's address, and
    the report of exactly that is the last output before the kernel halts.
    With CR0.WP clear the write succeeds and nothing is reported: no code of
    the kernel sets the bit. *)
Theorem interrupts_self_test_exact s u self a frame l :
  armed s → code_ok H → sending bound u → frame_ok int3_frame → frame_ok fault_frame →
  heap_ok self a frame (data (inner (sys_kernel s))) (global (sys_kernel s)) l →
  next_unmapped (data (inner (sys_kernel s))) ≤ READONLY_TEST_VADDR → 5 ≤ Z.of_nat (size (low_pool a)) →
  ∃ s' u' log, run_interrupts_boot_self_test fuel (s, u) = Ret (Halted, (s', u')) ∧ sending bound u' ∧
    sent u' = log ++ expand last_words.
Proof using Hfuel.
  intros Har Hc Hu Hf3 Hff Hok Hn Hlow.
  destruct (ends_sure _ _ _ (interrupts_self_test_ends s u self a frame l Har Hc Hu Hf3 Hff Hok Hn)) as (c & [s' u'] & Hr & -> & Hu' & log & Hs).
  { intros p [_ ?]. lia. }
  by exists s', u', log.
Qed.

End theorem.
