(* ===== verification/KernelMain.v ===== *)
(** The kernel's entry point: [kernel_main], [halt] and the panic handler of
    [kernel/src/main.rs].

    [kernel_main] composes every component: serial port, handoff, frame
    allocator, memory manager, heap, descriptor tables, and the self-test of
    each.  It never returns; [Halted] is the endless [hlt] loop, reached
    through [halt] or an exception handler.  [frame_allocator] and [vmm] are
    local values until they are moved into the globals. *)
From Stdlib Require Import String.
From stdpp Require Import base numbers option gmap list_numbers list.
From S2P Require Import Prelude PhysAddr VirtAddr PageTableEntry Memory BootInfo MemoryMap FrameAllocator FrameInit FrameSource Vmm PageWalk VmmSpec VmmCorrect VmmTheorems HeapMemory LinkedListAllocator FreeBlocks FreeListSpec FreeListTheorems SpinLock Mmu Heap HeapGrowth HeapSpec HeapTheorems Serial Gdt Idt Exceptions SelfTest VmmSelfTest GlobalAlloc AllocCrate HeapClient HeapSelfTest InterruptTest.

Definition init_error_name (e : InitError) : string :=
  match e with
  | InconsistentMemoryMap => "InconsistentMemoryMap"
  | NoSuitableBitmapRegion => "NoSuitableBitmapRegion"
  | ImpliedAddressSpaceTooLarge => "ImpliedAddressSpaceTooLarge"
  end.

Section main.
Context {P : BuildProfile} {L : Line} {I : Image} {H : HandlerCode} {C : Cpu}.
Context (fuel : nat).
Abbreviation state := (system FrameAllocator * uart)%type.

(** [panic]: the location is optional. *)
Definition panic_handler (location : option (list Z * Z)) : M uart control :=
  _ ← write_str fuel (CRLF ++ line "!!! KERNEL PANIC !!!");
  _ ← match location with
      | Some (file, line_number) =>
        _ ← write_str fuel (text "Location: ");
        _ ← write_str fuel file;
        _ ← write_str fuel (text ":");
        _ ← write_hex64 fuel line_number;
        write_str fuel CRLF
      | None => mret tt
      end;
  mret Halted.

(** [serial::write_str(..); halt();] *)
Definition fatal (t : string) : M state control := _ ← say fuel (line t); mret Halted.

(** Statements that run on one part of the system. *)
Definition on_hardware {B} (m : machine unit → outcome (B * machine unit)) : M state B :=
  on_kernel (λ k, r ← m (hardware (global k)); let '(b, hw) := r : B * machine unit in Ret (b, with_hardware k hw)).
Definition on_segments {B} (m : M seg_state B) : M state B :=
  within (λ s, r ← m (sys_seg s); let '(b, g) := r : B * seg_state in
               Ret (b, mkSystem (sys_kernel s) g (sys_idt s) (sys_idtr s))).
Definition load_idt : M state unit :=
  within (λ s, r ← idt_init addr_IDT (sys_idt s);
               let '(idt, idtr) := r : list IdtEntry * DescriptorTablePointer in
               Ret (tt, mkSystem (sys_kernel s) (sys_seg s) idt idtr)).

(** A self-test on the local frame allocator; on it and the machine; on the
    heap. *)
Definition on_frames {B} (fa : FrameAllocator) (m : M (FrameAllocator * uart) B) : M state (B * FrameAllocator) :=
  λ '(s, u), r ← m (fa, u); let '(b, (fa', u')) := r : B * (FrameAllocator * uart) in Ret ((b, fa'), (s, u')).
Definition on_machine {B} (fa : FrameAllocator) (m : M (machine FrameAllocator * uart) B) :
    M state (B * FrameAllocator) := λ '(s, u),
  r ← m (with_frames (hardware (global (sys_kernel s))) fa, u);
  let '(b, (mc, u')) := r : B * (machine FrameAllocator * uart) in
  Ret ((b, m_fa mc), (mkSystem (with_hardware (sys_kernel s) (without_frames mc)) (sys_seg s) (sys_idt s) (sys_idtr s), u')).
Definition on_heap {B} (m : M (kernel FrameAllocator * uart) B) : M state B := λ '(s, u),
  r ← m (sys_kernel s, u);
  let '(b, (k, u')) := r : B * (kernel FrameAllocator * uart) in
  Ret (b, (mkSystem k (sys_seg s) (sys_idt s) (sys_idtr s), u')).

(** [&*boot_info_ptr]: the structure is 8-byte aligned. *)
Definition read_boot_info (ptr : Z) : M state BootInfo := λ '(s, u),
  let rd a := m_mem (hardware (global (sys_kernel s))) !! a in
  bi ← (if ptr mod 8 =? 0 then defined (deref rd ptr) else Undef); Ret (bi, (s, u)).
Definition init_frames (bi : BootInfo) : M state (result FrameAllocator InitError) := λ '(s, u),
  let rd a := m_mem (hardware (global (sys_kernel s))) !! a in
  r ← FrameInit.init rd bi; Ret (r, (s, u)).

(** [*FRAME_ALLOCATOR.lock() = Some(frame_allocator)] and the same for [VMM]. *)
Definition publish (fa : FrameAllocator) (vmm : VirtualMemoryManager) : M (kernel FrameAllocator) unit := λ k,
  let g := global k in
  fr ← SpinLock.lock fuel (FRAME_ALLOCATOR g);
  let '(_, frame_guard) := fr : option FrameAllocator * SpinLock (option FrameAllocator) in
  vr ← SpinLock.lock fuel (VMM g);
  let '(_, vmm_guard) := vr : option VirtualMemoryManager * SpinLock (option VirtualMemoryManager) in
  Ret (tt, mkKernel (inner k) (mkGlobals (unlock frame_guard (Some fa)) (unlock vmm_guard (Some vmm)) (hardware g))).

(** Step 4: descriptor tables, and the last self-test. *)
Definition start_interrupts : M state control :=
  _ ← on_segments Gdt.init;
  _ ← say fuel (CRLF ++ line "[OK] GDT loaded (kernel code/data segments, TSS with double-fault IST stack).");
  _ ← load_idt;
  _ ← say fuel (line "[OK] IDT loaded (all 32 CPU exception vectors installed).");
  run_interrupts_boot_self_test fuel.

(** The heap and what follows it. *)
Definition start_heap (fa : FrameAllocator) (vmm : VirtualMemoryManager) : M state control :=
  _ ← on_kernel (publish fa vmm);
  _ ← say fuel (line "[OK] Frame allocator and VMM published to the kernel heap's global handles.");
  ok ← on_heap (run_heap_boot_self_test (G := kernel_alloc fuel) fuel);
  if negb ok then fatal "FATAL: kernel heap allocator boot self-test failed." else
  _ ← say fuel (CRLF ++ line "MEMORY MANAGER SUBSYSTEM: kernel heap allocator verified.");
  _ ← say fuel (line "MEMORY MANAGER SUBSYSTEM COMPLETE: frame allocator, virtual memory");
  _ ← say fuel (line "manager, and kernel heap allocator all implemented and verified.");
  start_interrupts.

(** The virtual memory manager and what follows it. *)
Definition start_vmm (self_fn_vaddr : Z) (bi : BootInfo) (fa : FrameAllocator) : M state control :=
  vmm ← on_hardware (λ hw, Ret (Vmm.init hw));
  _ ← say fuel (text "[OK] Virtual memory manager initialized (EFER.NXE ");
  _ ← say fuel (text "set, reusing the bootloader's existing PML4 at 0x");
  _ ← say_hex fuel (PhysAddr.as_u64 (pml4_phys vmm));
  _ ← say fuel (line ").");
  r ← on_machine fa (run_vmm_boot_self_test fuel vmm self_fn_vaddr bi);
  let '(ok, fa) := r : bool * FrameAllocator in
  if negb ok then fatal "FATAL: virtual memory manager boot self-test failed." else
  _ ← say fuel (CRLF ++ line "MEMORY MANAGER SUBSYSTEM: virtual memory manager verified.");
  start_heap fa vmm.

(** The frame allocator and what follows it. *)
Definition start_frames (self_fn_vaddr : Z) (bi : BootInfo) (fa : FrameAllocator) : M state control :=
  _ ← say fuel (line "[OK] Physical frame allocator initialized.");
  _ ← say fuel (text "  Total frames : 0x");
  _ ← say_hex fuel (total_frames fa);
  _ ← say fuel (CRLF ++ text "  Free frames  : 0x");
  _ ← say_hex fuel (frames_free fa);
  _ ← say fuel CRLF;
  r ← on_frames fa (run_frame_allocator_boot_self_test fuel);
  let '(ok, fa) := r : bool * FrameAllocator in
  if negb ok then fatal "FATAL: frame allocator boot self-test failed." else
  _ ← say fuel (CRLF ++ line "MEMORY MANAGER SUBSYSTEM: physical frame allocator verified.");
  start_vmm self_fn_vaddr bi fa.

(** Step 1: the serial port. *)
Definition start_serial : M state unit :=
  _ ← console Serial.init;
  _ ← say fuel (CRLF ++ line "================================================");
  _ ← say fuel (line "NeoastrenOS Kernel - Memory Manager subsystem");
  say fuel (line "================================================").

Definition kernel_main (self_fn_vaddr boot_info_ptr : Z) : M state control :=
  _ ← start_serial;
  if boot_info_ptr =? 0 then fatal "FATAL: BootInfo pointer is null." else
  bi ← read_boot_info boot_info_ptr;
  if negb (is_valid bi) then fatal "FATAL: BootInfo validation failed (magic/version/size)." else
  _ ← say fuel (line "[OK] BootInfo magic, version, and size validated.");
  _ ← say fuel (text "Memory map entries     : 0x");
  _ ← say_hex fuel (memory_map_entry_count bi);
  _ ← say fuel (CRLF ++ text "Memory map desc. size  : 0x");
  _ ← say_hex fuel (memory_map_descriptor_size bi);
  _ ← say fuel CRLF;
  r ← init_frames bi;
  match r with
  | Err e =>
    _ ← say fuel (text "FATAL: FrameAllocator::init failed: ");
    _ ← say fuel (text (init_error_name e));
    _ ← say fuel CRLF;
    mret Halted
  | Ok fa => start_frames self_fn_vaddr bi fa
  end.

End main.

(** ** Booting *)
Section boot.
Context {P : BuildProfile} {L : Line} {I : Image} {H : HandlerCode} {C : Cpu}.
Context (bound fuel : nat) (Hfuel : (bound + 2 < fuel)%nat).
Implicit Types (s : system FrameAllocator) (u : uart) (fa : FrameAllocator) (bi : BootInfo).

Definition memory_of s (a : Z) : option Z := m_mem (hardware (global (sys_kernel s))) !! a.

(** The state the bootloader hands over: the kernel's statics as compiled,
    and nothing of the heap region mapped. *)
Record handed_over s : Prop := {
  hv_heap : inner (sys_kernel s) = new_heap;
  hv_frames : FRAME_ALLOCATOR (global (sys_kernel s)) = SpinLock.new None;
  hv_vmm : VMM (global (sys_kernel s)) = SpinLock.new None;
  hv_idt : sys_idt s = IDT_static;
  hv_gdt : length (GDT (sys_seg s)) = 5%nat;
  hv_tss : length (interrupt_stack_table (TSS (sys_seg s))) = 7%nat;
  hv_fresh : ∀ k, HEAP_REGION_START ≤ k * PAGE_SIZE < HEAP_REGION_END →
    cpu_walk (hardware (global (sys_kernel s))) (k * PAGE_SIZE) = Unmapped;
  hv_root : 0 ≤ m_cr3 (hardware (global (sys_kernel s)));
}.

(** Where the linker put the statics and the handlers. *)
Record linked : Prop := {
  lk_tss : u64 addr_TSS;
  lk_stack : u64 addr_DOUBLE_FAULT_STACK;
  lk_top : u64 (addr_DOUBLE_FAULT_STACK + DOUBLE_FAULT_STACK_SIZE);
  lk_code : code_ok H;
  lk_int3 : frame_ok int3_frame;
  lk_fault : frame_ok fault_frame;
}.

(** Loading both tables arms the processor. *)
Lemma tables_arm s :
  linked → sys_idt s = IDT_static → length (GDT (sys_seg s)) = 5%nat →
  length (interrupt_stack_table (TSS (sys_seg s))) = 7%nat →
  ∃ seg idt idtr, Gdt.init (sys_seg s) = Ret (tt, seg) ∧ idt_init addr_IDT (sys_idt s) = Ret (idt, idtr) ∧
    ∀ k : kernel FrameAllocator, armed (mkSystem k seg idt idtr).
Proof using Type.
  clear Hfuel bound fuel. intros [Ht Hst Htop Hc _ _] Hidt Hg Hi.
  destruct (gdt_init_ok (sys_seg s) Hg Hi Ht Hst Htop)
    as (seg & cd & dd & Hgdt & _ & _ & _ & Hcs & Hfetch & Hcode & Hlong & _ & _ & _ & _ & Htask & Hist & _).
  rewrite Hcs in Hfetch. destruct (gates_installed addr_IDT Hc) as (idt & idtr & Hload & Hgates & _).
  exists seg, idt, idtr. split; [done|]. split; [by rewrite Hidt|]. intros k.
  split; cbn [sys_seg sys_idt sys_idtr]; [done| | |].
  - exists cd. split; [done|]. by rewrite Hcode, Hlong.
  - by rewrite Htask.
  - eexists. rewrite Hist. done.
Qed.

(** The kernel stopped, with [t] as the last output. *)
Definition stopped (t : list Z → Prop) (c : control) (st : system FrameAllocator * uart) : Prop :=
  c = Halted ∧ ∃ log out, sent st.2 = log ++ expand out ∧ t out.

Lemma start_interrupts_ends s u self a frame l :
  linked → sys_idt s = IDT_static → length (GDT (sys_seg s)) = 5%nat →
  length (interrupt_stack_table (TSS (sys_seg s))) = 7%nat → sending bound u →
  heap_ok self a frame (data (inner (sys_kernel s))) (global (sys_kernel s)) l →
  next_unmapped (data (inner (sys_kernel s))) ≤ READONLY_TEST_VADDR →
  ends (out_of_frames a) (start_interrupts fuel (s, u)) (stopped (eq last_words)).
Proof using Hfuel.
  intros Hlk Hidt Hg Hi Hu Hok Hn. unfold start_interrupts.
  destruct (tables_arm s Hlk Hidt Hg Hi) as (seg & idt & idtr & Hgdt & Hload & Harm).
  erewrite M_run by (apply within_run; by rewrite Hgdt). speak Hfuel u1 Hu1 Hs1.
  erewrite M_run by (apply within_run; cbn [sys_idt]; by rewrite Hload). cbn [sys_kernel sys_seg].
  speak Hfuel u2 Hu2 Hs2.
  eapply ends_mono; [eapply (interrupts_self_test_ends bound fuel Hfuel (mkSystem (sys_kernel s) seg idt idtr));
    [apply Harm|apply Hlk|done|apply Hlk|apply Hlk|exact Hok|done]|done|].
  cbn. intros c st (-> & _ & log & Hs). split; [done|]. by exists log, last_words.
Qed.

(** Publishing the handles gives an empty heap with its invariant. *)
Lemma published_heap self fa hw :
  vm_ok self (with_frames hw fa) → self = cpu_vmm hw → pool_ok (with_frames hw fa) →
  (∀ k, HEAP_REGION_START ≤ k * PAGE_SIZE < HEAP_REGION_END → cpu_walk hw (k * PAGE_SIZE) = Unmapped) →
  heap_ok self fa (λ _, 0) (data new_heap)
    (mkGlobals (SpinLock.new (Some fa)) (SpinLock.new (Some self)) hw) [].
Proof using Type.
  clear Hfuel bound fuel. intros Hvm Hself Hpool Hfresh. split; [done|done| |].
  - change (next_unmapped (data new_heap)) with HEAP_REGION_START. split; [done|done|done| |intros; lia|done].
    split; [by split|done| |intros; lia|intros; lia].
    cbn [hardware]. rewrite <- Hself. eapply tables_ok_mono, (vm_tables _ _ Hvm). set_solver.
  - split; [|intros p _ Hc; by apply covers_nil in Hc|exact Logic.I]. by split_and!.
Qed.

Lemma on_heap_run {B} (m : M (kernel FrameAllocator * uart) B) s u b k u' :
  m (sys_kernel s, u) = Ret (b, (k, u')) →
  on_heap m (s, u) = Ret (b, (mkSystem k (sys_seg s) (sys_idt s) (sys_idtr s), u')).
Proof using Type. clear Hfuel bound fuel. unfold on_heap. by intros ->. Qed.

Lemma ends_on_heap {B X} err (m : M (kernel FrameAllocator * uart) B) (c : B → M (system FrameAllocator * uart) X) s u Q R :
  ends err (m (sys_kernel s, u)) Q →
  (∀ b k u', Q b (k, u') → ends err (c b (mkSystem k (sys_seg s) (sys_idt s) (sys_idtr s), u')) R) →
  ends err ((x ← on_heap m; c x) (s, u)) R.
Proof using Type.
  clear Hfuel bound fuel. intros Hm Hc.
  apply (ends_bind err (on_heap m) c (s, u) (λ b st, ∃ k, Q b (k, st.2) ∧ st.1 = mkSystem k (sys_seg s) (sys_idt s) (sys_idtr s))).
  - unfold on_heap. destruct (m (sys_kernel s, u)) as [[b [k u']]| | |]; try exact Hm. by exists k.
  - intros b [s' u'] (k & HQ & Heq). cbn [fst snd] in *. subst s'. by apply Hc.
Qed.

(** The panics of a boot: an allocation or a mapping failed, for want of
    frames below the limit of the identity map. *)
Definition short_of (n : Z) fa (p : panic) : Prop :=
  (p = AllocFailed ∨ p = ExpectFailed) ∧ Z.of_nat (size (low_pool fa)) < n.

(** From the publication on: the heap test has credit for its 2336 pages and
    one page more is left, unless memory is short. *)
Lemma start_heap_ends s u self fa :
  linked → handed_over s → sending bound u →
  READONLY_TEST_VADDR - HEAP_REGION_START + 64 ≤ 16 * Z.of_nat fuel →
  vm_ok self (with_frames (hardware (global (sys_kernel s))) fa) → self = cpu_vmm (hardware (global (sys_kernel s))) →
  pool_ok (with_frames (hardware (global (sys_kernel s))) fa) →
  ends (short_of 9350 fa) (start_heap fuel fa self (s, u)) (stopped (eq last_words)).
Proof using Hfuel.
  intros Hlk [Hh Hf Hv Hidt Hg Ht Hfresh _] Hu Hheap Hvm Hself Hpool. unfold start_heap.
  pose proof (published_heap self fa _ Hvm Hself Hpool Hfresh) as Hok.
  set (g := mkGlobals (SpinLock.new (Some fa)) (SpinLock.new (Some self)) (hardware (global (sys_kernel s)))) in *.
  assert (Hpub : publish fuel fa self (sys_kernel s) = Ret (tt, mkKernel new_heap g)).
  { unfold publish. rewrite Hf, Hv, !lock_free by (done || lia). cbn [mbind outcome_bind]. by rewrite Hh. }
  erewrite M_run by (apply on_kernel_run, Hpub). cbn [sys_seg sys_idt sys_idtr].
  speak Hfuel u1 Hu1 Hs1. set (short := Z.of_nat (size (low_pool fa)) < 9350).
  assert (Hown : heap_owns self READONLY_TEST_VADDR short (mkKernel new_heap g) [] (1 + 2336)).
  { exists fa, (λ _, 0), []. split; [done|done|constructor|done|lia|unfold short; lia|done]. }
  assert (Htop : READONLY_TEST_VADDR ≤ HEAP_REGION_END) by done.
  pose (LA := kernel_lawful self READONLY_TEST_VADDR short fuel Hheap Htop).
  eapply ends_on_heap.
  { eapply ends_mono; [exact (heap_self_test_ends (LA := LA) bound fuel Hfuel (mkKernel new_heap g) u1 [] 1 Hown ltac:(lia) Hu1)| |done].
    intros p [Hsh ->]. split; [by left|exact Hsh]. }
  cbn beta. intros ok k' u2 (-> & [Ho Hu2] & _). cbn [negb sys_seg sys_idt sys_idtr fst snd] in *.
  speak Hfuel u3 Hu3 Hs3. speak Hfuel u4 Hu4 Hs4. speak Hfuel u5 Hu5 Hs5.
  destruct Ho as (a' & fr' & l' & [_ Hok' _ _ _ Hlow' Hroom]).
  eapply ends_mono; [eapply (start_interrupts_ends _ u5 self a' fr' l'); try done| |done].
  - unfold PAGE_SIZE in *. cbn [sys_kernel]. lia.
  - intros p [-> Hlow]. split; [by right|]. destruct Hlow' as [Hsh|]; [exact Hsh|lia].
Qed.

(** New hardware state behind the same translations. *)
Lemma handed_over_hardware s hw :
  handed_over s → m_cr3 hw = m_cr3 (hardware (global (sys_kernel s))) →
  (∀ v, cpu_walk hw v = cpu_walk (hardware (global (sys_kernel s))) v) →
  handed_over (mkSystem (with_hardware (sys_kernel s) hw) (sys_seg s) (sys_idt s) (sys_idtr s)).
Proof using Type.
  clear Hfuel bound fuel. intros [? ? ? ? ? ? Hf Hr] Hcr Hw. split; try done; cbn [sys_kernel with_hardware global hardware].
  - intros k Hk. rewrite Hw. by apply Hf.
  - by rewrite Hcr.
Qed.

Lemma enable_nxe_keeps {B} (hw : machine B) :
  m_mem (enable_nxe hw) = m_mem hw ∧ m_cr3 (enable_nxe hw) = m_cr3 hw.
Proof using Type. clear Hfuel bound fuel. unfold enable_nxe. by destruct (_ =? _). Qed.

(** What the virtual memory manager starts from. *)
Record mapped_kernel s fa (code : Z) bi : Prop := {
  mk_vm : vm_ok (cpu_vmm (hardware (global (sys_kernel s)))) (with_frames (hardware (global (sys_kernel s))) fa);
  mk_pool : pool_ok (with_frames (hardware (global (sys_kernel s))) fa);
  mk_image : u64 (kernel_physical_base bi + kernel_size_bytes bi);
  mk_code : ∃ pa, resolve (cpu_walk (hardware (global (sys_kernel s))) code) (VirtAddr.new code) = Some pa ∧
    kernel_physical_base bi ≤ PhysAddr.as_u64 pa < kernel_physical_base bi + kernel_size_bytes bi;
}.

Lemma mapped_ready s fa code bi hw :
  handed_over s → mapped_kernel s fa code bi → m_mem hw = m_mem (hardware (global (sys_kernel s))) →
  m_cr3 hw = m_cr3 (hardware (global (sys_kernel s))) →
  ready (cpu_vmm (hardware (global (sys_kernel s)))) (with_frames hw fa) code bi.
Proof using Type.
  clear Hfuel bound fuel. intros Hho [[V1 V2 V3 V4] [P1 P2] Him Hcode] Hm Hcr. split; try done.
  - split; [done| |done|]; cbn [with_frames m_mem m_fa]; by rewrite Hm.
  - unfold cpu_vmm. cbn [with_frames m_cr3]. by rewrite Hcr.
  - split; [|done]. cbn [with_frames m_mem m_fa]. by rewrite Hm.
  - cbn [with_frames m_mem]. rewrite Hm. apply (hv_fresh _ Hho (TEST_VADDR / PAGE_SIZE)). by split.
  - cbn [with_frames m_mem]. by rewrite Hm.
Qed.

(** What the kernel says when a self-test fails. *)
Definition vmm_failed : list Z := line "FATAL: virtual memory manager boot self-test failed.".
Definition frames_failed : list Z := line "FATAL: frame allocator boot self-test failed.".

Lemma fatal_stops err t s u (Q : list Z → Prop) :
  sending bound u → Q (line t) → ends err (fatal fuel t (s, u)) (stopped Q).
Proof using Hfuel.
  intros Hu HQ. destruct (say_run bound fuel Hfuel (line t) (mret Halted) s u Hu) as (u' & _ & Hs & Hr).
  eapply ends_ret; [exact Hr|]. split; [done|]. by exists (sent u), (line t).
Qed.

(** How the boot goes on from the memory manager. *)
Definition vmm_end fa (out : list Z) : Prop :=
  out = last_words ∨ out = vmm_failed ∧ Z.of_nat (size (low_pool fa)) < 5.

Lemma start_vmm_ends s u fa code bi :
  linked → handed_over s → mapped_kernel s fa code bi → sending bound u →
  READONLY_TEST_VADDR - HEAP_REGION_START + 64 ≤ 16 * Z.of_nat fuel →
  ends (short_of 9353 fa) (start_vmm fuel code bi fa (s, u)) (stopped (vmm_end fa)).
Proof using Hfuel.
  intros Hlk Hho Hmk Hu Hheap. unfold start_vmm. set (hw := hardware (global (sys_kernel s))).
  destruct (enable_nxe_keeps hw) as [Hm Hcr].
  assert (Hinit : (λ k, r ← Ret (Vmm.init (hardware (global k))); let '(b, hw) := r : VirtualMemoryManager * machine unit in
      Ret (b, with_hardware k hw)) (sys_kernel s) = Ret (cpu_vmm hw, with_hardware (sys_kernel s) (enable_nxe hw))).
  { cbn. unfold Vmm.init, cpu_vmm, read_cr3. fold hw. by rewrite Hcr. }
  unfold on_hardware. erewrite M_run by (apply on_kernel_run, Hinit). cbn [sys_seg sys_idt sys_idtr].
  set (s1 := mkSystem (with_hardware (sys_kernel s) (enable_nxe hw)) (sys_seg s) (sys_idt s) (sys_idtr s)).
  assert (Hho1 : handed_over s1).
  { apply handed_over_hardware; [done|done|]. intros v. unfold cpu_walk, cpu_vmm. by rewrite Hm, Hcr. }
  pose proof (hv_root _ Hho) as Hroot. fold hw in Hroot.
  change (PhysAddr.as_u64 (pml4_phys (cpu_vmm hw))) with (m_cr3 hw).
  speak Hfuel u1 Hu1 Hs1. speak Hfuel u2 Hu2 Hs2. speak Hfuel u3 Hu3 Hs3. speak Hfuel u4 Hu4 Hs4.
  destruct (vmm_self_test_total bound fuel (cpu_vmm hw) (with_frames (enable_nxe hw) fa) u4 code bi)
    as (ok & sm & u5 & Hr & Hu5 & Hpost); [by apply (mapped_ready s)|done|done|].
  set (s2 := mkSystem (with_hardware (sys_kernel s1) (without_frames sm)) (sys_seg s) (sys_idt s) (sys_idtr s)).
  assert (Hrun : on_machine fa (run_vmm_boot_self_test fuel (cpu_vmm hw) code bi) (s1, u4) = Ret ((ok, m_fa sm), (s2, u5))).
  { unfold on_machine. cbn [s1 sys_kernel with_hardware global hardware]. by rewrite Hr. }
  erewrite M_run by exact Hrun. destruct ok; cbn [negb].
  2: { apply fatal_stops; [done|]. right. split; [done|]. change (low_pool fa) with (low_frames (with_frames (enable_nxe hw) fa)). lia. }
  destruct Hpost as (Hca & Hwalk & Hcnt & _). speak Hfuel u6 Hu6 Hs6.
  destruct (ca_cpu _ _ _ Hca) as [_ Hcr2]. cbn [with_frames m_cr3] in Hcr2. rewrite Hcr in Hcr2.
  assert (Hvm2 : cpu_vmm (without_frames sm) = cpu_vmm hw) by (unfold cpu_vmm; cbn [without_frames m_cr3]; by rewrite Hcr2).
  assert (Heta : with_frames (without_frames sm) (m_fa sm) = sm) by (by destruct sm).
  assert (Hho2 : handed_over s2).
  { apply (handed_over_hardware s1); [done|cbn; by rewrite Hcr2, Hcr|].
    intros v. unfold cpu_walk. rewrite Hvm2. cbn [without_frames m_mem]. rewrite Hwalk. cbn [with_frames m_mem].
    cbn [s1 sys_kernel with_hardware global hardware]. unfold cpu_vmm. by rewrite Hcr. }
  eapply ends_mono; [apply start_heap_ends; try done; cbn [s2 sys_kernel with_hardware global hardware]; rewrite ?Heta| |].
  - apply Hca.
  - eapply pool_carries; [exact Hca|]. split; cbn [with_frames m_mem m_fa]; rewrite ?Hm; apply (mk_pool _ _ _ _ Hmk).
  - intros p [Hp Hlow]. split; [done|]. pose proof (low_spent fa (m_fa sm) 3) as Hsp.
    destruct Hca as [_ _ _ _ Hsub _ _]. unfold free_count in Hcnt. cbn [with_frames m_fa] in *.
    specialize (Hsp (conj Hsub Hcnt)). lia.
  - intros c st (-> & log & out & Hs & <-). split; [done|]. exists log, last_words. split; [done|by left].
Qed.

(** The same after the frame allocator's own test. *)
Lemma mapped_kernel_same s fa fa' code bi :
  mapped_kernel s fa code bi → wf fa' → total_frames fa' = total_frames fa → free_frames fa' = free_frames fa →
  mapped_kernel s fa' code bi.
Proof using Type.
  clear Hfuel bound fuel. intros [[V1 V2 V3 V4] [P1 P2] Him Hcode] Hwf' Ht Hff.
  cbn [with_frames m_fa m_mem] in *. change (fs_free fa) with (free_frames fa) in *. change (fs_total fa) with (total_frames fa) in *.
  split; try done.
  - split; cbn [with_frames m_fa m_mem]; [done|..]; change (fs_free fa') with (free_frames fa'); by rewrite Hff.
  - split; cbn [with_frames m_fa m_mem]; change (fs_free fa') with (free_frames fa');
      change (fs_total fa') with (total_frames fa'); [by rewrite Hff|by rewrite Ht].
Qed.

Lemma low_pool_same fa fa' : free_frames fa' = free_frames fa → low_pool fa' = low_pool fa.
Proof using Type. clear Hfuel bound fuel. intros Hff. unfold low_pool. change (fs_free fa') with (free_frames fa'). by rewrite Hff. Qed.

(** How the boot goes on from the frame allocator: its test passes with 16
    free frames or more. *)
Definition frames_end fa (out : list Z) : Prop :=
  if decide (frames_free fa < 16) then out = frames_failed else vmm_end fa out.
Definition frames_panic fa (p : panic) : Prop := 16 ≤ frames_free fa ∧ short_of 9353 fa p.

Lemma start_frames_ends s u fa code bi :
  linked → handed_over s → mapped_kernel s fa code bi → wf fa → sending bound u →
  READONLY_TEST_VADDR - HEAP_REGION_START + 64 ≤ 16 * Z.of_nat fuel →
  ends (frames_panic fa) (start_frames fuel code bi fa (s, u)) (stopped (frames_end fa)).
Proof using Hfuel.
  intros Hlk Hho Hmk Hwf Hu Hheap. unfold start_frames.
  pose proof (wf_total _ Hwf) as Htot. pose proof (wf_count _ Hwf) as Hcnt.
  speak Hfuel u1 Hu1 Hs1. speak Hfuel u2 Hu2 Hs2. speak Hfuel u3 Hu3 Hs3. speak Hfuel u4 Hu4 Hs4.
  speak Hfuel u5 Hu5 Hs5. speak Hfuel u6 Hu6 Hs6.
  destruct (frame_self_test_ok bound fuel fa u6 Hwf Hu6 Hfuel) as (fa' & u7 & Hr & Hwf' & Hu7 & Hpost).
  assert (Hrun : on_frames fa (run_frame_allocator_boot_self_test fuel) (s, u6) = Ret ((16 <=? frames_free fa, fa'), (s, u7))).
  { unfold on_frames. by rewrite Hr. }
  erewrite M_run by exact Hrun. destruct (Z.leb_spec 16 (frames_free fa)) as [Hmany|Hfew]; cbn [negb].
  2: { apply fatal_stops; [done|]. unfold frames_end. by rewrite decide_True. }
  destruct (Hpost Hmany) as (Ht & Hff & _). speak Hfuel u8 Hu8 Hs8.
  eapply ends_mono; [apply start_vmm_ends; try done; by eapply mapped_kernel_same| |].
  - intros p [Hp Hlow]. split; [done|]. split; [done|]. by rewrite <- (low_pool_same fa fa' Hff).
  - intros c st (-> & log & out & Hs & Hend). split; [done|]. exists log, out. split; [done|].
    unfold frames_end, vmm_end in *. rewrite decide_False by lia. by rewrite <- (low_pool_same fa fa' Hff).
Qed.

(** A sound handoff, whatever the size of memory. *)
Record sound (ptr code : Z) s bi es : Prop := {
  so_handed : handed_over s;
  so_ptr : ptr ≠ 0 ∧ ptr mod 8 = 0;
  so_info : deref (memory_of s) ptr = Some bi;
  so_valid : is_valid bi = true;
  so_handoff : handoff_ok (memory_of s) bi es;
  so_mapped : ∀ fa, FrameInit.init (memory_of s) bi = Ret (Ok fa) → mapped_kernel s fa code bi;
}.

(** What the kernel needs at entry to come up. *)
Record bootable (ptr code : Z) s fa bi es : Prop := {
  bt_sound : sound ptr code s bi es;
  bt_init : FrameInit.init (memory_of s) bi = Ret (Ok fa);
  bt_low : 9353 ≤ Z.of_nat (size (low_pool fa));
}.

(** How a boot can end: with the report of the fault, or with the reason why
    it could not go on; and when it can panic. *)
Definition init_failed (e : InitError) : list Z :=
  text "FATAL: FrameAllocator::init failed: " ++ text (init_error_name e) ++ CRLF.
Definition kernel_end (r : result FrameAllocator InitError) (out : list Z) : Prop :=
  match r with Ok fa => frames_end fa out | Err e => out = init_failed e end.
Definition kernel_panic (r : result FrameAllocator InitError) (p : panic) : Prop :=
  match r with Ok fa => frames_panic fa p | Err _ => False end.

Lemma start_serial_ok s u :
  (busy u ≤ bound)%nat → (∀ n, (delay n ≤ bound)%nat) →
  ∃ u', start_serial fuel (s, u) = Ret (tt, (s, u')) ∧ sending bound u'.
Proof using Hfuel.
  intros Hb Hd. destruct (init_sending bound u Hb Hd) as (u0 & Hi & Hu0 & _). unfold start_serial.
  erewrite M_run by (unfold console; by rewrite Hi).
  speak Hfuel u1 Hu1 Hs1. speak Hfuel u2 Hu2 Hs2.
  destruct (say_run bound fuel Hfuel (line "================================================") (mret tt) s u2 Hu2) as (u3 & Hu3 & _ & Hr).
  exists u3. split; [|done]. unfold mbind, M_bind in Hr. destruct (say _ _ _) as [[[] ?]| | |]; by try discriminate Hr.
Qed.

Lemma read_boot_info_run ptr s u bi :
  ptr mod 8 = 0 → deref (memory_of s) ptr = Some bi → read_boot_info ptr (s, u) = Ret (bi, (s, u)).
Proof using Type.
  clear Hfuel bound fuel. intros Hp8 Hinfo. unfold read_boot_info. rewrite Hp8. cbn [Z.eqb]. fold (memory_of s). by rewrite Hinfo.
Qed.

(** From the handoff to the end. *)
Lemma kernel_main_ends ptr code s u bi es :
  linked → sound ptr code s bi es → (busy u ≤ bound)%nat → (∀ n, (delay n ≤ bound)%nat) →
  READONLY_TEST_VADDR - HEAP_REGION_START + 64 ≤ 16 * Z.of_nat fuel →
  ∃ r, FrameInit.init (memory_of s) bi = Ret r ∧
    ends (kernel_panic r) (kernel_main fuel code ptr (s, u)) (stopped (kernel_end r)).
Proof using Hfuel.
  intros Hlk [Hho [Hp0 Hp8] Hinfo Hval Hhand Hmk] Hb Hd Hheap. unfold kernel_main.
  destruct (frame_init_ok (memory_of s) bi es Hhand) as (r & Hinit & Hpost). exists r. split; [done|].
  destruct (start_serial_ok s u Hb Hd) as (u0 & Hr0 & Hu0). erewrite M_run by exact Hr0. destruct (Z.eqb_spec ptr 0); [done|].
  erewrite M_run by (by apply read_boot_info_run). rewrite Hval. cbn [negb].
  assert (Hcount : 0 ≤ memory_map_entry_count bi) by (destruct (ho_reads _ _ _ Hhand) as [<- _]; lia).
  pose proof (ho_stride _ _ _ Hhand) as Hstride.
  speak Hfuel u1 Hu1 Hs1. speak Hfuel u2 Hu2 Hs2. speak Hfuel u3 Hu3 Hs3. speak Hfuel u4 Hu4 Hs4.
  speak Hfuel u5 Hu5 Hs5. speak Hfuel u6 Hu6 Hs6.
  assert (Hfr : init_frames bi (s, u6) = Ret (r, (s, u6))) by (unfold init_frames; fold (memory_of s); by rewrite Hinit).
  erewrite M_run by exact Hfr. destruct r as [fa|e].
  - apply start_frames_ends; try done; [by apply Hmk|apply Hpost].
  - speak Hfuel u7 Hu7 Hs7. speak Hfuel u8 Hu8 Hs8. speak Hfuel u9 Hu9 Hs9. split; [done|].
    exists (sent u6), (init_failed e). split; [|done]. cbn [snd]. rewrite Hs9, Hs8, Hs7. unfold init_failed.
    by rewrite !expand_app, <- !app_assoc.
Qed.

Lemma kernel_main_ok ptr code s u fa bi es :
  linked → bootable ptr code s fa bi es → (busy u ≤ bound)%nat → (∀ n, (delay n ≤ bound)%nat) →
  READONLY_TEST_VADDR - HEAP_REGION_START + 64 ≤ 16 * Z.of_nat fuel →
  ∃ s' u' log, kernel_main fuel code ptr (s, u) = Ret (Halted, (s', u')) ∧ sent u' = log ++ expand last_words.
Proof using Hfuel.
  intros Hlk [Hso Hinit Hlow] Hb Hd Hheap.
  destruct (kernel_main_ends ptr code s u bi es Hlk Hso Hb Hd Hheap) as (r & Hr & Hend). rewrite Hinit in Hr. injection Hr as <-.
  destruct (ends_sure _ _ _ Hend) as (c & [s' u'] & Hrun & -> & log & out & Hs & Hout).
  { intros p (_ & _ & ?). lia. }
  destruct (frame_init_ok (memory_of s) bi es (so_handoff _ _ _ _ _ Hso)) as (r & Hr & Hpost). rewrite Hinit in Hr. injection Hr as <-.
  assert (Hmany : 9353 ≤ frames_free fa).
  { rewrite (wf_count _ (proj1 Hpost)). etrans; [exact Hlow|]. apply inj_le, subseteq_size.
    unfold low_pool. change (fs_free fa) with (free_frames fa). set_solver. }
  cbn in Hout. unfold frames_end in Hout. rewrite decide_False in Hout by lia. destruct Hout as [->|[_ ?]]; [|lia]. by exists s', u', log.
Qed.


Lemma fatal_run t s u :
  sending bound u → ∃ u', fatal fuel t (s, u) = Ret (Halted, (s, u')) ∧ sent u' = sent u ++ expand (line t).
Proof using Hfuel.
  intros Hu. destruct (say_run bound fuel Hfuel (line t) (mret Halted) s u Hu) as (u' & _ & Hs & Hr). by exists u'.
Qed.

(** C3: the kernel is safe on every machine.  Handed over a sound [BootInfo],
    with page tables outside free memory that map its code and nothing of the
    heap region, and whatever amount of memory the map offers, [kernel_main]
    has no undefined behaviour, does not loop for ever, and meets no overflow,
    no index out of range, no failed assertion and no failed self-test of the
    heap.  It stops with the frame allocator's reason when [init] fails and
    with a failed frame test when fewer than 16 frames are free; otherwise with
    the report of the deliberate fault, or with a failed test of the memory
    manager, which happens only when fewer than 5 frames can become page
    tables; and with fewer than 9353 of those it may panic, but only with the
    alloc crate's out-of-memory or with a failed [expect]. *)
Theorem kernel_main_safe ptr code s u bi es :
  linked → sound ptr code s bi es → (busy u ≤ bound)%nat → (∀ n, (delay n ≤ bound)%nat) →
  READONLY_TEST_VADDR - HEAP_REGION_START + 64 ≤ 16 * Z.of_nat fuel →
  ∃ r, FrameInit.init (memory_of s) bi = Ret r ∧
    match kernel_main fuel code ptr (s, u) with
    | Ret (c, (_, u')) => c = Halted ∧ ∃ log out, sent u' = log ++ expand out ∧
        match r with
        | Err e => out = init_failed e
        | Ok fa =>
            if decide (frames_free fa < 16) then out = line "FATAL: frame allocator boot self-test failed." else
            out = last_words ∨
            out = line "FATAL: virtual memory manager boot self-test failed." ∧ Z.of_nat (size (low_pool fa)) < 5
        end
    | Panic p => (p = AllocFailed ∨ p = ExpectFailed) ∧
        ∃ fa, r = Ok fa ∧ 16 ≤ frames_free fa ∧ Z.of_nat (size (low_pool fa)) < 9353
    | Undef | NoFuel => False
    end.
Proof using Hfuel.
  intros Hlk Hso Hb Hd Hheap. destruct (kernel_main_ends ptr code s u bi es Hlk Hso Hb Hd Hheap) as (r & Hr & Hend).
  exists r. split; [done|]. destruct (kernel_main fuel code ptr (s, u)) as [[c [s' u']]|p| |]; cbn in Hend; [|destruct r; [|done]|done|done].
  - destruct Hend as (-> & log & out & Hs & Hout). split; [done|]. exists log, out. split; [done|].
    destruct r as [fa|e]; exact Hout.
  - destruct Hend as (? & Hp & ?). split; [done|]. by eexists.
Qed.

(** A panic is reported with its place, and stops the kernel. *)
Lemma panic_reports location :
  (∀ file n, location = Some (file, n) → u64 n) →
  writes bound (panic_handler fuel location) Halted (CRLF ++ line "!!! KERNEL PANIC !!!" ++
    match location with
    | Some (file, n) => text "Location: " ++ file ++ text ":" ++ hex_digits 16 n ++ CRLF
    | None => []
    end).
Proof using Hfuel.
  intros Hn. unfold panic_handler. destruct location as [[file n]|].
  - specialize (Hn file n eq_refl). eapply writes_eq; [written|]. by rewrite !app_nil_r, <- !app_assoc.
  - eapply writes_eq; [written|]. by rewrite !app_nil_r.
Qed.

(** C34: a handoff the kernel cannot use stops it before anything is touched.
    On a null pointer, on a [BootInfo] that fails validation and on a memory
    map the frame allocator refuses, [kernel_main] halts with the system as
    it found it, and the last output names the reason. *)
Theorem kernel_main_rejects ptr code s u :
  (busy u ≤ bound)%nat → (∀ n, (delay n ≤ bound)%nat) →
  (ptr = 0 → ∃ u' log, kernel_main fuel code ptr (s, u) = Ret (Halted, (s, u')) ∧
     sent u' = log ++ expand (line "FATAL: BootInfo pointer is null.")) ∧
  ∀ bi, ptr ≠ 0 → ptr mod 8 = 0 → deref (memory_of s) ptr = Some bi →
    (is_valid bi = false → ∃ u' log, kernel_main fuel code ptr (s, u) = Ret (Halted, (s, u')) ∧
       sent u' = log ++ expand (line "FATAL: BootInfo validation failed (magic/version/size).")) ∧
    (∀ e, is_valid bi = true → map_sized bi → FrameInit.init (memory_of s) bi = Ret (Err e) →
       ∃ u' log, kernel_main fuel code ptr (s, u) = Ret (Halted, (s, u')) ∧
         sent u' = log ++ expand (text "FATAL: FrameAllocator::init failed: ") ++ expand (text (init_error_name e)) ++ expand CRLF).
Proof using Hfuel.
  intros Hb Hd. destruct (start_serial_ok s u Hb Hd) as (u0 & Hr0 & Hu0). unfold kernel_main.
  erewrite M_run by exact Hr0. split.
  - intros ->. cbn [Z.eqb]. destruct (fatal_run "FATAL: BootInfo pointer is null." s u0 Hu0) as (u' & -> & Hs). by exists u', (sent u0).
  - intros bi Hp0 Hp8 Hinfo. destruct (Z.eqb_spec ptr 0); [done|].
    erewrite M_run by (by apply read_boot_info_run). split.
    + intros ->. cbn [negb]. destruct (fatal_run "FATAL: BootInfo validation failed (magic/version/size)." s u0 Hu0) as (u' & -> & Hs). by exists u', (sent u0).
    + intros e -> (Hcount & Hstride & _) Hinit. cbn [negb].
      speak Hfuel u1 Hu1 Hs1. speak Hfuel u2 Hu2 Hs2. speak Hfuel u3 Hu3 Hs3. speak Hfuel u4 Hu4 Hs4.
      speak Hfuel u5 Hu5 Hs5. speak Hfuel u6 Hu6 Hs6.
      assert (Hfr : init_frames bi (s, u6) = Ret (Err e, (s, u6))) by (unfold init_frames; fold (memory_of s); by rewrite Hinit).
      erewrite M_run by exact Hfr. cbv beta iota. speak Hfuel u7 Hu7 Hs7. speak Hfuel u8 Hu8 Hs8. speak Hfuel u9 Hu9 Hs9.
      exists u9, (sent u6). split; [done|]. by rewrite Hs9, Hs8, Hs7, <- !app_assoc.
Qed.

End boot.
