(* ===== verification/ByteTyping.v ===== *)
(** Memory stays typed: every operation of the kernel that writes memory
    leaves 8-bit values in every byte, from any state whatsoever.

    [typed] is a judgement on computations, with one rule per construct and
    one lemma per operation, collected in a hint database; the operations of
    the memory manager, the free list and the heap follow by their own
    structure. *)
From stdpp Require Import base numbers option gmap list_numbers list.
From S2P Require Import Prelude PhysAddr VirtAddr PageTableEntry Memory FrameAllocator FrameSource Vmm HeapMemory LinkedListAllocator SpinLock Mmu Heap GlobalAlloc HeapClient.

Class HasMemory (S : Type) : Type := mem_of : S → mem.
#[global] Instance machine_memory {A} : HasMemory (machine A) := m_mem.
#[global] Instance pair_memory {X S} {HS : HasMemory S} : HasMemory (X * S) := λ s, mem_of s.2.
#[global] Instance globals_memory {A} : HasMemory (globals A) := λ g, m_mem (hardware g).
#[global] Instance kernel_memory {A} : HasMemory (kernel A) := λ k, mem_of (global k).

Definition typed {S X} {HS : HasMemory S} (m : M S X) : Prop :=
  ∀ s x s', m s = Ret (x, s') → bytes_ok (mem_of s) → bytes_ok (mem_of s').

Create HintDb typing.

Section rules.
Context {S : Type} {HS : HasMemory S}.

Lemma typed_ret {X} (x : X) : typed (mret x : M S X).
Proof. by intros s y s' [= -> ->]. Qed.
Lemma typed_lift {X} (o : outcome X) : typed (lift o : M S X).
Proof. intros s x s'. unfold lift. destruct o; naive_solver. Qed.
Lemma typed_bind {X Y} (m : M S X) (k : X → M S Y) : typed m → (∀ x, typed (k x)) → typed (x ← m; k x).
Proof. intros Hm Hk s y s' (x & s1 & H1 & H2)%M_bind_Ret Hb. eapply Hk; [exact H2|]. by eapply Hm. Qed.
Lemma typed_try {X Y E} (m : M S (result X E)) (k : X → M S (result Y E)) :
  typed m → (∀ x, typed (k x)) → typed (try_bind m k).
Proof. intros Hm Hk. apply typed_bind; [done|]. intros [x|e]; [apply Hk|apply typed_ret]. Qed.
End rules.

(** Follow the structure of a computation. *)
Ltac typed_step :=
  match goal with
  | |- typed (mret _) => apply typed_ret
  | |- typed (lift _) => apply typed_lift
  | |- typed (stop _) => apply typed_lift
  | |- typed (try_bind _ _) => apply typed_try; [|intros ?]
  | |- typed (_ ≫= _) => apply typed_bind; [|intros ?]
  | |- typed (if ?b then _ else _) => destruct b
  | |- typed (match ?o with _ => _ end) => destruct o
  | |- typed (let _ := _ in _) => cbv zeta
  | |- typed _ => solve [eauto with typing]
  end.
Ltac typing := repeat typed_step.

Section vmm.
Context {P : BuildProfile} {A : Type} {FS : FrameSource A}.

Lemma write_volatile_typed m p v m' : write_volatile_u64 m p v = Ret m' → bytes_ok m → bytes_ok m'.
Proof.
  unfold write_volatile_u64. destruct (volatile_ok p); [|done].
  destruct (store_le 8 m p v) eqn:Hs; [|done]. intros [= <-]. by eapply store_le_bytes.
Qed.
Lemma get_entry_typed ptr idx : typed (get_entry (A := A) ptr idx).
Proof. intros s x s'. unfold get_entry. intros (e & _ & [= <- <-])%bind_Ret. done. Qed.
Lemma put_entry_typed ptr idx e : typed (put_entry (A := A) ptr idx e).
Proof. intros s x s'. unfold put_entry, write_entry. intros (m & Hw & [= <- <-])%bind_Ret. exact (write_volatile_typed _ _ _ _ Hw). Qed.
Lemma zero_table_typed ptr m m' : zero_table m ptr = Ret m' → bytes_ok m → bytes_ok m'.
Proof.
  unfold zero_table. generalize 0 at 1 as i. generalize 512%nat as n. intros n. revert m.
  induction n as [|n IH]; intros m i; cbn [for_range]; [by intros [= ->]|].
  intros ([m1 b] & (m2 & Hw & [= <- <-])%bind_Ret & Hr)%bind_Ret Hb. eapply IH; [exact Hr|].
  exact (write_volatile_typed _ _ _ _ Hw Hb).
Qed.
Lemma clear_table_typed ptr : typed (clear_table (A := A) ptr).
Proof. intros s x s'. unfold clear_table. intros (m & Hw & [= <- <-])%bind_Ret. exact (zero_table_typed _ _ _ Hw). Qed.
Lemma table_frame_typed : typed (table_frame (A := A)).
Proof. intros s x s'. unfold table_frame. intros ([p a] & _ & [= <- <-])%bind_Ret. done. Qed.
Lemma flush_typed addr : typed (flush (A := A) addr).
Proof. by intros s x s' [= <- <-]. Qed.
Lemma huge_typed ptr idx : typed ((λ s, h ← entry_is_huge_page (m_mem s) ptr idx; Ret (h, s)) : M (machine A) bool).
Proof. intros s x s' (h & _ & [= <- <-])%bind_Ret. done. Qed.

#[local] Hint Resolve get_entry_typed put_entry_typed clear_table_typed table_frame_typed flush_typed huge_typed : typing.

Lemma get_or_create_typed t idx : typed (get_or_create_table (A := A) t idx).
Proof. unfold get_or_create_table. typing. Qed.
#[local] Hint Resolve get_or_create_typed : typing.
Lemma map_typed self v p fl : typed (Vmm.map (A := A) self v p fl).
Proof. unfold Vmm.map. typing. Qed.
Lemma unmap_typed self v : typed (unmap (A := A) self v).
Proof. unfold unmap. typing. Qed.

Lemma take_frame_typed : typed (take_frame (A := A)).
Proof. intros s x s'. unfold take_frame. intros ([p a] & _ & [= <- <-])%bind_Ret. done. Qed.
Lemma return_frame_typed p : typed (return_frame (A := A) p).
Proof. intros s x s'. unfold return_frame. intros ([r a] & _ & [= <- <-])%bind_Ret. done. Qed.
#[local] Hint Resolve map_typed unmap_typed take_frame_typed return_frame_typed : typing.

Lemma page_addr_typed g i : typed (page_addr (A := A) g i).
Proof. unfold page_addr. typing. Qed.
#[local] Hint Resolve page_addr_typed : typing.
Lemma unwind_typed n self g i : typed (unwind_partial_growth (A := A) n self g i).
Proof. revert i. induction n as [|n IH]; intros i; cbn [unwind_partial_growth]; typing. Qed.
#[local] Hint Resolve unwind_typed : typing.
Lemma map_pages_typed n self g i : typed (map_pages (A := A) n self g i).
Proof. revert i. induction n as [|n IH]; intros i; cbn [map_pages]; typing. Qed.
End vmm.

Section free_list.
Context {P : BuildProfile} {B : Type}.
Abbreviation heap := (LinkedListAllocator * machine B)%type.

Lemma mmu_store_typed (s : machine B) v x s' : mmu_store s v x = Ret s' → bytes_ok (m_mem s) → bytes_ok (m_mem s').
Proof.
  unfold mmu_store. destruct (_ && _); [|done].
  intros (pa & _ & (m & Hw & [= <-])%bind_Ret)%bind_Ret.
  exact (write_volatile_typed _ _ _ _ Hw).
Qed.
Lemma get_size_typed p : typed (get_size p : M heap Z).
Proof. intros [al w] x s'. cbn. destruct p; [by intros [= <- <-]|]. intros (v & _ & [= <- <-])%bind_Ret. done. Qed.
Lemma get_next_typed p : typed (get_next p : M heap Z).
Proof. intros [al w] x s'. cbn. destruct p; [by intros [= <- <-]|]. intros (v & _ & [= <- <-])%bind_Ret. done. Qed.
Lemma set_size_typed p v : typed (set_size p v : M heap unit).
Proof.
  intros [al w] x s'. cbn. destruct p; [by intros [= <- <-]|]. intros (w' & Hs & [= <- <-])%bind_Ret.
  exact (mmu_store_typed _ _ _ _ Hs).
Qed.
Lemma set_next_typed p v : typed (set_next p v : M heap unit).
Proof.
  intros [al w] x s'. cbn. destruct p; [by intros [= <- <-]|]. intros (w' & Hs & [= <- <-])%bind_Ret.
  exact (mmu_store_typed _ _ _ _ Hs).
Qed.
#[local] Hint Resolve get_size_typed get_next_typed set_size_typed set_next_typed : typing.

Lemma find_prev_typed n p a : typed (find_prev n p a : M heap node_ptr).
Proof. revert p. induction n as [|n IH]; intros p; cbn [find_prev]; typing. Qed.
Lemma merge_backward_typed p a : typed (merge_backward p a : M heap bool).
Proof. unfold merge_backward. typing. Qed.
Lemma merge_forward_typed n a s : typed (merge_forward n a s : M heap bool).
Proof. unfold merge_forward. typing. Qed.
Lemma splice_typed p n a s b f : typed (splice p n a s b f : M heap unit).
Proof. unfold splice. typing. Qed.
#[local] Hint Resolve find_prev_typed merge_backward_typed merge_forward_typed splice_typed : typing.
Lemma add_free_region_typed n a s : typed (add_free_region n a s : M heap unit).
Proof. unfold add_free_region. typing. Qed.
#[local] Hint Resolve add_free_region_typed : typing.
Lemma take_block_typed n p c a e r : typed (take_block n p c a e r : M heap Z).
Proof. unfold take_block. typing. Qed.
#[local] Hint Resolve take_block_typed : typing.
Lemma alloc_loop_typed n w sz al p c : typed (alloc_loop n w sz al p c : M heap Z).
Proof. revert p c. induction w as [|w IH]; intros p c; cbn [alloc_loop]; typing. Qed.
#[local] Hint Resolve alloc_loop_typed : typing.
Lemma alloc_typed n layout : typed (LinkedListAllocator.alloc n layout : M heap Z).
Proof. unfold LinkedListAllocator.alloc. typing. Qed.
Lemma dealloc_typed n p layout : typed (LinkedListAllocator.dealloc n p layout : M heap unit).
Proof. unfold LinkedListAllocator.dealloc. typing. Qed.
End free_list.

(** ** The kernel heap *)
Section heap.
Context {P : BuildProfile} {A : Type} {FS : FrameSource A}.
Context (fuel : nat).

(** Split the run of a sequence at its next bind. *)
Ltac step H := apply bind_Ret in H as (? & ? & H); cbv beta in H.

Lemma grow_typed state layout : typed (grow (A := A) fuel state layout).
Proof using Type.
  intros g x g' H Hb. unfold grow in H. step H. destruct x0 as [[gb ge]|]; [|by injection H as <- <-].
  step H. destruct x0 as [[a|] fl].
  - step H. destruct x0 as [[vmm|] vl]; [|by injection H as <- <-].
    apply bind_Ret in H as ([[|] s] & Hmp & H).
    + apply bind_Ret in H as ([[] [al hw]] & Har & H). injection H as <- <-.
      apply (add_free_region_typed _ _ _ _ _ _ Har). exact (map_pages_typed _ _ _ _ _ _ _ Hmp Hb).
    + injection H as <- <-. exact (map_pages_typed _ _ _ _ _ _ _ Hmp Hb).
  - step H. destruct x0 as [o vl]. by injection H as <- <-.
Qed.

Lemma search_typed state layout : typed (search (A := A) fuel state layout).
Proof using Type.
  intros g x g' H Hb. unfold search in H. apply bind_Ret in H as ([p [al hw]] & Hr & H). injection H as <- <-.
  exact (alloc_typed _ _ _ _ _ Hr Hb).
Qed.

Lemma heap_alloc_typed layout : typed (Heap.alloc (A := A) fuel layout).
Proof using Type.
  intros k x k' H Hb. unfold Heap.alloc in H. apply bind_Ret in H as ([st hl] & _ & H).
  apply bind_Ret in H as ([[p st1] g1] & H1 & H). pose proof (search_typed _ _ _ _ _ H1 Hb) as Hb1.
  destruct (negb (p =? 0)); [by injection H as <- <-|].
  apply bind_Ret in H as ([[b st2] g2] & H2 & H). pose proof (grow_typed _ _ _ _ _ H2 Hb1) as Hb2.
  destruct b; [|by injection H as <- <-].
  apply bind_Ret in H as ([[q st3] g3] & H3 & H). pose proof (search_typed _ _ _ _ _ H3 Hb2) as Hb3.
  by injection H as <- <-.
Qed.

Lemma heap_dealloc_typed ptr layout : typed (Heap.dealloc (A := A) fuel ptr layout).
Proof using Type.
  intros k x k' H Hb. unfold Heap.dealloc in H. apply bind_Ret in H as ([st hl] & _ & H).
  apply bind_Ret in H as ([[] [al hw]] & Hr & H). injection H as <- <-. exact (dealloc_typed _ _ _ _ _ _ Hr Hb).
Qed.

Lemma kernel_write_typed n v y : typed (ga_write (GlobalAlloc := kernel_alloc (A := A) fuel) n v y).
Proof using Type.
  intros k x k' H Hb. apply bind_Ret in H as (hw & Hw & H). injection H as <- <-.
  unfold mmu_write in Hw. destruct (_ && _); [|done].
  apply bind_Ret in Hw as (pa & _ & Hw). apply bind_Ret in Hw as (m & Hs & Hw). injection Hw as <-.
  unfold defined in Hs. destruct (store_le _ _ _ _) eqn:Hst; [|done]. injection Hs as <-.
  by eapply store_le_bytes.
Qed.

End heap.

