(* ===== verification/BootMachine.v ===== *)
(** A machine the kernel boots on, byte by byte: 40 MiB of memory with the
    handoff structure, a one-entry memory map and four page tables in it.

    The theorems about the kernel's start have hypotheses on the state the
    bootloader leaves; this file shows that they are met together, and
    applies the theorems there. *)
From Stdlib Require Import String.
From stdpp Require Import base numbers option gmap list_numbers list.
From S2P Require Import Prelude PhysAddr VirtAddr PageTableEntry Memory BootInfo MemoryMap FrameAllocator FrameInit FrameSource Vmm PageWalk VmmSpec VmmCorrect VmmTheorems HeapMemory LinkedListAllocator FreeBlocks FreeListSpec FreeListTheorems SpinLock Mmu Heap HeapGrowth HeapSpec HeapTheorems Serial Gdt Idt Exceptions SelfTest VmmSelfTest GlobalAlloc AllocCrate HeapClient HeapSelfTest InterruptTest KernelMain.

(** ** Memory *)
Definition TOP : Z := 0x2800000.

(** The kernel's image is at 1 MiB, conventional memory from 2 MiB up. *)
Definition boot_info : BootInfo :=
  mkBootInfo BOOTINFO_MAGIC 1 96 0x10100 48 48 1 1 0x100000 0xFFFFFFFF80000000 0x1000 0x80000 0x4000.
Definition info_bytes : list Z :=
  le_bytes 8 BOOTINFO_MAGIC ++ le_bytes 4 1 ++ le_bytes 4 96 ++ le_bytes 8 0x10100 ++ le_bytes 8 48 ++
  le_bytes 8 48 ++ le_bytes 8 1 ++ le_bytes 8 1 ++ le_bytes 8 0x100000 ++ le_bytes 8 0xFFFFFFFF80000000 ++
  le_bytes 8 0x1000 ++ le_bytes 8 0x80000 ++ le_bytes 8 0x4000.
Definition usable : MemoryMapEntry := mkMemoryMapEntry 7 (PhysAddr.new 0x200000) 0x2600.

Definition link (t : Z) : PageTableEntry := new_table_pointer (PhysAddr.new t).
Definition code_leaf : PageTableEntry := new_leaf (PhysAddr.new 0x100000) read_write.

(** What is not zero, with its address. *)
Definition segments : list (Z * list Z) :=
  [(0x1FF8, le_bytes 8 (entry_0 (link 0x2000))); (0x2FF0, le_bytes 8 (entry_0 (link 0x3000)));
   (0x3000, le_bytes 8 (entry_0 (link 0x4000))); (0x4000, le_bytes 8 (entry_0 code_leaf));
   (0x10000, info_bytes); (0x10100, descriptor 7 0x200000 0x2600)].

Fixpoint byte_of (segs : list (Z * list Z)) (a : Z) : Z :=
  match segs with
  | [] => 0
  | (p, bs) :: rest =>
    if (p <=? a) && (a <? p + Z.of_nat (length bs)) then default 0 (bs !! Z.to_nat (a - p)) else byte_of rest a
  end.
Definition boot_byte : Z → Z := byte_of segments.
Definition boot_mem : mem := fill_mem boot_byte 0x1000 (TOP - 0x1000).
Abbreviation boot_read := (λ a, boot_mem !! a).

Lemma byte_of_outside segs a :
  Forall (λ s, ¬ (s.1 ≤ a < s.1 + Z.of_nat (length s.2))) segs → byte_of segs a = 0.
Proof.
  induction 1 as [|[p bs] rest Ha _ IH]; [done|]. cbn in *.
  destruct (Z.leb_spec p a), (Z.ltb_spec a (p + Z.of_nat (length bs))); [lia|done..].
Qed.
Lemma byte_of_range segs a : Forall (λ s, Forall (λ b, 0 ≤ b < 256) s.2) segs → 0 ≤ byte_of segs a < 256.
Proof.
  induction 1 as [|[p bs] rest Hb _ IH]; cbn; [lia|]. destruct (_ && _); [|done].
  destruct (bs !! _) as [b|] eqn:Hl; cbn; [|lia]. exact (proj1 (Forall_lookup _ _) Hb _ _ Hl).
Qed.

Lemma boot_byte_range a : 0 ≤ boot_byte a < 256.
Proof.
  apply byte_of_range. vm_compute. repeat (constructor; [repeat (constructor; [split; [discriminate|reflexivity]|]); constructor|]). constructor.
Qed.
Lemma boot_read_in a : 0x1000 ≤ a < TOP → boot_mem !! a = Some (boot_byte a).
Proof. intros Ha. unfold boot_mem. rewrite fill_mem_lookup; [reflexivity|unfold TOP in *; lia]. Qed.

(** ** Page tables *)
Lemma boot_ent t i : 0x1000 ≤ t → t + 8 * i + 8 ≤ TOP → idx_ok i →
  ent boot_mem t i = mkEntry (default 0 (load_le 8 (λ a, Some (boot_byte a)) (t + 8 * i))).
Proof. unfold idx_ok. intros Ht Hhi Hi. unfold ent, boot_mem. rewrite fill_mem_word; [reflexivity|unfold TOP in *; lia..]. Qed.

Definition is_table (t : Z) : Prop := t = 0x1000 ∨ t = 0x2000 ∨ t = 0x3000 ∨ t = 0x4000.
Definition slot_of (t : Z) : Z := if t =? 0x1000 then 511 else if t =? 0x2000 then 510 else 0.

Lemma table_cleared t i : is_table t → idx_ok i → i ≠ slot_of t → ent boot_mem t i = cleared.
Proof.
  intros Ht Hi Hne. rewrite boot_ent; [|unfold is_table, idx_ok, TOP in *; lia..].
  assert (Hz : ∀ a, t + 8 * i ≤ a < t + 8 * i + 8 → boot_byte a = 0).
  { intros a Ha. apply byte_of_outside. unfold idx_ok in Hi.
    destruct Ht as [->|[->|[->| ->]]]; unfold slot_of in Hne; cbn in Hne; repeat constructor; cbn; lia. }
  rewrite (load_le_ext 8 _ (λ _, Some 0)) by (intros a Ha; by rewrite Hz by lia). reflexivity.
Qed.
Lemma table_slot t : is_table t →
  ent boot_mem t (slot_of t) = if t =? 0x4000 then code_leaf else link (t + 0x1000).
Proof.
  intros Ht. rewrite boot_ent; [|unfold is_table, TOP, slot_of in *; destruct Ht as [->|[->|[->| ->]]]; cbn; unfold idx_ok; lia..].
  destruct Ht as [->|[->|[->| ->]]]; vm_compute; reflexivity.
Qed.

(** A link leads to the next table, the leaf to the kernel's code. *)
Lemma link_facts t : is_table t → t ≠ 0x4000 →
  is_present (link (t + 0x1000)) = true ∧ is_huge (link (t + 0x1000)) = false ∧
  PhysAddr.as_u64 (addr (link (t + 0x1000))) = t + 0x1000.
Proof. intros [->|[->|[->| ->]]] Hne; by vm_compute. Qed.

Section chain.
Context (m : mem).
Hypothesis cleared_slots : ∀ t i, is_table t → idx_ok i → i ≠ slot_of t → ent m t i = cleared.
Hypothesis used_slots : ∀ t, is_table t →
  ent m t (slot_of t) = if t =? 0x4000 then code_leaf else link (t + 0x1000).

Lemma boot_next t i t' : is_table t → t ≠ 0x4000 → idx_ok i → next_table m t i = Some t' →
  i = slot_of t ∧ t' = t + 0x1000.
Proof using All.
  intros Ht Hne Hi. unfold next_table. destruct (decide (i = slot_of t)) as [->|Hs].
  - rewrite used_slots by done. destruct (Z.eqb_spec t 0x4000); [done|].
    destruct (link_facts t Ht Hne) as (-> & -> & ->). by intros [= <-].
  - by rewrite cleared_slots.
Qed.

(** The tables form one chain. *)
Definition chain : list (list Z * Z) := [([], 0x1000); ([511], 0x2000); ([511; 510], 0x3000); ([511; 510; 0], 0x4000)].
Lemma boot_tables p t : path_ok p → PageWalk.table_at m 0x1000 p = Some t → (p, t) ∈ chain.
Proof using All.
  unfold chain. intros [Hlen Hp] Ht. destruct p as [|i p]; cbn in Ht; [injection Ht as <-; set_solver|].
  apply bind_Some in Ht as (t1 & H1 & Ht). apply Forall_cons in Hp as [Hi Hp].
  apply boot_next in H1 as [-> ->]; [|by left|done|done]. destruct p as [|j p]; cbn in Ht; [injection Ht as <-; set_solver|].
  apply bind_Some in Ht as (t2 & H2 & Ht). apply Forall_cons in Hp as [Hj Hp].
  apply boot_next in H2 as [-> ->]; [|by right; left|done|done]. destruct p as [|k p]; cbn in Ht; [injection Ht as <-; set_solver|].
  apply bind_Some in Ht as (t3 & H3 & Ht). apply Forall_cons in Hp as [Hk Hp].
  apply boot_next in H3 as [-> ->]; [|by right; right; left|done|done].
  destruct p as [|l p]; [|cbn in Hlen; lia]. injection Ht as <-. set_solver.
Qed.

Lemma boot_tables_ok free : mapped m 0x1000 0x4000 → (∀ t, is_table t → t / FRAME_SIZE ∉ free) → tables_ok m 0x1000 free.
Proof using All.
  intros Hm Hfree. split.
  - intros p t Hp Ht%boot_tables; [|done]. assert (Hi : is_table t) by (unfold chain, is_table in *; set_solver).
    split_and!; [unfold is_table, IDENTITY_MAP_LIMIT in *; lia..| | |by apply Hfree].
    + by destruct Hi as [->|[->|[->| ->]]].
    + intros i Hin. apply Hm. unfold is_table, FRAME_SIZE in *. lia.
  - intros p q t Hp Hq Ht%boot_tables Hs%boot_tables; [|done..]. unfold chain in *. set_solver.
  - intros i Hi. destruct (decide (i = slot_of 0x1000)) as [->|Hs].
    + rewrite used_slots by (by left). intros _. by vm_compute.
    + by rewrite cleared_slots by (done || by left).
Qed.

(** Only the kernel's code is mapped. *)
Lemma walk_link t i rest : is_table t → t ≠ 0x4000 →
  walk m t (slot_of t :: i :: rest) = walk m (t + 0x1000) (i :: rest).
Proof using All.
  intros Ht Hne. rewrite walk_more, used_slots by done. destruct (Z.eqb_spec t 0x4000); [done|].
  by destruct (link_facts t Ht Hne) as (-> & -> & ->).
Qed.
Lemma below_code_unmapped v : VirtAddr.page v < 511 * 2 ^ 27 + 510 * 2 ^ 18 → walk m 0x1000 (indices v) = Unmapped.
Proof using All.
  intros Hv. rewrite page_digits in Hv. pose proof (index_bounds v) as Hb. unfold indices.
  destruct (decide (pml4_index v = slot_of 0x1000)) as [He|Hne].
  - rewrite He, walk_link by (done || by left). rewrite walk_more, cleared_slots; [done|by right; left|unfold idx_ok; lia|].
    intros Hs. rewrite He, Hs in Hv. change (slot_of 0x1000) with 511 in *. change (slot_of (0x1000 + 0x1000)) with 510 in *. lia.
  - rewrite walk_more, cleared_slots; [done|by left|unfold idx_ok; lia|done].
Qed.
Lemma code_mapped : walk m 0x1000 (indices (VirtAddr.new code_page)) = Leaf code_leaf.
Proof using All.
  change (indices (VirtAddr.new code_page)) with [slot_of 0x1000; slot_of 0x2000; slot_of 0x3000; slot_of 0x4000].
  rewrite (walk_link 0x1000) by (done || by left). rewrite (walk_link 0x2000) by (done || by right; left).
  rewrite (walk_link 0x3000) by (done || by right; right; left).
  by rewrite walk_one, used_slots by (by right; right; right).
Qed.
End chain.

(** ** The handoff *)
Definition flash (a : Z) : option Z := Some (boot_byte a).

Lemma boot_deref : deref boot_read 0x10000 = Some boot_info.
Proof.
  rewrite (deref_ext boot_read flash); [vm_compute; reflexivity|]. intros i Hi. apply boot_read_in. unfold TOP. lia.
Qed.

Lemma usable_validate : validate usable = Some TOP.
Proof. vm_compute. reflexivity. Qed.

Lemma boot_handoff : handoff_ok boot_read boot_info [usable].
Proof.
  assert (Hsz : map_sized boot_info) by (unfold map_sized; cbn; lia).
  split; [|done|cbn; lia|cbn; lia| | | |].
  - intros i b. unfold boot_mem. intros [_ ->]%fill_mem_Some. apply boot_byte_range.
  - apply (reads_as_ext flash); [done|cbn; lia| |].
    + intros i Hi. cbn in Hi. symmetry. apply boot_read_in. unfold TOP. lia.
    + split; [reflexivity|]. intros [|k] Hk; [vm_compute; reflexivity|cbn in Hk; lia].
  - intros e en i He _ _ Hi. apply list_elem_of_singleton in He as ->. cbn in *. lia.
  - intros e en i He _ Hv Hi _. apply list_elem_of_singleton in He as ->. rewrite usable_validate in Hv. injection Hv as <-.
    rewrite boot_read_in; [by eexists|]. cbn in Hi. lia.
  - intros e He _. by apply list_elem_of_singleton in He as ->.
Qed.

(** ** One region of conventional memory
    up to [top]: the frame allocator comes up with everything but the frame of
    its bitmap free. *)
Definition region_of (d top : Z) : MemoryMapEntry :=
  mkMemoryMapEntry EFI_CONVENTIONAL_MEMORY (PhysAddr.new d) ((top - d) / FRAME_SIZE).

Section region.
Context (d top : Z) (Hd : 0 < d) (Hdm : d mod FRAME_SIZE = 0) (Htm : top mod FRAME_SIZE = 0) (Hlt : d + FRAME_SIZE ≤ top) (Htop : top ≤ 2 ^ 27).

Lemma region_validate : validate (region_of d top) = Some top.
Proof using All.
  assert (Hpg : 0 < (top - d) / FRAME_SIZE ∧ (top - d) / FRAME_SIZE * FRAME_SIZE = top - d) by (unfold FRAME_SIZE in *; dlia).
  destruct Hpg as [Hpg Hsz].
  assert (Hu : u64 (top - d) ∧ u64 top) by (unfold u64, FRAME_SIZE in *; lia).
  unfold validate, end_addr. cbn [region_of number_of_pages physical_start]. destruct (Z.eqb_spec ((top - d) / FRAME_SIZE) 0); [lia|].
  rewrite (proj2 (is_frame_aligned_spec _)) by done. cbn [negb].
  rewrite (proj2 (checked_mul_Some _ _ (top - d))) by (rewrite Hsz; split; [done|apply Hu]). cbn [mbind option_bind].
  apply checked_add_Some. cbn. replace (d + (top - d)) with top by lia. split; [done|apply Hu].
Qed.
Lemma region_highest : highest_end [region_of d top] = top.
Proof using All. unfold highest_end. cbn [foldl]. rewrite region_validate. unfold FRAME_SIZE in *. lia. Qed.
Lemma region_bitmap : let bytes := div_ceil (top / FRAME_SIZE) 8 in bytes ≤ FRAME_SIZE ∧ div_ceil bytes FRAME_SIZE = 1.
Proof using All.
  intros bytes. pose proof (div_ceil_spec (top / FRAME_SIZE) 8 ltac:(lia)) as Hb. fold bytes in Hb.
  pose proof (div_ceil_spec bytes FRAME_SIZE ltac:(done)) as Hc. unfold FRAME_SIZE in *.
  assert (0 < top / 0x1000 ≤ 0x8000) by dlia. lia.
Qed.

Lemma region_frames {P : BuildProfile} rd bi : handoff_ok rd bi [region_of d top] →
  ∃ fa, FrameInit.init rd bi = Ret (Ok fa) ∧ wf fa ∧ total_frames fa = top / FRAME_SIZE ∧
    ∀ f, f ∈ free_frames fa ↔ d / FRAME_SIZE + 1 ≤ f < top / FRAME_SIZE.
Proof using All.
  intros Hh. destruct (frame_init_ok rd bi _ Hh) as (r & Hr & Hpost). destruct region_bitmap as [Hb1 Hb2].
  assert (Hin : region_of d top ∈ [region_of d top]) by (by apply list_elem_of_singleton).
  unfold init_post in Hpost. rewrite region_highest in Hpost. set (bytes := div_ceil (top / FRAME_SIZE) 8) in *.
  assert (Hfn : frame_number (PhysAddr.new d) = d / FRAME_SIZE ∧ d / FRAME_SIZE + (top - d) / FRAME_SIZE = top / FRAME_SIZE)
    by (split; [done|unfold FRAME_SIZE in *; dlia]).
  destruct r as [fa|[]].
  - destruct Hpost as (Hwf & Htot & _ & (e & He & _ & Hptr) & Hlen & Hfree). apply list_elem_of_singleton in He as ->.
    exists fa. split; [done|]. split; [done|]. split; [rewrite <- Htot, Z.div_mul; done|].
    intros f. rewrite Hfree. unfold bitmap_frame. rewrite Hlen, Hptr, Hb2. change (PhysAddr.as_u64 (physical_start (region_of d top))) with d.
    destruct Hfn as [Hfn1 Hfn2]. split.
    + intros [(e & He & _ & Hie) Hb]. apply list_elem_of_singleton in He as ->. unfold in_entry in Hie.
      cbn [region_of physical_start number_of_pages] in Hie. rewrite Hfn1 in Hie. lia.
    + intros Hf. split; [|lia]. exists (region_of d top). split; [done|]. split; [split; [done|exists top; exact region_validate]|].
      unfold in_entry. cbn [region_of physical_start number_of_pages]. rewrite Hfn1. lia.
  - pose proof (Hpost _ Hin) as Hv. by rewrite region_validate in Hv.
  - exfalso. apply (Hpost _ Hin). split; [done|]. exists top. split; [exact region_validate|].
    split; [unfold IDENTITY_MAP_LIMIT; lia|]. cbn. lia.
  - destruct Hpost as (e & en & He & Hv & Hbig). apply list_elem_of_singleton in He as ->.
    rewrite region_validate in Hv. injection Hv as <-. lia.
Qed.
End region.

Lemma boot_frames {P : BuildProfile} rd : handoff_ok rd boot_info [usable] → ∃ fa, FrameInit.init rd boot_info = Ret (Ok fa) ∧ wf fa ∧
  total_frames fa = 0x2800 ∧ ∀ f, f ∈ free_frames fa ↔ 0x201 ≤ f < 0x2800.
Proof. apply (region_frames 0x200000 TOP); unfold FRAME_SIZE, TOP; (reflexivity || lia). Qed.

(** What the proofs below use of the memory. *)
Record boot_image (m : mem) : Prop := {
  im_cleared : ∀ t i, is_table t → idx_ok i → i ≠ slot_of t → ent m t i = cleared;
  im_used : ∀ t, is_table t → ent m t (slot_of t) = if t =? 0x4000 then code_leaf else link (t + 0x1000);
  im_mapped : mapped m 0x1000 (TOP - 0x1000);
  im_info : deref (λ a, m !! a) 0x10000 = Some boot_info;
  im_handoff : handoff_ok (λ a, m !! a) boot_info [usable];
}.
Lemma boot_mem_image : boot_image boot_mem.
Proof.
  constructor.
  - exact table_cleared.
  - exact table_slot.
  - intros i Hi. unfold boot_mem. rewrite fill_mem_lookup; [by eexists|unfold TOP in *; lia].
  - exact boot_deref.
  - exact boot_handoff.
Qed.

(** ** The system *)
Definition boot_cpu (wp : bool) : Cpu :=
  {| addr_IDT := 0xFFFFFFFF80130000; int3_frame := demo_frame; fault_frame := demo_frame; cr0_wp := wp |}.
Definition boot_hardware (m : mem) : machine unit := mkMachine m tt ∅ 0xD01 0x1000.
Definition boot_system (m : mem) : system FrameAllocator :=
  mkSystem (mkKernel new_heap (mkGlobals (SpinLock.new None) (SpinLock.new None) (boot_hardware m)))
    (mkSeg TSS_static GDT_static (mkPointer 0 0) 0x38 [] 0 (0, 0)) IDT_static (mkPointer 0 0).
(** Enough to walk a free list of all the heap's blocks up to the test page. *)
Definition boot_fuel : nat := Z.to_nat 0x1000010.

Lemma boot_fuel_ok : (2 + 2 < boot_fuel)%nat ∧ READONLY_TEST_VADDR - HEAP_REGION_START + 64 ≤ 16 * Z.of_nat boot_fuel.
Proof. unfold boot_fuel, READONLY_TEST_VADDR, HEAP_REGION_START. lia. Qed.

Lemma boot_linked wp : linked (I := demo_image) (H := demo_code) (C := boot_cpu wp).
Proof.
  split; [apply u64b_spec; reflexivity..|exact demo_code_ok| |]; repeat constructor; cbn; lia.
Qed.

Section boot.
Context {P : BuildProfile} (m : mem) (Him : boot_image m) (fa : FrameAllocator).
Hypothesis Hwf : wf fa.
Hypothesis Htot : total_frames fa = 0x2800.
Hypothesis Hfree : ∀ f, f ∈ free_frames fa ↔ 0x201 ≤ f < 0x2800.
Let hw := boot_hardware m.

Lemma boot_vm_ok : vm_ok (cpu_vmm hw) (with_frames hw fa).
Proof using All.
  split; cbn [with_frames m_fa m_mem]; change (fs_free fa) with (free_frames fa).
  - exact Hwf.
  - change (root (cpu_vmm hw)) with 0x1000. apply boot_tables_ok; [apply Him|apply Him| |].
    + intros i Hi. apply (im_mapped _ Him). unfold TOP. lia.
    + intros t Ht Hf%Hfree. destruct Ht as [->|[->|[->| ->]]]; vm_compute in Hf; by destruct Hf.
  - intros Hf%Hfree. lia.
  - intros f Hf%Hfree _ i Hi. apply (im_mapped _ Him). unfold FRAME_SIZE, TOP in *. lia.
Qed.
Lemma boot_pool_ok : pool_ok (with_frames hw fa).
Proof using All.
  split; cbn [with_frames m_fa m_mem].
  - intros f Hf%Hfree i Hi. apply (im_mapped _ Him). unfold FRAME_SIZE, TOP in *. lia.
  - change (fs_total fa) with (total_frames fa). rewrite Htot. lia.
Qed.
Lemma boot_low : 9727 ≤ Z.of_nat (size (low_pool fa)).
Proof using Hfree.
  assert (Hsub : list_to_set (seqZ 0x201 9727) ⊆ low_pool fa).
  { intros f Hf%elem_of_list_to_set%elem_of_seqZ. unfold low_pool. apply elem_of_filter.
    split; [unfold FRAME_SIZE, IDENTITY_MAP_LIMIT; lia|]. apply Hfree. lia. }
  apply subseteq_size in Hsub. rewrite size_list_to_set in Hsub by apply NoDup_seqZ. rewrite length_seqZ in Hsub. lia.
Qed.
Lemma boot_fresh k : HEAP_REGION_START ≤ k * PAGE_SIZE < HEAP_REGION_END → cpu_walk hw (k * PAGE_SIZE) = Unmapped.
Proof using Him.
  intros Hk. apply below_code_unmapped; [apply Him..|]. unfold VirtAddr.page, VirtAddr.as_u64, VirtAddr.new. cbn [virt_0].
  unfold HEAP_REGION_START, HEAP_REGION_END, PAGE_SIZE, FRAME_SIZE in *. dlia.
Qed.

Lemma boot_handed_over : handed_over (boot_system m).
Proof using Him. split; try reflexivity; [exact boot_fresh|done]. Qed.

Lemma boot_mapped : mapped_kernel (boot_system m) fa code_page boot_info.
Proof using All.
  split; [exact boot_vm_ok|exact boot_pool_ok|apply u64b_spec; reflexivity|].
  exists (PhysAddr.new 0x100000). split; [|cbn; lia].
  change (cpu_walk (hardware (global (sys_kernel (boot_system m)))) code_page) with (walk m 0x1000 (indices (VirtAddr.new code_page))).
  rewrite code_mapped by apply Him. vm_compute. reflexivity.
Qed.

Lemma boot_bootable : FrameInit.init (λ a, m !! a) boot_info = Ret (Ok fa) →
  bootable 0x10000 code_page (boot_system m) fa boot_info [usable].
Proof using All.
  intros Hinit. split; [|exact Hinit|pose proof boot_low; lia].
  split; [exact boot_handed_over|by split|exact (im_info _ Him)|reflexivity|exact (im_handoff _ Him)|].
  intros fa' Hinit'. unfold memory_of in Hinit'. cbn in Hinit'. rewrite Hinit in Hinit'. injection Hinit' as <-. exact boot_mapped.
Qed.

(** The heap as it is once the handles are published. *)
Definition published_system : system FrameAllocator :=
  mkSystem (mkKernel new_heap (mkGlobals (SpinLock.new (Some fa)) (SpinLock.new (Some (cpu_vmm hw))) hw))
    (sys_seg (boot_system m)) IDT_static (mkPointer 0 0).
Lemma boot_heap_ok :
  heap_ok (cpu_vmm hw) fa (λ _, 0) (data new_heap) (global (sys_kernel published_system)) [].
Proof using All. apply published_heap; [exact boot_vm_ok|reflexivity|exact boot_pool_ok|exact boot_fresh]. Qed.
Lemma boot_owns : kernel_owns (cpu_vmm hw) READONLY_TEST_VADDR (sys_kernel published_system) [] (1 + 2336).
Proof using All.
  exists fa, (λ _, 0), []. split; [reflexivity|exact boot_heap_ok|constructor|constructor|lia|right; pose proof boot_low; lia|done].
Qed.
End boot.


Lemma kernel_main_safe_witness :
  match kernel_main (P := release_profile) (L := demo_line) (I := demo_image) (H := demo_code) (C := boot_cpu false)
    boot_fuel code_page 0x10000 (boot_system boot_mem, demo_uart) with
  | Ret (c, _) => c = Halted
  | Panic p => p = AllocFailed ∨ p = ExpectFailed
  | Undef | NoFuel => False
  end.
Proof.
  destruct (boot_frames (P := release_profile) _ (im_handoff _ boot_mem_image)) as (fa & Hinit & Hwf & Htot & Hfree).
  destruct (kernel_main_safe (P := release_profile) (L := demo_line) (I := demo_image) (H := demo_code) (C := boot_cpu false)
    2 boot_fuel (proj1 boot_fuel_ok) 0x10000 code_page (boot_system boot_mem) demo_uart boot_info [usable] (boot_linked false)
    (bt_sound _ _ _ _ _ _ (boot_bootable (P := release_profile) boot_mem boot_mem_image fa Hwf Htot Hfree Hinit))
    ltac:(cbn; lia) ltac:(intros n; cbn; lia) (proj2 boot_fuel_ok)) as (r & _ & Hend).
  destruct (kernel_main _ _ _ _) as [[c [s' u']]|p| |]; [exact (proj1 Hend)|exact (proj1 Hend)|exact Hend|exact Hend].
Defined.

Lemma kernel_main_rejects_witness :
  ∃ u' log, kernel_main (P := release_profile) (L := demo_line) (I := demo_image) (H := demo_code) (C := boot_cpu true)
    5 code_page 0 (boot_system boot_mem, demo_uart) = Ret (Halted, (boot_system boot_mem, u')) ∧
    sent u' = log ++ expand (line "FATAL: BootInfo pointer is null.").
Proof.
  exact (proj1 (kernel_main_rejects (P := release_profile) (L := demo_line) (I := demo_image) (H := demo_code) (C := boot_cpu true)
    2 5 ltac:(lia) 0 code_page (boot_system boot_mem) demo_uart ltac:(cbn; lia) ltac:(intros n; cbn; lia)) eq_refl).
Defined.

Lemma test_page_in_region : READONLY_TEST_VADDR ≤ HEAP_REGION_END.
Proof. done. Qed.
Lemma heap_self_test_passes_witness :
  ∃ k k' u' log, run_heap_boot_self_test (P := release_profile) (L := demo_line)
      (G := kernel_alloc (P := release_profile) (A := FrameAllocator) boot_fuel) boot_fuel (k, demo_uart) = Ret (true, (k', u')) ∧
    sent u' = log ++ expand (line "Kernel heap allocator boot self-test: ALL CHECKS PASSED.").
Proof.
  destruct (boot_frames (P := release_profile) _ (im_handoff _ boot_mem_image)) as (fa & _ & Hwf & Htot & Hfree).
  destruct (heap_self_test_passes (P := release_profile) (L := demo_line) 2 boot_fuel (cpu_vmm (boot_hardware boot_mem))
    READONLY_TEST_VADDR (sys_kernel (published_system boot_mem fa)) demo_uart [] 1 (proj1 boot_fuel_ok) (proj2 boot_fuel_ok) test_page_in_region
    (boot_owns (P := release_profile) boot_mem boot_mem_image fa Hwf Htot Hfree) Z.le_0_1 demo_sending)
    as (k' & u' & log & Hr & _ & _ & Hs).
  exists (sys_kernel (published_system boot_mem fa)), k', u', log. split; [exact Hr|exact Hs].
Defined.

(** The breakpoint and the fault, with write protection on. *)
Lemma interrupts_self_test_exact_witness :
  ∃ s s' u' log,
    run_interrupts_boot_self_test (P := release_profile) (A := FrameAllocator) (L := demo_line) (I := demo_image) (H := demo_code)
      (C := boot_cpu true) 5 (s, demo_uart) = Ret (Halted, (s', u')) ∧
    sent u' = log ++ expand (transcript READONLY_TEST_VADDR 14 "Page Fault (#PF)" (Some 3) demo_frame).
Proof.
  destruct (boot_frames (P := release_profile) _ (im_handoff _ boot_mem_image)) as (fa & _ & Hwf & Htot & Hfree).
  destruct (tables_arm (P := release_profile) (I := demo_image) (H := demo_code) (C := boot_cpu true)
    (boot_system boot_mem) (boot_linked true) eq_refl eq_refl eq_refl) as (seg & idt & idtr & _ & _ & Harm).
  destruct (interrupts_self_test_exact (P := release_profile) (L := demo_line) (I := demo_image) (H := demo_code) (C := boot_cpu true)
    2 5 ltac:(lia) (mkSystem (sys_kernel (published_system boot_mem fa)) seg idt idtr) demo_uart
    (cpu_vmm (boot_hardware boot_mem)) fa (λ _, 0) [] (Harm _) demo_code_ok demo_sending
    (lk_int3 (boot_linked true)) (lk_fault (boot_linked true))
    (boot_heap_ok (P := release_profile) boot_mem boot_mem_image fa Hwf Htot Hfree) ltac:(done)
    ltac:(pose proof (boot_low (P := release_profile) fa Hfree); lia)) as (s' & u' & log & Hr & _ & Hs).
  exists (mkSystem (sys_kernel (published_system boot_mem fa)) seg idt idtr), s', u', log. split; [exact Hr|exact Hs].
Defined.
