(* ===== verification/UnitTests.v ===== *)
(** The repository's own unit tests, run on the model.

    Every [#[test]] function of the kernel's sources, translated statement by
    statement: [assert!] and [unwrap] panic in the model as they do in Rust,
    so a test passes when its run returns.  That the tests pass here, in both
    build profiles, is evidence that the definitions behave as the code the
    authors tested.  The buffer of the heap tests is flat memory at a given
    address, as the host's allocator returns it. *)
From stdpp Require Import base numbers option gmap list_numbers list.
From S2P Require Import Prelude PhysAddr VirtAddr PageTableEntry Memory FrameAllocator HeapMemory LinkedListAllocator SpinLock.

(** ** The test harness *)
Definition assert {S} (b : bool) : M S unit := lift (if b then Ret tt else Panic AssertFailed).
Definition assert_eq {S} (a b : Z) : M S unit := assert (a =? b).
Definition assert_ne {S} (a b : Z) : M S unit := assert (negb (a =? b)).
Definition unwrap {S A} (o : option A) : M S A := lift (match o with Some a => Ret a | None => Panic ExpectFailed end).
Definition unwrap_ok {S A E} (r : result A E) : M S A := lift (match r with Ok a => Ret a | Err _ => Panic ExpectFailed end).
(** [for _ in 0..n] *)
Fixpoint times {S} (n : nat) (body : M S unit) : M S unit :=
  match n with O => mret tt | Datatypes.S n => _ ← body; times n body end.
(** [catch_unwind(..)] followed by [assert!(result.is_err())]. *)
Definition assert_panics {S} (m : M S unit) : M S unit := λ s,
  match m s with Panic _ => Ret (tt, s) | Ret _ => Panic AssertFailed | Undef => Undef | NoFuel => NoFuel end.
(** A test is run on the value it builds. *)
Definition run {S} (m : M S unit) (s : S) : outcome unit := r ← m s; Ret (fst r).

Section tests.
Context {P : BuildProfile}.

(** ** mm/phys_addr.rs *)
Definition frame_number_round_trips : M unit unit :=
  let addr := PhysAddr.new 0x123000 in
  _ ← assert_eq (frame_number addr) 0x123;
  a ← lift (from_frame_number 0x123); assert_eq (PhysAddr.as_u64 a) (PhysAddr.as_u64 addr).
Definition frame_number_truncates_in_frame_offset : M unit unit :=
  assert_eq (frame_number (PhysAddr.new 0x123045)) 0x123.
Definition alignment_check : M unit unit :=
  _ ← assert (is_frame_aligned (PhysAddr.new 0x1000)); _ ← assert (is_frame_aligned (PhysAddr.new 0));
  _ ← assert (negb (is_frame_aligned (PhysAddr.new 0x1001))); assert (negb (is_frame_aligned (PhysAddr.new 1))).

(** ** mm/virt_addr.rs *)
Definition kernel_virtual_base_decomposes_to_pml4_511_pdpt_510 : M unit unit :=
  let addr := VirtAddr.new 0xFFFFFFFF80000000 in
  _ ← assert_eq (pml4_index addr) 511; _ ← assert_eq (pdpt_index addr) 510; _ ← assert_eq (pd_index addr) 0;
  _ ← assert_eq (pt_index addr) 0; assert_eq (page_offset addr) 0.
Definition identity_map_base_decomposes_to_pml4_0 : M unit unit :=
  let addr := VirtAddr.new 0 in
  _ ← assert_eq (pml4_index addr) 0; _ ← assert_eq (pdpt_index addr) 0; _ ← assert_eq (pd_index addr) 0;
  assert_eq (pt_index addr) 0.
Definition kernel_heap_base_decomposes_correctly : M unit unit :=
  let addr := VirtAddr.new 0xFFFF880000000000 in
  _ ← assert_ne (pml4_index addr) 511; assert_ne (pml4_index addr) 0.
Definition indices_and_offset_recombine_to_the_original_address : M unit unit :=
  let original := Z.land 0xFFFF812345678ABC (not_w 64 0xFFF) in
  let addr := VirtAddr.new original in
  let recombined := Z.lor (Z.lor (Z.lor (Z.lor (Z.shiftl (pml4_index addr) 39) (Z.shiftl (pdpt_index addr) 30))
    (Z.shiftl (pd_index addr) 21)) (Z.shiftl (pt_index addr) 12)) (page_offset addr) in
  assert_eq (Z.land recombined 0xFFFFFFFFFFFF) (Z.land original 0xFFFFFFFFFFFF).
Definition page_alignment_check : M unit unit :=
  _ ← assert (is_page_aligned (VirtAddr.new 0x1000)); _ ← assert (is_page_aligned (VirtAddr.new 0));
  assert (negb (is_page_aligned (VirtAddr.new 0x1001))).

(** ** mm/page_table_entry.rs *)
Definition table_pointer_round_trips_address : M unit unit :=
  let a := PhysAddr.new 0x12345000 in
  let entry := new_table_pointer a in
  _ ← assert (is_present entry); _ ← assert (is_writable entry);
  assert_eq (PhysAddr.as_u64 (addr entry)) (PhysAddr.as_u64 a).
Definition leaf_round_trips_address_and_flags : M unit unit :=
  let a := PhysAddr.new 0xABCDE000 in
  let entry := new_leaf a {| writable := false; no_execute := true |} in
  _ ← assert (is_present entry); _ ← assert (negb (is_writable entry)); _ ← assert (is_no_execute entry);
  assert_eq (PhysAddr.as_u64 (addr entry)) (PhysAddr.as_u64 a).
Definition read_write_default_is_writable_and_executable : M unit unit :=
  let entry := new_leaf (PhysAddr.new 0x2000) read_write in
  _ ← assert (is_writable entry); assert (negb (is_no_execute entry)).
Definition address_mask_ignores_flag_bits : M unit unit :=
  let a := PhysAddr.new 0x123456000 in
  assert_eq (PhysAddr.as_u64 (addr (new_leaf a read_write))) (PhysAddr.as_u64 a).
Definition cleared_is_not_present : M unit unit := assert (negb (is_present cleared)).

(** ** mm/frame_allocator.rs *)
Definition test_allocator (total : Z) : FrameAllocator :=
  mkFrameAllocator 0x1000 (replicate (Z.to_nat (div_ceil total 8)) 0) total total 0.
Abbreviation frames := (M FrameAllocator).
Definition free_now : frames Z := λ fa, Ret (frames_free fa, fa).
Definition take : frames PhysAddr := o ← allocate; unwrap o.
Definition assert_none (o : option PhysAddr) : frames unit := assert (match o with None => true | Some _ => false end).
Definition assert_err (r : result unit DeallocError) (e : DeallocError) : frames unit :=
  assert (match r with Err e' => bool_decide (e' = e) | Ok _ => false end).

Definition allocate_returns_distinct_frames : frames unit :=
  a ← take; b ← take; _ ← assert_ne (PhysAddr.as_u64 a) (PhysAddr.as_u64 b);
  n ← free_now; assert_eq n 6.
Definition allocate_exhausts_and_returns_none : frames unit :=
  _ ← times 4 (o ← allocate; assert (match o with Some _ => true | None => false end));
  o ← allocate; _ ← assert_none o; n ← free_now; assert_eq n 0.
Definition deallocate_then_reallocate_reuses_frame : frames unit :=
  a ← take; _ ← take; o ← allocate; _ ← assert_none o;
  r ← (λ fa, deallocate fa a); _ ← unwrap_ok r; n ← free_now; _ ← assert_eq n 1;
  reused ← take; assert_eq (PhysAddr.as_u64 reused) (PhysAddr.as_u64 a).
Definition double_free_is_rejected : frames unit :=
  a ← take; r ← (λ fa, deallocate fa a); _ ← unwrap_ok r;
  r ← (λ fa, deallocate fa a); assert_err r DoubleFree.
Definition deallocate_out_of_range_is_rejected : frames unit :=
  bogus ← lift (from_frame_number 1000); r ← (λ fa, deallocate fa bogus); assert_err r OutOfRange.

(** [n] requests, each frame checked and put into the set of those seen. *)
Fixpoint collect (n : nat) (request : frames (option PhysAddr)) (good : Z → bool) (seen : gset Z) : frames (gset Z) :=
  match n with
  | O => mret seen
  | S n => o ← request; a ← unwrap o; _ ← assert (good (frame_number a)); collect n request good ({[frame_number a]} ∪ seen)
  end.
Fixpoint mark_all_used (n : nat) (frame : Z) : frames unit :=
  match n with
  | O => mret tt
  | S n => _ ← (λ fa, fa' ← mark_used fa frame; Ret (tt, fa')); mark_all_used n (frame + 1)
  end.
Definition allocation_never_returns_a_frame_still_marked_used : frames unit :=
  _ ← mark_all_used 4 0;
  _ ← (λ fa, Ret (tt, mkFrameAllocator (bitmap_ptr fa) (bitmap fa) (total_frames fa) 4 (next_hint fa)));
  seen ← collect 4 allocate (λ f, 4 <=? f) ∅; _ ← assert_eq (Z.of_nat (size seen)) 4;
  o ← allocate; assert_none o.
Definition allocate_below_only_returns_frames_under_the_limit : frames unit :=
  limit ← lift (from_frame_number 8);
  seen ← collect 8 (λ fa, allocate_below fa limit) (λ f, f <? 8) ∅; _ ← assert_eq (Z.of_nat (size seen)) 8;
  o ← (λ fa, allocate_below fa limit); assert_none o.
Definition allocate_below_respects_frames_already_used_by_allocate : frames unit :=
  limit ← lift (from_frame_number 4);
  taken ← take; o ← (λ fa, allocate_below fa limit); below ← unwrap o;
  assert_ne (PhysAddr.as_u64 taken) (PhysAddr.as_u64 below).

(** ** mm/linked_list_allocator.rs *)
Abbreviation heap := (LinkedListAllocator * mem)%type.
Definition walk_fuel : nat := 16.
Definition test_heap (start sz : Z) : outcome heap :=
  r ← add_free_region walk_fuel start sz (LinkedListAllocator.new, zero_mem start sz); Ret (snd r).
Definition on_heap (start sz : Z) (m : M heap unit) : outcome unit := h ← test_heap start sz; run m h.
Definition layout_of (sz al : Z) : M heap Layout := unwrap (from_size_align sz al).
Definition request (sz al : Z) : M heap Z := l ← layout_of sz al; LinkedListAllocator.alloc walk_fuel l.
Definition release (p sz al : Z) : M heap unit := l ← layout_of sz al; LinkedListAllocator.dealloc walk_fuel p l.
Definition non_null (p : Z) : M heap unit := assert (negb (p =? 0)).
Definition null (p : Z) : M heap unit := assert (p =? 0).

(** [write_bytes] and the loop that reads back. *)
Fixpoint write_bytes (n : nat) (p b : Z) : M heap unit := λ '(al, m),
  match n with
  | O => Ret (tt, (al, m))
  | S n => m' ← defined (store_le 1 m p b); write_bytes n (p + 1) b (al, m')
  end.
Fixpoint all_bytes (n : nat) (p b : Z) : M heap unit :=
  match n with
  | O => mret tt
  | S n => x ← (λ '(al, m), v ← defined (m !! p); Ret (v, (al, m)) : outcome (Z * heap)); _ ← assert_eq x b; all_bytes n (p + 1) b
  end.
Definition single_allocation_succeeds_and_is_writable : M heap unit :=
  p ← request 64 8; _ ← non_null p; _ ← write_bytes 64 p 0xAB; all_bytes 64 p 0xAB.

Fixpoint alloc_many (n : nat) (ptrs : list Z) : M heap (list Z) :=
  match n with O => mret ptrs | S n => p ← request 64 8; _ ← non_null p; alloc_many n (ptrs ++ [p]) end.
Fixpoint no_overlaps (ptrs : list Z) : bool :=
  match ptrs with
  | [] => true
  | a :: rest => forallb (λ b, negb ((a <? b + 64) && (b <? a + 64))) rest && no_overlaps rest
  end.
Definition allocations_never_overlap : M heap unit := ptrs ← alloc_many 10 []; assert (no_overlaps ptrs).
Definition alloc_returns_null_when_heap_is_exhausted : M heap unit :=
  p1 ← request 256 8; _ ← non_null p1; p2 ← request 1 1; null p2.
Definition freed_memory_becomes_reusable : M heap unit :=
  p1 ← request 256 8; _ ← non_null p1; _ ← release p1 256 8; p2 ← request 256 8; non_null p2.
Definition adjacent_freed_blocks_coalesce_into_one_reusable_region : M heap unit :=
  a ← request 128 8; b ← request 128 8; _ ← non_null a; _ ← non_null b;
  p ← request 1 1; _ ← null p;
  _ ← release a 128 8; _ ← release b 128 8; reunited ← request 256 8; non_null reunited.
Definition coalescing_works_regardless_of_free_order : M heap unit :=
  a ← request 128 8; b ← request 128 8;
  _ ← release b 128 8; _ ← release a 128 8; reunited ← request 256 8; non_null reunited.
Definition three_adjacent_frees_coalesce_into_one_block : M heap unit :=
  a ← request 64 8; b ← request 64 8; c ← request 64 8; _ ← non_null a; _ ← non_null b; _ ← non_null c;
  _ ← release b 64 8; _ ← release a 64 8; _ ← release c 64 8; reunited ← request 192 8; non_null reunited.
Definition respects_alignment_greater_than_default : M heap unit :=
  p ← request 32 64; _ ← non_null p; assert_eq (p mod 64) 0.
Definition zero_sized_and_tiny_allocations_still_return_a_valid_distinct_pointer : M heap unit :=
  p1 ← request 1 1; p2 ← request 1 1; _ ← non_null p1; _ ← non_null p2; assert_ne p1 p2.
Definition add_free_region_rejects_misaligned_address : M heap unit := assert_panics (add_free_region walk_fuel 1 4096).
Definition add_free_region_rejects_undersized_region : M heap unit := assert_panics (add_free_region walk_fuel NODE_ALIGN 1).

(** ** sync/spinlock.rs *)
(** [lock.lock()], a use of the guard, and its drop. *)
Definition locked_do {T A} (use : T → A * T) : M (SpinLock T) A := λ l,
  r ← SpinLock.lock walk_fuel l; let '(d, guard) := r : T * SpinLock T in
  let '(a, d') := use d in Ret (a, unlock guard d').
Definition lock_gives_access_to_the_wrapped_value : M (SpinLock Z) unit :=
  _ ← locked_do (λ d, (tt, d + 1)); v ← locked_do (λ d, (d, d)); assert_eq v 42.
Definition guard_drop_releases_the_lock_for_a_subsequent_lock_call : M (SpinLock Z) unit :=
  _ ← locked_do (λ d, (tt, d)); v ← locked_do (λ d, (d, d)); assert_eq v 0.
Definition alloc_test_vec : list Z := [1; 2; 3].
Definition std_vec_with (extra : Z) : list Z := [1; 2; 3; extra].
Definition mutation_through_the_guard_is_visible_after_it_drops : M (SpinLock (list Z)) unit :=
  _ ← locked_do (λ d, (tt, d ++ [4])); v ← locked_do (λ d, (d, d)); assert (bool_decide (v = std_vec_with 4)).

(** ** All of them *)
Definition unit_tests (start : Z) : list (outcome unit) :=
  [run frame_number_round_trips tt; run frame_number_truncates_in_frame_offset tt; run alignment_check tt;
   run kernel_virtual_base_decomposes_to_pml4_511_pdpt_510 tt; run identity_map_base_decomposes_to_pml4_0 tt;
   run kernel_heap_base_decomposes_correctly tt; run indices_and_offset_recombine_to_the_original_address tt;
   run page_alignment_check tt;
   run table_pointer_round_trips_address tt; run leaf_round_trips_address_and_flags tt;
   run read_write_default_is_writable_and_executable tt; run address_mask_ignores_flag_bits tt; run cleared_is_not_present tt;
   run allocate_returns_distinct_frames (test_allocator 8); run allocate_exhausts_and_returns_none (test_allocator 4);
   run deallocate_then_reallocate_reuses_frame (test_allocator 2); run double_free_is_rejected (test_allocator 4);
   run deallocate_out_of_range_is_rejected (test_allocator 4);
   run allocation_never_returns_a_frame_still_marked_used (test_allocator 8);
   run allocate_below_only_returns_frames_under_the_limit (test_allocator 16);
   run allocate_below_respects_frames_already_used_by_allocate (test_allocator 4);
   on_heap start 4096 single_allocation_succeeds_and_is_writable; on_heap start 4096 allocations_never_overlap;
   on_heap start 256 alloc_returns_null_when_heap_is_exhausted; on_heap start 256 freed_memory_becomes_reusable;
   on_heap start 256 adjacent_freed_blocks_coalesce_into_one_reusable_region;
   on_heap start 256 coalescing_works_regardless_of_free_order;
   on_heap start 192 three_adjacent_frees_coalesce_into_one_block;
   on_heap start 4096 respects_alignment_greater_than_default;
   on_heap start 4096 zero_sized_and_tiny_allocations_still_return_a_valid_distinct_pointer;
   run add_free_region_rejects_misaligned_address (LinkedListAllocator.new, ∅);
   run add_free_region_rejects_undersized_region (LinkedListAllocator.new, ∅);
   run lock_gives_access_to_the_wrapped_value (SpinLock.new 41);
   run guard_drop_releases_the_lock_for_a_subsequent_lock_call (SpinLock.new 0);
   run mutation_through_the_guard_is_visible_after_it_drops (SpinLock.new alloc_test_vec)].

End tests.

