(* ===== verification/BootDefs.v ===== *)
(** Constants and rounding the bootloader shares: [boot/include/boot_defs.h].

    [IDENTITY_MAP_LIMIT] is the constant of the same name and value of the
    kernel. *)
From stdpp Require Import base numbers option gmap list_numbers list.
From S2P Require Import Prelude.

Definition PAGE_SIZE_4K : Z := 0x1000.
Definition PAGE_SIZE_2M : Z := 0x200000.
Definition KERNEL_VIRTUAL_BASE : Z := 0xFFFFFFFF80000000.
Definition KERNEL_MAX_SIZE_BYTES : Z := 512 * PAGE_SIZE_2M.

Definition RoundUpTo (value alignment : Z) : Z :=
  Z.land (wrap64 (value + (alignment - 1))) (not_w 64 (alignment - 1)).

(** ** Rounding up *)
Lemma RoundUpTo_exact x k : 0 ≤ k < 64 → 0 ≤ x → x + (2 ^ k - 1) < 2 ^ 64 → RoundUpTo x (2 ^ k) = div_ceil x (2 ^ k) * 2 ^ k.
Proof.
  intros Hk Hx Hr. unfold RoundUpTo, wrap64. pose proof (Z.pow_pos_nonneg 2 k). rewrite Z.mod_small by lia.
  rewrite mask_low by lia. by rewrite div_ceil_floor, Z.add_sub_assoc by lia.
Qed.
Lemma RoundUpTo_spec x k : 0 ≤ k < 64 → 0 ≤ x → x + (2 ^ k - 1) < 2 ^ 64 →
  x ≤ RoundUpTo x (2 ^ k) < x + 2 ^ k ∧ RoundUpTo x (2 ^ k) mod 2 ^ k = 0.
Proof.
  intros Hk Hx Hr. rewrite RoundUpTo_exact by done. pose proof (Z.pow_pos_nonneg 2 k).
  split; [apply div_ceil_spec; lia|apply Z.mod_mul; lia].
Qed.
