(* ===== verification/Firmware.v ===== *)
(** The UEFI boot services, as the bootloader uses them.

    The firmware is not part of the repository: it is a parameter, a state
    [F] with one function per service ([BootServices]), each acting on its own
    state and on memory.  What the UEFI specification promises about them is
    a class of its own ([FirmwareLaws]), around the pages the loader [held]:
    a fresh allocation is disjoint from them, and no service changes their
    contents.  [efi] is the state of the bootloader: the firmware, memory, the
    pool buffers and files it has open, what it printed, and whether boot
    services are still there; a call after they have gone, a double free and
    an access through a freed buffer are undefined behaviour. *)
From Stdlib Require Import String.
From stdpp Require Import base numbers option gmap list_numbers list.
From S2P Require Import Prelude PhysAddr Memory MemoryMap BootDefs.

(** [EFI_ALLOCATE_TYPE]: [AllocateAnyPages], [AllocateMaxAddress]. *)
Inductive page_policy : Type := AnyPages | MaxAddress (limit : Z).

Record efi (F : Type) : Type := mkEfi {
  fw : F;
  ram : mem;
  pools : list Z;
  files : list Z;
  console : list (list Z);  (* CHAR16 strings *)
  live : bool;
}.
Arguments mkEfi {F} _ _ _ _ _ _.
Arguments fw {F} _.
Arguments ram {F} _.
Arguments pools {F} _.
Arguments files {F} _.
Arguments console {F} _.
Arguments live {F} _.

(** What [GetMemoryMap] returns besides the bytes of the map. *)
Record map_info : Type := mkMapInfo { mi_size : Z; mi_key : Z; mi_desc : Z; mi_version : Z }.

(** A service is a function of the firmware's state and of memory; [None]
    stands for an error status. *)
Abbreviation service F A := (F * mem → A * (F * mem)).
Class BootServices (F : Type) : Type := {
  bs_allocate_pages : page_policy → Z → service F (option Z);
  bs_free_pages : Z → Z → service F unit;
  bs_allocate_pool : Z → service F (option Z);
  bs_free_pool : Z → service F unit;
  bs_output : list Z → service F unit;
  bs_clear : service F unit;
  bs_handle_protocol : Z → string → service F (option Z);
  bs_device_handle : Z → service F Z;
  bs_open_volume : Z → service F (option Z);
  bs_open : Z → string → service F (option Z);
  bs_info_size : Z → service F Z;
  bs_file_size : Z → service F (option Z);
  bs_read : Z → Z → service F (option (list Z));
  bs_close : Z → service F unit;
  bs_map_size : service F map_info;
  bs_get_memory_map : Z → Z → service F (option map_info);
  bs_exit : Z → service F bool;
}.

Section calls.
Context {F : Type} {BS : BootServices F}.
Abbreviation loader := (M (efi F)).

(** A call into the firmware, possible while boot services are there. *)
Definition call {A} (f : service F A) : loader A := λ s,
  if live s then
    let '(a, (f', m')) := f (fw s, ram s) in
    Ret (a, mkEfi f' m' (pools s) (files s) (console s) (live s))
  else Undef.

(** The loader's own records. *)
Definition set_pools (l : list Z) (s : efi F) : efi F := mkEfi (fw s) (ram s) l (files s) (console s) (live s).
Definition set_files (l : list Z) (s : efi F) : efi F := mkEfi (fw s) (ram s) (pools s) l (console s) (live s).
Definition modify (f : efi F → efi F) : loader unit := λ s, Ret (tt, f s).
(** Take one occurrence off a ledger. *)
Fixpoint strike (p : Z) (l : list Z) : option (list Z) :=
  match l with
  | [] => None
  | q :: l => if p =? q then Some l else (q ::.) <$> strike p l
  end.

Definition AllocatePages (policy : page_policy) (pages : Z) : loader (option Z) := call (bs_allocate_pages policy pages).
Definition FreePages (addr pages : Z) : loader unit := call (bs_free_pages addr pages).
Definition AllocatePool (n : Z) : loader (option Z) :=
  o ← call (bs_allocate_pool n);
  _ ← modify (λ s, match o with Some p => set_pools (p :: pools s) s | None => s end);
  mret o.
Definition drop_pool (p : Z) : loader unit := λ s, l ← defined (strike p (pools s)); Ret (tt, set_pools l s).
Definition FreePool (p : Z) : loader unit := _ ← call (bs_free_pool p); drop_pool p.
Definition OutputString (t : list Z) : loader unit :=
  _ ← call (bs_output t);
  modify (λ s, mkEfi (fw s) (ram s) (pools s) (files s) (console s ++ [t]) (live s)).
(** The files opened, the volume's root directory among them. *)
Definition opened (o : option Z) : loader (option Z) :=
  _ ← modify (λ s, match o with Some h => set_files (h :: files s) s | None => s end);
  mret o.
Definition OpenVolume (p : Z) : loader (option Z) := o ← call (bs_open_volume p); opened o.
Definition Open (dir : Z) (path : string) : loader (option Z) :=
  o ← call (bs_open dir path); opened o.
Definition drop_file (h : Z) : loader unit := λ s, l ← defined (strike h (files s)); Ret (tt, set_files l s).
Definition Close (h : Z) : loader unit := _ ← call (bs_close h); drop_file h.
(** [ExitBootServices]: on success the services are gone. *)
Definition ExitBootServices (key : Z) : loader bool :=
  ok ← call (bs_exit key);
  _ ← modify (λ s, mkEfi (fw s) (ram s) (pools s) (files s) (console s) (negb ok));
  mret ok.

(** A pool buffer may be used as long as it is allocated. *)
Definition with_buffer {A} (p : Z) (a : outcome A) : loader A := λ s,
  if bool_decide (p ∈ pools s) then r ← a; Ret (r, s) else Undef.
(** Memory the code writes itself. *)
Definition on_ram (f : mem → outcome mem) : loader unit := λ s,
  m ← f (ram s); Ret (tt, mkEfi (fw s) m (pools s) (files s) (console s) (live s)).

End calls.

(** Code that opens and closes nothing. *)
Section books.
Context {F : Type} {BS : BootServices F}.
Definition keeps_books {A} (c : M (efi F) A) : Prop :=
  ∀ s a s', c s = Ret (a, s') → pools s' = pools s ∧ files s' = files s.

Lemma books_ret {A} (a : A) : keeps_books (mret a).
Proof. by intros s b s' [= <- <-]. Qed.
Lemma books_bind {A B} (c : M (efi F) A) (k : A → M (efi F) B) : keeps_books c → (∀ a, keeps_books (k a)) → keeps_books (c ≫= k).
Proof.
  intros Hc Hk s b s' Hrun. unfold mbind, M_bind in Hrun. destruct (c s) as [[a s1]| | |] eqn:Hs; try done.
  destruct (Hc _ _ _ Hs), (Hk _ _ _ _ Hrun). split; congruence.
Qed.
Lemma books_call {A} (f : service F A) : keeps_books (call f).
Proof.
  intros s a s'. unfold call. destruct (live s); [|done]. destruct (f (fw s, ram s)) as [? [? ?]]. by intros [= <- <-].
Qed.
Lemma books_on_ram f : keeps_books (on_ram f).
Proof. intros s a s'. unfold on_ram. destruct (f (ram s)); try done. by intros [= <- <-]. Qed.
Lemma books_pages policy n : keeps_books (AllocatePages policy n).
Proof. apply books_call. Qed.
Lemma books_free p n : keeps_books (FreePages p n).
Proof. apply books_call. Qed.
Lemma books_exit key : keeps_books (ExitBootServices key).
Proof.
  apply books_bind; [apply books_call|]. intros ok. apply books_bind; [|intros; apply books_ret]. by intros s a s' [= <- <-].
Qed.
End books.
#[export] Hint Resolve books_ret books_bind books_call books_on_ram books_pages books_free books_exit : kernel.
(** Close a goal [keeps_books] by the shape of the code. *)
Ltac books := repeat first
  [ solve [eauto with kernel nocore] | apply books_bind; [|intros ?] | case_match ].

(** * What the specification promises *)
(** A page range and the bytes in it. *)
Abbreviation pages := (Z * Z)%type.
Definition owned (hs : list pages) (a : Z) : Prop := ∃ p n, (p, n) ∈ hs ∧ p ≤ a < p + n * PAGE_SIZE_4K.

(** Memory after a service: the same addresses, 8-bit values, and nothing of
    what the loader holds is changed. *)
Record kept (hs : list pages) (m m' : mem) : Prop := {
  kt_bytes : ∀ a, owned hs a → m' !! a = m !! a;
  kt_dom : ∀ a, is_Some (m' !! a) ↔ is_Some (m !! a);
  kt_ok : bytes_ok m → bytes_ok m';
}.

(** A service that leaves the pages alone. *)
Definition leaves_pages {F A} (held : F → list pages) (ok : F → mem → Prop) (f : service F A) (post : A → Prop) : Prop :=
  ∀ g m, ok g m → let '(a, (g', m')) := f (g, m) in
  held g' = held g ∧ ok g' m' ∧ kept (held g) m m' ∧ post a.
Abbreviation anything := (λ _, True).

(** The memory map in a buffer: descriptors at the stride it states. *)
Definition describes (m : mem) (buf : Z) (i : map_info) (es : list MemoryMapEntry) : Prop :=
  Z.of_nat (length es) = mi_size i / mi_desc i ∧
  ∀ k e, es !! k = Some e → read_entry (λ a, m !! a) (buf + Z.of_nat k * mi_desc i) = Some e.
(** The bytes a descriptor covers. *)
Definition covers (e : MemoryMapEntry) (a : Z) : Prop :=
  PhysAddr.as_u64 (physical_start e) ≤ a < PhysAddr.as_u64 (physical_start e) + number_of_pages e * PAGE_SIZE_4K.

(** [EFI_MEMORY_DESCRIPTOR] has 40 bytes. *)
Definition map_info_ok (i : map_info) : Prop :=
  0 ≤ mi_size i < 2 ^ 63 ∧ (mi_desc i = 0 ∨ 40 ≤ mi_desc i < 2 ^ 32) ∧ 0 ≤ mi_version i < 2 ^ 32.

Class FirmwareLaws (F : Type) {BS : BootServices F} : Type := {
  (** the pages the loader holds, and the firmware's own invariant *)
  held : F → list pages;
  fw_ok : F → mem → Prop;
  (** the memory map, as of now *)
  fw_map : F → list MemoryMapEntry → Prop;

  (** the loader may write to its pages *)
  fl_write f m m' : fw_ok f m → (∀ a, ¬ owned (held f) a → m' !! a = m !! a) →
    (∀ a, is_Some (m' !! a) ↔ is_Some (m !! a)) → (bytes_ok m → bytes_ok m') → fw_ok f m';
  (** fresh pages: aligned, existing memory, not at address 0, apart from
      every page held, and below the limit asked for *)
  fl_allocate policy n f m : fw_ok f m → 0 < n →
    let '(o, (f', m')) := bs_allocate_pages policy n (f, m) in
    fw_ok f' m' ∧ kept (held f) m m' ∧
    match o with
    | None => held f' = held f
    | Some p =>
      held f' = (p, n) :: held f ∧ p mod PAGE_SIZE_4K = 0 ∧ 0 < p ∧ p + n * PAGE_SIZE_4K ≤ 2 ^ 52 ∧
      mapped m' p (n * PAGE_SIZE_4K) ∧ (∀ a, owned (held f) a → ¬ (p ≤ a < p + n * PAGE_SIZE_4K)) ∧
      match policy with AnyPages => True | MaxAddress limit => p + n * PAGE_SIZE_4K - 1 ≤ limit end
    end;
  fl_free p n f m : fw_ok f m → (p, n) ∈ held f →
    let '(_, (f', m')) := bs_free_pages p n (f, m) in
    ∃ hs, held f ≡ₚ (p, n) :: hs ∧ held f' = hs ∧ fw_ok f' m' ∧ kept hs m m';
  (** the map is written to the buffer and nowhere else the loader
      holds; the pages it holds are not conventional memory, and conventional
      memory exists *)
  fl_map buf n f m : fw_ok f m → (∀ a, buf ≤ a < buf + n → owned (held f) a) →
    let '(o, (f', m')) := bs_get_memory_map buf n (f, m) in
    held f' = held f ∧ fw_ok f' m' ∧ (∀ a, is_Some (m' !! a) ↔ is_Some (m !! a)) ∧ (bytes_ok m → bytes_ok m') ∧
    (∀ a, owned (held f) a → ¬ (buf ≤ a < buf + n) → m' !! a = m !! a) ∧
    match o with
    | None => True
    | Some i => map_info_ok i ∧ mi_size i ≤ n ∧ 0 < mi_desc i ∧
        ∃ es, fw_map f' es ∧ describes m' buf i es ∧ ∀ e a, e ∈ es → typ e = EFI_CONVENTIONAL_MEMORY → covers e a →
          ¬ owned (held f) a ∧ is_Some (m' !! a)
    end;
  fl_map_size : leaves_pages held fw_ok bs_map_size map_info_ok;
  fl_exit key : leaves_pages held fw_ok (bs_exit key) anything;
  fl_exit_map key f m es : fw_map f es → let '(_, (f', _)) := bs_exit key (f, m) in fw_map f' es;
  (** the other services *)
  fl_allocate_pool n : leaves_pages held fw_ok (bs_allocate_pool n) anything;
  fl_free_pool p : leaves_pages held fw_ok (bs_free_pool p) anything;
  fl_output t : leaves_pages held fw_ok (bs_output t) anything;
  fl_clear : leaves_pages held fw_ok bs_clear anything;
  fl_handle_protocol h g : leaves_pages held fw_ok (bs_handle_protocol h g) anything;
  fl_device_handle h : leaves_pages held fw_ok (bs_device_handle h) anything;
  fl_open_volume p : leaves_pages held fw_ok (bs_open_volume p) anything;
  fl_open d t : leaves_pages held fw_ok (bs_open d t) anything;
  fl_info_size h : leaves_pages held fw_ok (bs_info_size h) anything;
  fl_file_size h : leaves_pages held fw_ok (bs_file_size h) (λ o, ∀ n, o = Some n → u64 n);
  fl_read h n : leaves_pages held fw_ok (bs_read h n)
    (λ o, ∀ bs, o = Some bs → Z.of_nat (length bs) ≤ n ∧ Forall (λ b, 0 ≤ b < 256) bs);
  fl_close h : leaves_pages held fw_ok (bs_close h) anything;
}.

(** ** Lemmas *)
Lemma owned_cons h hs a : owned (h :: hs) a ↔ h.1 ≤ a < h.1 + h.2 * PAGE_SIZE_4K ∨ owned hs a.
Proof.
  unfold owned. split.
  - intros (p & n & [<-|Hin]%elem_of_cons & Ha); [by left|right; eauto].
  - intros [Ha|(p & n & Hin & Ha)]; [exists h.1, h.2; destruct h; set_solver|exists p, n; set_solver].
Qed.
Lemma pages_app hs hs' a : owned (hs ++ hs') a ↔ owned hs a ∨ owned hs' a.
Proof. unfold owned. set_solver. Qed.

Lemma kept_same hs m : kept hs m m.
Proof. by split. Qed.
Lemma kept_compose hs hs' m1 m2 m3 : (∀ a, owned hs a → owned hs' a) → kept hs m1 m2 → kept hs' m2 m3 → kept hs m1 m3.
Proof.
  intros Hsub [H1 D1 B1] [H2 D2 B2]. split; [|intros a; by rewrite D2|auto].
  intros a Ha. rewrite H2 by auto. auto.
Qed.
Lemma kept_mapped hs m m' a n : kept hs m m' → mapped m a n → mapped m' a n.
Proof. intros Hk. eapply mapped_dom, Hk. Qed.

(** * How far the loader got *)
Section reaches.
Context {F : Type} {BS : BootServices F} {FL : FirmwareLaws F}.
Implicit Types (s : efi F).

(** From [s] the loader reached [s']: it holds [new] besides what it held, and
    what it held is as it was. *)
Record reaches (new : list pages) s s' : Prop := {
  re_ok : fw_ok (fw s') (ram s');
  re_held : held (fw s') ≡ₚ new ++ held (fw s);
  re_kept : kept (held (fw s)) (ram s) (ram s');
  re_fresh : ∀ a, owned new a → ¬ owned (held (fw s)) a;
}.

Lemma owned_perm hs hs' a : hs ≡ₚ hs' → owned hs a ↔ owned hs' a.
Proof. intros Hp. unfold owned. by setoid_rewrite Hp. Qed.

Lemma reaches_refl s : fw_ok (fw s) (ram s) → reaches [] s s.
Proof. intros Hok. split; [done|done|apply kept_same|]. intros a (p & n & Hin & _). by apply elem_of_nil in Hin. Qed.

Lemma reaches_owned new s s' a : reaches new s s' → owned (held (fw s')) a ↔ owned new a ∨ owned (held (fw s)) a.
Proof. intros Hr. by rewrite (owned_perm _ _ _ (re_held _ _ _ Hr)), pages_app. Qed.

Lemma reaches_trans n1 n2 s1 s2 s3 : reaches n1 s1 s2 → reaches n2 s2 s3 → reaches (n2 ++ n1) s1 s3.
Proof.
  intros H1 H2. split.
  - apply H2.
  - rewrite (re_held _ _ _ H2), (re_held _ _ _ H1). by rewrite app_assoc.
  - eapply kept_compose; [|apply H1|apply H2]. intros a Ha. apply (reaches_owned _ _ _ _ H1). by right.
  - intros a [Ha|Ha]%pages_app Hs; [|by apply (re_fresh _ _ _ H1 a)].
    apply (re_fresh _ _ _ H2 a Ha). apply (reaches_owned _ _ _ _ H1). by right.
Qed.

(** Only the firmware and memory matter. *)
Lemma reaches_same new s s' s2 : reaches new s s' → fw s2 = fw s' → ram s2 = ram s' → reaches new s s2.
Proof. intros [? ? ? ?] Hf Hm. split; by rewrite ?Hf, ?Hm. Qed.

(** The state with new memory. *)
Definition with_ram s (m : mem) : efi F := mkEfi (fw s) m (pools s) (files s) (console s) (live s).

Lemma on_ram_run f s m : f (ram s) = Ret m → on_ram f s = Ret (tt, with_ram s m).
Proof. intros Hf. unfold on_ram. by rewrite Hf. Qed.

(** A write to pages allocated since [s]. *)
Lemma reaches_write new s s' m :
  reaches new s s' → (∀ a, ¬ owned new a → m !! a = ram s' !! a) → (∀ a, is_Some (m !! a) ↔ is_Some (ram s' !! a)) →
  (bytes_ok (ram s') → bytes_ok m) → reaches new s (with_ram s' m).
Proof.
  intros Hr Hout Hdom Hb. split; cbn [fw ram with_ram pools files console live]; try apply Hr.
  - eapply fl_write; [apply Hr| |done|done]. intros a Ha. apply Hout. intros Hn. apply Ha.
    apply (reaches_owned _ _ _ _ Hr). by left.
  - destruct (re_kept _ _ _ Hr) as [K1 K2 K3]. split.
    + intros a Ha. rewrite Hout; [by apply K1|]. intros Hn. by apply (re_fresh _ _ _ Hr a).
    + intros a. by rewrite Hdom.
    + auto.
Qed.

(** Fresh pages. *)
Lemma reaches_allocate new s s' policy n :
  reaches new s s' → live s' = true → 0 < n →
  ∃ o s2, AllocatePages policy n s' = Ret (o, s2) ∧ kept (held (fw s')) (ram s') (ram s2) ∧
    live s2 = true ∧
    match o with
    | None => reaches new s s2
    | Some p => reaches ((p, n) :: new) s s2 ∧
        p mod PAGE_SIZE_4K = 0 ∧ 0 < p ∧ p + n * PAGE_SIZE_4K ≤ 2 ^ 52 ∧
        mapped (ram s2) p (n * PAGE_SIZE_4K) ∧ (∀ a, owned (held (fw s')) a → ¬ (p ≤ a < p + n * PAGE_SIZE_4K)) ∧
        match policy with AnyPages => True | MaxAddress limit => p + n * PAGE_SIZE_4K - 1 ≤ limit end
    end.
Proof.
  intros Hr Hl Hn. pose proof (fl_allocate policy n _ _ (re_ok _ _ _ Hr) Hn) as Hlaw.
  unfold AllocatePages, call. rewrite Hl. destruct (bs_allocate_pages policy n (fw s', ram s')) as [o [f' m']].
  destruct Hlaw as (Hok & Hk & Ho).
  set (s2 := mkEfi f' m' (pools s') (files s') (console s') true). exists o, s2. split; [done|]. split; [done|]. split; [done|].
  destruct o as [p|].
  - destruct Ho as (Hh & Hal & Hp & Hhi & Hm & Hdis & Hpol).
    split; [|by split_and!]. change ((p, n) :: new) with ([(p, n)] ++ new). eapply reaches_trans; [exact Hr|].
    split; [done|cbn; by rewrite Hh|done|]. intros a Ha Hs. apply (Hdis a Hs).
    apply owned_cons in Ha as [Ha|(q & k & Hin & _)]; [done|by apply elem_of_nil in Hin].
  - change new with ([] ++ new). eapply reaches_trans; [exact Hr|].
    split; [done|cbn; by rewrite Ho|done|]. intros a (q & k & Hin & _). by apply elem_of_nil in Hin.
Qed.

(** Pages given back. *)
Lemma reaches_free new s s' p n :
  reaches ((p, n) :: new) s s' → live s' = true →
  ∃ s2, FreePages p n s' = Ret (tt, s2) ∧ reaches new s s2 ∧ live s2 = true.
Proof.
  intros Hr Hl. pose proof (re_held _ _ _ Hr) as Hh.
  pose proof (fl_free p n (fw s') (ram s') (re_ok _ _ _ Hr)) as Hlaw.
  unfold FreePages, call. rewrite Hl. destruct (bs_free_pages p n (fw s', ram s')) as [[] [f' m']].
  destruct Hlaw as (hs & Hperm & Hh' & Hok & Hk); [rewrite Hh; cbn; by left|].
  assert (Hhs : hs ≡ₚ new ++ held (fw s)) by (apply (Permutation_cons_inv (a := (p, n))); by rewrite <- Hperm, Hh).
  eexists. split; [done|]. split; [|done]. split; cbn [fw ram].
  - done.
  - by rewrite Hh'.
  - eapply kept_compose; [|apply Hr|exact Hk]. intros a Ha. rewrite (owned_perm _ _ a Hhs), pages_app. by right.
  - intros a Ha. apply (re_fresh _ _ _ Hr). change ((p, n) :: new) with ([(p, n)] ++ new). rewrite pages_app. by right.
Qed.

(** A service that leaves the pages alone. *)
Lemma reaches_call {A} (f : service F A) post new s s' :
  leaves_pages held fw_ok f post → reaches new s s' → live s' = true →
  ∃ a s2, call f s' = Ret (a, s2) ∧ post a ∧ kept (held (fw s')) (ram s') (ram s2) ∧ held (fw s2) = held (fw s') ∧ reaches new s s2 ∧
    s2 = mkEfi (fw s2) (ram s2) (pools s') (files s') (console s') true.
Proof.
  intros Hf Hr Hl. specialize (Hf _ _ (re_ok _ _ _ Hr)). unfold call. rewrite Hl.
  destruct (f (fw s', ram s')) as [a [f' m']]. destruct Hf as (Hh & Hok & Hk & Hp).
  eexists a, _. split; [done|]. split; [done|]. split; [done|]. split; [done|]. split; [|done].
  change new with ([] ++ new). eapply reaches_trans; [exact Hr|].
  split; [done|cbn; by rewrite Hh|done|]. intros b (q & k & Hin & _). by apply elem_of_nil in Hin.
Qed.

(** ** Stages of the loader: the pages it took since [s], its open pool
    buffers and its open files *)
Record stage (new : list pages) s (ps fs : list Z) s' : Prop := {
  sg_reaches : reaches new s s';
  sg_pools : pools s' = ps;
  sg_files : files s' = fs;
  sg_live : live s' = true;
}.

(** A stage starts at itself, and stages compose. *)
Lemma stage_refl new s ps fs s' : stage new s ps fs s' → stage [] s' ps fs s'.
Proof. intros [Hr ? ? ?]. split; [|done..]. apply reaches_refl, Hr. Qed.
Lemma stage_trans n1 n2 s ps fs s2 ps' fs' s3 :
  stage n1 s ps fs s2 → stage n2 s2 ps' fs' s3 → stage (n2 ++ n1) s ps' fs' s3.
Proof. intros [H1 _ _ _] [H2 ? ? ?]. split; [|done..]. by eapply reaches_trans. Qed.
(** What the loader held stays as it was. *)
Lemma stage_bytes new s ps fs s' a : stage new s ps fs s' → owned (held (fw s)) a → ram s' !! a = ram s !! a.
Proof. intros [Hr _ _ _]. apply (kt_bytes _ _ _ (re_kept _ _ _ Hr)). Qed.
Lemma stage_owned new s ps fs s' a : stage new s ps fs s' → owned (held (fw s')) a ↔ owned new a ∨ owned (held (fw s)) a.
Proof. intros [Hr _ _ _]. by apply reaches_owned. Qed.

Lemma stage_call {A} (f : service F A) post new s ps fs s' :
  leaves_pages held fw_ok f post → stage new s ps fs s' →
  ∃ a s2, call f s' = Ret (a, s2) ∧ post a ∧ stage new s ps fs s2 ∧
    kept (held (fw s')) (ram s') (ram s2) ∧ held (fw s2) = held (fw s').
Proof.
  intros Hf [Hr Hp Hfs Hl]. destruct (reaches_call f post new s s' Hf Hr Hl) as (a & s2 & Hrun & Hpost & Hk & Hh & Hr2 & Hs2).
  exists a, s2. split; [done|]. split; [done|]. split; [|done]. by split; [done|rewrite Hs2..].
Qed.

Lemma stage_allocate_pool n new s ps fs s' : stage new s ps fs s' →
  ∃ o s2, AllocatePool n s' = Ret (o, s2) ∧ stage new s (match o with Some p => p :: ps | None => ps end) fs s2.
Proof.
  intros Hs. destruct (stage_call _ _ _ _ _ _ _ (fl_allocate_pool n) Hs) as (o & s2 & Hrun & _ & [Hr Hp Hf Hl] & _).
  unfold AllocatePool. erewrite M_run by exact Hrun. eexists o, _. split; [done|].
  destruct o as [p|]; [|by split]. split; cbn; [by eapply reaches_same|by rewrite Hp|done|done].
Qed.

Lemma strike_head p l : strike p (p :: l) = Some l.
Proof. cbn. by rewrite Z.eqb_refl. Qed.

Lemma stage_free_pool p new s ps fs s' : stage new s (p :: ps) fs s' →
  ∃ s2, FreePool p s' = Ret (tt, s2) ∧ stage new s ps fs s2.
Proof.
  intros Hs. destruct (stage_call _ _ _ _ _ _ _ (fl_free_pool p) Hs) as ([] & s2 & Hrun & _ & [Hr Hp Hf Hl] & _).
  unfold FreePool. erewrite M_run by exact Hrun. unfold drop_pool. rewrite Hp, strike_head. cbn.
  eexists. split; [done|]. split; cbn; [by eapply reaches_same|done|done|done].
Qed.

Lemma stage_opened o new s ps fs s' : stage new s ps fs s' →
  ∃ s2, opened o s' = Ret (o, s2) ∧ stage new s ps (match o with Some h => h :: fs | None => fs end) s2.
Proof.
  intros [Hr Hp Hf Hl]. eexists. split; [done|].
  destruct o as [h|]; [|by split]. split; cbn; [by eapply reaches_same|done|by rewrite Hf|done].
Qed.
Lemma stage_open d t new s ps fs s' : stage new s ps fs s' →
  ∃ o s2, Open d t s' = Ret (o, s2) ∧ stage new s ps (match o with Some h => h :: fs | None => fs end) s2.
Proof.
  intros Hs. destruct (stage_call _ _ _ _ _ _ _ (fl_open d t) Hs) as (o & s2 & Hrun & _ & Hs2 & _).
  unfold Open. erewrite M_run by exact Hrun. exists o. by apply stage_opened.
Qed.
Lemma stage_open_volume p new s ps fs s' : stage new s ps fs s' →
  ∃ o s2, OpenVolume p s' = Ret (o, s2) ∧ stage new s ps (match o with Some h => h :: fs | None => fs end) s2.
Proof.
  intros Hs. destruct (stage_call _ _ _ _ _ _ _ (fl_open_volume p) Hs) as (o & s2 & Hrun & _ & Hs2 & _).
  unfold OpenVolume. erewrite M_run by exact Hrun. exists o. by apply stage_opened.
Qed.

Lemma stage_close h new s ps fs s' : stage new s ps (h :: fs) s' →
  ∃ s2, Close h s' = Ret (tt, s2) ∧ stage new s ps fs s2.
Proof.
  intros Hs. destruct (stage_call _ _ _ _ _ _ _ (fl_close h) Hs) as ([] & s2 & Hrun & _ & [Hr Hp Hf Hl] & _).
  unfold Close. erewrite M_run by exact Hrun. unfold drop_file. rewrite Hf, strike_head. cbn.
  eexists. split; [done|]. split; cbn; [by eapply reaches_same|done|done|done].
Qed.

Lemma stage_output t new s ps fs s' : stage new s ps fs s' →
  ∃ s2, OutputString t s' = Ret (tt, s2) ∧ stage new s ps fs s2.
Proof.
  intros Hs. destruct (stage_call _ _ _ _ _ _ _ (fl_output t) Hs) as ([] & s2 & Hrun & _ & [Hr Hp Hf Hl] & _).
  unfold OutputString. erewrite M_run by exact Hrun. eexists. split; [done|].
  split; cbn; [by eapply reaches_same|done|done|done].
Qed.

(** A buffer that is allocated may be read. *)
Lemma stage_buffer {A} p (c : outcome A) a new s ps fs s' :
  stage new s ps fs s' → p ∈ ps → c = Ret a → with_buffer p c s' = Ret (a, s').
Proof. intros Hs Hin ->. unfold with_buffer. rewrite (sg_pools _ _ _ _ _ Hs). by rewrite bool_decide_true. Qed.

Lemma stage_pages policy n new s ps fs s' : stage new s ps fs s' → 0 < n →
  ∃ o s2, AllocatePages policy n s' = Ret (o, s2) ∧
    match o with
    | None => stage new s ps fs s2
    | Some p => stage ((p, n) :: new) s ps fs s2 ∧
        p mod PAGE_SIZE_4K = 0 ∧ 0 < p ∧ p + n * PAGE_SIZE_4K ≤ 2 ^ 52 ∧
        mapped (ram s2) p (n * PAGE_SIZE_4K) ∧ kept (held (fw s')) (ram s') (ram s2) ∧
        (∀ a, owned (held (fw s')) a → ¬ (p ≤ a < p + n * PAGE_SIZE_4K)) ∧
        match policy with AnyPages => True | MaxAddress limit => p + n * PAGE_SIZE_4K - 1 ≤ limit end
    end.
Proof.
  intros [Hr Hp Hf Hl] Hn. destruct (reaches_allocate new s s' policy n Hr Hl Hn) as (o & s2 & Hrun & Hk & Hl2 & Ho).
  exists o, s2. split; [done|].
  assert (Hbooks : pools s2 = ps ∧ files s2 = fs).
  { revert Hrun. unfold AllocatePages, call. rewrite Hl. destruct (bs_allocate_pages _ _ _) as [? [? ?]].
    intros [= <- <-]. by split. }
  destruct Hbooks as [Hb1 Hb2]. destruct o as [p|]; [|by split]. destruct Ho as (Hr2 & ? & ? & ? & ? & ? & ?).
  split; [by split|]. by split_and!.
Qed.

(** A write to pages taken since [s]. *)
Lemma stage_ram f m new s ps fs s' :
  stage new s ps fs s' → f (ram s') = Ret m → (∀ a, ¬ owned new a → m !! a = ram s' !! a) →
  (∀ a, is_Some (m !! a) ↔ is_Some (ram s' !! a)) → (bytes_ok (ram s') → bytes_ok m) →
  on_ram f s' = Ret (tt, with_ram s' m) ∧ stage new s ps fs (with_ram s' m).
Proof.
  intros [Hr Hp Hf Hl] Hrun Hout Hdom Hb. split; [by apply on_ram_run|]. split; [by apply reaches_write|done..].
Qed.

End reaches.
