(* ===== verification/BootPaging.v ===== *)
(** The page tables the kernel starts on: [boot/paging.c].

    [BuildKernelPageTables] maps the low 4 GiB onto themselves and the
    kernel's image at its virtual base, both with 2 MiB pages.  While it runs,
    the tables built so far are described by a finite map from table addresses
    to their 512 words ([tables]); one lemma per statement says what it does
    to that map. *)
From stdpp Require Import base numbers option gmap list_numbers list.
From S2P Require Import Prelude PhysAddr VirtAddr PageTableEntry Memory FrameAllocator Vmm PageWalk VmmSpec BootDefs Firmware.

Definition PTE_PRESENT : Z := 0x1.
Definition PTE_WRITABLE : Z := 0x2.
Definition PTE_PS : Z := 0x80.
Definition ENTRIES_PER_TABLE : nat := 512.
Definition ONE_GIB : Z := 0x40000000.

Section code.
Context {F : Type} {BS : BootServices F}.
Abbreviation loader := (M (efi F)).

(** [for (entry = 0; entry < n; entry++) table[entry] = f(entry);] *)
Definition fill_table (n : nat) (table : Z) (f : Z → Z) : loader unit :=
  on_ram (for_range n 0 (λ entry m, m ← write_volatile_u64 m (table + 8 * entry) (f entry); Ret (m, false))).
(** [table[i] = v;] *)
Definition put (table i v : Z) : loader unit := on_ram (λ m, write_volatile_u64 m (table + 8 * i) v).

Definition AllocateZeroedPage : loader Z :=
  o ← AllocatePages AnyPages 1;
  match o with
  | None => mret 0
  | Some page => _ ← fill_table ENTRIES_PER_TABLE page (λ _, 0); mret page
  end.

Definition table_entry (table : Z) : Z := Z.lor (Z.lor table PTE_PRESENT) PTE_WRITABLE.
Definition large_entry (physAddr : Z) : Z := Z.lor (Z.lor (Z.lor physAddr PTE_PRESENT) PTE_WRITABLE) PTE_PS.

(** The loop over the gibibytes of the identity map, [n] to go: [false] when
    a page could not be allocated. *)
Fixpoint identity_map (n : nat) (gib identityPdpt : Z) : loader bool :=
  match n with
  | O => mret true
  | S n =>
    pd ← AllocateZeroedPage;
    if pd =? 0 then mret false else
    _ ← fill_table ENTRIES_PER_TABLE pd (λ entry, large_entry (wrap64 (gib * ONE_GIB + entry * PAGE_SIZE_2M)));
    _ ← put identityPdpt gib (table_entry pd);
    identity_map n (gib + 1) identityPdpt
  end.

Definition kernel_page_count (KernelSizeBytes : Z) : Z :=
  let n := KernelSizeBytes / PAGE_SIZE_2M in if n =? 0 then 1 else n.

Definition BuildKernelPageTables (KernelPhysicalBase KernelSizeBytes : Z) : loader Z :=
  pml4 ← AllocateZeroedPage;
  if pml4 =? 0 then mret 0 else
  identityPdpt ← AllocateZeroedPage;
  if identityPdpt =? 0 then mret 0 else
  ok ← identity_map (Z.to_nat (IDENTITY_MAP_LIMIT / ONE_GIB)) 0 identityPdpt;
  if negb ok then mret 0 else
  _ ← put pml4 0 (table_entry identityPdpt);
  kernelPdpt ← AllocateZeroedPage;
  if kernelPdpt =? 0 then mret 0 else
  kernelPd ← AllocateZeroedPage;
  if kernelPd =? 0 then mret 0 else
  let kernelPageCount := kernel_page_count KernelSizeBytes in
  if Z.of_nat ENTRIES_PER_TABLE <? kernelPageCount then mret 0 else
  _ ← fill_table (Z.to_nat kernelPageCount) kernelPd
        (λ entry, large_entry (wrap64 (KernelPhysicalBase + entry * PAGE_SIZE_2M)));
  _ ← put kernelPdpt 510 (table_entry kernelPd);
  _ ← put pml4 511 (table_entry kernelPdpt);
  mret pml4.

End code.

(** * Entries *)
Lemma table_entry_pointer t : t mod FRAME_SIZE = 0 → 0 ≤ t < 2 ^ 52 → mkEntry (table_entry t) = new_table_pointer (PhysAddr.new t).
Proof. intros Ht Hr. unfold table_entry, new_table_pointer. cbn [PhysAddr.as_u64 PhysAddr.new]. by rewrite addr_mask_id. Qed.

(** A table entry leads to its table. *)
Lemma table_entry_facts t : t mod FRAME_SIZE = 0 → 0 ≤ t < 2 ^ 52 →
  is_present (mkEntry (table_entry t)) = true ∧ is_huge (mkEntry (table_entry t)) = false ∧
  PhysAddr.as_u64 (addr (mkEntry (table_entry t))) = t.
Proof.
  intros Ht Hr. rewrite table_entry_pointer, new_table_pointer_leaf by done.
  split_and!; [apply new_leaf_present|apply new_leaf_not_huge|]. rewrite new_leaf_addr; [done|by apply is_frame_aligned_spec|done].
Qed.

Lemma large_entry_testbit a i : 0 ≤ i →
  Z.testbit (large_entry a) i = Z.testbit a i || (i =? 0) || (i =? 1) || (i =? 7).
Proof.
  intros Hi. unfold large_entry. change PTE_PRESENT with (2 ^ 0). change PTE_WRITABLE with (2 ^ 1). change PTE_PS with (2 ^ 7).
  by rewrite !Z.lor_spec, !testbit_pow2.
Qed.

(** A large entry leads to its 2 MiB of memory. *)
Lemma large_entry_facts a : a mod PAGE_SIZE_2M = 0 → 0 ≤ a < 2 ^ 52 →
  is_present (mkEntry (large_entry a)) = true ∧ is_huge (mkEntry (large_entry a)) = true ∧
  is_writable (mkEntry (large_entry a)) = true ∧ PhysAddr.as_u64 (addr (mkEntry (large_entry a))) = a.
Proof.
  intros Ha Hr. rewrite is_present_bit, is_writable_bit. unfold is_huge. change FLAG_PAGE_SIZE with (Z.shiftl 1 7).
  rewrite raw_has_flag_bit by done. cbn [entry_0]. rewrite !large_entry_testbit by done.
  split_and!; [by rewrite orb_true_r..|]. cbn.
  rewrite <- (addr_mask_id a) at 2; [|done|unfold PAGE_SIZE_2M, FRAME_SIZE in *; dlia].
  apply Z.bits_inj'. intros i Hi. rewrite !Z.land_spec, large_entry_testbit, ADDR_MASK_testbit by done.
  destruct (Z.leb_spec 12 i); [|by rewrite !andb_false_r].
  destruct (Z.eqb_spec i 0), (Z.eqb_spec i 1), (Z.eqb_spec i 7); try lia. by rewrite !orb_false_r.
Qed.
Lemma large_entry_u64 a : u64 a → u64 (large_entry a).
Proof.
  intros [H0 H1]. assert (Hn : 0 ≤ large_entry a) by (unfold large_entry; rewrite !Z.lor_nonneg; by split_and!).
  split; [done|]. apply testbit_range; [done..|]. intros i Hi. rewrite large_entry_testbit by lia.
  rewrite (testbit_high a 64) by lia. destruct (Z.eqb_spec i 0), (Z.eqb_spec i 1), (Z.eqb_spec i 7); (lia || done).
Qed.
Lemma table_entry_u64 t : t mod FRAME_SIZE = 0 → 0 ≤ t < 2 ^ 52 → u64 (table_entry t).
Proof.
  intros Ht Hr. change (u64 (entry_0 (mkEntry (table_entry t)))).
  rewrite table_entry_pointer, new_table_pointer_leaf by done. apply new_leaf_u64.
Qed.

(** * Tables under construction *)
Section laws.
Context {F : Type} {BS : BootServices F} {FL : FirmwareLaws F}.
Implicit Types (s : efi F) (T : gmap Z (list Z)).

(** A table in memory with its 512 words. *)
Record table_in (m : mem) (p : Z) (ws : list Z) : Prop := {
  ti_addr : p mod FRAME_SIZE = 0 ∧ 0 < p < 2 ^ 52;
  ti_mapped : mapped m p FRAME_SIZE;
  ti_length : length ws = 512%nat;
  ti_words : ∀ i w, ws !! i = Some w → word m (p + 8 * Z.of_nat i) = w;
}.
Definition tables T m : Prop := map_Forall (table_in m) T.

(** The tables of [T] are what was allocated since [s]. *)
Definition built s T s' : Prop := ∃ new, reaches new s s' ∧
  (∀ h, h ∈ new ↔ h.2 = 1 ∧ is_Some (T !! h.1)) ∧ tables T (ram s').

(** ** Writing to a table *)
Lemma write_word_ok (m : mem) p i v :
  p mod FRAME_SIZE = 0 → 0 < p → mapped m p FRAME_SIZE → idx_ok i → u64 v →
  ∃ m', write_volatile_u64 m (p + 8 * i) v = Ret m' ∧ word m' (p + 8 * i) = v ∧
    (∀ j, idx_ok j → j ≠ i → word m' (p + 8 * j) = word m (p + 8 * j)) ∧
    (∀ a, ¬ (p ≤ a < p + FRAME_SIZE) → m' !! a = m !! a) ∧ (∀ a, is_Some (m' !! a) ↔ is_Some (m !! a)) ∧
    (bytes_ok m → bytes_ok m').
Proof.
  intros Hal Hp Hm Hi Hv.
  destruct (write_volatile_ok m (p + 8 * i) v) as (m' & Hw & Hword & Hout & Hdom); [by apply slot_ok|by apply slot_mapped|done|].
  exists m'. split_and!; [done|done| | |done|].
  - intros j Hj Hne. apply word_ext. intros a Ha. apply Hout. lia.
  - intros a Ha. apply Hout. unfold idx_ok, FRAME_SIZE in *. lia.
  - revert Hw. unfold write_volatile_u64. case_match; [|done]. destruct (store_le 8 m (p + 8 * i) v) eqn:Hs; [|done].
    intros [= <-]. by eapply store_le_bytes.
Qed.

Lemma fill_words_ok n (m : mem) p f :
  p mod FRAME_SIZE = 0 → 0 < p → mapped m p FRAME_SIZE → (n ≤ 512)%nat → (∀ i, 0 ≤ i < Z.of_nat n → u64 (f i)) →
  ∃ m', for_range n 0 (λ entry m, m ← write_volatile_u64 m (p + 8 * entry) (f entry); Ret (m, false)) m = Ret m' ∧
    (∀ j, idx_ok j → word m' (p + 8 * j) = if decide (j < Z.of_nat n) then f j else word m (p + 8 * j)) ∧
    (∀ a, ¬ (p ≤ a < p + FRAME_SIZE) → m' !! a = m !! a) ∧ (∀ a, is_Some (m' !! a) ↔ is_Some (m !! a)) ∧
    (bytes_ok m → bytes_ok m').
Proof.
  intros Hal Hp Hm Hn Hf.
  eapply (for_range_total (λ k m', (∀ j, idx_ok j → word m' (p + 8 * j) = if decide (j < k) then f j else word m (p + 8 * j)) ∧
    (∀ a, ¬ (p ≤ a < p + FRAME_SIZE) → m' !! a = m !! a) ∧ (∀ a, is_Some (m' !! a) ↔ is_Some (m !! a)) ∧
    (bytes_ok m → bytes_ok m'))).
  - split_and!; try done. intros j Hj. unfold idx_ok in Hj. by rewrite decide_False by lia.
  - intros k m1 Hk (Hw & Hout & Hdom & Hb).
    destruct (write_word_ok m1 p k (f k)) as (m2 & -> & Hwk & Hother & Hout2 & Hdom2 & Hb2);
      [done|done|by eapply mapped_dom|unfold idx_ok; lia|apply Hf; lia|].
    cbn [mbind outcome_bind]. exists m2, false. split; [done|]. split_and!.
    + intros j Hj. destruct (decide (j = k)) as [->|Hne]; [by rewrite decide_True by lia|].
      rewrite Hother, Hw by done. repeat case_decide; (done || lia).
    + intros a Ha. by rewrite Hout2, Hout.
    + intros a. by rewrite Hdom2.
    + auto.
  - intros m' H. by rewrite Z.add_0_l in H.
Qed.

Lemma tables_write T (m m' : mem) p ws ws' :
  tables T m → T !! p = Some ws → (∀ a, ¬ (p ≤ a < p + FRAME_SIZE) → m' !! a = m !! a) →
  (∀ a, is_Some (m' !! a) ↔ is_Some (m !! a)) → length ws' = 512%nat →
  (∀ i w, ws' !! i = Some w → word m' (p + 8 * Z.of_nat i) = w) → tables (<[p := ws']> T) m'.
Proof.
  intros HT Hp Hout Hdom Hlen Hw q us [[<- <-]|[Hne Hq]]%lookup_insert_Some.
  - destruct (HT p ws Hp) as [Ha Hm _ _]. split; [done|by eapply mapped_dom|done|done].
  - destruct (HT q us Hq) as [Ha Hm Hl Hws]. split; [done|by eapply mapped_dom|done|].
    destruct (HT p ws Hp) as [Hpa _ _ _].
    intros i w Hi. rewrite <- (Hws i w Hi). apply word_ext. intros a Haa. apply Hout.
    apply lookup_lt_Some in Hi. unfold FRAME_SIZE in *. dlia.
Qed.

Lemma built_write s T s1 m p ws ws' :
  built s T s1 → T !! p = Some ws → (∀ a, ¬ (p ≤ a < p + FRAME_SIZE) → m !! a = ram s1 !! a) →
  (∀ a, is_Some (m !! a) ↔ is_Some (ram s1 !! a)) → (bytes_ok (ram s1) → bytes_ok m) → length ws' = 512%nat →
  (∀ i w, ws' !! i = Some w → word m (p + 8 * Z.of_nat i) = w) → built s (<[p := ws']> T) (with_ram s1 m).
Proof.
  intros (new & Hr & Hn & HT) Hp Hout Hdom Hb Hlen Hw. exists new. split; [|split].
  - apply reaches_write; [done| |done|done]. intros a Ha. apply Hout. intros Hin. apply Ha.
    exists p, 1. split; [|unfold PAGE_SIZE_4K, FRAME_SIZE in *; lia]. apply Hn. by eauto.
  - intros [q n]. rewrite Hn. cbn. rewrite lookup_insert_is_Some. destruct (decide (p = q)) as [<-|Hne]; [|naive_solver].
    rewrite Hp. naive_solver.
  - by eapply tables_write.
Qed.

Lemma fill_ok s T s1 p ws n f :
  built s T s1 → T !! p = Some ws → (n ≤ 512)%nat → (∀ i, 0 ≤ i < Z.of_nat n → u64 (f i)) →
  ∃ s2, fill_table n p f s1 = Ret (tt, s2) ∧ built s (<[p := (f <$> seqZ 0 (Z.of_nat n)) ++ drop n ws]> T) s2 ∧ live s2 = live s1.
Proof.
  intros Hb Hp Hn Hf. pose proof Hb as (new & Hr & Hnew & HT). destruct (HT p ws Hp) as [[Hal Hpos] Hm Hlen Hws].
  destruct (fill_words_ok n (ram s1) p f) as (m & Hrun & Hw & Hout & Hdom & Hby); [done|lia|done..|].
  exists (with_ram s1 m). split; [by apply on_ram_run|]. split; [|done].
  eapply built_write; [exact Hb|done..| |].
  - rewrite length_app, length_fmap, length_seqZ, length_drop. lia.
  - intros i w Hi. assert (Hi512 : (i < 512)%nat).
    { apply lookup_lt_Some in Hi. rewrite length_app, length_fmap, length_seqZ, length_drop in Hi. lia. }
    rewrite Hw by (unfold idx_ok; lia). case_decide as Hlt.
    + rewrite lookup_app_l in Hi by (rewrite length_fmap, length_seqZ; lia).
      apply list_lookup_fmap_Some in Hi as (j & -> & Hj). apply lookup_seqZ in Hj as [-> _]. f_equal; lia.
    + rewrite lookup_app_r in Hi by (rewrite length_fmap, length_seqZ; lia).
      rewrite length_fmap, length_seqZ, lookup_drop in Hi. apply Hws. rewrite <- Hi. f_equal. lia.
Qed.

Lemma put_ok s T s1 p ws (i : nat) v :
  built s T s1 → T !! p = Some ws → (i < 512)%nat → u64 v →
  ∃ s2, put p (Z.of_nat i) v s1 = Ret (tt, s2) ∧ built s (<[p := <[i := v]> ws]> T) s2 ∧ live s2 = live s1.
Proof.
  intros Hb Hp Hi Hv. pose proof Hb as (new & Hr & Hnew & HT). destruct (HT p ws Hp) as [[Hal Hpos] Hm Hlen Hws].
  destruct (write_word_ok (ram s1) p (Z.of_nat i) v) as (m & Hrun & Hw & Hother & Hout & Hdom & Hby);
    [done|lia|done|unfold idx_ok; lia|done|].
  exists (with_ram s1 m). split; [by apply on_ram_run|]. split; [|done].
  eapply built_write; [exact Hb|done..|by rewrite length_insert|].
  intros j w [(-> & -> & _)|[Hne Hj]]%list_lookup_insert_Some; [done|].
  apply lookup_lt_Some in Hj as Hlt. rewrite Hother by (unfold idx_ok; lia). by apply Hws.
Qed.

Lemma built_owned s T s1 p ws a :
  built s T s1 → T !! p = Some ws → p ≤ a < p + FRAME_SIZE → owned (held (fw s1)) a.
Proof.
  intros (new & Hr & Hnew & _) Hp Ha. apply (reaches_owned _ _ _ _ Hr). left. exists p, 1.
  split; [|unfold PAGE_SIZE_4K, FRAME_SIZE in *; lia]. apply Hnew. by eauto.
Qed.

Lemma bu_page s T s1 p ws : built s T s1 → T !! p = Some ws → p mod FRAME_SIZE = 0 ∧ 0 < p < 2 ^ 52.
Proof. intros (_ & _ & _ & HT) Hp. apply (HT p ws Hp). Qed.

Lemma tables_kept s T s1 (m : mem) : built s T s1 → kept (held (fw s1)) (ram s1) m → tables T m.
Proof.
  intros Hb Hk p ws Hp. pose proof Hb as (_ & _ & _ & HT). destruct (HT p ws Hp) as [Ha Hm Hl Hw].
  split; [done|by eapply kept_mapped|done|]. intros i w Hi. rewrite <- (Hw i w Hi). apply word_ext.
  intros a Haa. apply (kt_bytes _ _ _ Hk). eapply built_owned; [done..|].
  apply lookup_lt_Some in Hi. unfold FRAME_SIZE. lia.
Qed.

(** The words a page holds. *)
Definition words_at (m : mem) (p : Z) : list Z := (λ i, word m (p + 8 * i)) <$> seqZ 0 512.
Lemma words_at_in m p : p mod FRAME_SIZE = 0 → 0 < p < 2 ^ 52 → mapped m p FRAME_SIZE → table_in m p (words_at m p).
Proof.
  intros Hal Hp Hm. unfold words_at. split; [done|done|by rewrite length_fmap, length_seqZ|].
  intros i w Hi. apply list_lookup_fmap_Some in Hi as (j & -> & Hj). by apply lookup_seqZ in Hj as [-> _].
Qed.

Lemma zeroed_ok s T s1 :
  built s T s1 → live s1 = true →
  ∃ r s2, AllocateZeroedPage s1 = Ret (r, s2) ∧ live s2 = true ∧
    if decide (r = 0) then built s T s2 else T !! r = None ∧ built s (<[r := replicate 512 0]> T) s2.
Proof.
  intros Hb Hl. pose proof Hb as (new & Hr & Hnew & HT).
  destruct (reaches_allocate new s s1 AnyPages 1 Hr Hl ltac:(lia)) as (o & s2 & Hrun & Hk & Hl2 & Ho).
  pose proof (tables_kept s T s1 (ram s2) Hb Hk) as HT2.
  unfold AllocateZeroedPage. erewrite M_run by exact Hrun. destruct o as [p|].
  2: { exists 0, s2. split; [done|]. split; [done|]. rewrite decide_True by done. by exists new. }
  destruct Ho as (Hr2 & Hal & Hp & Hhi & Hm & Hdis & _). unfold PAGE_SIZE_4K in *.
  assert (Hnone : T !! p = None).
  { destruct (T !! p) as [ws|] eqn:Hp'; [|done]. exfalso. apply (Hdis p); [|lia].
    eapply built_owned; [done..|]. unfold FRAME_SIZE. lia. }
  assert (Hb2 : built s (<[p := words_at (ram s2) p]> T) s2).
  { exists ((p, 1) :: new). split; [done|]. split.
    - intros [q n]. rewrite elem_of_cons, Hnew. cbn. rewrite lookup_insert_is_Some. destruct (decide (p = q)) as [<-|]; naive_solver.
    - intros q us [[<- <-]|[Hne Hq]]%lookup_insert_Some; [|by apply HT2]. apply words_at_in; [done|lia|done]. }
  destruct (fill_ok s _ s2 p _ 512 (λ _, 0) Hb2 (lookup_insert_eq _ _ _) ltac:(lia)) as (s3 & Hf & Hb3 & Hl3); [done|].
  erewrite M_run by exact Hf. exists p, s3. split; [done|]. split; [by rewrite Hl3|]. rewrite decide_False by lia.
  split; [done|]. rewrite insert_insert_eq in Hb3. exact Hb3.
Qed.

(** The words of an identity directory. *)
Definition identity_words (gib : Z) : list Z :=
  (λ entry, large_entry (wrap64 (gib * ONE_GIB + entry * PAGE_SIZE_2M))) <$> seqZ 0 512.

(** [T'] has the directories [pds] besides the tables of [T], linked from
    [pdpt] at [gib] and on. *)
Record mapped_gibs T T' (pdpt : Z) (gib : nat) (pds : list Z) : Prop := {
  mg_pdpt : ∃ ws ws', T !! pdpt = Some ws ∧ T' !! pdpt = Some ws' ∧
    (∀ i, ws' !! i = match pds !! (i - gib)%nat with
                     | Some pd => if decide (gib ≤ i)%nat then Some (table_entry pd) else ws !! i
                     | None => ws !! i end);
  mg_pds : ∀ k pd, pds !! k = Some pd → T' !! pd = Some (identity_words (Z.of_nat (gib + k)));
  mg_rest : ∀ q us, q ≠ pdpt → T !! q = Some us → T' !! q = Some us;
  mg_new : NoDup pds ∧ ∀ pd, pd ∈ pds → T !! pd = None;
}.

Lemma mapped_gibs_cons T T' pdpt ws gib pd pds :
  T !! pdpt = Some ws → T !! pd = None → (gib < length ws)%nat →
  mapped_gibs (<[pdpt := <[gib := table_entry pd]> ws]> (<[pd := identity_words (Z.of_nat gib)]> T)) T' pdpt (S gib) pds →
  mapped_gibs T T' pdpt gib (pd :: pds).
Proof.
  intros Hp Hnone Hlen [(us & us' & Hus & Hus' & Hw) Hpds Hrest [Hnd Hnew]].
  assert (Hne : pd ≠ pdpt) by (intros ->; by rewrite Hp in Hnone).
  rewrite lookup_insert_eq in Hus. injection Hus as <-.
  assert (Hfresh : ∀ q, q ∈ pds → q ≠ pdpt ∧ q ≠ pd ∧ T !! q = None).
  { intros q Hq. apply Hnew in Hq. rewrite !lookup_insert_None in Hq. naive_solver. }
  split.
  - exists ws, us'. split; [done|]. split; [done|]. intros i. rewrite Hw. destruct (decide (i < gib)%nat).
    { replace (i - S gib)%nat with O by lia. replace (i - gib)%nat with O by lia. cbn [lookup list_lookup].
      rewrite (decide_False (P := (gib ≤ i)%nat)) by lia. rewrite list_lookup_insert_ne by lia.
      destruct (pds !! O); [|done]. by rewrite decide_False by lia. }
    destruct (decide (i = gib)) as [->|].
    { rewrite Nat.sub_diag. cbn [lookup list_lookup]. rewrite decide_True by lia.
      rewrite list_lookup_insert_eq by done. replace (gib - S gib)%nat with O by lia. destruct (pds !! O); [|done].
      by rewrite decide_False by lia. }
    replace (i - gib)%nat with (S (i - S gib)) by lia. cbn [lookup list_lookup].
    rewrite list_lookup_insert_ne by lia. destruct (pds !! (i - S gib)%nat); [|done]. by rewrite !decide_True by lia.
  - intros [|k] q; cbn [lookup list_lookup]; intros Hk.
    + injection Hk as <-. rewrite Nat.add_0_r. apply Hrest; [done|]. by rewrite lookup_insert_ne, lookup_insert_eq by done.
    + replace (gib + S k)%nat with (S gib + k)%nat by lia. by apply Hpds.
  - intros q vs Hq Hvs. apply Hrest; [done|]. rewrite lookup_insert_ne by done.
    rewrite lookup_insert_ne; [done|]. intros <-. by rewrite Hnone in Hvs.
  - split.
    + constructor; [|done]. intros Hin. apply Hfresh in Hin. naive_solver.
    + intros q [->|Hin]%elem_of_cons; [done|by apply Hfresh].
Qed.

Lemma identity_map_ok n s T s1 pdpt ws gib :
  built s T s1 → live s1 = true → T !! pdpt = Some ws → (gib + n ≤ 512)%nat →
  ∃ b s2 T', identity_map n (Z.of_nat gib) pdpt s1 = Ret (b, s2) ∧ live s2 = true ∧ built s T' s2 ∧
    (b = true → ∃ pds, length pds = n ∧ mapped_gibs T T' pdpt gib pds).
Proof.
  revert T s1 ws gib. induction n as [|n IH]; intros T s1 ws gib Hb Hl Hp Hn; cbn [identity_map].
  { exists true, s1, T. split_and!; try done. intros _. exists []. split; [done|]. split; [by exists ws, ws|done|done|].
    split; [constructor|]. by intros pd Hin%elem_of_nil. }
  destruct (zeroed_ok s T s1 Hb Hl) as (pd & s2 & Hz & Hl2 & H2). erewrite M_run by exact Hz.
  destruct (Z.eqb_spec pd 0) as [->|Hpd].
  { exists false, s2, T. split; [done|]. rewrite decide_True in H2 by done. done. }
  rewrite decide_False in H2 by done. destruct H2 as [Hnone Hb2].
  assert (Hgib : Z.of_nat gib < 512) by lia.
  destruct (fill_ok s _ s2 pd _ 512 (λ entry, large_entry (wrap64 (Z.of_nat gib * ONE_GIB + entry * PAGE_SIZE_2M)))
    Hb2 (lookup_insert_eq _ _ _) ltac:(lia)) as (s3 & Hf & Hb3 & Hl3).
  { intros i _. apply large_entry_u64. apply Z.mod_pos_bound. lia. }
  erewrite M_run by exact Hf. rewrite insert_insert_eq in Hb3.
  change (drop 512 (replicate 512 0)) with (@nil Z) in Hb3. rewrite app_nil_r in Hb3. fold (identity_words (Z.of_nat gib)) in Hb3.
  assert (Hne : pd ≠ pdpt) by (intros ->; by rewrite Hp in Hnone).
  destruct (bu_page s _ s3 pd (identity_words (Z.of_nat gib)) Hb3) as [Hal Hr]; [by rewrite lookup_insert_eq|].
  destruct (put_ok s _ s3 pdpt ws gib (table_entry pd) Hb3) as (s4 & Hput & Hb4 & Hl4);
    [by rewrite lookup_insert_ne|lia|by apply table_entry_u64; [|lia]|].
  erewrite M_run by exact Hput. replace (Z.of_nat gib + 1) with (Z.of_nat (S gib)) by lia.
  destruct (IH _ s4 (<[gib := table_entry pd]> ws) (S gib) Hb4) as (b & s5 & T' & Hrun & Hl5 & Hb5 & Hres);
    [congruence|by rewrite lookup_insert_eq|lia|].
  exists b, s5, T'. split; [done|]. split; [done|]. split; [done|]. intros Hbt. destruct (Hres Hbt) as (pds & Hlen & Hg).
  exists (pd :: pds). split; [cbn; lia|]. apply mapped_gibs_cons with (ws := ws); [done..| |done].
  destruct Hb as (_ & _ & _ & HT). rewrite (ti_length _ _ _ (HT pdpt ws Hp)). lia.
Qed.
End laws.
