(* ===== verification/BootTables.v ===== *)
(** What [BuildKernelPageTables] builds, and what the processor finds in it.

    [loader_tables] lists the eight tables with their words; [build_ok] says
    that the code builds exactly them (or reports failure), [boot_walk] what
    an address walks to, and [loader_tables_ok] that the tree of tables has the
    invariant the kernel's memory manager starts from, when every table was
    allocated where the kernel can reach it. *)
From stdpp Require Import base numbers option gmap list_numbers list.
From S2P Require Import Prelude PhysAddr VirtAddr PageTableEntry Memory FrameAllocator Vmm PageWalk VmmSpec BootDefs Firmware BootPaging.

Definition zeros (n : nat) : list Z := replicate n 0.
(** The words of the kernel's directory. *)
Definition kernel_words (base : Z) (count : nat) : list Z :=
  ((λ entry, large_entry (wrap64 (base + entry * PAGE_SIZE_2M))) <$> seqZ 0 (Z.of_nat count)) ++ zeros (512 - count).

(** The tables, by what they hold. *)
Record loader_tables (T : gmap Z (list Z)) (cr3 idp kp kd : Z) (pds : list Z) (base : Z) (count : nat) : Prop := {
  bt_pml4 : T !! cr3 = Some (<[511%nat := table_entry kp]> (<[0%nat := table_entry idp]> (zeros 512)));
  bt_idp : ∃ ws, T !! idp = Some ws ∧
    ∀ i, ws !! i = match pds !! i with Some pd => Some (table_entry pd) | None => zeros 512 !! i end;
  bt_pds : length pds = 4%nat ∧ ∀ k pd, pds !! k = Some pd → T !! pd = Some (identity_words (Z.of_nat k));
  bt_kp : T !! kp = Some (<[510%nat := table_entry kd]> (zeros 512));
  bt_kd : T !! kd = Some (kernel_words base count);
  bt_count : (count ≤ 512)%nat;
  bt_distinct : NoDup (cr3 :: idp :: kp :: kd :: pds);
}.

Section build.
Context {F : Type} {BS : BootServices F} {FL : FirmwareLaws F}.
Implicit Types (s : efi F) (T : gmap Z (list Z)).

(** The identity map, linked from its root. *)
Record identity_half T (pml4 idp : Z) (pds : list Z) : Prop := {
  ih_pml4 : T !! pml4 = Some (<[0%nat := table_entry idp]> (zeros 512));
  ih_idp : ∃ ws, T !! idp = Some ws ∧
    ∀ i, ws !! i = match pds !! i with Some pd => Some (table_entry pd) | None => zeros 512 !! i end;
  ih_pds : length pds = 4%nat ∧ ∀ k pd, pds !! k = Some pd → T !! pd = Some (identity_words (Z.of_nat k));
  ih_distinct : NoDup (pml4 :: idp :: pds);
}.

(** Adding the kernel's two tables. *)
Lemma loader_tables_link T pml4 idp pds kp kd base count :
  identity_half T pml4 idp pds → T !! kp = None → T !! kd = None → kp ≠ kd → (count ≤ 512)%nat →
  loader_tables (<[pml4 := <[511%nat := table_entry kp]> (<[0%nat := table_entry idp]> (zeros 512))]>
    (<[kp := <[510%nat := table_entry kd]> (zeros 512)]> (<[kd := kernel_words base count]> (<[kp := zeros 512]> T))))
    pml4 idp kp kd pds base count.
Proof.
  intros [Hpml4 (ws & Hidp & Hws) [Hlen Hpds] Hnd] Hkp Hkd Hkk Hc.
  apply NoDup_cons in Hnd as [[N0 N1]%not_elem_of_cons [N2 N3]%NoDup_cons].
  assert (Hold : ∀ q us, T !! q = Some us → q ≠ kp ∧ q ≠ kd) by (intros q us Hq; split; intros ->; congruence).
  destruct (Hold _ _ Hpml4), (Hold _ _ Hidp).
  assert (Hpd : ∀ q, q ∈ pds → q ≠ kp ∧ q ≠ kd).
  { intros q [k Hk]%list_elem_of_lookup. eapply Hold, Hpds, Hk. }
  split; [by rewrite lookup_insert_eq|exists ws; by rewrite !lookup_insert_ne by done|split; [done|]| | |done|].
  - intros k q Hq. assert (Hqin : q ∈ pds) by (by eapply list_elem_of_lookup_2). destruct (Hpd q Hqin).
    rewrite !lookup_insert_ne; [by apply Hpds|congruence..].
  - by rewrite lookup_insert_ne, lookup_insert_eq by done.
  - by rewrite 2!lookup_insert_ne, lookup_insert_eq by done.
  - repeat (apply NoDup_cons; split); [| | | |done]; rewrite ?not_elem_of_cons; split_and?; try done; try congruence.
    + intros Hin. by destruct (Hpd _ Hin).
    + intros Hin. by destruct (Hpd _ Hin).
Qed.

(** The second half of the code, once the identity map is linked. *)
Lemma kernel_half_ok s T s1 pml4 idp pds base size :
  built s T s1 → live s1 = true → identity_half T pml4 idp pds →
  ∃ r s2 T',
    (kernelPdpt ← AllocateZeroedPage;
     if kernelPdpt =? 0 then mret 0 else
     kernelPd ← AllocateZeroedPage;
     if kernelPd =? 0 then mret 0 else
     if Z.of_nat ENTRIES_PER_TABLE <? kernel_page_count size then mret 0 else
     _ ← fill_table (Z.to_nat (kernel_page_count size)) kernelPd
           (λ entry, large_entry (wrap64 (base + entry * PAGE_SIZE_2M)));
     _ ← put kernelPdpt 510 (table_entry kernelPd);
     _ ← put pml4 511 (table_entry kernelPdpt);
     mret pml4) s1 = Ret (r, s2) ∧ live s2 = true ∧ built s T' s2 ∧
    (r ≠ 0 → ∃ kp kd, loader_tables T' r idp kp kd pds base (Z.to_nat (kernel_page_count size))).
Proof.
  intros Hb Hl Hid. pose proof Hid as [Hpml4 _ _ _].
  destruct (zeroed_ok s T s1 Hb Hl) as (kp & s2 & Hz & Hl2 & H2). erewrite M_run by exact Hz.
  destruct (Z.eqb_spec kp 0) as [->|Hkp]. { exists 0, s2, T. by rewrite decide_True in H2. }
  rewrite decide_False in H2 by done. destruct H2 as [Hn2 Hb2].
  destruct (zeroed_ok s _ s2 Hb2 Hl2) as (kd & s3 & Hz3 & Hl3 & H3). erewrite M_run by exact Hz3.
  destruct (Z.eqb_spec kd 0) as [->|Hkd]. { eexists 0, s3, _. by rewrite decide_True in H3. }
  rewrite decide_False in H3 by done. destruct H3 as [Hn3 Hb3].
  apply lookup_insert_None in Hn3 as [Hn3 Hkk].
  destruct (Z.ltb_spec (Z.of_nat ENTRIES_PER_TABLE) (kernel_page_count size)) as [Hbig|Hcount]; [by eexists 0, s3, _|].
  unfold ENTRIES_PER_TABLE in Hcount. set (count := Z.to_nat (kernel_page_count size)).
  assert (Hc : (count ≤ 512)%nat) by (unfold count; lia).
  destruct (fill_ok s _ s3 kd _ count (λ entry, large_entry (wrap64 (base + entry * PAGE_SIZE_2M)))
    Hb3 (lookup_insert_eq _ _ _) Hc) as (s4 & Hf & Hb4 & Hl4).
  { intros i _. apply large_entry_u64. apply Z.mod_pos_bound. lia. }
  erewrite M_run by exact Hf. rewrite insert_insert_eq, drop_replicate in Hb4. fold (zeros (512 - count)) in Hb4.
  fold (kernel_words base count) in Hb4.
  destruct (bu_page s _ s4 kd _ Hb4 (lookup_insert_eq _ _ _)) as [Hal Hr].
  destruct (bu_page s _ s4 kp (zeros 512) Hb4) as [Halp Hrp]; [by rewrite lookup_insert_ne, lookup_insert_eq|].
  destruct (put_ok s _ s4 kp (zeros 512) 510 (table_entry kd) Hb4) as (s5 & Hput & Hb5 & Hl5);
    [by rewrite lookup_insert_ne, lookup_insert_eq|lia|by apply table_entry_u64; [|lia]|].
  change (Z.of_nat 510) with 510 in Hput. erewrite M_run by exact Hput.
  destruct (put_ok s _ s5 pml4 (<[0%nat := table_entry idp]> (zeros 512)) 511 (table_entry kp) Hb5) as (s6 & Hput6 & Hb6 & Hl6);
    [by rewrite !lookup_insert_ne by congruence|lia|by apply table_entry_u64; [|lia]|].
  change (Z.of_nat 511) with 511 in Hput6. erewrite M_run by exact Hput6.
  eexists pml4, s6, _. split; [done|]. split; [congruence|]. split; [exact Hb6|]. intros _. exists kp, kd.
  by apply loader_tables_link.
Qed.

(** [BuildKernelPageTables] returns 0, or the root of the tables it built. *)
Lemma build_ok s base size :
  fw_ok (fw s) (ram s) → live s = true →
  ∃ r s' T, BuildKernelPageTables base size s = Ret (r, s') ∧ live s' = true ∧ built s T s' ∧
    (r ≠ 0 → ∃ idp kp kd pds, loader_tables T r idp kp kd pds base (Z.to_nat (kernel_page_count size))).
Proof.
  intros Hok Hl. assert (Hb : built s ∅ s).
  { exists []. split; [by apply reaches_refl|]. split; [|apply map_Forall_empty].
    intros h. rewrite lookup_empty. split; [by intros ?%elem_of_nil|by intros [_ []]]. }
  unfold BuildKernelPageTables.
  destruct (zeroed_ok s _ s Hb Hl) as (pml4 & s1 & Hz & Hl1 & H1). erewrite M_run by exact Hz.
  destruct (Z.eqb_spec pml4 0) as [->|Hpml4]. { eexists 0, s1, _. by rewrite decide_True in H1. }
  rewrite decide_False in H1 by done. destruct H1 as [_ Hb1].
  destruct (zeroed_ok s _ s1 Hb1 Hl1) as (idp & s2 & Hz2 & Hl2 & H2). erewrite M_run by exact Hz2.
  destruct (Z.eqb_spec idp 0) as [->|Hidp]. { eexists 0, s2, _. by rewrite decide_True in H2. }
  rewrite decide_False in H2 by done. destruct H2 as [[_ Hne]%lookup_insert_None Hb2].
  change (Z.to_nat (IDENTITY_MAP_LIMIT / ONE_GIB)) with 4%nat.
  destruct (identity_map_ok 4 s _ s2 idp (zeros 512) 0 Hb2 Hl2) as (ok & s3 & T3 & Hid & Hl3 & Hb3 & H3);
    [by rewrite lookup_insert_eq|lia|].
  change (Z.of_nat 0) with 0 in Hid. erewrite M_run by exact Hid. destruct ok; cbn [negb]; [|by exists 0, s3, T3].
  destruct (H3 eq_refl) as (pds & Hlen & [(ws & ws' & Hws & Hws' & Hw) Hpds Hrest [Hnd Hnew]]).
  rewrite lookup_insert_eq in Hws. injection Hws as <-.
  assert (Hp3 : T3 !! pml4 = Some (zeros 512)).
  { apply Hrest; [done|]. by rewrite lookup_insert_ne, lookup_insert_eq. }
  destruct (bu_page s _ s3 idp _ Hb3 Hws') as [Hal Hr].
  destruct (put_ok s _ s3 pml4 (zeros 512) 0 (table_entry idp) Hb3 Hp3) as (s4 & Hput & Hb4 & Hl4);
    [lia|by apply table_entry_u64; [|lia]|].
  change (Z.of_nat 0) with 0 in Hput. erewrite M_run by exact Hput.
  destruct (kernel_half_ok s _ s4 pml4 idp pds base size Hb4) as (r & s5 & T5 & Hrun & Hl5 & Hb5 & H5).
  - congruence.
  - assert (Hfresh : ∀ q, q ∈ pds → q ≠ pml4 ∧ q ≠ idp).
    { intros q Hq. specialize (Hnew q Hq). rewrite !lookup_insert_None in Hnew. destruct Hnew as [[_ ?] ?]. by split; congruence. }
    split; [by rewrite lookup_insert_eq| |split; [done|]|].
    + exists ws'. split; [by rewrite lookup_insert_ne|]. intros i. rewrite Hw, Nat.sub_0_r. by destruct (pds !! i).
    + intros k q Hq. rewrite lookup_insert_ne; [by apply Hpds|]. apply list_elem_of_lookup_2 in Hq.
      destruct (Hfresh q Hq). congruence.
    + repeat (apply NoDup_cons; split); [| |done]; rewrite ?not_elem_of_cons; split_and?; try congruence;
        intros Hin; by destruct (Hfresh _ Hin).
  - exists r, s5, T5. split; [exact Hrun|]. split; [done|]. split; [done|]. intros Hr0.
    destruct (H5 Hr0) as (kp & kd & Hbt). by exists idp, kp, kd, pds.
Qed.
End build.

(** What the loader means an address to be mapped to: the low 4 GiB to
    themselves, the kernel's image at its virtual base. *)
Definition boot_mapping (base : Z) (count : nat) (v : Z) : option Z :=
  if decide (v < IDENTITY_MAP_LIMIT) then Some v else
  if decide (KERNEL_VIRTUAL_BASE ≤ v < KERNEL_VIRTUAL_BASE + Z.of_nat count * PAGE_SIZE_2M)
  then Some (base + (v - KERNEL_VIRTUAL_BASE)) else None.
(** An address x86_64 accepts: bits 63:47 agree. *)
Definition canonical (v : Z) : Prop := 0 ≤ v < 2 ^ 47 ∨ 2 ^ 64 - 2 ^ 47 ≤ v < 2 ^ 64.

(** * What the processor finds *)
Lemma zero_word n i : zeros n !! i = Some 0 ↔ (i < n)%nat.
Proof. unfold zeros. rewrite lookup_replicate. naive_solver. Qed.

Section walks.
Context (m : mem) (T : gmap Z (list Z)) (cr3 idp kp kd : Z) (pds : list Z) (base : Z) (count : nat).
Context (HT : tables T m) (HB : loader_tables T cr3 idp kp kd pds base count).
Context (Hal : base mod PAGE_SIZE_2M = 0) (Hlo : 0 ≤ base) (Hhi : base + Z.of_nat count * PAGE_SIZE_2M ≤ 2 ^ 52).

Lemma ent_in p ws i w : T !! p = Some ws → 0 ≤ i → ws !! Z.to_nat i = Some w → ent m p i = mkEntry w.
Proof using All.
  intros Hp Hi Hw. unfold ent. f_equal. rewrite <- (ti_words _ _ _ (HT p ws Hp) _ _ Hw). f_equal. lia.
Qed.

Lemma table_page p ws : T !! p = Some ws → p mod FRAME_SIZE = 0 ∧ 0 ≤ p < 2 ^ 52.
Proof using All. intros Hp. destruct (ti_addr _ _ _ (HT p ws Hp)). split; [done|lia]. Qed.

Lemma pd_in k pd : pds !! k = Some pd → T !! pd = Some (identity_words (Z.of_nat k)).
Proof using All. apply HB. Qed.
Lemma pds_range (k : nat) : is_Some (pds !! k) ↔ (k < 4)%nat.
Proof using All. rewrite lookup_lt_is_Some. destruct (bt_pds _ _ _ _ _ _ _ _ HB) as [-> _]. done. Qed.

(** ** Entries, table by table *)
Lemma ent_pml4 i : idx_ok i →
  ent m cr3 i = mkEntry (if decide (i = 0) then table_entry idp else if decide (i = 511) then table_entry kp else 0).
Proof using All.
  intros [Hi0 Hi]. apply (ent_in _ _ _ _ (bt_pml4 _ _ _ _ _ _ _ _ HB)); [done|].
  destruct (decide (i = 0)) as [->|]; [done|]. destruct (decide (i = 511)) as [->|]; [done|].
  rewrite !list_lookup_insert_ne by lia. apply zero_word. lia.
Qed.
Lemma ent_idp i : idx_ok i →
  ent m idp i = mkEntry (match pds !! Z.to_nat i with Some pd => table_entry pd | None => 0 end).
Proof using All.
  intros [Hi0 Hi]. destruct (bt_idp _ _ _ _ _ _ _ _ HB) as (ws & Hws & Hw). apply (ent_in _ _ _ _ Hws Hi0). rewrite Hw.
  destruct (pds !! Z.to_nat i); [done|]. apply zero_word. lia.
Qed.
Lemma ent_kp i : idx_ok i → ent m kp i = mkEntry (if decide (i = 510) then table_entry kd else 0).
Proof using All.
  intros [Hi0 Hi]. apply (ent_in _ _ _ _ (bt_kp _ _ _ _ _ _ _ _ HB)); [done|].
  destruct (decide (i = 510)) as [->|]; [done|]. rewrite list_lookup_insert_ne by lia. apply zero_word. lia.
Qed.
Lemma ent_pd k pd i : pds !! k = Some pd → idx_ok i →
  ent m pd i = mkEntry (large_entry (Z.of_nat k * ONE_GIB + i * PAGE_SIZE_2M)).
Proof using All.
  intros Hk [Hi0 Hi]. apply (ent_in _ _ _ _ (pd_in _ _ Hk)); [done|]. unfold identity_words.
  rewrite list_lookup_fmap, lookup_seqZ_lt by lia. cbn. do 2 f_equal.
  assert (Hk4 : (k < 4)%nat) by (apply pds_range; eauto). rewrite Z.add_0_l, Z2Nat.id by done.
  apply Z.mod_small. unfold ONE_GIB, PAGE_SIZE_2M. lia.
Qed.
Lemma ent_kd i : idx_ok i →
  ent m kd i = mkEntry (if decide (i < Z.of_nat count) then large_entry (base + i * PAGE_SIZE_2M) else 0).
Proof using All.
  intros [Hi0 Hi]. apply (ent_in _ _ _ _ (bt_kd _ _ _ _ _ _ _ _ HB)); [done|]. unfold kernel_words.
  pose proof (bt_count _ _ _ _ _ _ _ _ HB). case_decide.
  - rewrite lookup_app_l by (rewrite length_fmap, length_seqZ; lia).
    rewrite list_lookup_fmap, lookup_seqZ_lt by lia. cbn. do 2 f_equal. rewrite Z2Nat.id by done.
    apply Z.mod_small. unfold PAGE_SIZE_2M in *. lia.
  - rewrite lookup_app_r by (rewrite length_fmap, length_seqZ; lia).
    rewrite length_fmap, length_seqZ. apply zero_word. lia.
Qed.

(** ** Steps of the walk *)
Lemma step_table t i t' ws : ent m t i = mkEntry (table_entry t') → T !! t' = Some ws →
  next_table m t i = Some t' ∧ ∀ j r, walk m t (i :: j :: r) = walk m t' (j :: r).
Proof using All.
  intros He Ht. destruct (table_page t' ws Ht) as [Ha Hr]. destruct (table_entry_facts t' Ha Hr) as (Hp & Hh & Had).
  unfold next_table. split; [by rewrite He, Hp, Hh, Had|]. intros j r. by rewrite walk_more, He, Hp, Hh, Had.
Qed.
Lemma step_zero t i : ent m t i = mkEntry 0 → next_table m t i = None ∧ ∀ r, walk m t (i :: r) = Unmapped.
Proof using All. intros He. unfold next_table. rewrite He. split; [done|]. intros [|j r]; cbn; by rewrite He. Qed.
Lemma step_large t i a : ent m t i = mkEntry (large_entry a) → a mod PAGE_SIZE_2M = 0 → 0 ≤ a < 2 ^ 52 →
  next_table m t i = None ∧ ∀ j r, walk m t (i :: j :: r) = Huge (S (length r)) (mkEntry (large_entry a)).
Proof using All.
  intros He Ha Hr. destruct (large_entry_facts a Ha Hr) as (Hp & Hh & _ & _). unfold next_table. split; [by rewrite He, Hp, Hh|].
  intros j r. by rewrite walk_more, He, Hp, Hh.
Qed.

Lemma large_range_kd i : idx_ok i → i < Z.of_nat count →
  (base + i * PAGE_SIZE_2M) mod PAGE_SIZE_2M = 0 ∧ 0 ≤ base + i * PAGE_SIZE_2M < 2 ^ 52.
Proof using All. intros [Hi _] Hc. rewrite Z.mod_add by done. unfold PAGE_SIZE_2M in *. split; [done|lia]. Qed.
Lemma large_range_pd k pd i : pds !! k = Some pd → idx_ok i →
  (Z.of_nat k * ONE_GIB + i * PAGE_SIZE_2M) mod PAGE_SIZE_2M = 0 ∧ 0 ≤ Z.of_nat k * ONE_GIB + i * PAGE_SIZE_2M < 2 ^ 52.
Proof using All.
  intros Hk [Hi0 Hi]. assert (Hk4 : (k < 4)%nat) by (apply pds_range; eauto).
  unfold ONE_GIB, PAGE_SIZE_2M in *. split; [dlia|lia].
Qed.

(** ** The tree of tables *)
Lemma next_pd k pd i : pds !! k = Some pd → idx_ok i → next_table m pd i = None.
Proof using All.
  intros Hk Hi. destruct (large_range_pd k pd i Hk Hi). by apply (step_large _ _ _ (ent_pd k pd i Hk Hi)).
Qed.
Lemma next_kd i : idx_ok i → next_table m kd i = None.
Proof using All.
  intros Hi. pose proof (ent_kd i Hi) as He. destruct (decide (i < Z.of_nat count)) as [Hc|]; [|by apply step_zero].
  destruct (large_range_kd i Hi Hc). by apply (step_large _ _ _ He).
Qed.
Lemma next_kp i : idx_ok i → next_table m kp i = if decide (i = 510) then Some kd else None.
Proof using All.
  intros Hi. pose proof (ent_kp i Hi) as He. case_decide; [|by apply step_zero].
  by eapply step_table; [|apply (bt_kd _ _ _ _ _ _ _ _ HB)].
Qed.
Lemma next_idp i : idx_ok i → next_table m idp i = pds !! Z.to_nat i.
Proof using All.
  intros Hi. pose proof (ent_idp i Hi) as He. destruct (pds !! Z.to_nat i) as [pd|] eqn:Hk; [|by apply step_zero].
  by eapply step_table; [|apply (pd_in _ _ Hk)].
Qed.
Lemma next_pml4 i : idx_ok i →
  next_table m cr3 i = if decide (i = 0) then Some idp else if decide (i = 511) then Some kp else None.
Proof using All.
  intros Hi. pose proof (ent_pml4 i Hi) as He. destruct (bt_idp _ _ _ _ _ _ _ _ HB) as (ws & Hws & _).
  case_decide; [by eapply step_table|]. case_decide; [|by apply step_zero].
  by eapply step_table; [|apply (bt_kp _ _ _ _ _ _ _ _ HB)].
Qed.

(** The tables in a row, and the path to each. *)
Definition table_row : list Z := cr3 :: idp :: kp :: kd :: pds.
Definition path_of (n : nat) : list Z :=
  match n with 0%nat => [] | 1%nat => [0] | 2%nat => [511] | 3%nat => [511; 510] | S (S (S (S k))) => [0; Z.of_nat k] end.

Lemma boot_table_at p t : path_ok p → table_at m cr3 p = Some t → ∃ n, table_row !! n = Some t ∧ p = path_of n.
Proof using All.
  intros [Hlen Hall]. destruct p as [|i p]; cbn [table_at]; [intros [= <-]; by exists 0%nat|].
  apply Forall_cons in Hall as [Hi Hall]. rewrite next_pml4 by done. case_decide as Hi0; [|case_decide as Hi1; [|done]]; cbn [mbind option_bind].
  - subst i. destruct p as [|j p]; cbn [table_at]; [intros [= <-]; by exists 1%nat|].
    apply Forall_cons in Hall as [Hj Hall]. rewrite next_idp by done.
    destruct (pds !! Z.to_nat j) as [pd|] eqn:Hk; cbn [mbind option_bind]; [|done].
    destruct p as [|l p]; cbn [table_at].
    + intros [= <-]. exists (4 + Z.to_nat j)%nat. split; [done|]. cbn. unfold idx_ok in Hj. do 2 f_equal. lia.
    + apply Forall_cons in Hall as [Hl _]. by rewrite (next_pd _ _ _ Hk Hl).
  - subst i. destruct p as [|j p]; cbn [table_at]; [intros [= <-]; by exists 2%nat|].
    apply Forall_cons in Hall as [Hj Hall]. rewrite next_kp by done. case_decide as Hj0; cbn [mbind option_bind]; [|done].
    subst j. destruct p as [|l p]; cbn [table_at]; [intros [= <-]; by exists 3%nat|].
    apply Forall_cons in Hall as [Hl _]. by rewrite (next_kd _ Hl).
Qed.

Lemma row_table n t : table_row !! n = Some t → is_Some (T !! t).
Proof using All.
  destruct (bt_idp _ _ _ _ _ _ _ _ HB) as (ws & Hws & _).
  destruct n as [|[|[|[|k]]]]; cbn; [intros [= <-]; eauto using bt_pml4, bt_kp, bt_kd..|]. intros Hk. eauto using pd_in.
Qed.

(** The invariant the kernel's manager starts from, when every table is
    where the kernel can reach it and is not free memory. *)
Lemma loader_tables_ok free :
  (∀ t, t ∈ table_row → t < IDENTITY_MAP_LIMIT ∧ t / FRAME_SIZE ∉ free) → tables_ok m cr3 free.
Proof using All.
  intros Hreach. split.
  - intros p t Hp Ht. destruct (boot_table_at p t Hp Ht) as (n & Hn & _).
    destruct (row_table n t Hn) as [ws Hws]. destruct (HT t ws Hws) as [[Ha Hr] Hm _ _].
    destruct (Hreach t (list_elem_of_lookup_2 _ _ _ Hn)). unfold table_ok. split_and!; (done || lia).
  - intros p q t Hp Hq Htp Htq. destruct (boot_table_at p t Hp Htp) as (n & Hn & ->).
    destruct (boot_table_at q t Hq Htq) as (n' & Hn' & ->). f_equal.
    exact (NoDup_lookup _ _ _ _ (bt_distinct _ _ _ _ _ _ _ _ HB) Hn Hn').
  - intros i Hi. rewrite ent_pml4 by done. destruct (bt_idp _ _ _ _ _ _ _ _ HB) as (ws & Hws & _).
    destruct (table_page _ _ Hws), (table_page _ _ (bt_kp _ _ _ _ _ _ _ _ HB)).
    case_decide; [by intros _; apply table_entry_facts|]. case_decide; [by intros _; apply table_entry_facts|done].
Qed.

(** ** Translation *)
Lemma resolve_large a v : a mod PAGE_SIZE_2M = 0 → 0 ≤ a < 2 ^ 52 →
  resolve (Huge 1 (mkEntry (large_entry a))) (VirtAddr.new v) = Some (PhysAddr.new (a + v mod PAGE_SIZE_2M)).
Proof using All.
  intros Ha Hr. destruct (large_entry_facts a Ha Hr) as (_ & _ & _ & Had). unfold resolve. rewrite Had. cbn [decide].
  rewrite decide_True by done. do 2 f_equal. cbn [VirtAddr.as_u64 VirtAddr.new virt_0].
  change 0x1FFFFF with (Z.ones 21). rewrite (Z.land_ones v) by done. change PAGE_SIZE_2M with (2 ^ 21) in *.
  assert (Hland : Z.land a (not_w 64 (Z.ones 21)) = a).
  { apply Z.bits_inj'. intros i Hi. rewrite Z.land_spec, testbit_not_w, testbit_ones by done.
    destruct (Z.ltb_spec i 21); [|destruct (Z.ltb_spec i 64)].
    - rewrite <- (Z.mod_pow2_bits_low a 21 i), Ha by lia. by rewrite Z.bits_0.
    - destruct (Z.leb_spec 0 i); [|lia]. cbn. by rewrite andb_true_r.
    - rewrite (testbit_high a 64) by lia. done. }
  rewrite Hland. apply lor_add with (k := 21); [done..|]. by apply Z.mod_pos_bound.
Qed.

Lemma walk_low v : 0 ≤ v < IDENTITY_MAP_LIMIT →
  walk m cr3 (indices (VirtAddr.new v)) = Huge 1 (mkEntry (large_entry (v - v mod PAGE_SIZE_2M))).
Proof using All.
  intros Hv. unfold IDENTITY_MAP_LIMIT in Hv. pose proof (index_bounds (VirtAddr.new v)) as (I4 & I3 & I2 & _).
  unfold indices in *. revert I4 I3 I2. unfold pml4_index, pdpt_index, pd_index. cbn [virt_0 VirtAddr.new].
  rewrite !index_arith by done. intros I4 I3 I2.
  destruct (bt_idp _ _ _ _ _ _ _ _ HB) as (ws & Hws & _).
  pose proof (ent_pml4 _ I4) as E4. rewrite decide_True in E4 by dlia. rewrite (proj2 (step_table _ _ _ _ E4 Hws)).
  destruct (proj2 (pds_range (Z.to_nat ((v / 2 ^ 30) mod 512)))) as [pd Hpd]; [dlia|].
  pose proof (ent_idp _ I3) as E3. rewrite Hpd in E3. rewrite (proj2 (step_table _ _ _ _ E3 (pd_in _ _ Hpd))).
  pose proof (ent_pd _ _ _ Hpd I2) as E2. destruct (large_range_pd _ _ _ Hpd I2) as [Ha Hr].
  rewrite (proj2 (step_large _ _ _ E2 Ha Hr)). do 3 f_equal. unfold ONE_GIB, PAGE_SIZE_2M. dlia.
Qed.

Lemma walk_kernel v : KERNEL_VIRTUAL_BASE ≤ v < KERNEL_VIRTUAL_BASE + Z.of_nat count * PAGE_SIZE_2M →
  walk m cr3 (indices (VirtAddr.new v)) =
  Huge 1 (mkEntry (large_entry (base + (v - KERNEL_VIRTUAL_BASE - v mod PAGE_SIZE_2M)))).
Proof using All.
  intros Hv. pose proof (bt_count _ _ _ _ _ _ _ _ HB) as Hc. unfold KERNEL_VIRTUAL_BASE, PAGE_SIZE_2M in *.
  pose proof (index_bounds (VirtAddr.new v)) as (I4 & I3 & I2 & _).
  unfold indices in *. revert I4 I3 I2. unfold pml4_index, pdpt_index, pd_index. cbn [virt_0 VirtAddr.new].
  rewrite !index_arith by done. intros I4 I3 I2.
  pose proof (ent_pml4 _ I4) as E4. rewrite decide_False, decide_True in E4 by dlia.
  rewrite (proj2 (step_table _ _ _ _ E4 (bt_kp _ _ _ _ _ _ _ _ HB))).
  pose proof (ent_kp _ I3) as E3. rewrite decide_True in E3 by dlia.
  rewrite (proj2 (step_table _ _ _ _ E3 (bt_kd _ _ _ _ _ _ _ _ HB))).
  pose proof (ent_kd _ I2) as E2. assert (Hlt : (v / 2 ^ 21) mod 512 < Z.of_nat count) by dlia. rewrite decide_True in E2 by done.
  destruct (large_range_kd _ I2 Hlt) as [Ha Hr]. rewrite (proj2 (step_large _ _ _ E2 Ha Hr)). do 3 f_equal. unfold PAGE_SIZE_2M. dlia.
Qed.

Lemma walk_nothing v : canonical v → IDENTITY_MAP_LIMIT ≤ v →
  ¬ (KERNEL_VIRTUAL_BASE ≤ v < KERNEL_VIRTUAL_BASE + Z.of_nat count * PAGE_SIZE_2M) →
  walk m cr3 (indices (VirtAddr.new v)) = Unmapped.
Proof using All.
  intros Hcan Hlow Hker. pose proof (bt_count _ _ _ _ _ _ _ _ HB) as Hc.
  unfold canonical, IDENTITY_MAP_LIMIT, KERNEL_VIRTUAL_BASE, PAGE_SIZE_2M in *.
  pose proof (index_bounds (VirtAddr.new v)) as (I4 & I3 & I2 & _).
  unfold indices in *. revert I4 I3 I2. unfold pml4_index, pdpt_index, pd_index. cbn [virt_0 VirtAddr.new].
  rewrite !index_arith by done. intros I4 I3 I2. destruct (bt_idp _ _ _ _ _ _ _ _ HB) as (ws & Hws & _).
  pose proof (ent_pml4 _ I4) as E4. case_decide as D0; [|case_decide as D1; [|by apply step_zero]].
  - rewrite (proj2 (step_table _ _ _ _ E4 Hws)). pose proof (ent_idp _ I3) as E3.
    rewrite lookup_ge_None_2 in E3; [by apply step_zero|]. destruct (bt_pds _ _ _ _ _ _ _ _ HB) as [-> _]. dlia.
  - rewrite (proj2 (step_table _ _ _ _ E4 (bt_kp _ _ _ _ _ _ _ _ HB))).
    pose proof (ent_kp _ I3) as E3. case_decide as D2; [|by apply step_zero].
    rewrite (proj2 (step_table _ _ _ _ E3 (bt_kd _ _ _ _ _ _ _ _ HB))).
    pose proof (ent_kd _ I2) as E2. rewrite decide_False in E2 by dlia. by apply step_zero.
Qed.

Lemma boot_walk v : canonical v →
  resolve (walk m cr3 (indices (VirtAddr.new v))) (VirtAddr.new v) = PhysAddr.new <$> boot_mapping base count v.
Proof using All.
  intros Hcan. pose proof Hcan as Hcan2. unfold canonical in Hcan2. unfold boot_mapping. case_decide as H1.
  - rewrite walk_low, resolve_large by (unfold PAGE_SIZE_2M, IDENTITY_MAP_LIMIT in *; dlia). cbn. do 2 f_equal. lia.
  - case_decide as H2; [|by rewrite walk_nothing by (done || lia)].
    rewrite walk_kernel by done. unfold PAGE_SIZE_2M, KERNEL_VIRTUAL_BASE in *.
    rewrite resolve_large by (unfold PAGE_SIZE_2M; dlia). cbn. do 2 f_equal. unfold PAGE_SIZE_2M. dlia.
Qed.
End walks.

(** The run and the translations together. *)
Lemma build_translates {F} {BS : BootServices F} {FL : FirmwareLaws F} (s : efi F) base size :
  fw_ok (fw s) (ram s) → live s = true → base mod PAGE_SIZE_2M = 0 → 0 ≤ base → 0 ≤ size →
  base + Z.max size PAGE_SIZE_2M ≤ 2 ^ 52 →
  ∃ cr3 s', BuildKernelPageTables base size s = Ret (cr3, s') ∧ live s' = true ∧
    kept (held (fw s)) (ram s) (ram s') ∧ (512 < size / PAGE_SIZE_2M → cr3 = 0) ∧
    (cr3 ≠ 0 → ∀ v, canonical v →
       resolve (walk (ram s') cr3 (indices (VirtAddr.new v))) (VirtAddr.new v) =
       PhysAddr.new <$> boot_mapping base (Z.to_nat (kernel_page_count size)) v).
Proof.
  intros Hok Hl Hal Hb Hs Hhi. destruct (build_ok s base size Hok Hl) as (cr3 & s' & T & Hrun & Hl' & (nw & Hr & _ & HT) & Hres).
  exists cr3, s'. split; [done|]. split; [done|]. split; [apply Hr|].
  assert (Hc : 0 ≤ kernel_page_count size ∧ kernel_page_count size * PAGE_SIZE_2M ≤ Z.max size PAGE_SIZE_2M).
  { unfold kernel_page_count, PAGE_SIZE_2M. destruct (Z.eqb_spec (size / 0x200000) 0); dlia. }
  split.
  - intros Hbig. destruct (decide (cr3 = 0)) as [|Hne]; [done|]. destruct (Hres Hne) as (idp & kp & kd & pds & Htab).
    pose proof (bt_count _ _ _ _ _ _ _ _ Htab) as H512. unfold kernel_page_count in H512.
    destruct (Z.eqb_spec (size / PAGE_SIZE_2M) 0); lia.
  - intros Hne v Hv. destruct (Hres Hne) as (idp & kp & kd & pds & Htab).
    eapply boot_walk; [exact HT|exact Htab|done|done| |done]. rewrite Z2Nat.id; lia.
Qed.

(** C15: the page tables the kernel starts on are right.  For a 2 MiB-aligned
    image, [BuildKernelPageTables] always returns, touches nothing the loader
    already holds, and gives 0 when the image needs more than 512 large pages;
    where it gives a root, every canonical address translates through it as
    meant: below 4 GiB to itself, in the image's virtual range to the image,
    anywhere else to nothing. *)
Theorem build_page_tables_correct {F} {BS : BootServices F} {FL : FirmwareLaws F} (s : efi F) base size :
  fw_ok (fw s) (ram s) → live s = true → base mod PAGE_SIZE_2M = 0 → 0 ≤ base → 0 ≤ size →
  base + Z.max size PAGE_SIZE_2M ≤ 2 ^ 52 →
  ∃ cr3 s', BuildKernelPageTables base size s = Ret (cr3, s') ∧ live s' = true ∧
    kept (held (fw s)) (ram s) (ram s') ∧ (512 < size / PAGE_SIZE_2M → cr3 = 0) ∧
    (cr3 ≠ 0 → ∀ v, canonical v →
       resolve (walk (ram s') cr3 (indices (VirtAddr.new v))) (VirtAddr.new v) =
       PhysAddr.new <$> boot_mapping base (Z.to_nat (kernel_page_count size)) v).
Proof. apply build_translates. Qed.
