(* ===== verification/BootMemoryMap.v ===== *)
(** Leaving the boot services: [boot/memory_map.c].

    [ExitBootServicesWithRetry] fetches the memory map into fresh pages and
    asks to exit with its key, up to five times.  The theorem says that it
    ends after at most five attempts, with boot services still there and
    nothing allocated, or with boot services gone and a memory map in pages
    the kernel can reach; the map then has the shape the kernel's frame
    allocator needs. *)
From stdpp Require Import base numbers option gmap list_numbers list.
From S2P Require Import Prelude PhysAddr Memory BootInfo MemoryMap FrameAllocator BootDefs Firmware.

Definition MAX_EXIT_ATTEMPTS : nat := 5.
Definition MEMORY_MAP_SLACK_ENTRIES : Z := 8.

Record BOOT_MEMORY_MAP : Type := mkBootMemoryMap {
  Map : Z;
  MapSizeBytes : Z;
  DescriptorSize : Z;
  DescriptorVersion : Z;
  EntryCount : Z;
}.

(** How one attempt ends: give up, [continue], or done. *)
Inductive attempt : Type := GiveUp | Again | Exited (map : BOOT_MEMORY_MAP).

Section code.
Context {F : Type} {BS : BootServices F}.
Abbreviation loader := (M (efi F)).

Definition exit_attempt : loader attempt :=
  i0 ← call bs_map_size;
  if mi_desc i0 =? 0 then mret GiveUp else
  let mapSize := wrap64 (mi_size i0 + wrap64 (mi_desc i0 * MEMORY_MAP_SLACK_ENTRIES)) in
  let pageCount := RoundUpTo mapSize PAGE_SIZE_4K / PAGE_SIZE_4K in
  o ← AllocatePages (MaxAddress (IDENTITY_MAP_LIMIT - 1)) pageCount;
  match o with
  | None => mret GiveUp
  | Some mapPhysAddr =>
    oi ← call (bs_get_memory_map mapPhysAddr mapSize);
    match oi with
    | None => _ ← FreePages mapPhysAddr pageCount; mret Again
    | Some i =>
      ok ← ExitBootServices (mi_key i);
      if (ok : bool) then
        mret (Exited (mkBootMemoryMap mapPhysAddr (mi_size i) (mi_desc i) (mi_version i) (mi_size i / mi_desc i)))
      else _ ← FreePages mapPhysAddr pageCount; mret Again
    end
  end.

(** The attempts, [n] to go. *)
Fixpoint exit_loop (n : nat) : loader (option BOOT_MEMORY_MAP) :=
  match n with
  | O => mret None
  | S n =>
    a ← exit_attempt;
    match a with
    | GiveUp => mret None
    | Again => exit_loop n
    | Exited map => mret (Some map)
    end
  end.
Definition ExitBootServicesWithRetry : loader (option BOOT_MEMORY_MAP) := exit_loop MAX_EXIT_ATTEMPTS.

End code.

Section laws.
Context {F : Type} {BS : BootServices F} {FL : FirmwareLaws F}.
Implicit Types (s : efi F).

(** A memory map in memory: it is where the kernel can read it, in pages that
    are held, and reads as [es], whose conventional memory exists and is
    nobody's. *)
Record map_in (m : mem) (hs : list pages) (map : BOOT_MEMORY_MAP) (es : list MemoryMapEntry) : Prop := {
  mp_count : Z.of_nat (length es) = EntryCount map ∧ EntryCount map = MapSizeBytes map / DescriptorSize map;
  mp_size : 0 ≤ MapSizeBytes map < 2 ^ 63 ∧ 40 ≤ DescriptorSize map < 2 ^ 32 ∧ 0 ≤ DescriptorVersion map < 2 ^ 32;
  mp_buffer : 0 < Map map ∧ Map map + MapSizeBytes map ≤ IDENTITY_MAP_LIMIT ∧
    ∀ a, Map map ≤ a < Map map + MapSizeBytes map → owned hs a;
  mp_reads : ∀ k e, es !! k = Some e → read_entry (λ a, m !! a) (Map map + Z.of_nat k * DescriptorSize map) = Some e;
  mp_free : ∀ e a, e ∈ es → typ e = EFI_CONVENTIONAL_MEMORY → covers e a → ¬ owned hs a ∧ is_Some (m !! a);
}.

(** What [ExitBootServices] leaves is still a memory map. *)
Lemma map_in_ext (m m' : mem) hs map es : map_in m hs map es →
  (∀ a, Map map ≤ a < Map map + MapSizeBytes map → m' !! a = m !! a) → (∀ a, is_Some (m' !! a) ↔ is_Some (m !! a)) →
  map_in m' hs map es.
Proof.
  intros [Hc Hs Hb Hr Hf] He Hd. split; try done.
  - intros k e Hk. rewrite <- (Hr k e Hk). apply read_entry_ext. intros a Ha. apply He.
    apply lookup_lt_Some in Hk. destruct Hc as [Hc1 Hc2], Hs as (? & ? & _).
    pose proof (Z.mul_div_le (MapSizeBytes map) (DescriptorSize map)). nia.
  - intros e a Hin Ht Ha. destruct (Hf e a Hin Ht Ha) as [Hn Hm]. split; [done|]. by apply Hd.
Qed.
Lemma map_in_kept m m' hs map es : map_in m hs map es → kept hs m m' → map_in m' hs map es.
Proof. intros Hm Hk. eapply map_in_ext; [done| |apply Hk]. intros a Ha. apply (kt_bytes _ _ _ Hk), Hm, Ha. Qed.

(** [GetMemoryMap] into pages allocated since [s]. *)
Lemma get_map_ok new s s' buf n pg :
  reaches ((buf, pg) :: new) s s' → live s' = true → n ≤ pg * PAGE_SIZE_4K →
  ∃ o s2, call (bs_get_memory_map buf n) s' = Ret (o, s2) ∧ live s2 = true ∧ reaches ((buf, pg) :: new) s s2 ∧
    match o with
    | None => True
    | Some i => map_info_ok i ∧ mi_size i ≤ n ∧ 0 < mi_desc i ∧
        ∃ es, fw_map (fw s2) es ∧ describes (ram s2) buf i es ∧ ∀ e a, e ∈ es → typ e = EFI_CONVENTIONAL_MEMORY → covers e a →
          ¬ owned (held (fw s2)) a ∧ is_Some (ram s2 !! a)
    end.
Proof.
  intros Hr Hl Hn.
  assert (Hbuf : ∀ a, buf ≤ a < buf + n → owned ((buf, pg) :: new) a) by (intros a Ha; apply owned_cons; left; cbn; lia).
  pose proof (fl_map buf n _ _ (re_ok _ _ _ Hr)) as Hlaw. unfold call. rewrite Hl.
  destruct (bs_get_memory_map buf n (fw s', ram s')) as [o [f' m']].
  destruct Hlaw as (Hh & Hok & Hdom & Hby & Hout & Ho).
  { intros a Ha. apply (reaches_owned _ _ _ _ Hr). left. by apply Hbuf. }
  eexists o, _. split; [done|]. split; [done|]. split; [|cbn [fw ram]; by rewrite Hh]. destruct (re_kept _ _ _ Hr) as [K1 K2 K3].
  split; cbn [fw ram].
  - done.
  - rewrite Hh. apply Hr.
  - split; [|intros a; by rewrite Hdom|auto]. intros a Ha. rewrite Hout.
    + by apply K1.
    + apply (reaches_owned _ _ _ _ Hr). by right.
    + intros Hin. by apply (re_fresh _ _ _ Hr a); [apply Hbuf|].
  - apply Hr.
Qed.

(** One attempt. *)
Lemma attempt_ok new s s' :
  reaches new s s' → live s' = true →
  ∃ a s2, exit_attempt s' = Ret (a, s2) ∧
    match a with
    | Exited map => live s2 = false ∧ ∃ pg es, reaches ((Map map, pg) :: new) s s2 ∧ MapSizeBytes map ≤ pg * PAGE_SIZE_4K ∧
        map_in (ram s2) (held (fw s2)) map es ∧ fw_map (fw s2) es
    | _ => live s2 = true ∧ reaches new s s2
    end.
Proof.
  intros Hr Hl. unfold exit_attempt.
  destruct (reaches_call _ _ _ _ _ fl_map_size Hr Hl) as (i0 & s1 & Hrun & (Hs0 & Hd0 & _) & _ & _ & Hr1 & Hs1).
  erewrite M_run by exact Hrun. destruct (Z.eqb_spec (mi_desc i0) 0) as [Hz|Hz].
  { exists GiveUp, s1. split; [done|]. split; [by rewrite Hs1|done]. }
  destruct Hd0 as [|Hd0]; [done|]. unfold wrap64, MEMORY_MAP_SLACK_ENTRIES.
  rewrite (Z.mod_small (mi_desc i0 * 8)) by lia. rewrite Z.mod_small by lia.
  set (n := mi_size i0 + mi_desc i0 * 8). set (pg := RoundUpTo n PAGE_SIZE_4K / PAGE_SIZE_4K).
  assert (Hpg : n ≤ pg * PAGE_SIZE_4K).
  { unfold pg, PAGE_SIZE_4K. destruct (RoundUpTo_spec n 12) as [H1 H2]; [lia..|]. change (2 ^ 12) with 0x1000 in *. dlia. }
  assert (Hl1 : live s1 = true) by (by rewrite Hs1).
  destruct (reaches_allocate new s s1 (MaxAddress (IDENTITY_MAP_LIMIT - 1)) pg Hr1 Hl1) as (o & s2 & Hrun2 & _ & Hl2 & Ho);
    [unfold n, PAGE_SIZE_4K in *; lia|].
  erewrite M_run by exact Hrun2. destruct o as [buf|]; [|by exists GiveUp, s2].
  destruct Ho as (Hr2 & _ & Hpos & _ & _ & _ & Hlim).
  destruct (get_map_ok new s s2 buf n pg Hr2 Hl2 Hpg) as (oi & s3 & Hrun3 & Hl3 & Hr3 & Hoi).
  erewrite M_run by exact Hrun3.
  assert (Hagain : ∀ s4, reaches ((buf, pg) :: new) s s4 → live s4 = true →
    ∃ s5, (_ ← FreePages buf pg; mret Again) s4 = Ret (Again, s5) ∧ live s5 = true ∧ reaches new s s5).
  { intros s4 Hr4 Hl4. destruct (reaches_free new s s4 buf pg Hr4 Hl4) as (s5 & Hrun5 & Hr5 & Hl5).
    exists s5. by erewrite M_run by exact Hrun5. }
  destruct oi as [i|]; [|destruct (Hagain s3 Hr3 Hl3) as (s5 & ? & ? & ?); by exists Again, s5].
  destruct Hoi as ((Hms & Hmd & Hmv) & Hle & Hd & es & Hfm & Hdesc & Hfree). unfold ExitBootServices.
  destruct (reaches_call _ _ _ _ _ (fl_exit (mi_key i)) Hr3 Hl3) as (ok & s4 & Hrun4 & _ & Hk4 & Hheld & Hr4 & Hs4).
  assert (Hfm4 : fw_map (fw s4) es).
  { pose proof (fl_exit_map (mi_key i) (fw s3) (ram s3) es Hfm) as Hlaw. revert Hrun4 Hlaw. unfold call. rewrite Hl3.
    destruct (bs_exit (mi_key i) (fw s3, ram s3)) as [? [? ?]]. by intros [= _ <-]. }
  unfold mbind at 1, M_bind at 1. erewrite M_run by exact Hrun4. cbn [modify mbind M_bind mret M_ret outcome_bind].
  destruct ok; cbn [negb].
  - eexists (Exited _), _. split; [done|]. split; [done|]. exists pg, es. cbn [Map]. split; [by eapply reaches_same|].
    cbn [ram fw MapSizeBytes]. split; [lia|]. split; [|done].
    rewrite Hheld. eapply map_in_kept; [|exact Hk4].
    split; cbn [Map MapSizeBytes DescriptorSize DescriptorVersion EntryCount]; [by destruct Hdesc|lia| |apply Hdesc|done].
    split; [done|]. split; [lia|]. intros a Ha. apply (reaches_owned _ _ _ _ Hr3). left. apply owned_cons. left. cbn. lia.
  - destruct (Hagain (mkEfi (fw s4) (ram s4) (pools s4) (files s4) (console s4) true) ) as (s5 & ? & ? & ?); [by eapply reaches_same|done|].
    by exists Again, s5.
Qed.

Lemma exit_loop_ok n new s s' :
  reaches new s s' → live s' = true →
  ∃ o s2, exit_loop n s' = Ret (o, s2) ∧
    match o with
    | Some map => live s2 = false ∧ ∃ pg es, reaches ((Map map, pg) :: new) s s2 ∧ MapSizeBytes map ≤ pg * PAGE_SIZE_4K ∧
        map_in (ram s2) (held (fw s2)) map es ∧ fw_map (fw s2) es
    | None => live s2 = true ∧ reaches new s s2
    end.
Proof.
  revert s'. induction n as [|n IH]; intros s' Hr Hl; cbn [exit_loop]; [by exists None, s'|].
  destruct (attempt_ok new s s' Hr Hl) as (a & s2 & Hrun & Ha). erewrite M_run by exact Hrun. destruct a as [| |map].
  - by exists None, s2.
  - destruct Ha as [Hl2 Hr2]. by apply IH.
  - by exists (Some map), s2.
Qed.
End laws.

(** C16: leaving the boot services.  [ExitBootServicesWithRetry] ends after at
    most five attempts in one of two ways.  Either boot services are still
    there, and every page of every attempt has been given back; or they are
    gone, and the map it reports lies in fresh pages below the identity-mapped
    limit, its size is that of a whole number of descriptors of at least 40
    bytes and the count is that number, its descriptors read as the firmware's
    map at the exit, and no conventional entry contains a page the loader
    holds. *)
Theorem exit_boot_services_correct {F} {BS : BootServices F} {FL : FirmwareLaws F} (s : efi F) :
  fw_ok (fw s) (ram s) → live s = true →
  ∃ o s', ExitBootServicesWithRetry s = Ret (o, s') ∧ kept (held (fw s)) (ram s) (ram s') ∧
    match o with
    | None => live s' = true ∧ held (fw s') ≡ₚ held (fw s)
    | Some map => live s' = false ∧ ∃ pg es,
        held (fw s') ≡ₚ (Map map, pg) :: held (fw s) ∧ MapSizeBytes map ≤ pg * PAGE_SIZE_4K ∧
        map_in (ram s') (held (fw s')) map es ∧ fw_map (fw s') es
    end.
Proof.
  intros Hok Hl. destruct (exit_loop_ok MAX_EXIT_ATTEMPTS [] s s (reaches_refl s Hok) Hl) as (o & s' & Hr & Ho).
  exists o, s'. split; [exact Hr|]. destruct o as [map|].
  - destruct Ho as (Hl' & pg & es & Hre & Hpg & Hm). split; [apply Hre|]. split; [done|]. exists pg, es.
    split; [apply Hre|done].
  - destruct Ho as [Hl' Hre]. split; [apply Hre|]. split; [done|apply Hre].
Qed.
