(* ===== verification/Elf.v ===== *)
(** The kernel's ELF file: [boot/include/elf.h] and the parsing half of
    [boot/kernel_loader.c].

    The file is the list of bytes the loader read; a field outside it is
    memory the loader does not own, so reading it is undefined.  [layout] is
    the validation and the scan of the program headers, [copy_segments] the
    copy into the kernel's place in memory.  The reference is the image the
    program headers describe ([image_byte]: the last segment that has a byte
    there, zero where none has). *)
From stdpp Require Import base numbers option gmap list_numbers list.
From S2P Require Import Prelude Memory BootDefs.

(** [n] bytes at an offset of the file. *)
Definition byte_at (file : list Z) (a : Z) : option Z := if decide (0 ≤ a) then file !! Z.to_nat a else None.
Definition field (file : list Z) (off : Z) (n : nat) : outcome Z := defined (load_le n (byte_at file) off).

(** [Elf64_Ehdr], 64 bytes. *)
Definition sizeof_Ehdr : Z := 64.
Definition e_ident file i := field file i 1.
Definition e_type file := field file 16 2.
Definition e_machine file := field file 18 2.
Definition e_entry file := field file 24 8.
Definition e_phoff file := field file 32 8.
Definition e_phentsize file := field file 54 2.
Definition e_phnum file := field file 56 2.
(** [Elf64_Phdr] at offset [ph]. *)
Definition p_type file ph := field file ph 4.
Definition p_offset file ph := field file (ph + 8) 8.
Definition p_vaddr file ph := field file (ph + 16) 8.
Definition p_filesz file ph := field file (ph + 32) 8.
Definition p_memsz file ph := field file (ph + 40) 8.

Definition ELFCLASS64 : Z := 2.
Definition ELFDATA2LSB : Z := 1.
Definition ET_EXEC : Z := 2.
Definition EM_X86_64 : Z := 62.
Definition PT_LOAD : Z := 1.

Definition ValidateElfHeader (file : list Z) : outcome bool :=
  m0 ← e_ident file 0; m1 ← e_ident file 1; m2 ← e_ident file 2; m3 ← e_ident file 3;
  if negb (m0 =? 0x7F) || negb (m1 =? 0x45) || negb (m2 =? 0x4C) || negb (m3 =? 0x46) then Ret false else
  cls ← e_ident file 4; if negb (cls =? ELFCLASS64) then Ret false else
  dat ← e_ident file 5; if negb (dat =? ELFDATA2LSB) then Ret false else
  mach ← e_machine file; if negb (mach =? EM_X86_64) then Ret false else
  typ ← e_type file; if negb (typ =? ET_EXEC) then Ret false else
  phnum ← e_phnum file; phentsize ← e_phentsize file;
  if (phnum =? 0) || (phentsize =? 0) then Ret false else Ret true.

(** The three variables of the scan. *)
Record span : Type := mkSpan { minVAddr : Z; maxVAddrEnd : Z; foundAnyLoadSegment : bool }.

(** One turn of the scan; [None] when a segment is below the kernel's base. *)
Definition scan_step (file : list Z) (phoff phentsize i : Z) (st : option span) : outcome (option span * bool) :=
  match st with
  | None => Ret (None, true)
  | Some sp =>
    let phdr := phoff + i * phentsize in
    typ ← p_type file phdr;
    if negb (typ =? PT_LOAD) then Ret (Some sp, false) else
    vaddr ← p_vaddr file phdr;
    if vaddr <? KERNEL_VIRTUAL_BASE then Ret (None, true) else
    memsz ← p_memsz file phdr;
    let lo := if vaddr <? minVAddr sp then vaddr else minVAddr sp in
    let segmentEnd := wrap64 (vaddr + memsz) in
    let hi := if maxVAddrEnd sp <? segmentEnd then segmentEnd else maxVAddrEnd sp in
    Ret (Some (mkSpan lo hi true), false)
  end.

(** Step 3 of [LoadKernelElf]: the lowest address and the size of the image,
    [None] where the file is refused. *)
Definition layout (file : list Z) : outcome (option (Z * Z)) :=
  phnum ← e_phnum file; phoff ← e_phoff file; phentsize ← e_phentsize file;
  st ← for_range (Z.to_nat phnum) 0 (scan_step file phoff phentsize) (Some (mkSpan 0xFFFFFFFFFFFFFFFF 0 false));
  match st with
  | None => Ret None
  | Some sp =>
    if negb (foundAnyLoadSegment sp) then Ret None else
    let kernelSpan := wrap64 (maxVAddrEnd sp - minVAddr sp) in
    let alignedSize := RoundUpTo kernelSpan PAGE_SIZE_2M in
    if (alignedSize =? 0) || (KERNEL_MAX_SIZE_BYTES <? alignedSize) then Ret None else
    entry ← e_entry file;
    if (entry <? minVAddr sp) || (maxVAddrEnd sp <=? entry) then Ret None else
    Ret (Some (minVAddr sp, alignedSize))
  end.

(** A byte store into the block [lo, hi) that was allocated. *)
Definition store_byte (lo hi : Z) (m : mem) (a v : Z) : outcome mem :=
  if (lo <=? a) && (a <? hi) then match m !! a with Some _ => Ret (<[a := v]> m) | None => Undef end else Undef.

(** [for (i = 0; i < size; i++) destBase[i] = 0;] *)
Definition zero_image (lo hi destBase size : Z) (m : mem) : outcome mem :=
  for_range (Z.to_nat size) 0 (λ i m, m ← store_byte lo hi m (destBase + i) 0; Ret (m, false)) m.

(** The copy of one segment's file bytes, and of all segments. *)
Definition copy_bytes (lo hi : Z) (file : list Z) (dest src filesz : Z) (m : mem) : outcome mem :=
  for_range (Z.to_nat filesz) 0
    (λ b m, v ← field file (src + b) 1; m ← store_byte lo hi m (dest + b) v; Ret (m, false)) m.
Definition copy_step (lo hi : Z) (file : list Z) (destBase min phoff phentsize i : Z) (m : mem) : outcome (mem * bool) :=
  let phdr := phoff + i * phentsize in
  typ ← p_type file phdr;
  if negb (typ =? PT_LOAD) then Ret (m, false) else
  vaddr ← p_vaddr file phdr; offset ← p_offset file phdr; filesz ← p_filesz file phdr;
  let destOffset := wrap64 (vaddr - min) in
  m ← copy_bytes lo hi file (destBase + destOffset) offset filesz m;
  Ret (m, false).
Definition copy_segments (lo hi : Z) (file : list Z) (destBase min : Z) (m : mem) : outcome mem :=
  phnum ← e_phnum file; phoff ← e_phoff file; phentsize ← e_phentsize file;
  for_range (Z.to_nat phnum) 0 (copy_step lo hi file destBase min phoff phentsize) m.

(** * What the file says *)
Record segment : Type := mkSegment { sg_vaddr : Z; sg_offset : Z; sg_filesz : Z; sg_memsz : Z }.
(** A program header: its type and the segment it describes. *)
Definition header_in (file : list Z) (ph typ : Z) (sg : segment) : Prop :=
  p_type file ph = Ret typ ∧ p_vaddr file ph = Ret (sg_vaddr sg) ∧ p_offset file ph = Ret (sg_offset sg) ∧
  p_filesz file ph = Ret (sg_filesz sg) ∧ p_memsz file ph = Ret (sg_memsz sg).
Definition loads (hs : list (Z * segment)) : list segment := snd <$> filter (λ h, h.1 = PT_LOAD) hs.

(** A well-formed file: its program headers [hs] are in it, and so are the
    bytes of the segments to load, which are no longer than their place in
    memory and end below the top of the address space. *)
Definition segment_ok (file : list Z) (sg : segment) : Prop :=
  0 ≤ sg_offset sg ∧ sg_offset sg + sg_filesz sg ≤ Z.of_nat (length file) ∧
  0 ≤ sg_filesz sg ≤ sg_memsz sg ∧ 0 ≤ sg_vaddr sg ∧ sg_vaddr sg + sg_memsz sg < 2 ^ 64.
Record elf_ok (file : list Z) (hs : list (Z * segment)) : Prop := {
  eo_bytes : Forall (λ b, 0 ≤ b < 256) file;
  eo_num : e_phnum file = Ret (Z.of_nat (length hs));
  eo_table : ∃ phoff esz, e_phoff file = Ret phoff ∧ e_phentsize file = Ret esz ∧
    ∀ i t sg, hs !! i = Some (t, sg) → header_in file (phoff + Z.of_nat i * esz) t sg;
  eo_entry : ∃ v, e_entry file = Ret v;
  eo_segments : Forall (segment_ok file) (loads hs);
}.

(** The span of the segments. *)
Definition lowest (sgs : list segment) : Z := foldl (λ lo sg, Z.min lo (sg_vaddr sg)) 0xFFFFFFFFFFFFFFFF sgs.
Definition highest (sgs : list segment) : Z := foldl (λ hi sg, Z.max hi (sg_vaddr sg + sg_memsz sg)) 0 sgs.

(** The byte of the image at offset [o]. *)
Definition covers_offset (lo : Z) (sg : segment) (o : Z) : Prop :=
  sg_vaddr sg - lo ≤ o < sg_vaddr sg - lo + sg_filesz sg.
#[global] Instance covers_offset_dec lo sg o : Decision (covers_offset lo sg o).
Proof. unfold covers_offset. apply _. Defined.
Definition image_byte (file : list Z) (lo : Z) (sgs : list segment) (o : Z) : Z :=
  foldl (λ b sg, if decide (covers_offset lo sg o)
                 then default 0 (byte_at file (sg_offset sg + (o - (sg_vaddr sg - lo)))) else b) 0 sgs.

(** ** Lemmas *)
Lemma loads_snoc hs t sg : loads (hs ++ [(t, sg)]) = loads hs ++ if decide (t = PT_LOAD) then [sg] else [].
Proof. unfold loads. rewrite filter_app, fmap_app. f_equal. cbn. by case_decide. Qed.

Lemma loads_take hs i t sg : hs !! i = Some (t, sg) →
  loads (take (S i) hs) = loads (take i hs) ++ if decide (t = PT_LOAD) then [sg] else [].
Proof. intros Hi. by rewrite (take_S_r _ _ _ Hi), loads_snoc. Qed.

Lemma lowest_snoc sgs sg : lowest (sgs ++ [sg]) = Z.min (lowest sgs) (sg_vaddr sg).
Proof. unfold lowest. by rewrite foldl_app. Qed.
Lemma highest_snoc sgs sg : highest (sgs ++ [sg]) = Z.max (highest sgs) (sg_vaddr sg + sg_memsz sg).
Proof. unfold highest. by rewrite foldl_app. Qed.
Lemma image_byte_snoc file lo sgs sg o : image_byte file lo (sgs ++ [sg]) o =
  if decide (covers_offset lo sg o) then default 0 (byte_at file (sg_offset sg + (o - (sg_vaddr sg - lo)))) else image_byte file lo sgs o.
Proof. unfold image_byte. by rewrite foldl_app. Qed.

(** Every segment is in the span. *)
Lemma span_covers sgs sg : sg ∈ sgs → lowest sgs ≤ sg_vaddr sg ∧ sg_vaddr sg + sg_memsz sg ≤ highest sgs.
Proof.
  induction sgs as [|sg' sgs IH] using rev_ind; [by intros ?%elem_of_nil|].
  rewrite lowest_snoc, highest_snoc. intros [Hin|Hin]%elem_of_app; [specialize (IH Hin); lia|].
  apply list_elem_of_singleton in Hin as ->. lia.
Qed.
Lemma span_nonempty sgs : sgs ≠ [] → Forall (λ sg, 0 ≤ sg_vaddr sg < 2 ^ 64) sgs →
  ∃ sg, sg ∈ sgs ∧ sg_vaddr sg = lowest sgs.
Proof.
  induction sgs as [|sg sgs IH] using rev_ind; [done|]. intros _ [Hall Hsg]%Forall_app. rewrite Forall_singleton in Hsg.
  rewrite lowest_snoc. destruct (decide (sgs = [])) as [->|Hne].
  - exists sg. split; [set_solver|]. change (lowest []) with 0xFFFFFFFFFFFFFFFF. lia.
  - destruct (IH Hne Hall) as (sg' & Hin & Heq). destruct (Z.le_ge_cases (lowest sgs) (sg_vaddr sg)).
    + exists sg'. split; [set_solver|lia].
    + exists sg. split; [set_solver|lia].
Qed.

(** ** The scan *)
Section scan.
Context (file : list Z) (hs : list (Z * segment)).
Context (Helf : elf_ok file hs).
Abbreviation sgs := (loads hs).

(** Where the scan is after [i] headers. *)
Definition scanned (i : nat) : span :=
  mkSpan (lowest (loads (take i hs))) (highest (loads (take i hs))) (bool_decide (loads (take i hs) ≠ [])).

Lemma loads_in i t sg : hs !! i = Some (t, sg) → t = PT_LOAD → sg ∈ sgs.
Proof using Type.
  intros Hi ->. unfold loads. rewrite list_elem_of_fmap. exists (PT_LOAD, sg). split; [done|].
  apply list_elem_of_filter. split; [done|]. by eapply list_elem_of_lookup_2.
Qed.

Lemma scan_step_ok phoff esz i t sg :
  hs !! i = Some (t, sg) → header_in file (phoff + Z.of_nat i * esz) t sg →
  scan_step file phoff esz (Z.of_nat i) (Some (scanned i)) =
    Ret (if decide (t = PT_LOAD ∧ sg_vaddr sg < KERNEL_VIRTUAL_BASE) then (None, true) else (Some (scanned (S i)), false)).
Proof using Helf.
  intros Hi (Ht & Hv & _ & _ & Hm). unfold scan_step. rewrite Ht, Hv, Hm. cbn [mbind outcome_bind].
  unfold scanned. rewrite (loads_take _ _ _ _ Hi). destruct (Z.eqb_spec t PT_LOAD) as [->|Hne]; cbn [negb].
  2: { rewrite (decide_False (P := t = PT_LOAD ∧ _)) by naive_solver. by rewrite decide_False, app_nil_r. }
  destruct (Z.ltb_spec (sg_vaddr sg) KERNEL_VIRTUAL_BASE) as [Hlt|Hge].
  { by rewrite (decide_True (P := PT_LOAD = PT_LOAD ∧ _)). }
  rewrite (decide_False (P := PT_LOAD = PT_LOAD ∧ _)) by lia. rewrite decide_True by done.
  pose proof (Forall_elem _ _ _ (eo_segments _ _ Helf) (loads_in _ _ _ Hi eq_refl)) as (_ & _ & Hf & Hva & Hend).
  rewrite lowest_snoc, highest_snoc. cbn [minVAddr maxVAddrEnd foundAnyLoadSegment]. unfold wrap64.
  rewrite (Z.mod_small (sg_vaddr sg + sg_memsz sg)) by lia. repeat f_equal.
  - destruct (Z.ltb_spec (sg_vaddr sg) (lowest (loads (take i hs)))); lia.
  - destruct (Z.ltb_spec (highest (loads (take i hs))) (sg_vaddr sg + sg_memsz sg)); lia.
  - symmetry. apply bool_decide_eq_true. by destruct (loads (take i hs)).
Qed.

(** The scan ends with the span of all segments, or refuses. *)
Lemma scan_ok phoff esz :
  (∀ i t sg, hs !! i = Some (t, sg) → header_in file (phoff + Z.of_nat i * esz) t sg) →
  ∃ st, for_range (length hs) 0 (scan_step file phoff esz) (Some (mkSpan 0xFFFFFFFFFFFFFFFF 0 false)) = Ret st ∧
    if decide (Forall (λ sg, KERNEL_VIRTUAL_BASE ≤ sg_vaddr sg) sgs)
    then st = Some (mkSpan (lowest sgs) (highest sgs) (bool_decide (sgs ≠ []))) else st = None.
Proof using Helf.
  intros Hh.
  eapply (for_range_total (λ k st, st = Some (scanned (Z.to_nat k)) ∧
    Forall (λ sg, KERNEL_VIRTUAL_BASE ≤ sg_vaddr sg) (loads (take (Z.to_nat k) hs)))).
  - split; [done|constructor].
  - intros j st Hj [-> Hall]. assert (Hlt : (Z.to_nat j < length hs)%nat) by lia.
    apply lookup_lt_is_Some in Hlt as [[t sg] Hi].
    pose proof (scan_step_ok phoff esz _ t sg Hi (Hh _ _ _ Hi)) as Hstep. rewrite Z2Nat.id in Hstep by lia.
    rewrite Hstep. destruct (decide (t = PT_LOAD ∧ sg_vaddr sg < KERNEL_VIRTUAL_BASE)) as [[-> Hlow]|Hok].
    + exists None, true. split; [done|]. cbn. rewrite decide_False; [done|]. rewrite Forall_forall. intros Ha.
      specialize (Ha sg (loads_in _ _ _ Hi eq_refl)). lia.
    + exists (Some (scanned (S (Z.to_nat j)))), false. split; [done|]. cbn. replace (Z.to_nat (j + 1)) with (S (Z.to_nat j)) by lia. split; [done|].
      rewrite (loads_take _ _ _ _ Hi). apply Forall_app. split; [done|]. case_decide; [|constructor].
      apply Forall_singleton. lia.
  - intros st [-> Hall]. rewrite Z.add_0_l, Nat2Z.id in *. unfold scanned. rewrite firstn_all in *. by rewrite decide_True.
Qed.

(** What a file that is not refused gives. *)
Record laid_out (lo size : Z) : Prop := {
  lo_low : lo = lowest sgs ∧ KERNEL_VIRTUAL_BASE ≤ lo;
  lo_size : size = RoundUpTo (highest sgs - lo) PAGE_SIZE_2M ∧ 0 < size ≤ KERNEL_MAX_SIZE_BYTES;
  lo_span : highest sgs - lo ≤ size ∧ highest sgs < 2 ^ 64 ∧ size mod PAGE_SIZE_2M = 0;
  lo_entry : ∃ v, e_entry file = Ret v ∧ lo ≤ v < highest sgs;
}.

Lemma highest_range : 0 ≤ highest sgs < 2 ^ 64.
Proof using Helf.
  pose proof (eo_segments _ _ Helf) as Hall. induction (loads hs) as [|sg l IH] using rev_ind; [done|].
  apply Forall_app in Hall as [Hall (_ & _ & ? & ? & ?)%Forall_singleton]. rewrite highest_snoc. specialize (IH Hall). lia.
Qed.

Lemma layout_ok : ∃ o, layout file = Ret o ∧ match o with Some (lo, size) => laid_out lo size | None => True end.
Proof using Helf.
  destruct Helf as [_ Hnum (phoff & esz & Hoff & Hesz & Hh) (v & Hv) Hsg]. unfold layout.
  rewrite Hnum, Hoff, Hesz. cbn [mbind outcome_bind]. rewrite Nat2Z.id.
  destruct (scan_ok phoff esz Hh) as (st & Hst & Hres). rewrite Hst. cbn [mbind outcome_bind].
  case_decide as Hall; subst st; [|by exists None]. cbn [foundAnyLoadSegment minVAddr maxVAddrEnd].
  case_bool_decide as Hne; cbn [negb]; [|by exists None].
  assert (Hva : Forall (λ sg, 0 ≤ sg_vaddr sg < 2 ^ 64) sgs).
  { eapply Forall_impl; [exact Hsg|]. intros sg (_ & _ & ? & ? & ?). lia. }
  destruct (span_nonempty _ Hne Hva) as (sg & Hin & Heq). pose proof (span_covers _ _ Hin) as [_ Hcov].
  pose proof (Forall_elem _ _ _ Hsg Hin) as (_ & _ & Hf & Hv0 & Hend). pose proof highest_range as Hhi.
  pose proof (Forall_elem _ _ _ Hall Hin) as Hbase. cbn in Hbase.
  unfold wrap64. rewrite Z.mod_small by lia.
  destruct (RoundUpTo_spec (highest sgs - lowest sgs) 21) as [Hr1 Hr2]; [lia| | |].
  { lia. } { unfold KERNEL_VIRTUAL_BASE in *. lia. }
  change (2 ^ 21) with PAGE_SIZE_2M in *. set (size := RoundUpTo _ _) in *.
  destruct (Z.eqb_spec size 0); cbn [orb]; [by exists None|].
  destruct (Z.ltb_spec KERNEL_MAX_SIZE_BYTES size); [by exists None|]. rewrite Hv. cbn [mbind outcome_bind].
  destruct (Z.ltb_spec v (lowest sgs)); cbn [orb]; [by exists None|].
  destruct (Z.leb_spec (highest sgs) v); [by exists None|].
  eexists. split; [done|]. split; [split; [done|lia]|split; [done|lia]|split_and!; [lia|lia|done]|by exists v].
Qed.
End scan.

(** ** The copy *)
(** [m'] is [m] with the bytes [f] at [base .. base + size). *)
Record image_at (m m' : mem) (base size : Z) (f : Z → Z) : Prop := {
  im_bytes : ∀ o, 0 ≤ o < size → m' !! (base + o) = Some (f o);
  im_outside : ∀ a, ¬ (base ≤ a < base + size) → m' !! a = m !! a;
  im_dom : ∀ a, is_Some (m' !! a) ↔ is_Some (m !! a);
  im_ok : bytes_ok m → bytes_ok m';
}.

Lemma store_byte_ok lo hi (m : mem) a v : lo ≤ a < hi → is_Some (m !! a) → store_byte lo hi m a v = Ret (<[a := v]> m).
Proof. intros Ha [b Hb]. unfold store_byte. rewrite Hb. destruct (Z.leb_spec lo a), (Z.ltb_spec a hi); (done || lia). Qed.

Lemma insert_dom (m : mem) a v i : is_Some (m !! a) → is_Some (<[a := v]> m !! i) ↔ is_Some (m !! i).
Proof. intros Ha. rewrite lookup_insert_is_Some'. split; [intros [<-|?]; done|by right]. Qed.

(** One more byte of an image. *)
Lemma image_store m m' base size f o v :
  image_at m m' base size f → 0 ≤ o < size → 0 ≤ v < 256 →
  image_at m (<[base + o := v]> m') base size (λ i, if decide (i = o) then v else f i).
Proof.
  intros [Hb Ho Hd Hk] Hoff Hv. assert (Hs : is_Some (m' !! (base + o))) by (rewrite Hb by done; eauto). split.
  - intros i Hi. destruct (decide (i = o)) as [->|Hne]; [by rewrite lookup_insert_eq|].
    rewrite lookup_insert_ne by lia. by apply Hb.
  - intros a Ha. rewrite lookup_insert_ne by lia. by apply Ho.
  - intros a. rewrite insert_dom by done. apply Hd.
  - intros Hm. apply map_Forall_insert_2; [done|by apply Hk].
Qed.
Lemma image_ext m m' base size f g : (∀ o, 0 ≤ o < size → f o = g o) → image_at m m' base size f → image_at m m' base size g.
Proof. intros He [Hb ? ? ?]. split; [|done..]. intros o Ho. rewrite <- He by done. by apply Hb. Qed.

Lemma zero_image_ok lo hi base size (m : mem) : 0 ≤ size → lo ≤ base → base + size ≤ hi → mapped m base size →
  ∃ m', zero_image lo hi base size m = Ret m' ∧ image_at m m' base size (λ _, 0).
Proof.
  intros Hs Hlo Hhi Hm. unfold zero_image.
  eapply (for_range_total (λ k m', (∀ o, 0 ≤ o < k → m' !! (base + o) = Some 0) ∧
    (∀ a, ¬ (base ≤ a < base + size) → m' !! a = m !! a) ∧ (∀ a, is_Some (m' !! a) ↔ is_Some (m !! a)) ∧ (bytes_ok m → bytes_ok m'))).
  - split_and!; [lia|done..].
  - intros j m1 Hj (H1 & H2 & H3 & H4). assert (Hin : is_Some (m1 !! (base + j))) by (apply H3, Hm; lia).
    rewrite store_byte_ok by (done || lia). eexists _, false. split; [done|]. cbn. split_and!.
    + intros o Ho. destruct (decide (o = j)) as [->|]; [by rewrite lookup_insert_eq|].
      rewrite lookup_insert_ne by lia. apply H1. lia.
    + intros a Ha. rewrite lookup_insert_ne by lia. by apply H2.
    + intros a. rewrite insert_dom by done. apply H3.
    + intros Hb. apply map_Forall_insert_2; [lia|by apply H4].
  - intros m' (H1 & H2 & H3 & H4). rewrite Z.add_0_l, Z2Nat.id in H1 by done. by split.
Qed.

Lemma byte_at_Some file a : Forall (λ b, 0 ≤ b < 256) file → 0 ≤ a < Z.of_nat (length file) →
  ∃ v, byte_at file a = Some v ∧ field file a 1 = Ret v ∧ 0 ≤ v < 256.
Proof.
  intros Hall Ha. assert (Hlt : (Z.to_nat a < length file)%nat) by lia. apply lookup_lt_is_Some in Hlt as [v Hv].
  assert (Hb : byte_at file a = Some v) by (unfold byte_at; by rewrite decide_True by lia).
  exists v. split; [done|]. split; [|by eapply Forall_lookup_1 in Hall].
  unfold field. cbn [load_le]. rewrite Hb. cbn. by rewrite Z.add_0_r.
Qed.

Lemma copy_bytes_ok lo hi base size file sg off m m' f :
  Forall (λ b, 0 ≤ b < 256) file → segment_ok file sg → 0 ≤ off → off + sg_filesz sg ≤ size →
  lo ≤ base → base + size ≤ hi → image_at m m' base size f →
  ∃ m2, copy_bytes lo hi file (base + off) (sg_offset sg) (sg_filesz sg) m' = Ret m2 ∧
    image_at m m2 base size (λ o, if decide (off ≤ o < off + sg_filesz sg)
                                  then default 0 (byte_at file (sg_offset sg + (o - off))) else f o).
Proof.
  intros Hby (Ho & Hlen & Hf & _) Hoff Hsz Hlo Hhi Him. unfold copy_bytes.
  eapply (for_range_total (λ k m2, image_at m m2 base size (λ o, if decide (off ≤ o < off + k)
    then default 0 (byte_at file (sg_offset sg + (o - off))) else f o))).
  - eapply image_ext; [|exact Him]. intros o _. by rewrite decide_False by lia.
  - intros j m1 Hj Hm1. destruct (byte_at_Some file (sg_offset sg + j) Hby) as (v & Hv & Hfld & Hvr); [lia|].
    rewrite Hfld. cbn [mbind outcome_bind]. rewrite store_byte_ok; [|lia|].
    2: { replace (base + off + j) with (base + (off + j)) by lia. rewrite (im_bytes _ _ _ _ _ Hm1) by lia. eauto. }
    eexists _, false. split; [done|]. cbn [negb]. replace (base + off + j) with (base + (off + j)) by lia.
    eapply image_ext; [|apply image_store; [exact Hm1|lia|exact Hvr]]. intros o Hoo. cbn beta.
    destruct (decide (o = off + j)) as [->|Hne].
    + rewrite decide_True by lia. replace (off + j - off) with j by lia. by rewrite Hv.
    + destruct (decide (off ≤ o < off + j)); [by rewrite decide_True by lia|by rewrite decide_False by lia].
  - intros m2 Hm2. rewrite Z.add_0_l, Z2Nat.id in Hm2 by lia. exact Hm2.
Qed.

(** All segments: the image the file describes. *)
Lemma copy_segments_ok file hs size lo hi base m m' :
  elf_ok file hs → laid_out file hs (lowest (loads hs)) size → lo ≤ base → base + size ≤ hi →
  image_at m m' base size (λ _, 0) →
  ∃ m2, copy_segments lo hi file base (lowest (loads hs)) m' = Ret m2 ∧
    image_at m m2 base size (image_byte file (lowest (loads hs)) (loads hs)).
Proof.
  intros Helf [[_ Hlow] _ [Hspan _] _] Hlo Hhi Him. set (low := lowest (loads hs)) in *.
  pose proof Helf as [Hby Hnum (phoff & esz & Hoff & Hesz & Hh) _ Hsg]. unfold copy_segments.
  rewrite Hnum, Hoff, Hesz. cbn [mbind outcome_bind]. rewrite Nat2Z.id.
  eapply (for_range_total (λ k m2, image_at m m2 base size (image_byte file low (loads (take (Z.to_nat k) hs))))).
  - exact Him.
  - intros j m1 Hj Hm1. assert (Hlt : (Z.to_nat j < length hs)%nat) by lia.
    apply lookup_lt_is_Some in Hlt as [[t sg] Hi]. destruct (Hh _ _ _ Hi) as (Ht & Hv & Hp & Hf & _).
    rewrite Z2Nat.id in Ht, Hv, Hp, Hf by lia. unfold copy_step. rewrite Ht, Hv, Hp, Hf. cbn [mbind outcome_bind].
    replace (Z.to_nat (j + 1)) with (S (Z.to_nat j)) by lia.
    destruct (Z.eqb_spec t PT_LOAD) as [->|Hne]; cbn [negb].
    2: { exists m1, false. split; [done|]. cbn. rewrite (loads_take _ _ _ _ Hi), decide_False, app_nil_r by done. exact Hm1. }
    pose proof (loads_in hs _ _ _ Hi eq_refl) as Hin. pose proof (span_covers _ _ Hin) as [Hc1 Hc2]. fold low in Hc1.
    pose proof (Forall_elem _ _ _ Hsg Hin) as Hok. pose proof Hok as (_ & _ & ? & ? & ?).
    unfold wrap64. rewrite Z.mod_small by (unfold KERNEL_VIRTUAL_BASE in *; lia).
    destruct (copy_bytes_ok lo hi base size file sg (sg_vaddr sg - low) m m1
      (image_byte file low (loads (take (Z.to_nat j) hs))) Hby Hok) as (m2 & Hr & Hm2); [lia..|exact Hm1|].
    rewrite Hr. exists m2, false. split; [done|]. cbn [negb].
    rewrite (loads_take _ _ _ _ Hi). rewrite decide_True by done. eapply image_ext; [|exact Hm2]. intros o Ho.
    rewrite image_byte_snoc. unfold covers_offset. done.
  - intros m2 Hm2. rewrite Z.add_0_l, Nat2Z.id, firstn_all in Hm2. exact Hm2.
Qed.

(** ** What is not checked *)
(** A file of 124 bytes whose only segment claims 4096 bytes in the file. *)
Definition short_elf : list Z :=
  [0x7F; 0x45; 0x4C; 0x46; 2; 1; 1; 0; 0; 0; 0; 0; 0; 0; 0; 0] ++
  le_bytes 2 ET_EXEC ++ le_bytes 2 EM_X86_64 ++ le_bytes 4 1 ++ le_bytes 8 KERNEL_VIRTUAL_BASE ++ le_bytes 8 64 ++ le_bytes 8 0 ++
  le_bytes 4 0 ++ le_bytes 2 64 ++ le_bytes 2 56 ++ le_bytes 2 1 ++ le_bytes 2 0 ++ le_bytes 2 0 ++ le_bytes 2 0 ++
  le_bytes 4 PT_LOAD ++ le_bytes 4 5 ++ le_bytes 8 120 ++ le_bytes 8 KERNEL_VIRTUAL_BASE ++ le_bytes 8 0 ++
  le_bytes 8 0x1000 ++ le_bytes 8 0x1000 ++ le_bytes 8 0x200000 ++ [0xF4; 0xEB; 0xFD; 0x90].

Lemma short_elf_fields :
  e_phnum short_elf = Ret 1 ∧ e_phoff short_elf = Ret 64 ∧ e_phentsize short_elf = Ret 56 ∧
  p_type short_elf 64 = Ret PT_LOAD ∧ p_vaddr short_elf 64 = Ret KERNEL_VIRTUAL_BASE ∧
  p_offset short_elf 64 = Ret 120 ∧ p_filesz short_elf 64 = Ret 0x1000.
Proof. vm_compute. by split_and!. Qed.
Lemma short_elf_accepted :
  ValidateElfHeader short_elf = Ret true ∧ layout short_elf = Ret (Some (KERNEL_VIRTUAL_BASE, PAGE_SIZE_2M)).
Proof. vm_compute. by split. Qed.
Lemma short_elf_length : Z.of_nat (length short_elf) = 124.
Proof. vm_compute. reflexivity. Qed.
Lemma short_elf_bytes : Forall (λ b, 0 ≤ b < 256) short_elf.
Proof. vm_compute. repeat (constructor; [split; [discriminate|reflexivity]|]). constructor. Qed.

(** A loop whose body is undefined somewhere it gets to is undefined. *)
Lemma for_range_undef {S} (I : S → Prop) n i j body s :
  i ≤ j < i + Z.of_nat n → I s → (∀ k t, i ≤ k < j → I t → ∃ t', body k t = Ret (t', false) ∧ I t') →
  (∀ t, I t → body j t = Undef) → for_range n i body s = Undef.
Proof.
  revert i s. induction n as [|n IH]; intros i s Hj Hs Hstep Hbad; [lia|]. cbn [for_range].
  destruct (decide (i = j)) as [->|]; [by rewrite Hbad|]. destruct (Hstep i s) as (t & -> & Ht); [lia|done|].
  cbn [mbind outcome_bind]. apply IH; [lia|done| |done]. intros k u Hk. apply Hstep. lia.
Qed.

(** A file of one segment that claims more bytes than the file has. *)
Lemma copy_short_undef lo hi base (m : mem) file esz vaddr off filesz :
  e_phnum file = Ret 1 → e_phoff file = Ret 64 → e_phentsize file = Ret esz → p_type file 64 = Ret PT_LOAD →
  p_vaddr file 64 = Ret vaddr → p_offset file 64 = Ret off → p_filesz file 64 = Ret filesz →
  Forall (λ b, 0 ≤ b < 256) file → 0 ≤ off ≤ Z.of_nat (length file) → Z.of_nat (length file) < off + filesz →
  lo ≤ base → base + filesz ≤ hi → mapped m base filesz →
  copy_segments lo hi file base vaddr m = Undef.
Proof.
  intros Hn Hoff Hesz Ht Hv Hp Hf Hby Hlen Hbig Hlo Hhi Hm.
  unfold copy_segments. rewrite Hn, Hoff, Hesz. cbn [mbind outcome_bind].
  change (Z.to_nat 1) with 1%nat. cbn [for_range]. unfold copy_step. rewrite Z.mul_0_l, Z.add_0_r, Ht, Hv, Hp, Hf. cbn [mbind outcome_bind].
  rewrite Z.eqb_refl, Z.sub_diag. cbn [negb]. change (wrap64 0) with 0. rewrite Z.add_0_r.
  assert (Hc : copy_bytes lo hi file base off filesz m = Undef); [|by rewrite Hc]. unfold copy_bytes.
  apply (for_range_undef (λ m', mapped m' base filesz) (Z.to_nat filesz) 0 (Z.of_nat (length file) - off)); [lia|done| |].
  - intros k t Hk Hmt. destruct (byte_at_Some file (off + k) Hby) as (v & _ & Hf0 & _); [lia|].
    rewrite Hf0. cbn [mbind outcome_bind]. assert (Hin : is_Some (t !! (base + k))) by (apply Hmt; lia).
    rewrite store_byte_ok by (done || lia). eexists. split; [reflexivity|].
    intros i Hi. apply insert_dom; [done|by apply Hmt].
  - intros t _. replace (off + (Z.of_nat (length file) - off)) with (Z.of_nat (length file)) by lia.
    unfold field. cbn [load_le]. unfold byte_at at 1. rewrite decide_True by lia. rewrite Nat2Z.id, lookup_ge_None_2 by lia. done.
Qed.


(** Four MiB of zeros. *)
Definition blank_mem : mem := gset_to_gmap 0 (list_to_set (seqZ 0x400000 0x400000)).
