(* ===== verification/KernelLoader.v ===== *)
(** Loading the kernel: [LoadKernelElf] of [boot/kernel_loader.c].

    The whole function, with every early return and what it releases there.
    The theorem: on a volume whose kernel file is well formed, it returns with
    every buffer freed and every file closed, and on success the kernel's
    image is in memory the loader holds, below the identity-mapped limit, at a
    2 MiB boundary, byte for byte what the file describes. *)
From Stdlib Require Import String.
From stdpp Require Import base numbers option gmap list_numbers list.
From S2P Require Import Prelude PhysAddr Memory MemoryMap FrameAllocator BootDefs Firmware Elf.

Record LOADED_KERNEL : Type := mkLoadedKernel {
  KernelPhysicalBase : Z;
  KernelVirtualBase : Z;
  KernelSizeBytes : Z;
  EntryPointVirtual : Z;
}.

Section code.
Context {F : Type} {BS : BootServices F}.
Abbreviation loader := (M (efi F)).

(** Step 1, to the end of [file->Close]: the file's bytes in a pool buffer. *)
Definition read_file (Root : Z) (Path : string) : loader (option (Z * list Z)) :=
  o ← Open Root Path;
  match o with
  | None => mret None
  | Some file =>
    infoSize ← call (bs_info_size file);
    oi ← AllocatePool infoSize;
    match oi with
    | None => _ ← Close file; mret None
    | Some fileInfo =>
      osz ← call (bs_file_size file);
      match osz with
      | None => _ ← FreePool fileInfo; _ ← Close file; mret None
      | Some sz =>
        fileSize ← with_buffer fileInfo (Ret sz);
        _ ← FreePool fileInfo;
        ob ← AllocatePool fileSize;
        match ob with
        | None => _ ← Close file; mret None
        | Some fileBuffer =>
          or ← call (bs_read file fileSize);
          _ ← Close file;
          match or with
          | None => _ ← FreePool fileBuffer; mret None
          | Some content => mret (Some (fileBuffer, content))
          end
        end
      end
    end
  end.

(** [BS->FreePool(fileBuffer); return FALSE;] *)
Definition reject (fileBuffer : Z) : loader (option LOADED_KERNEL) := _ ← FreePool fileBuffer; mret None.

(** Steps 4 and 5: the kernel's place in memory, and its image there. *)
Definition place_kernel (fileBuffer : Z) (content : list Z) (min alignedSize : Z) : loader (option LOADED_KERNEL) :=
  let pagesNeeded4K := (alignedSize + PAGE_SIZE_2M) / PAGE_SIZE_4K in
  o ← AllocatePages (MaxAddress (IDENTITY_MAP_LIMIT - 1)) pagesNeeded4K;
  match o with
  | None => reject fileBuffer
  | Some physAllocation =>
    let physBase := RoundUpTo physAllocation PAGE_SIZE_2M in
    let hi := physAllocation + pagesNeeded4K * PAGE_SIZE_4K in
    _ ← on_ram (zero_image physAllocation hi physBase alignedSize);
    _ ← with_buffer fileBuffer (Ret tt);
    _ ← on_ram (copy_segments physAllocation hi content physBase min);
    entryPoint ← with_buffer fileBuffer (e_entry content);
    _ ← FreePool fileBuffer;
    mret (Some (mkLoadedKernel physBase min alignedSize entryPoint))
  end.

Definition LoadKernelElf (Root : Z) (Path : string) : loader (option LOADED_KERNEL) :=
  r ← read_file Root Path;
  match r with
  | None => mret None
  | Some (fileBuffer, content) =>
    if Z.of_nat (length content) <? sizeof_Ehdr then reject fileBuffer else
    valid ← with_buffer fileBuffer (ValidateElfHeader content);
    if negb valid then reject fileBuffer else
    l ← with_buffer fileBuffer (layout content);
    match l with
    | None => reject fileBuffer
    | Some (min, alignedSize) => place_kernel fileBuffer content min alignedSize
    end
  end.

End code.

(** * Correctness *)
(** A header of 64 bytes can be checked. *)
Lemma field_in file off n : Forall (λ b, 0 ≤ b < 256) file → 0 ≤ off → off + Z.of_nat n ≤ Z.of_nat (length file) →
  ∃ v, field file off n = Ret v.
Proof.
  intros Hall Ho Hlen. unfold field.
  destruct (load_le_Some n (byte_at file) off) as [v ->]; [|by exists v].
  intros i Hi. destruct (byte_at_Some file i Hall) as (v & -> & _); [lia|]. by eexists.
Qed.
Lemma validate_returns file : Forall (λ b, 0 ≤ b < 256) file → sizeof_Ehdr ≤ Z.of_nat (length file) →
  ∃ b, ValidateElfHeader file = Ret b.
Proof.
  intros Hall Hlen. unfold sizeof_Ehdr in Hlen.
  assert (Hf : ∀ off n, 0 ≤ off → off + Z.of_nat n ≤ 64 → ∃ v, field file off n = Ret v)
    by (intros; apply field_in; (done || lia)).
  unfold ValidateElfHeader, e_ident, e_machine, e_type, e_phnum, e_phentsize.
  repeat (match goal with |- context [field file ?o ?n] => destruct (Hf o n) as [? ->]; [lia..|] end; cbn [mbind outcome_bind]).
  repeat case_match; by eexists.
Qed.

Section laws.
Context {F : Type} {BS : BootServices F} {FL : FirmwareLaws F}.
Implicit Types (s : efi F).

Lemma read_file_ok Root Path new s ps fs s' :
  stage new s ps fs s' →
  ∃ o s2, read_file Root Path s' = Ret (o, s2) ∧
    match o with
    | None => stage new s ps fs s2
    | Some (buf, content) => stage new s (buf :: ps) fs s2 ∧ Forall (λ b, 0 ≤ b < 256) content ∧
        ∃ h n g, fst (bs_read h n g) = Some content
    end.
Proof.
  intros Hs. unfold read_file.
  destruct (stage_open Root Path _ _ _ _ _ Hs) as (o & s1 & Hr1 & Hs1). erewrite M_run by exact Hr1.
  destruct o as [file|]; [|by exists None, s1].
  destruct (stage_call _ _ _ _ _ _ _ (fl_info_size file) Hs1) as (isz & s2 & Hr2 & _ & Hs2 & _). erewrite M_run by exact Hr2.
  destruct (stage_allocate_pool isz _ _ _ _ _ Hs2) as (oi & s3 & Hr3 & Hs3). erewrite M_run by exact Hr3.
  destruct oi as [info|].
  2: { destruct (stage_close _ _ _ _ _ _ Hs3) as (s4 & Hr4 & Hs4). erewrite M_run by exact Hr4. by exists None, s4. }
  destruct (stage_call _ _ _ _ _ _ _ (fl_file_size file) Hs3) as (osz & s4 & Hr4 & _ & Hs4 & _). erewrite M_run by exact Hr4.
  destruct osz as [sz|].
  2: { destruct (stage_free_pool _ _ _ _ _ _ Hs4) as (s5 & Hr5 & Hs5). erewrite M_run by exact Hr5.
       destruct (stage_close _ _ _ _ _ _ Hs5) as (s6 & Hr6 & Hs6). erewrite M_run by exact Hr6. by exists None, s6. }
  erewrite M_run by (eapply stage_buffer; [exact Hs4|by left|done]).
  destruct (stage_free_pool _ _ _ _ _ _ Hs4) as (s5 & Hr5 & Hs5). erewrite M_run by exact Hr5.
  destruct (stage_allocate_pool sz _ _ _ _ _ Hs5) as (ob & s6 & Hr6 & Hs6). erewrite M_run by exact Hr6.
  destruct ob as [buf|].
  2: { destruct (stage_close _ _ _ _ _ _ Hs6) as (s7 & Hr7 & Hs7). erewrite M_run by exact Hr7. by exists None, s7. }
  destruct (stage_call _ _ _ _ _ _ _ (fl_read file sz) Hs6) as (or & s7 & Hr7 & Hor & Hs7 & _). erewrite M_run by exact Hr7.
  destruct (stage_close _ _ _ _ _ _ Hs7) as (s8 & Hr8 & Hs8). erewrite M_run by exact Hr8.
  destruct or as [content|].
  2: { destruct (stage_free_pool _ _ _ _ _ _ Hs8) as (s9 & Hr9 & Hs9). erewrite M_run by exact Hr9. by exists None, s9. }
  exists (Some (buf, content)), s8. split; [done|]. split; [done|]. split; [by apply Hor|].
  exists file, sz, (fw s6, ram s6). revert Hr7. unfold call. destruct (live s6); [|done].
  by destruct (bs_read file sz (fw s6, ram s6)) as [? [? ?]]; intros [= <- <-].
Qed.

(** The kernel [k] in memory, as the file [content] with the program headers
    [hs] describes it. *)
Record loaded (m : mem) (k : LOADED_KERNEL) (content : list Z) (hs : list (Z * segment)) : Prop := {
  ld_elf : elf_ok content hs;
  ld_base : KernelPhysicalBase k mod PAGE_SIZE_2M = 0 ∧ 0 < KernelPhysicalBase k ∧
    KernelPhysicalBase k + KernelSizeBytes k ≤ IDENTITY_MAP_LIMIT;
  ld_layout : laid_out content hs (KernelVirtualBase k) (KernelSizeBytes k);
  ld_entry : e_entry content = Ret (EntryPointVirtual k);
  ld_image : ∀ o, 0 ≤ o < KernelSizeBytes k →
    m !! (KernelPhysicalBase k + o) = Some (image_byte content (KernelVirtualBase k) (loads hs) o);
}.

Lemma reject_ok buf new s ps fs s' :
  stage new s (buf :: ps) fs s' → ∃ s2, reject buf s' = Ret (None, s2) ∧ stage new s ps fs s2.
Proof.
  intros Hs. destruct (stage_free_pool _ _ _ _ _ _ Hs) as (s2 & Hr & Hs2). exists s2. split; [|done].
  unfold reject. by erewrite M_run by exact Hr.
Qed.

(** Room for the image at the next 2 MiB boundary. *)
Lemma place_arith p size : 0 < p → p + (size + PAGE_SIZE_2M) ≤ IDENTITY_MAP_LIMIT → 0 < size → size mod PAGE_SIZE_2M = 0 →
  (size + PAGE_SIZE_2M) / PAGE_SIZE_4K * PAGE_SIZE_4K = size + PAGE_SIZE_2M ∧
  p ≤ RoundUpTo p PAGE_SIZE_2M ∧ RoundUpTo p PAGE_SIZE_2M + size ≤ p + (size + PAGE_SIZE_2M) ∧
  RoundUpTo p PAGE_SIZE_2M mod PAGE_SIZE_2M = 0.
Proof.
  intros Hp Hlim Hs Hm. unfold IDENTITY_MAP_LIMIT, PAGE_SIZE_2M, PAGE_SIZE_4K in *.
  destruct (RoundUpTo_spec p 21) as [H1 H2]; [lia..|]. change (2 ^ 21) with 0x200000 in *. split_and!; [dlia|lia..|done].
Qed.
Lemma pages_exact size : size mod PAGE_SIZE_2M = 0 → (size + PAGE_SIZE_2M) / PAGE_SIZE_4K * PAGE_SIZE_4K = size + PAGE_SIZE_2M.
Proof. unfold PAGE_SIZE_2M, PAGE_SIZE_4K. intros. dlia. Qed.

Lemma place_kernel_ok buf content hs lo size new s ps fs s' :
  stage new s (buf :: ps) fs s' → elf_ok content hs → laid_out content hs lo size →
  ∃ o s2, place_kernel buf content lo size s' = Ret (o, s2) ∧
    match o with
    | None => stage new s ps fs s2
    | Some k => ∃ p n, stage ((p, n) :: new) s ps fs s2 ∧ loaded (ram s2) k content hs ∧
        p ≤ KernelPhysicalBase k ∧ KernelPhysicalBase k + KernelSizeBytes k ≤ p + n * PAGE_SIZE_4K
    end.
Proof.
  intros Hs Helf Hlay. pose proof Hlay as [[-> Hlow] [_ Hsz] (Hspan & _ & Hmod) (v & Hv & Hent)]. unfold place_kernel.
  pose proof (pages_exact size Hmod) as Hpg. set (n := (size + PAGE_SIZE_2M) / PAGE_SIZE_4K) in *.
  destruct (stage_pages (MaxAddress (IDENTITY_MAP_LIMIT - 1)) n _ _ _ _ _ Hs) as (o & s1 & Hr1 & Ho);
    [unfold PAGE_SIZE_2M, PAGE_SIZE_4K in *; lia|].
  erewrite M_run by exact Hr1. destruct o as [p|].
  2: { destruct (reject_ok _ _ _ _ _ _ Ho) as (s2 & Hr2 & Hs2). exists None, s2. by rewrite Hr2. }
  destruct Ho as (Hs1 & _ & Hp & _ & Hm & _ & _ & Hlim). rewrite Hpg in Hlim, Hm.
  destruct (place_arith p size) as (_ & Hb1 & Hb2 & Hb3); [done|lia|lia|done|]. set (base := RoundUpTo p PAGE_SIZE_2M) in *.
  assert (Hin : ∀ a, base ≤ a < base + size → owned ((p, n) :: new) a) by (intros a Ha; apply owned_cons; left; cbn; lia).
  destruct (zero_image_ok p (p + n * PAGE_SIZE_4K) base size (ram s1)) as (m2 & Hz & Hi2); [lia..| |].
  { intros a Ha. apply Hm. lia. }
  destruct (stage_ram _ m2 _ _ _ _ _ Hs1 Hz) as [Hr2 Hs2]; [|apply Hi2..|].
  { intros a Ha. apply (im_outside _ _ _ _ _ Hi2). intros Hba. by apply Ha, Hin. }
  erewrite M_run by exact Hr2. erewrite M_run by (eapply stage_buffer; [exact Hs2|by left|done]).
  destruct (copy_segments_ok content hs size p (p + n * PAGE_SIZE_4K) base m2 m2 Helf Hlay) as (m3 & Hc & Hi3); [lia..| |].
  { split; [apply Hi2|done..]. }
  destruct (stage_ram _ m3 _ _ _ _ _ Hs2 Hc) as [Hr3 Hs3]; [|apply Hi3..|].
  { intros a Ha. apply (im_outside _ _ _ _ _ Hi3). intros Hba. by apply Ha, Hin. }
  erewrite M_run by exact Hr3. erewrite M_run by (eapply stage_buffer; [exact Hs3|by left|exact Hv]).
  destruct (stage_free_pool _ _ _ _ _ _ (stage_refl _ _ _ _ _ Hs3)) as (s4 & Hr4 & Hs4). erewrite M_run by exact Hr4.
  pose proof (stage_trans _ _ _ _ _ _ _ _ _ Hs3 Hs4) as Hs5.
  eexists (Some _), s4. split; [done|]. exists p, n. split; [done|]. cbn [KernelPhysicalBase KernelSizeBytes].
  split; [|lia].
  split; cbn [KernelPhysicalBase KernelSizeBytes KernelVirtualBase EntryPointVirtual]; [done|split_and!; [done|lia..]|done|done|].
  intros o Ho. rewrite (stage_bytes _ _ _ _ _ _ Hs4); [by apply (im_bytes _ _ _ _ _ Hi3)|].
  apply (stage_owned _ _ _ _ _ _ Hs3). left. apply Hin. lia.
Qed.

(** The kernel file, if it passes the header check, is well formed. *)
Definition kernel_file_ok : Prop :=
  ∀ h n (g : F * mem) content, fst (bs_read h n g) = Some content → ValidateElfHeader content = Ret true → ∃ hs, elf_ok content hs.

Lemma load_kernel_ok Root Path new s ps fs s' :
  kernel_file_ok → stage new s ps fs s' →
  ∃ o s2, LoadKernelElf Root Path s' = Ret (o, s2) ∧
    match o with
    | None => stage new s ps fs s2
    | Some k => ∃ content hs p n, stage ((p, n) :: new) s ps fs s2 ∧ loaded (ram s2) k content hs ∧
        p ≤ KernelPhysicalBase k ∧ KernelPhysicalBase k + KernelSizeBytes k ≤ p + n * PAGE_SIZE_4K
    end.
Proof.
  intros Hfile Hs. unfold LoadKernelElf.
  destruct (read_file_ok Root Path _ _ _ _ _ Hs) as (r & s1 & Hr1 & H1). erewrite M_run by exact Hr1.
  destruct r as [[buf content]|]; [|by exists None, s1]. destruct H1 as (Hs1 & Hall & h & n & g & Hread).
  assert (Hrej : ∃ o s2, reject buf s1 = Ret (o, s2) ∧ o = None ∧ stage new s ps fs s2).
  { destruct (reject_ok _ _ _ _ _ _ Hs1) as (s2 & Hr2 & Hs2). by exists None, s2. }
  destruct Hrej as (o0 & s2 & Hrej & -> & Hs2).
  destruct (Z.ltb_spec (Z.of_nat (length content)) sizeof_Ehdr); [by exists None, s2|].
  destruct (validate_returns content Hall) as (valid & Hval); [done|].
  erewrite M_run by (eapply stage_buffer; [exact Hs1|by left|exact Hval]). destruct valid; cbn [negb]; [|by exists None, s2].
  destruct (Hfile h n g content Hread Hval) as (hs & Helf). destruct (layout_ok content hs Helf) as (l & Hl & Hlay).
  erewrite M_run by (eapply stage_buffer; [exact Hs1|by left|exact Hl]). destruct l as [[lo size]|]; [|by exists None, s2].
  destruct (place_kernel_ok _ content hs lo size _ _ _ _ _ Hs1 Helf Hlay) as (o & s3 & Hr3 & H3).
  exists o, s3. split; [done|]. destruct o as [k|]; [|done]. destruct H3 as (p & m & H3). by exists content, hs, p, m.
Qed.
End laws.

