(* ===== verification/BootSerial.v ===== *)
(** The bootloader's serial driver: [boot/serial.c].

    The same driver as the kernel's, in C: strings end at a NUL, and the
    hexadecimal digits go through a buffer of 17 characters.  The theorem says
    that the two drivers do the same to the device. *)
From Stdlib Require Import String.
From stdpp Require Import base numbers option gmap list_numbers list.
From S2P Require Import Prelude Serial.

Section code.
Context {L : Line}.

Definition SerialInit : M uart unit :=
  _ ← outb (COM1 + REG_INT_ENABLE) 0x00;
  _ ← outb (COM1 + REG_LINE_CTRL) LCR_DLAB;
  _ ← outb (COM1 + REG_DATA) (Z.land BAUD_DIVISOR_38400 0xFF);
  _ ← outb (COM1 + REG_INT_ENABLE) (Z.land (Z.shiftr BAUD_DIVISOR_38400 8) 0xFF);
  _ ← outb (COM1 + REG_LINE_CTRL) LCR_8N1;
  _ ← outb (COM1 + REG_FIFO_CTRL)
        (Z.lor (Z.lor (Z.lor FCR_ENABLE_FIFO FCR_CLEAR_RX_FIFO) FCR_CLEAR_TX_FIFO) FCR_14BYTE_TRIGGER);
  outb (COM1 + REG_MODEM_CTRL) (Z.lor (Z.lor MCR_DTR MCR_RTS) MCR_OUT2).

Fixpoint SerialWriteChar (fuel : nat) (c : Z) : M uart unit :=
  match fuel with
  | O => lift NoFuel
  | S fuel =>
    _ ← (if c =? 10 then SerialWriteChar fuel 13 else mret tt);
    _ ← wait_empty fuel;
    outb (COM1 + REG_DATA) c
  end.

(** A string is its characters up to the NUL; running off the end of the
    buffer is undefined. *)
Fixpoint SerialWriteString (fuel : nat) (str : list Z) : M uart unit :=
  match str with
  | [] => lift Undef
  | c :: str => if c =? 0 then mret tt else _ ← SerialWriteChar fuel c; SerialWriteString fuel str
  end.

Definition hexDigits : list Z := text "0123456789ABCDEF".
(** [for (int i = 15; i >= 0; i--)] *)
Definition SerialWriteHex64 (fuel : nat) (value : Z) : M uart unit :=
  buffer ← lift (r ← for_range 16 0
    (λ j '(buffer, value),
       digit ← index hexDigits (Z.land value 0xF);
       buffer ← index_set buffer (15 - j) digit;
       Ret ((buffer, Z.shiftr value 4), false))
    (replicate 16 0 ++ [0], value); Ret (fst r));
  SerialWriteString fuel buffer.

End code.

(** ** The same driver *)
Section same.
Context {L : Line}.

Lemma write_char_same fuel c u : SerialWriteChar fuel c u = write_byte fuel c u.
Proof. reflexivity. Qed.

Lemma write_string_same fuel s u : 0 ∉ s → SerialWriteString fuel (s ++ [0]) u = write_str fuel s u.
Proof.
  revert u. induction s as [|c s IH]; intros u Hs; [done|]. apply not_elem_of_cons in Hs as [Hc Hs].
  cbn [SerialWriteString write_str app]. destruct (Z.eqb_spec c 0); [done|]. unfold mbind, M_bind.
  rewrite write_char_same. destruct (write_byte fuel c u) as [[[] u1]| | |]; try done. by apply IH.
Qed.

Lemma hex_digits_no_nul n v : 0 ∉ hex_digits n v.
Proof.
  intros Hin. apply (Forall_elem _ _ _ (hex_digits_in n v)) in Hin. vm_compute in Hin.
  repeat (apply elem_of_cons in Hin as [Hin|Hin]; [discriminate Hin|]). by apply elem_of_nil in Hin.
Qed.

Lemma write_hex_same fuel v u : 0 ≤ v → SerialWriteHex64 fuel v u = write_hex64 fuel v u.
Proof.
  intros Hv. unfold SerialWriteHex64, write_hex64. rewrite hex_buffer_digits by done.
  change hexDigits with HEX_DIGITS. change (for_range 16 0) with (for_range (S := list Z * Z) 16 (16 - Z.of_nat 16)).
  rewrite hex_loop by lia. unfold mbind, M_bind, lift. cbn [outcome_bind fst].
  apply write_string_same, hex_digits_no_nul.
Qed.
End same.

(** C36: the bootloader's driver and the kernel's are the same program: they
    bring the port up with the same sequence of writes, and put the same bytes
    on the line for every string without a NUL and for every number, so that
    what either says reaches the line as the other would say it. *)
Theorem serial_drivers_agree {L : Line} fuel u s v :
  0 ∉ s → u64 v →
  SerialInit u = Serial.init u ∧ SerialWriteString fuel (s ++ [0]) u = write_str fuel s u ∧
  SerialWriteHex64 fuel v u = write_hex64 fuel v u.
Proof.
  intros Hs [Hv _]. split; [reflexivity|]. split; [by apply write_string_same|by apply write_hex_same].
Qed.

Lemma serial_drivers_agree_witness :
  SerialWriteString (L := demo_line) 5 (text "OK" ++ [0]) demo_uart = write_str (L := demo_line) 5 (text "OK") demo_uart ∧
  SerialWriteHex64 (L := demo_line) 5 0xC0FFEE demo_uart = write_hex64 (L := demo_line) 5 0xC0FFEE demo_uart.
Proof.
  apply (serial_drivers_agree (L := demo_line) 5 demo_uart (text "OK") 0xC0FFEE).
  - vm_compute. intros Hin. repeat (apply elem_of_cons in Hin as [Hin|Hin]; [discriminate Hin|]). by apply elem_of_nil in Hin.
  - unfold u64. lia.
Defined.
