(* ===== verification/Bootloader.v ===== *)
(** The bootloader: [EfiMain] of [boot/main.c] and [boot/trampoline.asm].

    The whole sequence: the file-read check, the kernel image, [BOOT_INFO] and
    the stack, the page tables, the memory map and the exit from boot
    services, the last fields of [BOOT_INFO], and the jump.  Its state is the
    firmware's side ([efi]) and the serial port; it ends in [Halt] (the
    [halt:] label) or in the jump with the four values [JumpToKernel] puts
    into CR3, the instruction pointer, RDI and RSP. *)
From Stdlib Require Import String.
From stdpp Require Import base numbers option gmap list_numbers list.
From S2P Require Import Prelude PhysAddr VirtAddr PageTableEntry Memory BootInfo MemoryMap FrameAllocator Vmm PageWalk VmmSpec Serial BootDefs Firmware BootPaging BootTables BootMemoryMap Elf KernelLoader BootSerial.

(** A string literal with its line end. *)
Definition ln (t : string) : list Z := text t ++ CRLF.

Inductive boot_end : Type := Halt | Jump (NewCr3 KernelEntryVirtual BootInfoPhysAddr KernelStackTop : Z).

Definition KERNEL_STACK_PAGES : Z := 16.

(** What is known when the page tables are built. *)
Record handoff : Type := mkHandoff { h_kernel : LOADED_KERNEL; h_info : Z; h_stack : Z; h_cr3 : Z }.

Section code.
Context {F : Type} {BS : BootServices F} {L : Line} (fuel : nat).
Abbreviation loader := (M (efi F)).
Abbreviation state := (efi F * uart)%type.

(** ** Printing *)
(** [(CHAR16)buffer[i]], with [char] signed. *)
Definition to_char16 (b : Z) : Z := if b <? 128 then b else b + 0xFF00.
(** [chunk[chunkLen++] = c]: the chunk has room for 128. *)
Definition push (chunk : list Z) (c : Z) : outcome (list Z) :=
  if Z.of_nat (length chunk) <? 128 then Ret (chunk ++ [c]) else Undef.

(** The loop of [PrintAscii] over what is left of the buffer. *)
Fixpoint print_loop (chunk buffer : list Z) : loader unit :=
  match buffer with
  | [] => mret tt
  | b :: rest =>
    chunk ← lift (if (b =? 10) && negb (bool_decide (last chunk = Some 13)) then push chunk 13 else Ret chunk);
    chunk ← lift (push chunk (to_char16 b));
    if (125 <=? Z.of_nat (length chunk)) || bool_decide (rest = []) then
      _ ← lift (push chunk 0);
      _ ← OutputString chunk;
      print_loop [] rest
    else print_loop chunk rest
  end.
Definition PrintAscii (buffer : list Z) : loader unit := print_loop [] buffer.

(** ** Part 2: the file-read check *)
Definition read_test_file (testFile : Z) : loader bool :=
  infoSize ← call (bs_info_size testFile);
  oi ← AllocatePool infoSize;
  r ← match oi with
      | None => _ ← OutputString (ln "FAILED: AllocatePool for file info failed"); mret false
      | Some fileInfo =>
        osz ← call (bs_file_size testFile);
        r ← match osz with
            | None => _ ← OutputString (ln "FAILED: GetInfo (second call) failed"); mret false
            | Some sz =>
              _ ← OutputString (ln "[OK] File size obtained.");
              fileDataSize ← with_buffer fileInfo (Ret sz);
              od ← AllocatePool fileDataSize;
              match od with
              | None => _ ← OutputString (ln "FAILED: AllocatePool for file data failed"); mret false
              | Some fileData =>
                or ← call (bs_read testFile fileDataSize);
                r ← match or with
                    | None => _ ← OutputString (ln "FAILED: Read failed"); mret false
                    | Some content =>
                      _ ← OutputString (ln "[OK] File read into memory. Contents:");
                      _ ← OutputString (ln "------------------------------------------------------------");
                      content ← with_buffer fileData (Ret content);
                      _ ← PrintAscii content;
                      _ ← OutputString (ln "------------------------------------------------------------");
                      _ ← OutputString (ln "[OK] Part 2 file-read pipeline verified successfully.");
                      mret true
                    end;
                _ ← FreePool fileData; mret r
              end
            end;
        _ ← FreePool fileInfo; mret r
      end;
  _ ← Close testFile; mret r.

(** Up to the check of [part2Success]: the root directory, or [goto halt]. *)
Definition open_root (ImageHandle : Z) : loader (option Z) :=
  _ ← call bs_clear;
  _ ← OutputString (text "NeoastrenOS Bootloader " ++ [0x2014] ++ ln " Phase 2, Part 4");
  _ ← OutputString (ln "Testing Simple File System read pipeline..." ++ CRLF);
  oli ← call (bs_handle_protocol ImageHandle "EFI_LOADED_IMAGE_PROTOCOL");
  match oli with
  | None => _ ← OutputString (ln "FAILED: could not get LoadedImageProtocol"); mret None
  | Some loadedImage =>
    _ ← OutputString (ln "[OK] LoadedImageProtocol acquired.");
    dev ← call (bs_device_handle loadedImage);
    osf ← call (bs_handle_protocol dev "EFI_SIMPLE_FILE_SYSTEM_PROTOCOL");
    match osf with
    | None => _ ← OutputString (ln "FAILED: could not get SimpleFileSystemProtocol"); mret None
    | Some sfsp =>
      _ ← OutputString (ln "[OK] SimpleFileSystemProtocol acquired.");
      orr ← OpenVolume sfsp;
      match orr with
      | None => _ ← OutputString (ln "FAILED: OpenVolume failed"); mret None
      | Some root =>
        _ ← OutputString (ln "[OK] Root directory opened.");
        ot ← Open root "\BOOTINFO.TXT";
        match ot with
        | None =>
          _ ← OutputString (ln "FAILED: could not open \BOOTINFO.TXT");
          _ ← OutputString (ln "(Did you copy boot/testdata/BOOTINFO.TXT to the ESP root? See README.)");
          mret None
        | Some testFile =>
          _ ← OutputString (ln "[OK] \BOOTINFO.TXT opened.");
          part2Success ← read_test_file testFile;
          mret (if (part2Success : bool) then Some root else None)
        end
      end
    end
  end.

(** ** Part 4: [BOOT_INFO] *)
(** The fields of [BOOT_INFO] in declaration order; its layout is the one the
    kernel computes for its own structure. *)
Definition put_field (bootInfo : Z) (k : nat) (v : Z) : loader unit :=
  on_ram (λ m, match field_offsets 0 field_sizes !! k, field_sizes !! k with
               | Some off, Some sz => defined (store_le (Z.to_nat sz) m (bootInfo + off) v)
               | _, _ => Undef
               end).
Fixpoint put_fields (bootInfo : Z) (kvs : list (nat * Z)) : loader unit :=
  match kvs with
  | [] => mret tt
  | (k, v) :: kvs => _ ← put_field bootInfo k v; put_fields bootInfo kvs
  end.
(** [for (i = 0; i < sizeof(BOOT_INFO); i++) ((UINT8 * )bootInfo)[i] = 0;] *)
Definition clear_info (bootInfo : Z) : loader unit :=
  on_ram (zero_image bootInfo (bootInfo + PAGE_SIZE_4K) bootInfo size_of_BootInfo).

(** The page of [BOOT_INFO] with the fields known so far; [None] is [goto
    halt], here and below. *)
Definition make_info (kernel : LOADED_KERNEL) : loader (option Z) :=
  o ← AllocatePages (MaxAddress (IDENTITY_MAP_LIMIT - 1)) 1;
  match o with
  | None => _ ← OutputString (ln "FAILED: could not allocate BootInfo page"); mret None
  | Some bootInfo =>
    _ ← clear_info bootInfo;
    _ ← put_fields bootInfo [(0%nat, BOOTINFO_MAGIC); (1%nat, BOOTINFO_VERSION); (2%nat, size_of_BootInfo);
          (8%nat, KernelPhysicalBase kernel); (9%nat, KernelVirtualBase kernel); (10%nat, KernelSizeBytes kernel)];
    mret (Some bootInfo)
  end.
(** The kernel's stack: its top. *)
Definition make_stack (bootInfo : Z) : loader (option Z) :=
  o ← AllocatePages (MaxAddress (IDENTITY_MAP_LIMIT - 1)) KERNEL_STACK_PAGES;
  match o with
  | None => _ ← OutputString (ln "FAILED: could not allocate kernel stack"); mret None
  | Some stackPhys =>
    let stackSizeBytes := KERNEL_STACK_PAGES * PAGE_SIZE_4K in
    let stackTop := wrap64 (stackPhys + stackSizeBytes) in
    _ ← put_fields bootInfo [(11%nat, stackTop); (12%nat, stackSizeBytes)];
    _ ← OutputString (ln "[OK] Kernel stack allocated.");
    _ ← OutputString (ln "[OK] BootInfo allocated and pre-populated.");
    mret (Some stackTop)
  end.

(** From the kernel image to the page tables. *)
Definition prepare (root : Z) : loader (option handoff) :=
  _ ← OutputString (CRLF ++ ln "Loading kernel image \KERNEL.ELF...");
  ok ← LoadKernelElf root "\KERNEL.ELF";
  match ok with
  | None =>
    _ ← OutputString (ln "FAILED: could not load or validate \KERNEL.ELF");
    _ ← OutputString (ln "(See tests/kernel_stub/README.md for how to build the test fixture.)");
    mret None
  | Some kernel =>
    _ ← OutputString (ln "[OK] Kernel image loaded and validated.");
    _ ← Close root;
    oi ← make_info kernel;
    match oi with
    | None => mret None
    | Some bootInfo =>
      os ← make_stack bootInfo;
      match os with
      | None => mret None
      | Some stackTop =>
        newCr3 ← BuildKernelPageTables (KernelPhysicalBase kernel) (KernelSizeBytes kernel);
        if newCr3 =? 0 then _ ← OutputString (ln "FAILED: could not build kernel page tables"); mret None else
        _ ← OutputString (ln "[OK] Page tables built (identity map + higher-half kernel mapping).");
        mret (Some (mkHandoff kernel bootInfo stackTop newCr3))
      end
    end
  end.

(** ** The whole program *)
Definition on_efi {A} (c : loader A) : M state A := λ '(s, u), r ← c s; Ret (fst r, (snd r, u)).
Definition on_port {A} (c : M uart A) : M state A := λ '(s, u), r ← c u; Ret (fst r, (s, snd r)).
Definition halt : M state boot_end := _ ← on_efi (OutputString (CRLF ++ ln "Halting.")); mret Halt.

(** The bootloader's last words, on COM1. *)
Definition farewell (entry newCr3 : Z) : M uart unit :=
  _ ← SerialInit;
  _ ← SerialWriteString fuel (CRLF ++ ln "NeoastrenOS Bootloader - Phase 2 Part 4" ++ [0]);
  _ ← SerialWriteString fuel (ln "ExitBootServices succeeded. Boot Services have been terminated." ++ [0]);
  _ ← SerialWriteString fuel (text "BootInfo populated. Jumping to kernel entry point: 0x" ++ [0]);
  _ ← SerialWriteHex64 fuel entry;
  _ ← SerialWriteString fuel (CRLF ++ [0]);
  _ ← SerialWriteString fuel (text "New CR3: 0x" ++ [0]);
  _ ← SerialWriteHex64 fuel newCr3;
  _ ← SerialWriteString fuel (CRLF ++ [0]);
  _ ← SerialWriteString fuel (ln "This is the last line the bootloader itself prints." ++ [0]);
  SerialWriteString fuel (ln "Control transfers to the kernel now." ++ CRLF ++ [0]).

Definition EfiMain (ImageHandle : Z) : M state boot_end :=
  orr ← on_efi (open_root ImageHandle);
  match orr with
  | None => halt
  | Some root =>
    oh ← on_efi (prepare root);
    match oh with
    | None => halt
    | Some h =>
      _ ← on_efi (OutputString (CRLF ++ ln "Preparing to retrieve the memory map and exit Boot Services..."));
      _ ← on_efi (OutputString (ln "(No further ConOut output is guaranteed valid after this point,"));
      _ ← on_efi (OutputString (ln " per the UEFI specification. Remaining output goes to COM1.)"));
      om ← on_efi ExitBootServicesWithRetry;
      match om with
      | None =>
        _ ← on_efi (OutputString (ln "FAILED: ExitBootServices did not succeed within the retry budget."));
        halt
      | Some memMap =>
        _ ← on_efi (put_fields (h_info h) [(3%nat, Map memMap); (4%nat, MapSizeBytes memMap);
              (5%nat, DescriptorSize memMap); (6%nat, DescriptorVersion memMap); (7%nat, EntryCount memMap)]);
        _ ← on_port (farewell (EntryPointVirtual (h_kernel h)) (h_cr3 h));
        mret (Jump (h_cr3 h) (EntryPointVirtual (h_kernel h)) (h_info h) (h_stack h))
      end
    end
  end.

End code.
