(* ===== verification/BootloaderTheorems.v ===== *)
(** Correctness of the bootloader, and of what it hands to the kernel. *)
From Stdlib Require Import String.
From stdpp Require Import base numbers option gmap list_numbers list.
From S2P Require Import Prelude PhysAddr VirtAddr PageTableEntry Memory BootInfo MemoryMap FrameAllocator Vmm PageWalk VmmSpec Serial BootDefs Firmware BootPaging BootTables BootMemoryMap Elf KernelLoader BootSerial Bootloader.

(** Run one line of output, a call, an allocation, a release. *)
Ltac stage_state Hs := lazymatch type of Hs with stage _ _ _ _ ?s => s end.
Ltac says Hs := let s := stage_state Hs in
  match goal with |- context [mbind _ (OutputString ?t) s] =>
    let s2 := fresh "st" in let Hr := fresh "Hr" in let H2 := fresh "Hs" in
    destruct (stage_output t _ _ _ _ _ Hs) as (s2 & Hr & H2); erewrite M_run by exact Hr; clear Hs Hr; rename H2 into Hs end.
Ltac asks law a Hs :=
  let s2 := fresh "st" in let Hr := fresh "Hr" in let H2 := fresh "Hs" in
  destruct (stage_call _ _ _ _ _ _ _ law Hs) as (a & s2 & Hr & _ & H2 & _); erewrite M_run by exact Hr; clear Hs Hr; rename H2 into Hs.
Ltac runs lem Hs :=
  let s2 := fresh "st" in let Hr := fresh "Hr" in let H2 := fresh "Hs" in
  destruct (lem _ _ _ _ _ Hs) as (s2 & Hr & H2); erewrite M_run by exact Hr; clear Hs Hr; rename H2 into Hs.

Ltac stops := eexists _, _; split; [reflexivity|]; cbn beta iota; by eauto.

Section phases.
Context {F : Type} {BS : BootServices F} {FL : FirmwareLaws F}.
Implicit Types (s : efi F).

(** ** Printing *)
Lemma push_fits chunk c : (length chunk < 128)%nat → push chunk c = Ret (chunk ++ [c]).
Proof. intros Hl. unfold push. destruct (Z.ltb_spec (Z.of_nat (length chunk)) 128); [done|lia]. Qed.

(** The chunk never overflows. *)
Lemma print_loop_ok buffer chunk new s ps fs s' :
  stage new s ps fs s' → (length chunk < 125)%nat →
  ∃ s2, print_loop chunk buffer s' = Ret (tt, s2) ∧ stage new s ps fs s2.
Proof.
  revert chunk s'. induction buffer as [|b rest IH]; intros chunk s' Hs Hc; cbn [print_loop]; [by exists s'|].
  assert (Hpre : ∃ chunk1, (length chunk1 ≤ S (length chunk))%nat ∧
    (if (b =? 10) && negb (bool_decide (last chunk = Some 13)) then push chunk 13 else Ret chunk) = Ret chunk1).
  { destruct (_ && _); [rewrite push_fits by lia|]; eexists; (split; [|done]); [rewrite length_app; cbn; lia|lia]. }
  destruct Hpre as (chunk1 & Hl1 & Hpre). rewrite Hpre. erewrite M_run by reflexivity.
  rewrite push_fits by lia. erewrite M_run by reflexivity. set (c2 := chunk1 ++ [to_char16 b]).
  assert (Hl2 : length c2 = S (length chunk1)) by (unfold c2; rewrite length_app; cbn; lia).
  destruct (_ || _) eqn:Hflush.
  - rewrite push_fits by lia. erewrite M_run by reflexivity. says Hs. by apply IH; [|cbn; lia].
  - apply orb_false_iff in Hflush as [Hf _]. apply Z.leb_gt in Hf. apply IH; [done|lia].
Qed.

(** ** The file-read check *)
(** [c] returns from [s'] in a state with [P]. *)
Definition returns {A} (c : M (efi F) A) (P : A → efi F → Prop) s' : Prop := ∃ a s2, c s' = Ret (a, s2) ∧ P a s2.
Lemma returns_bind {A B} (c : M (efi F) A) (k : A → M (efi F) B) P Q s' :
  returns c P s' → (∀ a s2, P a s2 → returns (k a) Q s2) → returns (c ≫= k) Q s'.
Proof. intros (a & s2 & Hr & HP) Hk. destruct (Hk a s2 HP) as (b & s3 & Hr3 & HQ). exists b, s3. by erewrite M_run by exact Hr. Qed.
Lemma returns_ret {A} (a : A) (P : A → efi F → Prop) s' : P a s' → returns (mret a) P s'.
Proof. intros HP. by exists a, s'. Qed.
Lemma returns_close {A} h (r : A) new s ps fs s' : stage new s ps (h :: fs) s' →
  returns (_ ← Close h; mret r) (λ _, stage new s ps fs) s'.
Proof. intros Hs. unfold returns. runs (stage_close h) Hs. by eexists _, _. Qed.
Lemma returns_free {A} p (r : A) new s ps fs s' : stage new s (p :: ps) fs s' →
  returns (_ ← FreePool p; mret r) (λ _, stage new s ps fs) s'.
Proof. intros Hs. unfold returns. runs (stage_free_pool p) Hs. by eexists _, _. Qed.

Lemma read_test_file_ok h new s ps fs s' :
  stage new s ps (h :: fs) s' → returns (read_test_file h) (λ _, stage new s ps fs) s'.
Proof.
  intros Hs. unfold read_test_file, returns. asks (fl_info_size h) isz Hs.
  destruct (stage_allocate_pool isz _ _ _ _ _ Hs) as (oi & s1 & Hr & Hs1). erewrite M_run by exact Hr. clear Hs Hr.
  apply (returns_bind _ _ (λ _, stage new s ps (h :: fs))); [|intros; by apply returns_close].
  destruct oi as [info|]; unfold returns; [|says Hs1; by eexists _, _]. asks (fl_file_size h) osz Hs1.
  apply (returns_bind _ _ (λ _, stage new s (info :: ps) (h :: fs))); [|intros; by apply returns_free].
  destruct osz as [sz|]; unfold returns; says Hs1; [|by eexists _, _].
  erewrite M_run by (eapply stage_buffer; [exact Hs1|by left|done]).
  destruct (stage_allocate_pool sz _ _ _ _ _ Hs1) as (od & s4 & Hr & Hs4). erewrite M_run by exact Hr. clear Hs1 Hr.
  destruct od as [data|]; [|says Hs4; by eexists _, _]. asks (fl_read h sz) rd Hs4.
  apply (returns_bind _ _ (λ _, stage new s (data :: info :: ps) (h :: fs))); [|intros; by apply returns_free].
  destruct rd as [content|]; unfold returns; says Hs4; [|by eexists _, _]. says Hs4.
  erewrite M_run by (eapply stage_buffer; [exact Hs4|by left|done]).
  destruct (print_loop_ok content [] _ _ _ _ _ Hs4) as (s8 & Hr & Hs8); [cbn; lia|]. erewrite M_run by exact Hr.
  says Hs8. says Hs8. by eexists _, _.
Qed.

Lemma open_root_ok ih new s ps fs s' : stage new s ps fs s' →
  returns (open_root ih) (λ o s2, match o with Some r => stage new s ps (r :: fs) s2 | None => ∃ fs', stage new s ps fs' s2 end) s'.
Proof.
  intros Hs. unfold open_root, returns. asks fl_clear u Hs. says Hs. says Hs. asks (fl_handle_protocol ih "EFI_LOADED_IMAGE_PROTOCOL") oli Hs.
  destruct oli as [li|]; says Hs; [|stops]. asks (fl_device_handle li) dev Hs.
  asks (fl_handle_protocol dev "EFI_SIMPLE_FILE_SYSTEM_PROTOCOL") osf Hs.
  destruct osf as [sfsp|]; says Hs; [|stops].
  destruct (stage_open_volume sfsp _ _ _ _ _ Hs) as (orr & s1 & Hr & Hs1). erewrite M_run by exact Hr. clear Hs Hr.
  destruct orr as [root|]; says Hs1; [|stops].
  destruct (stage_open root "\BOOTINFO.TXT" _ _ _ _ _ Hs1) as (ot & s3 & Hr & Hs3). erewrite M_run by exact Hr. clear Hs1 Hr.
  destruct ot as [tf|]; says Hs3; [|says Hs3; stops].
  destruct (read_test_file_ok tf _ _ _ _ _ Hs3) as (ok & s5 & Hr & Hs5). erewrite M_run by exact Hr.
  eexists _, _. split; [done|]. destruct ok; eauto.
Qed.
End phases.

(** ** [BOOT_INFO] *)
(** The thirteen fields in memory. *)
Definition fields_at (m : mem) (p : Z) (vs : list Z) : Prop :=
  length vs = 13%nat ∧ ∀ k v, vs !! k = Some v → load_field (λ a, m !! a) p k = Some v.
(** A value of the field's type. *)
Definition field_fits (kv : nat * Z) : Prop :=
  (kv.1 < 13)%nat ∧ ∀ sz, field_sizes !! kv.1 = Some sz → 0 ≤ kv.2 < 2 ^ (8 * sz).
(** The stores, one after the other. *)
Definition set_fields (kvs : list (nat * Z)) (vs : list Z) : list Z := foldl (λ vs kv, <[kv.1 := kv.2]> vs) vs kvs.

(** Fields follow each other without overlap, and end inside the structure. *)
Lemma offsets_from off sizes k o : Forall (Z.lt 0) sizes → field_offsets off sizes !! k = Some o → off ≤ o.
Proof.
  revert off k. induction sizes as [|sz sizes IH]; intros off k Hs; cbn [field_offsets]; [done|].
  apply Forall_cons in Hs as [H0 Hs]. unfold round_up. pose proof (div_ceil_spec off sz H0).
  destruct k as [|k]; cbn [lookup list_lookup]; [intros [= <-]; lia|]. intros Ho%IH; [lia|done].
Qed.
Lemma offsets_ordered off sizes j k oj sj ok : Forall (Z.lt 0) sizes → (j < k)%nat →
  field_offsets off sizes !! j = Some oj → sizes !! j = Some sj → field_offsets off sizes !! k = Some ok → oj + sj ≤ ok.
Proof.
  revert off j k. induction sizes as [|sz sizes IH]; intros off j k Hs Hjk; cbn [field_offsets]; [done|].
  apply Forall_cons in Hs as [H0 Hs]. destruct k as [|k]; [lia|].
  destruct j as [|j]; cbn [lookup list_lookup]; [|apply IH; [done|lia]].
  intros [= <-] [= <-] Hk. by apply offsets_from in Hk.
Qed.
Lemma sizes_positive : Forall (Z.lt 0) field_sizes.
Proof. unfold field_sizes. repeat constructor. Qed.
Lemma slot_inside k : (k < 13)%nat → ∃ off sz, field_offsets 0 field_sizes !! k = Some off ∧
  field_sizes !! k = Some sz ∧ 0 ≤ off ∧ 0 < sz ∧ off + sz ≤ size_of_BootInfo.
Proof.
  intros Hk. change (field_offsets 0 field_sizes) with [0; 8; 12; 16; 24; 32; 40; 48; 56; 64; 72; 80; 88].
  change size_of_BootInfo with 96. unfold field_sizes.
  do 13 (destruct k as [|k]; [eexists _, _; split; [reflexivity|]; split; [reflexivity|]; lia|]). lia.
Qed.

(** One store. *)
Definition store_field (m : mem) (p : Z) (k : nat) (v : Z) : outcome mem :=
  match field_offsets 0 field_sizes !! k, field_sizes !! k with
  | Some off, Some sz => defined (store_le (Z.to_nat sz) m (p + off) v)
  | _, _ => Undef
  end.
Lemma store_field_ok (m : mem) p vs k v :
  mapped m p size_of_BootInfo → fields_at m p vs → field_fits (k, v) →
  ∃ m', store_field m p k v = Ret m' ∧ fields_at m' p (<[k := v]> vs) ∧
    (∀ a, ¬ (p ≤ a < p + size_of_BootInfo) → m' !! a = m !! a) ∧ (∀ a, is_Some (m' !! a) ↔ is_Some (m !! a)) ∧
    (bytes_ok m → bytes_ok m').
Proof.
  intros Hm [Hlen Hf] [Hk Hv]. cbn in Hk, Hv. destruct (slot_inside k Hk) as (off & sz & Ho & Hsz & H0 & H1 & H2).
  unfold store_field. rewrite Ho, Hsz. specialize (Hv sz Hsz).
  destruct (store_le_Some (Z.to_nat sz) m (p + off) v) as [m' Hs]; [intros i Hi; apply Hm; lia|]. rewrite Hs.
  exists m'. split; [done|]. split; [|split_and!].
  - split; [by rewrite length_insert|]. intros j w [(-> & -> & _)|[Hne Hj]]%list_lookup_insert_Some.
    + unfold load_field. rewrite Ho, Hsz. cbn [mbind option_bind].
      apply (load_store_le _ m); [|done]. by rewrite Z2Nat.id by lia.
    + rewrite <- (Hf j w Hj). apply lookup_lt_Some in Hj as Hj13. rewrite Hlen in Hj13.
      destruct (slot_inside j Hj13) as (oj & sj & Hoj & Hsj & ? & ? & ?). unfold load_field. rewrite Hoj, Hsj. cbn [mbind option_bind].
      apply load_le_ext. intros i Hi. apply (store_le_other _ _ _ _ _ _ Hs).
      assert (Hcase : (j < k)%nat ∨ (k < j)%nat) by lia. destruct Hcase as [Hlt|Hlt];
        [pose proof (offsets_ordered 0 _ _ _ _ _ _ sizes_positive Hlt Hoj Hsj Ho)|
         pose proof (offsets_ordered 0 _ _ _ _ _ _ sizes_positive Hlt Ho Hsz Hoj)]; lia.
  - intros a Ha. apply (store_le_other _ _ _ _ _ _ Hs). lia.
  - intros a. by apply (store_le_dom _ _ _ _ _ _ Hs).
  - by apply (store_le_bytes _ _ _ _ _ Hs).
Qed.

(** A list of stores. *)
Lemma put_fields_run {F} kvs (s' : efi F) p vs :
  mapped (ram s') p size_of_BootInfo → fields_at (ram s') p vs → Forall field_fits kvs →
  ∃ m, put_fields p kvs s' = Ret (tt, with_ram s' m) ∧
    fields_at m p (set_fields kvs vs) ∧ (∀ a, ¬ (p ≤ a < p + size_of_BootInfo) → m !! a = ram s' !! a) ∧
    (∀ a, is_Some (m !! a) ↔ is_Some (ram s' !! a)) ∧ (bytes_ok (ram s') → bytes_ok m).
Proof.
  intros Hm Hf Hfit. revert s' vs Hm Hf. induction Hfit as [|[k v] kvs Hkv _ IH]; intros s' vs Hm Hf; cbn [put_fields].
  { exists (ram s'). split; [by destruct s'|done]. }
  destruct (store_field_ok (ram s') p vs k v Hm Hf Hkv) as (m1 & H1 & Hf1 & Hout1 & Hdom1 & Hb1).
  assert (Hrun : put_field p k v s' = Ret (tt, with_ram s' m1)) by (apply on_ram_run; exact H1).
  erewrite M_run by exact Hrun.
  destruct (IH (with_ram s' m1) (<[k := v]> vs)) as (m2 & H2 & Hf2 & Hout2 & Hdom2 & Hb2); [by eapply mapped_dom|done|].
  exists m2. split; [exact H2|]. split; [done|]. split_and!; [| |auto].
  - intros a Ha. rewrite Hout2 by done. by apply Hout1.
  - intros a. rewrite Hdom2. apply Hdom1.
Qed.
(** The same in pages taken since [s]. *)
Lemma put_fields_ok {F} {BS : BootServices F} {FL : FirmwareLaws F} kvs new s s' p vs :
  reaches new s s' → (∀ a, p ≤ a < p + size_of_BootInfo → owned new a) → mapped (ram s') p size_of_BootInfo →
  fields_at (ram s') p vs → Forall field_fits kvs →
  ∃ m, put_fields p kvs s' = Ret (tt, with_ram s' m) ∧ reaches new s (with_ram s' m) ∧
    fields_at m p (set_fields kvs vs) ∧ (∀ a, ¬ (p ≤ a < p + size_of_BootInfo) → m !! a = ram s' !! a) ∧
    (∀ a, is_Some (m !! a) ↔ is_Some (ram s' !! a)).
Proof.
  intros Hr Hown Hm Hf Hfit. destruct (put_fields_run kvs s' p vs Hm Hf Hfit) as (m & Hrun & Hf2 & Hout & Hdom & Hb).
  exists m. split; [done|]. split; [|done]. apply reaches_write; [done| |done|done].
  intros a Ha. apply Hout. intros Hin. by apply Ha, Hown.
Qed.

Lemma load_le_zero n rd a : (∀ i, a ≤ i < a + Z.of_nat n → rd i = Some 0) → load_le n rd a = Some 0.
Proof.
  revert a. induction n as [|n IH]; intros a Hz; [done|]. cbn [load_le]. rewrite Hz by lia. cbn [mbind option_bind].
  rewrite IH by (intros i Hi; apply Hz; lia). done.
Qed.
Lemma fields_zero (m : mem) p : (∀ o, 0 ≤ o < size_of_BootInfo → m !! (p + o) = Some 0) → fields_at m p (replicate 13 0).
Proof.
  intros Hz. split; [done|]. intros k v [-> Hk]%lookup_replicate.
  destruct (slot_inside k Hk) as (off & sz & Ho & Hsz & ? & ? & ?). unfold load_field. rewrite Ho, Hsz. cbn [mbind option_bind].
  apply load_le_zero. intros i Hi. rewrite <- (Hz (i - p)) by lia. f_equal. lia.
Qed.
Lemma fields_deref (m : mem) p v0 v1 v2 v3 v4 v5 v6 v7 v8 v9 v10 v11 v12 :
  fields_at m p [v0; v1; v2; v3; v4; v5; v6; v7; v8; v9; v10; v11; v12] →
  deref (λ a, m !! a) p = Some (mkBootInfo v0 v1 v2 v3 v4 v5 v6 v7 v8 v9 v10 v11 v12).
Proof.
  intros [_ Hf]. unfold deref.
  rewrite (Hf 0%nat v0 eq_refl), (Hf 1%nat v1 eq_refl), (Hf 2%nat v2 eq_refl), (Hf 3%nat v3 eq_refl), (Hf 4%nat v4 eq_refl),
    (Hf 5%nat v5 eq_refl), (Hf 6%nat v6 eq_refl), (Hf 7%nat v7 eq_refl), (Hf 8%nat v8 eq_refl), (Hf 9%nat v9 eq_refl),
    (Hf 10%nat v10 eq_refl), (Hf 11%nat v11 eq_refl), (Hf 12%nat v12 eq_refl).
  done.
Qed.
Lemma fields_ext (m m' : mem) p vs : fields_at m p vs → (∀ a, p ≤ a < p + size_of_BootInfo → m' !! a = m !! a) → fields_at m' p vs.
Proof.
  intros [Hl Hf] He. split; [done|]. intros k v Hk. rewrite <- (Hf k v Hk). apply lookup_lt_Some in Hk. rewrite Hl in Hk.
  destruct (slot_inside k Hk) as (off & sz & Ho & Hsz & ? & ? & ?). unfold load_field. rewrite Ho, Hsz. cbn [mbind option_bind].
  apply load_le_ext. intros i Hi. apply He. lia.
Qed.

(** * The handoff under construction *)
(** The bytes that must not change any more: the image and the tables. *)
Definition guarded (h : handoff) (T : gmap Z (list Z)) (a : Z) : Prop :=
  KernelPhysicalBase (h_kernel h) ≤ a < KernelPhysicalBase (h_kernel h) + KernelSizeBytes (h_kernel h) ∨
  ∃ p ws, T !! p = Some ws ∧ p ≤ a < p + FRAME_SIZE.

(** The values to store, one goal each. *)
Ltac fit_all := repeat (apply Forall_cons; split; [split; [cbn; lia|cbn [fst snd]; intros sz [= <-]]|]); [..|apply Forall_nil; done].

Section prepare.
Context {F : Type} {BS : BootServices F} {FL : FirmwareLaws F}.
Implicit Types (s : efi F).

Record prepared (h : handoff) (vs : list Z) content hs T (row : list Z) s2 : Prop := {
  pr_loaded : loaded (ram s2) (h_kernel h) content hs;
  pr_fields : fields_at (ram s2) (h_info h) vs;
  pr_info : h_info h mod PAGE_SIZE_4K = 0 ∧ 0 < h_info h ∧ h_info h + PAGE_SIZE_4K ≤ IDENTITY_MAP_LIMIT ∧
    mapped (ram s2) (h_info h) PAGE_SIZE_4K ∧ ∀ a, h_info h ≤ a < h_info h + PAGE_SIZE_4K → owned (held (fw s2)) a;
  pr_stack : KERNEL_STACK_PAGES * PAGE_SIZE_4K < h_stack h ≤ IDENTITY_MAP_LIMIT ∧ h_stack h mod PAGE_SIZE_4K = 0 ∧
    ∀ a, h_stack h - KERNEL_STACK_PAGES * PAGE_SIZE_4K ≤ a < h_stack h → owned (held (fw s2)) a ∧ is_Some (ram s2 !! a);
  pr_tables : tables T (ram s2) ∧ ∃ idp kp kd pds, row = table_row (h_cr3 h) idp kp kd pds ∧
    loader_tables T (h_cr3 h) idp kp kd pds (KernelPhysicalBase (h_kernel h))
      (Z.to_nat (kernel_page_count (KernelSizeBytes (h_kernel h))));
  pr_guarded : ∀ a, guarded h T a → owned (held (fw s2)) a ∧ ¬ (h_info h ≤ a < h_info h + PAGE_SIZE_4K);
}.

Lemma loaded_ext (m m' : mem) k content hs : loaded m k content hs →
  (∀ a, KernelPhysicalBase k ≤ a < KernelPhysicalBase k + KernelSizeBytes k → m' !! a = m !! a) → loaded m' k content hs.
Proof. intros [? ? ? ? Hi] He. split; try done. intros o Ho. rewrite He by lia. by apply Hi. Qed.
Lemma tables_ext T (m m' : mem) : tables T m → (∀ p ws a, T !! p = Some ws → p ≤ a < p + FRAME_SIZE → m' !! a = m !! a) → tables T m'.
Proof.
  intros HT He p ws Hp. destruct (HT p ws Hp) as [Ha Hm Hl Hw]. split; [done| |done|].
  - intros a Haa. rewrite (He p ws a Hp Haa). by apply Hm.
  - intros i w Hi. rewrite <- (Hw i w Hi). apply word_ext. intros a Haa. apply (He p ws a Hp).
    apply lookup_lt_Some in Hi. unfold FRAME_SIZE. lia.
Qed.

(** Anything that keeps what the loader holds keeps the handoff. *)
Lemma prepared_kept h vs content hs T row s2 n s3 :
  prepared h vs content hs T row s2 → reaches n s2 s3 → prepared h vs content hs T row s3.
Proof.
  intros [Hl Hf (Hi1 & Hi2 & Hi3 & Hi4 & Hi5) (Hs1 & Hs2 & Hs3) (HT & Hrow) Hg] Hr.
  assert (Hk : ∀ a, owned (held (fw s2)) a → ram s3 !! a = ram s2 !! a) by (apply (kt_bytes _ _ _ (re_kept _ _ _ Hr))).
  assert (Ho : ∀ a, owned (held (fw s2)) a → owned (held (fw s3)) a) by (intros a Ha; apply (reaches_owned _ _ _ _ Hr); by right).
  pose proof (kt_dom _ _ _ (re_kept _ _ _ Hr)) as Hd. split.
  - eapply loaded_ext; [exact Hl|]. intros a Ha. apply Hk, Hg. by left.
  - eapply fields_ext; [exact Hf|]. intros a Ha. apply Hk, Hi5. change size_of_BootInfo with 96 in Ha. unfold PAGE_SIZE_4K. lia.
  - split_and!; [done..| |auto]. by eapply mapped_dom.
  - split_and!; [lia..|done|]. intros a Ha. destruct (Hs3 a Ha). split; [auto|by apply Hd].
  - split; [|done]. eapply tables_ext; [exact HT|]. intros p ws a Hp Ha. apply Hk, Hg. right. by eauto.
  - intros a Ha. destruct (Hg a Ha). auto.
Qed.

(** Neither does a store to [BOOT_INFO]. *)
Lemma prepared_fields h vs vs' content hs T row s2 m :
  prepared h vs content hs T row s2 → fields_at m (h_info h) vs' →
  (∀ a, ¬ (h_info h ≤ a < h_info h + size_of_BootInfo) → m !! a = ram s2 !! a) →
  (∀ a, is_Some (m !! a) ↔ is_Some (ram s2 !! a)) → prepared h vs' content hs T row (with_ram s2 m).
Proof.
  intros [Hl _ (Hi1 & Hi2 & Hi3 & Hi4 & Hi5) (Hs1 & Hs2 & Hs3) (HT & Hrow) Hg] Hf Hout Hd.
  assert (Hk : ∀ a, guarded h T a → m !! a = ram s2 !! a).
  { intros a Ha. apply Hout. destruct (Hg a Ha) as [_ Hn]. change size_of_BootInfo with 96. unfold PAGE_SIZE_4K in *. lia. }
  split; cbn [with_ram ram fw].
  - eapply loaded_ext; [exact Hl|]. intros a Ha. apply Hk. by left.
  - done.
  - split_and!; [done..| |done]. by eapply mapped_dom.
  - split_and!; [lia..|done|]. intros a Ha. destruct (Hs3 a Ha). split; [done|by apply Hd].
  - split; [|done]. eapply tables_ext; [exact HT|]. intros p ws a Hp Ha. apply Hk. right. by eauto.
  - done.
Qed.

Lemma build_books base size : keeps_books (BuildKernelPageTables (BS := BS) base size).
Proof.
  assert (Hz : keeps_books (AllocateZeroedPage (BS := BS))) by (unfold AllocateZeroedPage, fill_table; books).
  assert (Hid : ∀ n g p, keeps_books (identity_map (BS := BS) n g p)).
  { induction n as [|n IH]; intros g p; cbn [identity_map]; unfold fill_table, put; books; apply IH. }
  unfold BuildKernelPageTables, fill_table, put. books; (apply Hz || apply Hid).
Qed.
Lemma exit_books : keeps_books (ExitBootServicesWithRetry (BS := BS)).
Proof.
  unfold ExitBootServicesWithRetry. induction MAX_EXIT_ATTEMPTS as [|n IH]; cbn [exit_loop]; [books|].
  unfold exit_attempt at 1. books; apply IH.
Qed.

(** ** Phases *)
Definition kernel_fits (k : LOADED_KERNEL) : Prop :=
  u64 (KernelPhysicalBase k) ∧ u64 (KernelVirtualBase k) ∧ u64 (KernelSizeBytes k).
Definition first_fields (k : LOADED_KERNEL) : list Z :=
  [BOOTINFO_MAGIC; BOOTINFO_VERSION; size_of_BootInfo; 0; 0; 0; 0; 0; KernelPhysicalBase k; KernelVirtualBase k; KernelSizeBytes k; 0; 0].


Lemma make_info_ok k new s ps fs s' : stage new s ps fs s' → kernel_fits k →
  returns (make_info k) (λ o s2,
    match o with
    | None => stage new s ps fs s2
    | Some p => stage ((p, 1) :: new) s ps fs s2 ∧ p mod PAGE_SIZE_4K = 0 ∧ 0 < p ∧ p + PAGE_SIZE_4K ≤ IDENTITY_MAP_LIMIT ∧
        mapped (ram s2) p PAGE_SIZE_4K ∧ fields_at (ram s2) p (first_fields k) ∧
        (∀ a, owned (held (fw s')) a → ¬ (p ≤ a < p + PAGE_SIZE_4K) ∧ ram s2 !! a = ram s' !! a)
    end) s'.
Proof.
  intros Hs (Hk1 & Hk2 & Hk3). unfold make_info, returns.
  destruct (stage_pages (MaxAddress (IDENTITY_MAP_LIMIT - 1)) 1 _ _ _ _ _ Hs) as (o & s1 & Hr1 & Ho); [lia|].
  erewrite M_run by exact Hr1. destruct o as [p|]; [|says Ho; stops].
  destruct Ho as (Hs1 & Hal & Hp & _ & Hm & Hk & Hdis & Hlim). rewrite Z.mul_1_l in *.
  assert (Hin : ∀ a, p ≤ a < p + PAGE_SIZE_4K → owned ((p, 1) :: new) a) by (intros a Ha; apply owned_cons; left; cbn; lia).
  change size_of_BootInfo with 96 in *. unfold PAGE_SIZE_4K in *.
  destruct (zero_image_ok p (p + 0x1000) p 96 (ram s1)) as (m2 & Hz & Hi2); [lia..| |].
  { intros a Ha. apply Hm. lia. }
  destruct (stage_ram _ m2 _ _ _ _ _ Hs1 Hz) as [Hr2 Hs2]; [|apply Hi2..|].
  { intros a Ha. apply (im_outside _ _ _ _ _ Hi2). intros Hba. apply Ha, Hin. lia. }
  assert (Hr2' : clear_info p s1 = Ret (tt, with_ram s1 m2)) by exact Hr2. erewrite M_run by exact Hr2'.
  destruct (put_fields_ok [(0%nat, BOOTINFO_MAGIC); (1%nat, BOOTINFO_VERSION); (2%nat, 96);
    (8%nat, KernelPhysicalBase k); (9%nat, KernelVirtualBase k); (10%nat, KernelSizeBytes k)]
    ((p, 1) :: new) s (with_ram s1 m2) p (replicate 13 0)) as (m3 & Hr3 & Hre3 & Hf3 & Hout3 & Hdom3).
  - apply Hs2.
  - intros a Ha. apply Hin. change size_of_BootInfo with 96 in Ha. lia.
  - intros a Ha. apply (im_dom _ _ _ _ _ Hi2), Hm. change size_of_BootInfo with 96 in Ha. lia.
  - apply fields_zero. intros o Ho. apply (im_bytes _ _ _ _ _ Hi2). exact Ho.
  - fit_all; (exact Hk1 || exact Hk2 || exact Hk3 || (vm_compute; by split)).
  - erewrite M_run by exact Hr3. eexists _, _. split; [reflexivity|]. cbn beta iota.
    split; [by split; [exact Hre3|apply Hs2..]|]. split_and!; [done|done|lia| |exact Hf3|].
    + intros a Ha. apply Hdom3, (im_dom _ _ _ _ _ Hi2), Hm, Ha.
    + intros a Ha. specialize (Hdis a Ha). split; [done|]. cbn [with_ram ram].
      change size_of_BootInfo with 96 in Hout3. rewrite Hout3 by lia.
      cbn [with_ram ram]. rewrite (im_outside _ _ _ _ _ Hi2) by lia. by apply (kt_bytes _ _ _ Hk).
Qed.

Lemma make_stack_ok p vs new s ps fs s' :
  stage new s ps fs s' → (∀ a, p ≤ a < p + size_of_BootInfo → owned new a) → mapped (ram s') p size_of_BootInfo →
  fields_at (ram s') p vs →
  returns (make_stack p) (λ o s2,
    match o with
    | None => stage new s ps fs s2
    | Some top => stage ((top - 0x10000, 16) :: new) s ps fs s2 ∧ fields_at (ram s2) p (set_fields [(11%nat, top); (12%nat, 0x10000)] vs) ∧
        0x10000 < top ≤ IDENTITY_MAP_LIMIT ∧ top mod PAGE_SIZE_4K = 0 ∧
        (∀ a, top - 0x10000 ≤ a < top → is_Some (ram s2 !! a)) ∧
        (∀ a, owned (held (fw s')) a → ¬ (p ≤ a < p + size_of_BootInfo) → ram s2 !! a = ram s' !! a) ∧
        (∀ a, is_Some (ram s' !! a) → is_Some (ram s2 !! a))
    end) s'.
Proof.
  intros Hs Hown Hm Hf. unfold make_stack, returns.
  destruct (stage_pages (MaxAddress (IDENTITY_MAP_LIMIT - 1)) KERNEL_STACK_PAGES _ _ _ _ _ Hs) as (o & s1 & Hr1 & Ho); [done|].
  erewrite M_run by exact Hr1. destruct o as [sp|]; [|says Ho; stops].
  destruct Ho as (Hs1 & Hal & Hp & _ & Hm1 & Hk & Hdis & Hlim). change (KERNEL_STACK_PAGES * PAGE_SIZE_4K) with 0x10000 in *.
  unfold wrap64. rewrite Z.mod_small by (unfold IDENTITY_MAP_LIMIT in Hlim; lia).
  assert (Hinfo : ∀ a, p ≤ a < p + size_of_BootInfo → owned (held (fw s')) a).
  { intros a Ha. apply (stage_owned _ _ _ _ _ _ Hs). left. by apply Hown. }
  destruct (put_fields_ok [(11%nat, sp + 0x10000); (12%nat, 0x10000)] ((sp, KERNEL_STACK_PAGES) :: new) s s1 p vs)
    as (m3 & Hr3 & Hre3 & Hf3 & Hout3 & Hdom3).
  - apply Hs1.
  - intros a Ha. apply owned_cons. right. by apply Hown.
  - by eapply kept_mapped.
  - eapply fields_ext; [exact Hf|]. intros a Ha. by apply (kt_bytes _ _ _ Hk), Hinfo.
  - fit_all; cbn; unfold IDENTITY_MAP_LIMIT in Hlim; lia.
  - erewrite M_run by exact Hr3.
    assert (Hs3 : stage ((sp, KERNEL_STACK_PAGES) :: new) s ps fs (with_ram s1 m3)) by (by split; [exact Hre3|apply Hs1..]).
    pose proof (stage_refl _ _ _ _ _ Hs3) as H4. says H4. says H4.
    pose proof (stage_trans _ _ _ _ _ _ _ _ _ Hs3 H4) as Hs5.
    assert (Hkeep : ∀ a, owned (held (fw (with_ram s1 m3))) a → ram st0 !! a = m3 !! a) by (intros a; by apply (stage_bytes _ _ _ _ _ _ H4)).
    assert (Hown3 : ∀ a, owned (held (fw s')) a → owned (held (fw (with_ram s1 m3))) a).
    { intros a Ha. apply (stage_owned _ _ _ _ _ _ Hs3). apply (stage_owned _ _ _ _ _ _ Hs) in Ha as [Ha|Ha]; [|by right].
      left. apply owned_cons. by right. }
    pose proof (kt_dom _ _ _ (re_kept _ _ _ (sg_reaches _ _ _ _ _ H4))) as Hd4. cbn [with_ram ram] in Hd4.
    eexists _, _. split; [reflexivity|]. cbn beta iota. replace (sp + 0x10000 - 0x10000) with sp by lia.
    split; [exact Hs5|]. split_and!; [| |lia| | | |].
    + eapply fields_ext; [exact Hf3|]. intros a Ha. apply Hkeep, Hown3, Hinfo, Ha.
    + lia.
    + unfold PAGE_SIZE_4K in *. dlia.
    + intros a Ha. apply Hd4, Hdom3, Hm1. lia.
    + intros a Ha Hna. rewrite Hkeep by auto. rewrite Hout3 by done. by apply (kt_bytes _ _ _ Hk).
    + intros a Ha. by apply Hd4, Hdom3, (kt_dom _ _ _ Hk).
Qed.

Definition ready_fields (h : handoff) : list Z :=
  [BOOTINFO_MAGIC; BOOTINFO_VERSION; size_of_BootInfo; 0; 0; 0; 0; 0; KernelPhysicalBase (h_kernel h);
   KernelVirtualBase (h_kernel h); KernelSizeBytes (h_kernel h); h_stack h; KERNEL_STACK_PAGES * PAGE_SIZE_4K].

Lemma loaded_fits m k content hs : loaded m k content hs → kernel_fits k.
Proof.
  intros [_ (_ & Hb & Hlim) [[_ Hlow] [_ Hsz] (_ & Hhi & _) (v & _ & Hv)] _ _].
  unfold kernel_fits, u64, IDENTITY_MAP_LIMIT, KERNEL_VIRTUAL_BASE, KERNEL_MAX_SIZE_BYTES, PAGE_SIZE_2M in *. lia.
Qed.

(** From a loaded kernel to the page tables. *)
Lemma tables_phase_ok k content hs p top new s ps fs s' :
  stage new s ps fs s' → loaded (ram s') k content hs →
  (∀ a, KernelPhysicalBase k ≤ a < KernelPhysicalBase k + KernelSizeBytes k →
     owned (held (fw s')) a ∧ ¬ (p ≤ a < p + PAGE_SIZE_4K)) →
  fields_at (ram s') p (ready_fields (mkHandoff k p top 0)) →
  p mod PAGE_SIZE_4K = 0 → 0 < p → p + PAGE_SIZE_4K ≤ IDENTITY_MAP_LIMIT → mapped (ram s') p PAGE_SIZE_4K →
  (∀ a, p ≤ a < p + PAGE_SIZE_4K → owned (held (fw s')) a) →
  0x10000 < top ≤ IDENTITY_MAP_LIMIT → top mod PAGE_SIZE_4K = 0 →
  (∀ a, top - 0x10000 ≤ a < top → owned (held (fw s')) a ∧ is_Some (ram s' !! a)) →
  ∃ cr3 s2 new', BuildKernelPageTables (KernelPhysicalBase k) (KernelSizeBytes k) s' = Ret (cr3, s2) ∧ stage new' s ps fs s2 ∧
    (cr3 ≠ 0 → ∃ T row, prepared (mkHandoff k p top cr3) (ready_fields (mkHandoff k p top cr3)) content hs T row s2).
Proof.
  intros Hs Hl Hk Hf Hal Hp Hlim Hm Hown Htop Htal Hst.
  destruct (build_ok s' (KernelPhysicalBase k) (KernelSizeBytes k)) as (cr3 & s2 & T & Hrun & Hlive & (nw & Hr & Hnw & HT) & Hres);
    [apply Hs|apply Hs|].
  destruct (build_books _ _ _ _ _ Hrun) as [Hp2 Hf2].
  exists cr3, s2, (nw ++ new). split; [done|]. split.
  { eapply stage_trans; [exact Hs|]. split; [done|by rewrite Hp2; apply Hs|by rewrite Hf2; apply Hs|done]. }
  intros Hne. destruct (Hres Hne) as (idp & kp & kd & pds & Htab). exists T, (table_row cr3 idp kp kd pds).
  assert (Hkeep : ∀ a, owned (held (fw s')) a → ram s2 !! a = ram s' !! a) by apply (kt_bytes _ _ _ (re_kept _ _ _ Hr)).
  assert (Ho : ∀ a, owned (held (fw s')) a → owned (held (fw s2)) a) by (intros a Ha; apply (reaches_owned _ _ _ _ Hr); by right).
  pose proof (kt_dom _ _ _ (re_kept _ _ _ Hr)) as Hd.
  split; cbn [h_kernel h_info h_stack h_cr3].
  - eapply loaded_ext; [exact Hl|]. intros a Ha. by apply Hkeep, Hk.
  - eapply fields_ext; [exact Hf|]. intros a Ha. apply Hkeep, Hown. change size_of_BootInfo with 96 in Ha. unfold PAGE_SIZE_4K. lia.
  - split_and!; [done..| |auto]. by eapply mapped_dom.
  - split_and!; [exact (proj1 Htop)|exact (proj2 Htop)|done|]. intros a Ha. destruct (Hst a Ha). split; [auto|by apply Hd].
  - split; [done|]. by exists idp, kp, kd, pds.
  - intros a [Ha|(q & ws & Hq & Ha)]; cbn [h_kernel] in *; [destruct (Hk a Ha); auto|].
    assert (Hin : owned nw a).
    { exists q, 1. split; [apply Hnw; by eauto|]. unfold FRAME_SIZE, PAGE_SIZE_4K in *. lia. }
    split; [apply (reaches_owned _ _ _ _ Hr); by left|]. intros Hpa. by apply (re_fresh _ _ _ Hr a Hin), Hown.
Qed.

Lemma prepare_ok root new s ps fs s' :
  kernel_file_ok (F := F) → stage new s ps (root :: fs) s' →
  returns (prepare root) (λ o s2,
    match o with
    | None => ∃ new' fs', stage new' s ps fs' s2
    | Some h => ∃ new' content hs T row, stage new' s ps fs s2 ∧ prepared h (ready_fields h) content hs T row s2
    end) s'.
Proof.
  intros Hfile Hs. unfold prepare, returns. says Hs.
  destruct (load_kernel_ok root "\KERNEL.ELF" _ _ _ _ _ Hfile Hs) as (o & s1 & Hr1 & Ho). erewrite M_run by exact Hr1.
  destruct o as [k|]; [|says Ho; says Ho; stops]. destruct Ho as (content & hs & pa & n & Hs1 & Hl1 & Hpa1 & Hpa2).
  assert (Hown1 : ∀ a, KernelPhysicalBase k ≤ a < KernelPhysicalBase k + KernelSizeBytes k → owned (held (fw s1)) a).
  { intros a Ha. apply (stage_owned _ _ _ _ _ _ Hs1). left. apply owned_cons. left. cbn. lia. }
  pose proof (stage_refl _ _ _ _ _ Hs1) as H2. says H2. runs (stage_close root) H2.
  destruct (make_info_ok k _ _ _ _ _ H2 (loaded_fits _ _ _ _ Hl1)) as (oi & s4 & Hr4 & H4). erewrite M_run by exact Hr4.
  destruct oi as [p|]; [|pose proof (stage_trans _ _ _ _ _ _ _ _ _ Hs1 H4); stops].
  destruct H4 as (H4 & Hal & Hp & Hlim & Hm4 & Hf4 & Hk4).
  assert (Hpage : ∀ a, p ≤ a < p + PAGE_SIZE_4K → owned [(p, 1)] a) by (intros a Ha; exists p, 1; split; [by left|lia]).
  assert (Hinfo : ∀ a, p ≤ a < p + size_of_BootInfo → p ≤ a < p + PAGE_SIZE_4K)
    by (intros a; change size_of_BootInfo with 96; unfold PAGE_SIZE_4K; lia).
  destruct (make_stack_ok p (first_fields k) _ _ _ _ _ H4) as (os & s5 & Hr5 & H5);
    [intros a Ha; apply Hpage, Hinfo, Ha|intros a Ha; apply Hm4, Hinfo, Ha|exact Hf4|].
  erewrite M_run by exact Hr5.
  destruct os as [top|]; [|pose proof (stage_trans _ _ _ _ _ _ _ _ _ Hs1 H5); stops].
  destruct H5 as (H5 & Hf5 & Htop & Htal & Hst5 & Hk5 & Hd5).
  assert (Hown2 : ∀ a, owned (held (fw s1)) a → owned (held (fw st1)) a) by (intros a Ha; apply (stage_owned _ _ _ _ _ _ H2); by right).
  assert (Hown4 : ∀ a, owned (held (fw s1)) a → owned (held (fw s4)) a) by (intros a Ha; apply (stage_owned _ _ _ _ _ _ H4); by right).
  pose proof (stage_trans _ _ _ _ _ _ _ _ _ Hs1 H5) as Hs5.
  destruct (tables_phase_ok k content hs p top _ _ _ _ _ Hs5) as (cr3 & s6 & new6 & Hr6 & H6 & Hres); try done.
  - eapply loaded_ext; [exact Hl1|]. intros a Ha. destruct (Hk4 a (Hown2 a (Hown1 a Ha))) as [Hna Ha4].
    rewrite Hk5 by (auto || (intros Hin; apply Hna; auto)). rewrite Ha4. apply (stage_bytes _ _ _ _ _ _ H2), Hown1, Ha.
  - intros a Ha. split; [|by apply Hk4, Hown2, Hown1]. apply (stage_owned _ _ _ _ _ _ H5). right. by apply Hown1.
  - intros a Ha. by apply Hd5, Hm4.
  - intros a Ha. apply (stage_owned _ _ _ _ _ _ H5). left. change (owned ([(top - 0x10000, 16)] ++ [(p, 1)]) a).
    apply pages_app. right. by apply Hpage.
  - intros a Ha. split; [|by apply Hst5]. apply (stage_owned _ _ _ _ _ _ H5). left. apply owned_cons. left.
    cbn [fst snd]. unfold PAGE_SIZE_4K. lia.
  - erewrite M_run by exact Hr6. destruct (Z.eqb_spec cr3 0) as [->|Hne]; [says H6; stops|].
    destruct (Hres Hne) as (T & row & Hpr). pose proof (stage_refl _ _ _ _ _ H6) as H7. says H7.
    eexists _, _. split; [reflexivity|]. cbn beta iota. eexists _, content, hs, T, row.
    split; [exact (stage_trans _ _ _ _ _ _ _ _ _ H6 H7)|]. eapply prepared_kept; [exact Hpr|apply H7].
Qed.
End prepare.

(** * The last words *)
Definition farewell_text (entry newCr3 : Z) : list Z :=
  (CRLF ++ ln "NeoastrenOS Bootloader - Phase 2 Part 4") ++
  ln "ExitBootServices succeeded. Boot Services have been terminated." ++
  text "BootInfo populated. Jumping to kernel entry point: 0x" ++ hex_digits 16 entry ++ CRLF ++
  text "New CR3: 0x" ++ hex_digits 16 newCr3 ++ CRLF ++
  ln "This is the last line the bootloader itself prints." ++ ln "Control transfers to the kernel now." ++ CRLF.

Section farewell.
Context {L : Line} (bound fuel : nat) (Hfuel : (bound + 2 < fuel)%nat).

Lemma writes_cstr s : bool_decide (0 ∈ s) = false → writes bound (SerialWriteString fuel (s ++ [0])) tt s.
Proof using Hfuel.
  intros Hs%bool_decide_eq_false u Hu. rewrite write_string_same by done. by apply writes_str.
Qed.
Lemma writes_chex v : u64 v → writes bound (SerialWriteHex64 fuel v) tt (hex_digits 16 v).
Proof using Hfuel. intros Hv u Hu. rewrite write_hex_same by apply Hv. by apply writes_hex. Qed.

Lemma farewell_ok entry cr3 u : (busy u ≤ bound)%nat → (∀ n, (delay n ≤ bound)%nat) → u64 entry → u64 cr3 →
  ∃ u', farewell fuel entry cr3 u = Ret (tt, u') ∧ sending bound u' ∧ sent u' = sent u ++ expand (farewell_text entry cr3).
Proof using Hfuel.
  intros Hb Hd He Hc. destruct (init_sending bound u Hb Hd) as (u1 & Hi & Hu1 & Hs1). unfold farewell.
  assert (Hi' : SerialInit u = Ret (tt, u1)) by exact Hi. erewrite M_run by exact Hi'.
  match goal with |- context [?k u1] => assert (Hw : writes bound k tt (farewell_text entry cr3)) end.
  { unfold farewell_text. rewrite (app_assoc CRLF (ln _) [0]), (app_assoc (ln "Control transfers to the kernel now.") CRLF [0]).
    repeat lazymatch goal with
    | |- writes _ (mbind _ _) _ _ => eapply writes_bind
    | |- writes _ (SerialWriteHex64 _ _) _ _ => apply writes_chex; done
    | |- writes _ (SerialWriteString _ _) _ _ => apply writes_cstr; reflexivity
    end. }
  destruct (Hw u1 Hu1) as (u' & Hr & Hu' & Hs' & _). exists u'. split; [done|]. split; [done|]. by rewrite Hs', Hs1.
Qed.
End farewell.
