(* ===== verification/BootHandoff.v ===== *)
(** What the bootloader hands to the kernel.

    [handover] is the state at the jump, in the kernel's own terms: the
    structure it will dereference, the memory map its frame allocator reads,
    the translations the processor makes, the image and the stack.
    [efi_main_ok] runs [EfiMain] on any firmware that keeps the promises of
    [FirmwareLaws]. *)
From Stdlib Require Import String.
From stdpp Require Import base numbers option gmap list_numbers list.
From S2P Require Import Prelude PhysAddr VirtAddr PageTableEntry Memory BootInfo MemoryMap FrameAllocator FrameInit Vmm PageWalk VmmSpec Serial BootDefs Firmware BootPaging BootTables BootMemoryMap Elf KernelLoader BootSerial Bootloader BootloaderTheorems.

(** The fields at the jump. *)
Definition final_info (h : handoff) (map : BOOT_MEMORY_MAP) : BootInfo :=
  mkBootInfo BOOTINFO_MAGIC BOOTINFO_VERSION size_of_BootInfo (Map map) (MapSizeBytes map) (DescriptorSize map)
    (DescriptorVersion map) (EntryCount map) (KernelPhysicalBase (h_kernel h)) (KernelVirtualBase (h_kernel h))
    (KernelSizeBytes (h_kernel h)) (h_stack h) (KERNEL_STACK_PAGES * PAGE_SIZE_4K).

(** Memory [m] at the jump with [cr3], [entry], [info] and [stack], the pages
    [hs] being the loader's. *)
Record handover (m : mem) (mine : list pages) (cr3 entry info stack : Z) (bi : BootInfo) (es : list MemoryMapEntry)
    (row content : list Z) (hds : list (Z * segment)) : Prop := {
  hd_info : info mod 8 = 0 ∧ (0 < info ∧ info + size_of_BootInfo ≤ IDENTITY_MAP_LIMIT) ∧ deref (λ a, m !! a) info = Some bi ∧ is_valid bi = true;
  hd_map : (∀ e, e ∈ es → conventional e → PhysAddr.as_u64 (physical_start e) ≠ 0) → handoff_ok (λ a, m !! a) bi es;
  hd_free : ∀ e a, e ∈ es → typ e = EFI_CONVENTIONAL_MEMORY → covers e a → ¬ owned mine a ∧ is_Some (m !! a);
  hd_walk : ∀ v, canonical v → resolve (walk m cr3 (indices (VirtAddr.new v))) (VirtAddr.new v) =
    PhysAddr.new <$> boot_mapping (kernel_physical_base bi) (Z.to_nat (kernel_size_bytes bi / PAGE_SIZE_2M)) v;
  hd_tables : (∀ t, t ∈ row → ∀ a, t ≤ a < t + FRAME_SIZE → owned mine a) ∧ head row = Some cr3 ∧
    ∀ free, (∀ t, t ∈ row → t < IDENTITY_MAP_LIMIT ∧ t / FRAME_SIZE ∉ free) → tables_ok m cr3 free;
  hd_kernel : kernel_physical_base bi mod PAGE_SIZE_2M = 0 ∧ kernel_size_bytes bi mod PAGE_SIZE_2M = 0 ∧
    0 < kernel_physical_base bi ∧ 0 < kernel_size_bytes bi ≤ KERNEL_MAX_SIZE_BYTES ∧
    kernel_physical_base bi + kernel_size_bytes bi ≤ IDENTITY_MAP_LIMIT;
  hd_image : elf_ok content hds ∧ laid_out content hds (kernel_virtual_base bi) (kernel_size_bytes bi) ∧ e_entry content = Ret entry ∧
    ∀ o, 0 ≤ o < kernel_size_bytes bi →
      m !! (kernel_physical_base bi + o) = Some (image_byte content (kernel_virtual_base bi) (loads hds) o);
  hd_stack : stack = kernel_stack_top bi ∧ stack ≤ IDENTITY_MAP_LIMIT ∧ stack mod PAGE_SIZE_4K = 0 ∧
    kernel_stack_size_bytes bi = 0x10000 ∧
    ∀ a, stack - 0x10000 ≤ a < stack → owned mine a ∧ is_Some (m !! a);
}.

Section handover.
Context {F : Type} {BS : BootServices F} {FL : FirmwareLaws F}.
Implicit Types (s : efi F).

(** The map in the kernel's terms. *)
Lemma map_handoff (m : mem) mine h map es :
  bytes_ok m → map_in m mine map es →
  (∀ e, e ∈ es → conventional e → PhysAddr.as_u64 (physical_start e) ≠ 0) →
  handoff_ok (λ a, m !! a) (final_info h map) es.
Proof.
  intros Hb [[Hc1 Hc2] (Hs & Hd & Hv) (Hm0 & Hmlim & Hown) Hr Hf] Hnn.
  assert (Hq : EntryCount map * DescriptorSize map ≤ MapSizeBytes map).
  { rewrite Hc2, Z.mul_comm. apply Z.mul_div_le. lia. }
  assert (Hrd : reads_as (λ a, m !! a) (final_info h map) es).
  { split; [done|]. intros k Hk. apply lookup_lt_is_Some in Hk as [e He]. rewrite He. by apply Hr. }
  assert (Hby : ∀ i b, m !! i = Some b → 0 ≤ b < 256) by (intros i b Hi; by apply (Hb i b)).
  assert (Hcov : ∀ e en i, e ∈ es → validate e = Some en → PhysAddr.as_u64 (physical_start e) ≤ i < en → covers e i).
  { intros e en i He Hval Hi. pose proof (Forall_elem _ _ _ (reads_as_entry_ok _ _ _ Hby Hrd) He) as Hok.
    destruct (validate_Some e en Hok Hval) as (Hst & Hen & _). unfold covers. change PAGE_SIZE_4K with FRAME_SIZE. lia. }
  split; cbn [final_info memory_map_entry_count memory_map_descriptor_size memory_map_size_bytes memory_map_phys_addr]; try done.
  - unfold map_sized. cbn. pose proof (Z.div_pos (MapSizeBytes map) (DescriptorSize map)). lia.
  - assert (EntryCount map ≤ MapSizeBytes map); [|lia]. rewrite Hc2. apply Z.div_le_upper_bound; nia.
  - lia.
  - intros e en i He Ht Hval Hi Hbuf. destruct (Hf e i He Ht (Hcov e en i He Hval Hi)) as [Hno _]. by apply Hno, Hown.
  - intros e en i He Ht Hval Hi _. by apply (Hf e i He Ht), (Hcov e en).
Qed.

(** The page count of a 2 MiB-aligned image. *)
Lemma count_exact size : 0 < size → size mod PAGE_SIZE_2M = 0 →
  kernel_page_count size = size / PAGE_SIZE_2M ∧ size / PAGE_SIZE_2M * PAGE_SIZE_2M = size ∧ 0 < size / PAGE_SIZE_2M.
Proof.
  intros Hs Hm. unfold kernel_page_count, PAGE_SIZE_2M in *. destruct (Z.eqb_spec (size / 0x200000) 0); split_and!; (done || dlia).
Qed.

Lemma handover_ok h map es content hds T row s2 :
  bytes_ok (ram s2) →
  prepared h [BOOTINFO_MAGIC; BOOTINFO_VERSION; size_of_BootInfo; Map map; MapSizeBytes map; DescriptorSize map;
    DescriptorVersion map; EntryCount map; KernelPhysicalBase (h_kernel h); KernelVirtualBase (h_kernel h);
    KernelSizeBytes (h_kernel h); h_stack h; KERNEL_STACK_PAGES * PAGE_SIZE_4K] content hds T row s2 →
  map_in (ram s2) (held (fw s2)) map es →
  handover (ram s2) (held (fw s2)) (h_cr3 h) (EntryPointVirtual (h_kernel h)) (h_info h) (h_stack h)
    (final_info h map) es row content hds.
Proof.
  intros Hb [Hl Hf (Hi1 & Hi2 & Hi3 & _ & _) (Hs1 & Hs2 & Hs3) (HT & idp & kp & kd & pds & -> & Htab) Hg] Hmap.
  pose proof Hl as [Helf (Hb1 & Hb2 & Hb3) Hlay Hent Him]. pose proof Hlay as [[Hlo _] [_ Hsz] (_ & _ & Hmod) _].
  destruct (count_exact (KernelSizeBytes (h_kernel h))) as (Hc1 & Hc2 & Hc3); [lia|done|]. rewrite Hc1 in Htab.
  assert (Hhi : KernelPhysicalBase (h_kernel h) + Z.of_nat (Z.to_nat (KernelSizeBytes (h_kernel h) / PAGE_SIZE_2M)) * PAGE_SIZE_2M ≤ 2 ^ 52).
  { rewrite Z2Nat.id by lia. unfold IDENTITY_MAP_LIMIT in *. lia. }
  split; cbn [final_info kernel_physical_base kernel_size_bytes kernel_virtual_base kernel_stack_top kernel_stack_size_bytes].
  - change size_of_BootInfo with 96. split_and!; [unfold PAGE_SIZE_4K in *; dlia|done|unfold PAGE_SIZE_4K in *; lia|by apply fields_deref|done].
  - by eapply map_handoff.
  - intros e a He Ht Ha. by apply (mp_free _ _ _ _ Hmap e a).
  - intros v Hv. eapply boot_walk; [exact HT|exact Htab|done|lia|exact Hhi|done].
  - split_and!; [|done|].
    + intros t Ht a Ha. apply list_elem_of_lookup in Ht as [n Hn].
      destruct (row_table _ T _ _ _ _ _ _ _ HT Htab Hb1 ltac:(lia) Hhi n t Hn) as [ws Hws]. apply Hg. right. by exists t, ws.
    + intros free Hfree. eapply loader_tables_ok; [exact HT|exact Htab|done|lia|exact Hhi|done].
  - split_and!; [done|done|done|lia|lia|done].
  - split_and!; done.
  - split_and!; [done|lia|done|done|]. exact Hs3.
Qed.

(** ** [EfiMain] *)
Context {L : Line} (bound fuel : nat) (Hfuel : (bound + 2 < fuel)%nat).

Lemma on_efi_run {A} (c : M (efi F) A) s u a s' : c s = Ret (a, s') → on_efi c (s, u) = Ret (a, (s', u)).
Proof using Type. clear Hfuel. intros Hr. unfold on_efi. by rewrite Hr. Qed.
Lemma on_port_run {A} (c : M uart A) (s : efi F) u a u' : c u = Ret (a, u') → on_port c (s, u) = Ret (a, (s, u')).
Proof using Type. clear Hfuel. intros Hr. unfold on_port. by rewrite Hr. Qed.

Lemma halt_ok new s ps fs s' u : stage new s ps fs s' →
  ∃ s2, halt (s', u) = Ret (Halt, (s2, u)) ∧ stage new s ps fs s2.
Proof using Type.
  clear Hfuel bound fuel. intros Hs. destruct (stage_output (CRLF ++ ln "Halting.") _ _ _ _ _ Hs) as (s2 & Hr & Hs2).
  exists s2. split; [|done]. unfold halt. by erewrite M_run by (apply on_efi_run, Hr).
Qed.

(** The last phase: the map, the exit, the fields and the farewell. *)
Lemma exit_phase_ok h content hds T row new s ps fs s' u :
  stage new s ps fs s' → bytes_ok (ram s') → prepared h (ready_fields h) content hds T row s' →
  (busy u ≤ bound)%nat → (∀ n, (delay n ≤ bound)%nat) →
  ∃ om s2 new', ExitBootServicesWithRetry s' = Ret (om, s2) ∧ pools s2 = ps ∧
    match om with
    | None => stage new' s ps fs s2
    | Some map => live s2 = false ∧ files s2 = fs ∧ ∃ es m u',
        put_fields (h_info h) [(3%nat, Map map); (4%nat, MapSizeBytes map); (5%nat, DescriptorSize map);
          (6%nat, DescriptorVersion map); (7%nat, EntryCount map)] s2 = Ret (tt, with_ram s2 m) ∧
        farewell fuel (EntryPointVirtual (h_kernel h)) (h_cr3 h) u = Ret (tt, u') ∧ (busy u' ≤ bound)%nat ∧
        sent u' = sent u ++ expand (farewell_text (EntryPointVirtual (h_kernel h)) (h_cr3 h)) ∧ bytes_ok m ∧
        fw_ok (fw s2) m ∧ fw_map (fw s2) es ∧
        handover m (held (fw s2)) (h_cr3 h) (EntryPointVirtual (h_kernel h)) (h_info h) (h_stack h) (final_info h map) es row content hds
    end.
Proof using Hfuel.
  intros Hs Hb Hpr Hbusy Hdel. pose proof (stage_refl _ _ _ _ _ Hs) as [Hr0 _ _ Hlive].
  destruct (exit_loop_ok MAX_EXIT_ATTEMPTS [] s' s' Hr0 Hlive) as (om & s2 & Hrun & Hom).
  destruct (exit_books _ _ _ Hrun) as [Hp2 Hf2]. rewrite (sg_pools _ _ _ _ _ Hs) in Hp2. rewrite (sg_files _ _ _ _ _ Hs) in Hf2.
  destruct om as [map|].
  2: { exists None, s2, ([] ++ new). split; [done|]. split; [done|]. destruct Hom as [Hl2 Hr2].
       eapply stage_trans; [exact Hs|]. by split. }
  destruct Hom as (Hl2 & pg & es & Hr2 & Hpg & Hmap & Hfmap). pose proof (prepared_kept _ _ _ _ _ _ _ _ _ Hpr Hr2) as Hpr2.
  pose proof Hpr2 as [Hl Hf (_ & _ & _ & Him & _) _ (HT & idp & kp & kd & pds & _ & Htab) _].
  pose proof (pr_info _ _ _ _ _ _ _ Hpr) as (_ & _ & _ & _ & Hio).
  assert (Hin : ∀ a, h_info h ≤ a < h_info h + size_of_BootInfo → h_info h ≤ a < h_info h + PAGE_SIZE_4K)
    by (intros a; change size_of_BootInfo with 96; unfold PAGE_SIZE_4K; lia).
  pose proof Hmap as [[Hc1 Hc2] (Hms & Hmd & Hmv) (Hm0 & Hmlim & _) _ _].
  assert (Hec : u64 (EntryCount map)).
  { rewrite Hc2. unfold u64. split; [apply Z.div_pos; lia|]. apply Z.div_lt_upper_bound; nia. }
  destruct (put_fields_run [(3%nat, Map map); (4%nat, MapSizeBytes map); (5%nat, DescriptorSize map);
    (6%nat, DescriptorVersion map); (7%nat, EntryCount map)] s2 (h_info h) (ready_fields h)) as (m & Hput & Hfm & Hout & Hdom & Hbm).
  { intros a Ha. apply Him, Hin, Ha. } { done. }
  { fit_all; cbn; try exact Hec; unfold IDENTITY_MAP_LIMIT in *; lia. }
  destruct (farewell_ok bound fuel Hfuel (EntryPointVirtual (h_kernel h)) (h_cr3 h) u Hbusy Hdel) as (u' & Hfw & Hsending & Hsent).
  { destruct Hl as [_ _ [[_ Hlow] _ (_ & Hhi & _) (v & Hv & Hvr)] He _]. rewrite He in Hv. injection Hv as <-.
    unfold u64, KERNEL_VIRTUAL_BASE in *. lia. }
  { destruct (ti_addr _ _ _ (HT _ _ (bt_pml4 _ _ _ _ _ _ _ _ Htab))) as [_ Hcr]. unfold u64. lia. }
  exists (Some map), s2, new. split; [done|]. split; [done|]. split; [done|]. split; [done|]. exists es, m, u'.
  assert (Hbm' : bytes_ok m) by (apply Hbm, (kt_ok _ _ _ (re_kept _ _ _ Hr2)), Hb).
  split; [done|]. split; [done|]. split; [apply Hsending|]. split; [done|]. split; [done|]. split; [|split; [done|]].
  { eapply fl_write; [apply Hr2| |done|done]. intros a Ha. apply Hout. intros Hia. apply Ha.
    apply (reaches_owned _ _ _ _ Hr2). right. by apply Hio, Hin. }
  change m with (ram (with_ram s2 m)). change (held (fw s2)) with (held (fw (with_ram s2 m))). eapply handover_ok; [done| |].
  - by eapply prepared_fields.
  - eapply map_in_ext; [exact Hmap| |done]. intros a Ha. apply Hout. intros Hia.
    apply (re_fresh _ _ _ Hr2 a); [|by apply Hio, Hin]. apply owned_cons. left. cbn [fst snd]. lia.
Qed.

(** The whole run. *)
Lemma efi_main_ok ih s u :
  fw_ok (fw s) (ram s) → live s = true → pools s = [] → files s = [] → bytes_ok (ram s) → kernel_file_ok (F := F) →
  (busy u ≤ bound)%nat → (∀ n, (delay n ≤ bound)%nat) →
  ∃ e s' u', EfiMain fuel ih (s, u) = Ret (e, (s', u')) ∧ pools s' = [] ∧
    match e with
    | Halt => live s' = true
    | Jump cr3 entry info stack => live s' = false ∧ files s' = [] ∧ bytes_ok (ram s') ∧ (busy u' ≤ bound)%nat ∧
        sent u' = sent u ++ expand (farewell_text entry cr3) ∧
        fw_ok (fw s') (ram s') ∧ ∃ bi es row content hds, fw_map (fw s') es ∧
          handover (ram s') (held (fw s')) cr3 entry info stack bi es row content hds
    end.
Proof using Hfuel.
  intros Hok Hl Hp Hf Hb Hfile Hbusy Hdel. assert (Hs : stage [] s [] [] s) by (split; [by apply reaches_refl|done..]).
  assert (Hhalt : ∀ new fs s' u, stage new s [] fs s' → ∃ e s2 u2, halt (s', u) = Ret (e, (s2, u2)) ∧ e = Halt ∧ pools s2 = [] ∧ live s2 = true).
  { intros new fs s' u0 H. destruct (halt_ok _ _ _ _ _ u0 H) as (s2 & Hr & Hs2). exists Halt, s2, u0. split; [done|]. split; [done|]. by destruct Hs2. }
  unfold EfiMain. destruct (open_root_ok ih _ _ _ _ _ Hs) as (orr & s1 & Hr1 & H1). erewrite M_run by (apply on_efi_run, Hr1).
  destruct orr as [root|].
  2: { destruct H1 as (fs' & H1). destruct (Hhalt _ _ _ u H1) as (e & s2 & u2 & Hr & -> & Hp2 & Hl2). by exists Halt, s2, u2. }
  destruct (prepare_ok root _ _ _ _ _ Hfile H1) as (oh & s2 & Hr2 & H2). erewrite M_run by (apply on_efi_run, Hr2).
  destruct oh as [h|].
  2: { destruct H2 as (nw & fs' & H2). destruct (Hhalt _ _ _ u H2) as (e & s3 & u3 & Hr & -> & Hp3 & Hl3). by exists Halt, s3, u3. }
  destruct H2 as (new & content & hds & T & row & H2 & Hpr). pose proof (stage_refl _ _ _ _ _ H2) as H3.
  do 3 (match goal with |- context [mbind _ (on_efi (OutputString ?t)) (?si, u)] =>
    let s3 := fresh "st" in let Hr := fresh "Hr" in let H := fresh "Hst" in
    destruct (stage_output t _ _ _ _ _ H3) as (s3 & Hr & H); erewrite M_run by (apply on_efi_run, Hr);
    clear Hr H3; rename H into H3 end).
  pose proof (prepared_kept _ _ _ _ _ _ _ _ _ Hpr (sg_reaches _ _ _ _ _ H3)) as Hpr3.
  pose proof (stage_trans _ _ _ _ _ _ _ _ _ H2 H3) as H4.
  destruct (exit_phase_ok h content hds T row _ _ _ _ _ u H4) as (om & s5 & nw & Hr5 & Hp5 & H5); try done.
  { apply (kt_ok _ _ _ (re_kept _ _ _ (sg_reaches _ _ _ _ _ H4))), Hb. }
  erewrite M_run by (apply on_efi_run, Hr5). destruct om as [map|].
  - destruct H5 as (Hl5 & Hf5 & es & m & u' & Hput & Hfw & Hbusy' & Hsent & Hbm & Hokm & Hfmap & Hho).
    erewrite M_run by (apply on_efi_run, Hput). erewrite M_run by (apply on_port_run, Hfw).
    eexists _, _, u'. split; [reflexivity|]. do 7 (split; [done|]).
    by exists (final_info h map), es, row, content, hds.
  - match goal with |- context [mbind _ (on_efi (OutputString ?t)) _] => destruct (stage_output t _ _ _ _ _ H5) as (s6 & Hr6 & H6) end.
    erewrite M_run by (apply on_efi_run, Hr6). destruct (Hhalt _ _ _ u H6) as (e & s7 & u7 & Hr & -> & Hp7 & Hl7). by exists Halt, s7, u7.
Qed.
End handover.
