(* ===== verification/KernelStub.v ===== *)
(** The kernel stub of the bootloader's test: [tests/kernel_stub/kernel_stub.c].

    The program the bootloader is tested with in place of the kernel: it
    brings the serial port up, checks the [BOOT_INFO] it is given as the kernel
    would, and prints its fields.  It reads memory and writes nothing but the
    port; its end is the endless [hlt] loop, so [KernelEntry] is a run on the
    port that returns there. *)
From Stdlib Require Import String.
From stdpp Require Import base numbers option gmap list_numbers list.
From S2P Require Import Prelude PhysAddr VirtAddr PageTableEntry Memory BootInfo MemoryMap FrameAllocator FrameInit Vmm PageWalk VmmSpec Serial BootDefs Firmware BootPaging BootTables BootMemoryMap Elf KernelLoader BootSerial Bootloader BootloaderTheorems BootHandoff.

Section code.
Context {L : Line} (fuel : nat).
(** The memory the stub finds, and the pointer in RDI. *)
Context (rd : Z → option Z) (info : Z).

(** [info->Field], by the position of the field; the pointer is aligned for
    the structure. *)
Definition info_field (k : nat) : M uart Z :=
  lift (if info mod 8 =? 0 then defined (load_field rd info k) else Undef).
Definition print (s : list Z) : M uart unit := SerialWriteString fuel (s ++ [0]).

(** The fields, each after its label. *)
Definition print_fields : M uart unit :=
  _ ← print (text "Kernel physical base   : 0x");
  v ← info_field 8; _ ← SerialWriteHex64 fuel v;
  _ ← print (CRLF ++ text "Kernel virtual base    : 0x");
  v ← info_field 9; _ ← SerialWriteHex64 fuel v;
  _ ← print (CRLF ++ text "Kernel size (bytes)    : 0x");
  v ← info_field 10; _ ← SerialWriteHex64 fuel v;
  _ ← print (CRLF ++ text "Kernel stack top       : 0x");
  v ← info_field 11; _ ← SerialWriteHex64 fuel v;
  _ ← print (CRLF ++ text "Kernel stack size      : 0x");
  v ← info_field 12; _ ← SerialWriteHex64 fuel v;
  _ ← print (CRLF ++ text "Memory map entries     : 0x");
  v ← info_field 7; _ ← SerialWriteHex64 fuel v;
  _ ← print (CRLF ++ text "Memory map desc. size  : 0x");
  v ← info_field 5; _ ← SerialWriteHex64 fuel v;
  print (CRLF ++ CRLF).

(** Returning is [haltLoop]. *)
Definition KernelEntry : M uart unit :=
  _ ← SerialInit;
  _ ← print (CRLF ++ ln "================================================");
  _ ← print (ln "NeoastrenOS Kernel Stub - Phase 2 Part 4 test fixture");
  _ ← print (ln "================================================");
  v ← info_field 0;
  if negb (v =? BOOTINFO_MAGIC) then print (ln "FATAL: BootInfo magic mismatch - refusing to continue.") else
  v ← info_field 1;
  if negb (v =? BOOTINFO_VERSION) then print (ln "FATAL: BootInfo version mismatch - refusing to continue.") else
  v ← info_field 2;
  if negb (v =? size_of_BootInfo) then print (ln "FATAL: BootInfo size mismatch - refusing to continue.") else
  _ ← print (ln "[OK] BootInfo magic, version, and size validated." ++ CRLF);
  _ ← print_fields;
  _ ← print (ln "PHASE 2 COMPLETE: kernel entry reached with valid BootInfo.");
  print (ln "Halting (this is a Phase 2 Part 4 test fixture, not the real kernel).").
End code.

(** ** What it prints *)
Definition stub_banner : list Z :=
  (CRLF ++ ln "================================================") ++
  ln "NeoastrenOS Kernel Stub - Phase 2 Part 4 test fixture" ++ ln "================================================".
Definition stub_fields (bi : BootInfo) : list Z :=
  text "Kernel physical base   : 0x" ++ hex_digits 16 (kernel_physical_base bi) ++
  (CRLF ++ text "Kernel virtual base    : 0x") ++ hex_digits 16 (kernel_virtual_base bi) ++
  (CRLF ++ text "Kernel size (bytes)    : 0x") ++ hex_digits 16 (kernel_size_bytes bi) ++
  (CRLF ++ text "Kernel stack top       : 0x") ++ hex_digits 16 (kernel_stack_top bi) ++
  (CRLF ++ text "Kernel stack size      : 0x") ++ hex_digits 16 (kernel_stack_size_bytes bi) ++
  (CRLF ++ text "Memory map entries     : 0x") ++ hex_digits 16 (memory_map_entry_count bi) ++
  (CRLF ++ text "Memory map desc. size  : 0x") ++ hex_digits 16 (memory_map_descriptor_size bi) ++ CRLF ++ CRLF.
Definition stub_complete : list Z :=
  ln "PHASE 2 COMPLETE: kernel entry reached with valid BootInfo." ++
  ln "Halting (this is a Phase 2 Part 4 test fixture, not the real kernel).".

(** The first check that fails decides the complaint. *)
Definition stub_verdict (bi : BootInfo) : list Z :=
  if decide (magic bi ≠ BOOTINFO_MAGIC) then ln "FATAL: BootInfo magic mismatch - refusing to continue." else
  if decide (version bi ≠ BOOTINFO_VERSION) then ln "FATAL: BootInfo version mismatch - refusing to continue." else
  if decide (struct_size_bytes bi ≠ size_of_BootInfo) then ln "FATAL: BootInfo size mismatch - refusing to continue." else
  (ln "[OK] BootInfo magic, version, and size validated." ++ CRLF) ++ stub_fields bi ++ stub_complete.

Lemma stub_verdict_valid bi : is_valid bi = true →
  stub_verdict bi = (ln "[OK] BootInfo magic, version, and size validated." ++ CRLF) ++ stub_fields bi ++ stub_complete.
Proof.
  unfold is_valid, stub_verdict. rewrite !andb_true_iff, !Z.eqb_eq. intros [[Hm Hv] Hs].
  rewrite !decide_False by (intros Hn; contradiction Hn). reflexivity.
Qed.

(** The fields of a structure that can be dereferenced. *)
Definition fields_of (bi : BootInfo) : list Z :=
  [magic bi; version bi; struct_size_bytes bi; memory_map_phys_addr bi; memory_map_size_bytes bi;
   memory_map_descriptor_size bi; memory_map_descriptor_version bi; memory_map_entry_count bi; kernel_physical_base bi;
   kernel_virtual_base bi; kernel_size_bytes bi; kernel_stack_top bi; kernel_stack_size_bytes bi].

Lemma deref_fields rd ptr bi k v : deref rd ptr = Some bi → fields_of bi !! k = Some v → load_field rd ptr k = Some v.
Proof.
  intros Hd Hk. unfold deref in Hd. repeat (let f := fresh "f" in let E := fresh "E" in apply bind_Some in Hd as (f & E & Hd)).
  injection Hd as <-. do 13 (destruct k as [|k]; [cbn in Hk; by injection Hk as <-|]). done.
Qed.

Section stub.
Context {L : Line} (bound fuel : nat) (Hfuel : (bound + 2 < fuel)%nat).
Context (rd : Z → option Z) (info : Z) (bi : BootInfo).
Context (Hbytes : ∀ i b, rd i = Some b → 0 ≤ b < 256) (Hal : info mod 8 = 0) (Hbi : deref rd info = Some bi).

Lemma writes_field k v : fields_of bi !! k = Some v → writes bound (info_field rd info k) v [].
Proof using Hal Hbi.
  intros Hk u Hu. destruct (writes_ret bound v u Hu) as (u' & Hr & H). exists u'. split; [|done]. rewrite <- Hr.
  unfold info_field. rewrite Hal, Z.eqb_refl. by rewrite (deref_fields _ _ _ _ _ Hbi Hk).
Qed.
Lemma field_u64 k v : fields_of bi !! k = Some v → u64 v.
Proof using Hbytes Hbi.
  clear Hfuel bound fuel. intros Hk. pose proof (deref_fields _ _ _ _ _ Hbi Hk) as Hl. unfold load_field in Hl.
  apply bind_Some in Hl as (off & _ & Hl). apply bind_Some in Hl as (sz & Hsz & Hl).
  apply load_le_range in Hl; [|done]. assert (Hle : 0 ≤ sz ≤ 8).
  { clear Hl. apply list_elem_of_lookup_2 in Hsz. revert sz Hsz. apply Forall_forall. repeat constructor; lia. }
  unfold u64. rewrite Z2Nat.id in Hl by lia. pose proof (Z.pow_le_mono_r 2 (8 * sz) 64). lia.
Qed.
Lemma writes_print s : bool_decide (0 ∈ s) = false → writes bound (print fuel s) tt s.
Proof using Hfuel. apply writes_cstr, Hfuel. Qed.
Lemma writes_field_hex {B} k v (c : M uart B) b s : fields_of bi !! k = Some v → writes bound c b s →
  writes bound (v ← info_field rd info k; _ ← SerialWriteHex64 fuel v; c) b (hex_digits 16 v ++ s).
Proof using All.
  intros Hk Hc. change (hex_digits 16 v ++ s) with ([] ++ hex_digits 16 v ++ s). eapply writes_bind; [by apply writes_field|].
  eapply writes_bind; [apply writes_chex; [done|by eapply field_u64]|done].
Qed.

Lemma print_fields_writes : writes bound (print_fields fuel rd info) tt (stub_fields bi).
Proof using All.
  unfold print_fields, stub_fields.
  repeat lazymatch goal with
  | |- writes _ (mbind _ (print _ _)) _ _ => eapply writes_bind; [by apply writes_print|]
  | |- writes _ (mbind _ (info_field _ _ _)) _ _ => apply writes_field_hex; [done|]
  | |- writes _ (print _ _) _ _ => by apply writes_print
  end.
Qed.

(** Checking a field: nothing is printed. *)
Lemma writes_check {B} k v (c : Z → M uart B) b s : fields_of bi !! k = Some v → writes bound (c v) b s →
  writes bound (v ← info_field rd info k; c v) b s.
Proof using Hal Hbi. intros Hk Hc. change s with ([] ++ s). eapply writes_bind; [by apply writes_field|done]. Qed.
Lemma writes_unless {B} v w (c d : M uart B) b s t : (v ≠ w → writes bound c b s) → writes bound d b t →
  writes bound (if negb (v =? w) then c else d) b (if decide (v ≠ w) then s else t).
Proof using Type. clear Hfuel. intros Hc Hd. destruct (Z.eqb_spec v w); case_decide; [done|done|by apply Hc|done]. Qed.

Lemma kernel_entry_ok u : (busy u ≤ bound)%nat → (∀ n, (delay n ≤ bound)%nat) →
  ∃ u', KernelEntry fuel rd info u = Ret (tt, u') ∧ sending bound u' ∧ sent u' = sent u ++ expand (stub_banner ++ stub_verdict bi).
Proof using All.
  intros Hb Hd. destruct (init_sending bound u Hb Hd) as (u1 & Hi & Hu1 & Hs1). unfold KernelEntry.
  assert (Hi' : SerialInit u = Ret (tt, u1)) by exact Hi. erewrite M_run by exact Hi'.
  match goal with |- context [?k u1] => assert (Hw : writes bound k tt (stub_banner ++ stub_verdict bi)) end.
  { eapply writes_eq.
    - repeat lazymatch goal with
      | |- writes _ (mbind _ (print _ _)) _ _ => eapply writes_bind; [by apply writes_print|]
      | |- writes _ (mbind _ (info_field _ _ _)) _ _ => eapply writes_check; [reflexivity|]
      | |- writes _ (if negb _ then _ else _) _ _ => apply writes_unless; [intros _|]
      | |- writes _ (mbind _ (print_fields _ _ _)) _ _ => eapply writes_bind; [apply print_fields_writes|]
      | |- writes _ (print _ _) _ _ => by apply writes_print
      end.
    - unfold stub_banner, stub_verdict, stub_complete. by rewrite <- !app_assoc. }
  destruct (Hw u1 Hu1) as (u' & Hr & Hu' & Hs' & _). exists u'. split; [done|]. split; [done|]. by rewrite Hs', Hs1.
Qed.
End stub.

(** ** After the bootloader *)
(** Memory as the stub sees it: through the page tables in CR3. *)
Definition through (m : mem) (cr3 v : Z) : option Z :=
  pa ← resolve (walk m cr3 (indices (VirtAddr.new v))) (VirtAddr.new v); m !! PhysAddr.as_u64 pa.

Lemma through_byte m cr3 : bytes_ok m → ∀ v b, through m cr3 v = Some b → 0 ≤ b < 256.
Proof. intros Hb v b H. apply bind_Some in H as (pa & _ & Hm). eapply Hb, Hm. Qed.

Section after.
Context {F : Type} {BS : BootServices F} {FL : FirmwareLaws F}.
Context {L : Line} (bound fuel : nat) (Hfuel : (bound + 2 < fuel)%nat).

(** The handoff can be read where its pointer says, through the new tables. *)
Lemma handover_visible m mine cr3 entry info stack bi es row content hds :
  handover m mine cr3 entry info stack bi es row content hds → deref (through m cr3) info = Some bi.
Proof using Type.
  clear Hfuel. intros Hho. destruct (hd_info _ _ _ _ _ _ _ _ _ _ _ Hho) as (_ & [H0 Hlim] & Hd & _). rewrite <- Hd.
  apply deref_ext. intros a Ha. unfold through. change size_of_BootInfo with 96 in Hlim.
  rewrite (hd_walk _ _ _ _ _ _ _ _ _ _ _ Hho) by (left; unfold IDENTITY_MAP_LIMIT in *; lia).
  unfold boot_mapping. rewrite decide_True by lia. reflexivity.
Qed.

(** C17: the bootloader's own test passes.  On any firmware that keeps the
    promises of the UEFI specification, with the stub as the kernel file: if
    the bootloader jumps, the stub finds through the new page tables the
    [BOOT_INFO] it was given, accepts it, as the kernel's own check does, and
    the serial line carries, after the bootloader's last words, exactly the
    banner, the acceptance, the seven fields as the bootloader filled them in
    and the line that declares the phase complete. *)
Theorem stub_test_passes ih s u :
  fw_ok (fw s) (ram s) → live s = true → pools s = [] → files s = [] → bytes_ok (ram s) → kernel_file_ok (F := F) →
  (busy u ≤ bound)%nat → (∀ n, (delay n ≤ bound)%nat) →
  ∃ e s' u', EfiMain fuel ih (s, u) = Ret (e, (s', u')) ∧
    match e with
    | Halt => live s' = true
    | Jump cr3 entry info stack => ∃ bi es row content hds v,
        handover (ram s') (held (fw s')) cr3 entry info stack bi es row content hds ∧
        KernelEntry fuel (through (ram s') cr3) info u' = Ret (tt, v) ∧
        sent v = sent u ++ expand (farewell_text entry cr3) ++ expand (stub_banner ++
          (ln "[OK] BootInfo magic, version, and size validated." ++ CRLF) ++ stub_fields bi ++ stub_complete)
    end.
Proof using Hfuel.
  intros Hok Hl Hp Hf Hb Hfile Hbusy Hdel.
  destruct (efi_main_ok bound fuel Hfuel ih s u Hok Hl Hp Hf Hb Hfile Hbusy Hdel) as (e & s' & u' & Hr & _ & He).
  exists e, s', u'. split; [done|]. destruct e as [|cr3 entry info stack]; [done|].
  destruct He as (_ & _ & Hb' & Hbusy' & Hsent & _ & bi & es & row & content & hds & _ & Hho).
  destruct (hd_info _ _ _ _ _ _ _ _ _ _ _ Hho) as (Hal & _ & _ & Hval).
  destruct (kernel_entry_ok bound fuel Hfuel (through (ram s') cr3) info bi (through_byte _ _ Hb') Hal (handover_visible _ _ _ _ _ _ _ _ _ _ _ Hho)
    u' Hbusy' Hdel) as (v & Hrun & _ & Hv).
  exists bi, es, row, content, hds, v. split; [done|]. split; [done|].
  by rewrite Hv, Hsent, <- app_assoc, (stub_verdict_valid bi Hval).
Qed.
End after.
