(* ===== verification/BootChain.v ===== *)
(** From the firmware to the running kernel.

    The bootloader's theorem and the kernel's, put together: what the
    bootloader hands over is what [kernel_main] needs ([handover_sound]),
    on the conditions the two programs leave to the machine and to the kernel
    file.  Also what happens when the conditions fail: page tables the kernel
    cannot reach, and an image that does not start at the kernel's base. *)
From Stdlib Require Import String.
From stdpp Require Import base numbers option gmap list_numbers list.
From S2P Require Import Prelude PhysAddr VirtAddr PageTableEntry Memory BootInfo MemoryMap FrameAllocator FrameInit FrameSource Vmm PageWalk VmmSpec VmmCorrect SpinLock Mmu Heap HeapGrowth HeapSpec HeapClient Serial Gdt Idt Exceptions SelfTest VmmSelfTest InterruptTest KernelMain BootDefs Firmware BootPaging BootTables BootMemoryMap Elf KernelLoader BootSerial Bootloader BootloaderTheorems BootHandoff.

(** The kernel's state when its first instruction runs: its statics as
    compiled, on the memory and the page tables it was given. *)
Record at_entry (m : mem) (cr3 : Z) (s : system FrameAllocator) : Prop := {
  ae_mem : m_mem (hardware (global (sys_kernel s))) = m;
  ae_cr3 : m_cr3 (hardware (global (sys_kernel s))) = cr3;
  ae_heap : inner (sys_kernel s) = new_heap;
  ae_frames : FRAME_ALLOCATOR (global (sys_kernel s)) = SpinLock.new None;
  ae_vmm : VMM (global (sys_kernel s)) = SpinLock.new None;
  ae_idt : sys_idt s = IDT_static;
  ae_gdt : length (GDT (sys_seg s)) = 5%nat;
  ae_tss : length (interrupt_stack_table (TSS (sys_seg s))) = 7%nat;
}.

(** What neither program controls: conventional memory does not start at
    address 0, and the tables were allocated below the limit of the identity
    map. *)
Record machine_fits (es : list MemoryMapEntry) (row : list Z) : Prop := {
  mf_nonnull : ∀ e, e ∈ es → conventional e → PhysAddr.as_u64 (physical_start e) ≠ 0;
  mf_low : ∀ t, t ∈ row → t < IDENTITY_MAP_LIMIT;
}.

Section chain.
Context {P : BuildProfile}.
Context (m : mem) (mine : list pages) (cr3 entry info stack : Z) (bi : BootInfo) (es : list MemoryMapEntry)
  (row content : list Z) (hds : list (Z * segment)).
Context (Hho : handover m mine cr3 entry info stack bi es row content hds).
Context (Hfit : machine_fits es row).

Lemma chain_handoff : handoff_ok (λ a, m !! a) bi es.
Proof using Hho Hfit. apply (hd_map _ _ _ _ _ _ _ _ _ _ _ Hho), Hfit. Qed.

Section allocator.
Context (fa : FrameAllocator) (Hinit : FrameInit.init (λ a, m !! a) bi = Ret (Ok fa)).

Lemma chain_post : init_post es (Ok fa).
Proof using All.
  destruct (frame_init_ok _ bi es chain_handoff) as (r & Hr & Hpost). rewrite Hinit in Hr. by injection Hr as <-.
Qed.

(** A free frame is conventional memory. *)
Lemma free_covered f i : f ∈ free_frames fa → f * FRAME_SIZE ≤ i < f * FRAME_SIZE + FRAME_SIZE →
  ∃ e, e ∈ es ∧ conventional e ∧ covers e i ∧ 0 < f.
Proof using All.
  intros Hf Hi. destruct chain_post as (_ & _ & _ & _ & _ & Hfree). apply Hfree in Hf as [(e & He & Hc & Hie) _].
  exists e. split; [done|]. split; [done|]. pose proof chain_handoff as Hh.
  pose proof (Forall_elem _ _ _ (reads_as_entry_ok _ _ _ (ho_bytes _ _ _ Hh) (ho_reads _ _ _ Hh)) He) as Hok.
  pose proof Hc as [_ [en Hen]]. destruct (validate_Some e en Hok Hen) as (Hst & _ & H0 & _).
  pose proof (ho_nonnull _ _ _ Hh e He Hc) as Hnn. unfold in_entry, covers in *. change PAGE_SIZE_4K with FRAME_SIZE.
  unfold FRAME_SIZE in *. split; lia.
Qed.

Lemma chain_tables : tables_ok m cr3 (free_frames fa).
Proof using All.
  destruct (hd_tables _ _ _ _ _ _ _ _ _ _ _ Hho) as (Hown & _ & Htab). apply Htab. intros t Ht.
  split; [by apply (mf_low _ _ Hfit)|]. intros Hf.
  destruct (free_covered _ t Hf) as (e & He & [Hty _] & Hcov & _); [unfold FRAME_SIZE; dlia|].
  destruct (hd_free _ _ _ _ _ _ _ _ _ _ _ Hho e t He Hty Hcov) as [Hno _]. apply Hno, (Hown t Ht). unfold FRAME_SIZE. lia.
Qed.
Lemma chain_mapped f : f ∈ free_frames fa → mapped m (f * FRAME_SIZE) FRAME_SIZE.
Proof using All.
  intros Hf i Hi. destruct (free_covered f i Hf Hi) as (e & He & [Hty _] & Hcov & _).
  by apply (hd_free _ _ _ _ _ _ _ _ _ _ _ Hho e i).
Qed.
Lemma chain_total : total_frames fa ≤ 2 ^ 40.
Proof using All.
  destruct chain_post as (Hwf & _ & _ & (e & He & (_ & en & Hen & Hlim & Hfits) & _) & Hlen & _).
  pose proof chain_handoff as Hh.
  pose proof (Forall_elem _ _ _ (reads_as_entry_ok _ _ _ (ho_bytes _ _ _ Hh) (ho_reads _ _ _ Hh)) He) as [Hst _].
  pose proof (wf_len _ Hwf) as Hl. rewrite Hl in Hlen. rewrite <- Hlen in Hfits.
  pose proof (div_ceil_spec (total_frames fa) 8 ltac:(lia)). unfold IDENTITY_MAP_LIMIT, u64 in *. lia.
Qed.

End allocator.

(** Nothing is mapped where nothing is meant to be. *)
Lemma resolve_None w v : resolve w v = None → w = Unmapped.
Proof using Type. by destruct w. Qed.
Lemma chain_unmapped v : canonical v → boot_mapping (kernel_physical_base bi) (Z.to_nat (kernel_size_bytes bi / PAGE_SIZE_2M)) v = None →
  walk m cr3 (indices (VirtAddr.new v)) = Unmapped.
Proof using Hho.
  intros Hv Hn. apply (resolve_None _ (VirtAddr.new v)). rewrite (hd_walk _ _ _ _ _ _ _ _ _ _ _ Hho v Hv). by rewrite Hn.
Qed.

Lemma chain_handed_over s : at_entry m cr3 s → handed_over s.
Proof using Hho Hfit.
  intros [Hm Hc ? ? ? ? ? ?]. split; try done.
  - intros k Hk. unfold cpu_walk, walk_of, root, cpu_vmm. cbn [PhysAddr.as_u64 PhysAddr.new pml4_phys]. rewrite Hm, Hc.
    unfold HEAP_REGION_START, HEAP_REGION_END in Hk. apply chain_unmapped.
    + right. lia.
    + unfold boot_mapping, IDENTITY_MAP_LIMIT, KERNEL_VIRTUAL_BASE. by rewrite !decide_False by lia.
  - rewrite Hc. destruct (hd_tables _ _ _ _ _ _ _ _ _ _ _ Hho) as (Hown & Hhead & Htab).
    assert (Htabs : tables_ok m cr3 ∅) by (apply Htab; intros t Ht; split; [by apply (mf_low _ _ Hfit)|set_solver]).
    pose proof (to_table _ _ _ Htabs [] cr3) as Ht. destruct Ht as ((H0 & _) & _); [by split; [cbn; lia|]|done|lia].
Qed.

Lemma chain_mapped_kernel s code fa :
  at_entry m cr3 s → FrameInit.init (λ a, m !! a) bi = Ret (Ok fa) → KERNEL_VIRTUAL_BASE ≤ code < KERNEL_VIRTUAL_BASE + kernel_size_bytes bi →
  mapped_kernel s fa code bi.
Proof using Hho Hfit.
  intros [Hm Hc ? ? ? ? ? ?] Hinit Hcode. destruct (hd_kernel _ _ _ _ _ _ _ _ _ _ _ Hho) as (Hb1 & Hb2 & Hb3 & [Hb4 Hmax] & Hb5).
  destruct (count_exact _ Hb4 Hb2) as (_ & Hc2 & Hc3).
  split.
  - split; cbn [with_frames m_fa m_mem]; change (fs_free fa) with (free_frames fa); rewrite ?Hm.
    + by apply chain_post.
    + unfold root, cpu_vmm. cbn [pml4_phys PhysAddr.as_u64 PhysAddr.new]. rewrite Hc. by apply chain_tables.
    + intros Hf. destruct (free_covered fa Hinit 0 0 Hf) as (_ & _ & _ & _ & H0); [unfold FRAME_SIZE; lia|lia].
    + intros f Hf _. by apply (chain_mapped fa).
  - split; cbn [with_frames m_fa m_mem]; rewrite ?Hm; [exact (chain_mapped fa Hinit)|exact (chain_total fa Hinit)].
  - unfold u64, IDENTITY_MAP_LIMIT in *. lia.
  - unfold cpu_walk, walk_of, root, cpu_vmm. cbn [PhysAddr.as_u64 PhysAddr.new pml4_phys]. rewrite Hm, Hc.
    eexists. split.
    + rewrite (hd_walk _ _ _ _ _ _ _ _ _ _ _ Hho); [|right; unfold KERNEL_VIRTUAL_BASE, KERNEL_MAX_SIZE_BYTES, PAGE_SIZE_2M in *; lia].
      unfold boot_mapping. rewrite decide_False by (unfold IDENTITY_MAP_LIMIT, KERNEL_VIRTUAL_BASE in *; lia).
      rewrite decide_True by (rewrite Z2Nat.id; lia). reflexivity.
    + cbn. unfold KERNEL_VIRTUAL_BASE in *. lia.
Qed.

(** What the bootloader hands over is what the kernel needs. *)
Lemma handover_sound s code :
  at_entry m cr3 s → KERNEL_VIRTUAL_BASE ≤ code < KERNEL_VIRTUAL_BASE + kernel_size_bytes bi →
  sound info code s bi es.
Proof using Hho Hfit.
  intros Hs Hcode. destruct (hd_info _ _ _ _ _ _ _ _ _ _ _ Hho) as (H8 & H0 & Hd & Hv).
  assert (Hmem : memory_of s = λ a, m !! a) by (unfold memory_of; by rewrite (ae_mem _ _ _ Hs)).
  split; [by apply chain_handed_over|split; [lia|done]| |done| |]; rewrite Hmem; [done|exact chain_handoff|].
  intros fa Hinit. by apply chain_mapped_kernel.
Qed.
End chain.

(** ** Tables the kernel cannot reach *)
Section unreachable.
Context {P : BuildProfile} {L : Line} {I : Image} {H : HandlerCode} {C : Cpu}.
Context (bound fuel : nat) (Hfuel : (bound + 2 < fuel)%nat).

(** The self-test's first check fails. *)
Lemma vmm_self_test_fails (ms : machine FrameAllocator) u self code bi :
  checked_table_ptr (pml4_phys self) = Err tt → sending bound u →
  ∃ u', run_vmm_boot_self_test fuel self code bi (ms, u) = Ret (false, (ms, u')) ∧ sending bound u'.
Proof using Hfuel.
  intros Hbad Hu. unfold run_vmm_boot_self_test. speak Hfuel u1 Hu1 Hs1. unfold check.
  assert (Ht : translate_now self code (ms, u1) = Ret (None, (ms, u1))).
  { unfold translate_now, within, translate, ok_table. by rewrite Hbad. }
  assert (Hf : ∃ u2, check_kernel_code fuel self code bi (ms, u1) = Ret (false, (ms, u2)) ∧ sending bound u2).
  { unfold check_kernel_code. erewrite M_run by exact Ht. unfold fail_with. speak Hfuel u2 Hu2 Hs2. by exists u2. }
  destruct Hf as (u2 & Hf & Hu2). exists u2. split; [|done]. by erewrite M_run by exact Hf.
Qed.

(** C37: the page tables come from [AllocateAnyPages], without the limit every
    other allocation the kernel uses has.  Where the firmware put the root
    table at or above 4 GiB, the kernel's own check refuses it: [translate]
    finds nothing, [map] and [unmap] report it unreachable without touching
    anything, and the kernel stops at the memory manager's self-test. *)
Theorem high_tables_stop_kernel s u fa code bi virt phys flags :
  IDENTITY_MAP_LIMIT ≤ m_cr3 (hardware (global (sys_kernel s))) → sending bound u →
  is_page_aligned virt = true → is_frame_aligned phys = true →
  let hw := hardware (global (sys_kernel s)) in
  translate (m_mem hw) (cpu_vmm hw) virt = Ret None ∧
  Vmm.map (cpu_vmm hw) virt phys flags (with_frames hw fa) = Ret (Err PageTableUnreachable, with_frames hw fa) ∧
  unmap (cpu_vmm hw) virt (with_frames hw fa) = Ret (Err UnmapPageTableUnreachable, with_frames hw fa) ∧
  ∃ s' u' log, start_vmm fuel code bi fa (s, u) = Ret (Halted, (s', u')) ∧
    sent u' = log ++ expand (line "FATAL: virtual memory manager boot self-test failed.").
Proof using Hfuel.
  intros Hcr3 Hu Hva Hpa hw. fold hw in Hcr3.
  assert (Hbad : checked_table_ptr (pml4_phys (cpu_vmm hw)) = Err tt).
  { change (checked_table_ptr _) with (if IDENTITY_MAP_LIMIT <=? m_cr3 hw then @Err Z unit tt else Ok (m_cr3 hw)).
    by rewrite (proj2 (Z.leb_le _ _) Hcr3). }
  split; [unfold translate, ok_table; by rewrite Hbad|]. split; [|split].
  - unfold Vmm.map, get_or_create_table. rewrite Hva, Hpa, Hbad. reflexivity.
  - unfold unmap. rewrite Hva, Hbad. reflexivity.
  - destruct (enable_nxe_keeps hw) as [Hm Hcr]. unfold start_vmm.
    assert (Hinit : (λ k, r ← Ret (Vmm.init (hardware (global k))); let '(b, hw) := r : VirtualMemoryManager * machine unit in
      Ret (b, with_hardware k hw)) (sys_kernel s) = Ret (cpu_vmm hw, with_hardware (sys_kernel s) (enable_nxe hw))).
    { cbn. unfold Vmm.init, cpu_vmm, read_cr3. fold hw. by rewrite Hcr. }
    unfold on_hardware. erewrite M_run by (apply on_kernel_run, Hinit). cbn [sys_seg sys_idt sys_idtr].
    set (s1 := mkSystem (with_hardware (sys_kernel s) (enable_nxe hw)) (sys_seg s) (sys_idt s) (sys_idtr s)).
    change (PhysAddr.as_u64 (pml4_phys (cpu_vmm hw))) with (m_cr3 hw). unfold IDENTITY_MAP_LIMIT in Hcr3.
    speak Hfuel u1 Hu1 Hs1. speak Hfuel u2 Hu2 Hs2. speak Hfuel u3 Hu3 Hs3. speak Hfuel u4 Hu4 Hs4.
    assert (Hrun : ∃ s2 u5, on_machine fa (run_vmm_boot_self_test fuel (cpu_vmm hw) code bi) (s1, u4) = Ret ((false, fa), (s2, u5)) ∧ sending bound u5).
    { destruct (vmm_self_test_fails (with_frames (enable_nxe hw) fa) u4 (cpu_vmm hw) code bi Hbad Hu4) as (u5 & Hr & Hu5).
      eexists _, u5. split; [|done]. unfold on_machine. cbn [s1 sys_kernel with_hardware global hardware]. by rewrite Hr. }
    destruct Hrun as (s2 & u5 & Hrun & Hu5). erewrite M_run by exact Hrun. cbn [negb].
    destruct (fatal_run bound fuel Hfuel "FATAL: virtual memory manager boot self-test failed." s2 u5 Hu5) as (u6 & Hr & Hs).
    by exists s2, u6, (sent u5).
Qed.
End unreachable.

(** ** Where the image is mapped *)
(** C38: the loaded image is where its code expects it exactly when its lowest
    segment starts at the kernel's virtual base: the loader copies the segments
    relative to the lowest one, the page tables map the copy to the fixed base,
    and nothing checks that the two agree. *)
Theorem image_mapped_iff_based {F} {BS : BootServices F} {FL : FirmwareLaws F} (s : efi F) base content hds lo size :
  fw_ok (fw s) (ram s) → live s = true → laid_out content hds lo size → base mod PAGE_SIZE_2M = 0 → 0 ≤ base →
  base + size ≤ 2 ^ 52 →
  ∃ cr3 s', BuildKernelPageTables base size s = Ret (cr3, s') ∧
    (cr3 ≠ 0 →
     (∀ v, lo ≤ v < highest (loads hds) →
        resolve (walk (ram s') cr3 (indices (VirtAddr.new v))) (VirtAddr.new v) = Some (PhysAddr.new (base + (v - lo)))) ↔
     lo = KERNEL_VIRTUAL_BASE).
Proof.
  intros Hok Hl [[_ Hlow] [_ Hsz] (Hspan & Htop & Hmod) (v0 & _ & Hv0)] Hal Hb Hhi.
  destruct (count_exact size) as (Hc & Hc2 & Hc3); [lia|done|].
  destruct (build_translates s base size Hok Hl Hal Hb) as (cr3 & s' & Hr & _ & _ & _ & Hw);
    [lia|unfold PAGE_SIZE_2M in *; dlia|].
  exists cr3, s'. split; [done|]. intros Hne. specialize (Hw Hne). rewrite Hc in Hw.
  assert (Hcan : ∀ v, lo ≤ v < highest (loads hds) → canonical v)
    by (intros v Hv; right; unfold KERNEL_VIRTUAL_BASE in *; lia).
  assert (Hmap : ∀ v, lo ≤ v < highest (loads hds) →
    boot_mapping base (Z.to_nat (size / PAGE_SIZE_2M)) v =
    if decide (v < KERNEL_VIRTUAL_BASE + size) then Some (base + (v - KERNEL_VIRTUAL_BASE)) else None).
  { intros v Hv. unfold boot_mapping. rewrite decide_False by (unfold IDENTITY_MAP_LIMIT, KERNEL_VIRTUAL_BASE in *; lia).
    rewrite Z2Nat.id, Hc2 by lia. case_decide; case_decide; (done || lia). }
  split.
  - intros Hall. assert (Hin : lo ≤ lo < highest (loads hds)) by lia.
    specialize (Hall _ Hin). rewrite (Hw _ (Hcan _ Hin)), (Hmap _ Hin) in Hall. case_decide; [|done]. injection Hall. lia.
  - intros Heq v Hv. rewrite (Hw _ (Hcan _ Hv)), (Hmap _ Hv). rewrite decide_True by lia. by rewrite Heq.
Qed.

(** ** The two programs together *)
Section together.
Context {P : BuildProfile} {L : Line} {I : Image} {H : HandlerCode} {C : Cpu}.
Context {F : Type} {BS : BootServices F} {FL : FirmwareLaws F}.
Context (bound fuel : nat) (Hfuel : (bound + 2 < fuel)%nat).

End together.
