(* ===== verification/BootLiveness.v ===== *)
(** The bootloader reaches the kernel.

    [FirmwareLaws] allows every call to fail.  [Cooperative] is a firmware
    whose calls succeed as long as there is [room] for the pages asked for,
    whose map key stays valid from [GetMemoryMap] to [ExitBootServices], and
    whose volume has a kernel file that passes the loader's checks.  On such a
    firmware [EfiMain] does not halt: [yields] is a logic of results
    (what a call returns, and how many pages it may use), run over the whole
    program. *)
From Stdlib Require Import String.
From stdpp Require Import base numbers option gmap list_numbers list.
From S2P Require Import Prelude PhysAddr VirtAddr PageTableEntry Memory BootInfo MemoryMap FrameAllocator Vmm PageWalk VmmSpec Serial BootDefs Firmware BootPaging BootTables BootMemoryMap Elf KernelLoader BootSerial Bootloader BootloaderTheorems BootHandoff.

(** A kernel file the loader accepts, whose image has [size] bytes. *)
Definition acceptable (content : list Z) (size : Z) : Prop :=
  sizeof_Ehdr ≤ Z.of_nat (length content) ∧ ValidateElfHeader content = Ret true ∧
  ∃ lo, layout content = Ret (Some (lo, size)).

(** The service succeeds, with a result that satisfies [post], and leaves the
    room as it is. *)
Definition succeeds {F A} (ok : F → Prop) (room : F → Z) (f : service F A) (post : A → Prop) : Prop :=
  ∀ g m, ok g → let '(a, (g', _)) := f (g, m) in ok g' ∧ room g' = room g ∧ post a.
Definition some {A} (o : option A) : Prop := is_Some o.

Class Cooperative (F : Type) {BS : BootServices F} (image_size map_pages : Z) : Type := {
  co_ok : F → Prop;
  room : F → Z;
  kernel_handle : Z → Prop;
  file_length : Z → Z;

  co_allocate policy n g m : co_ok g → 0 < n ≤ room g → policy = AnyPages ∨ policy = MaxAddress (IDENTITY_MAP_LIMIT - 1) →
    let '(o, (g', _)) := bs_allocate_pages policy n (g, m) in
    co_ok g' ∧ room g' = room g - n ∧ ∃ p, o = Some p ∧ 0 < p;
  co_free p n g m : co_ok g → let '(_, (g', _)) := bs_free_pages p n (g, m) in co_ok g' ∧ room g ≤ room g';
  (** the map: its size is known, the buffer is big enough, the key is
      accepted *)
  co_map_size : succeeds co_ok room bs_map_size (λ i, map_info_ok i ∧ mi_desc i ≠ 0 ∧
    mi_size i + 8 * mi_desc i ≤ map_pages * PAGE_SIZE_4K);
  co_map g0 m0 n m1 m2 : co_ok g0 →
    let '(i0, (g1, _)) := bs_map_size (g0, m0) in
    let '(o, (g2, _)) := bs_allocate_pages (MaxAddress (IDENTITY_MAP_LIMIT - 1)) n (g1, m1) in
    ∀ p, o = Some p → mi_size i0 + 8 * mi_desc i0 ≤ n * PAGE_SIZE_4K →
    let '(oi, (g3, _)) := bs_get_memory_map p (mi_size i0 + 8 * mi_desc i0) (g2, m2) in
    ∃ i, oi = Some i ∧ room g3 = room g2 ∧ ∀ m3, let '(ok, (g4, _)) := bs_exit (mi_key i) (g3, m3) in
      ok = true ∧ co_ok g4 ∧ room g4 = room g3;
  (** the volume *)
  co_allocate_pool n : succeeds co_ok room (bs_allocate_pool n) some;
  co_free_pool p : succeeds co_ok room (bs_free_pool p) anything;
  co_output t : succeeds co_ok room (bs_output t) anything;
  co_clear : succeeds co_ok room bs_clear anything;
  co_handle_protocol h t : succeeds co_ok room (bs_handle_protocol h t) some;
  co_device_handle h : succeeds co_ok room (bs_device_handle h) anything;
  co_open_volume p : succeeds co_ok room (bs_open_volume p) some;
  co_open d t : succeeds co_ok room (bs_open d t) (λ o, ∃ h, o = Some h ∧ (t = "\KERNEL.ELF"%string → kernel_handle h));
  co_info_size h : succeeds co_ok room (bs_info_size h) anything;
  co_file_size h : succeeds co_ok room (bs_file_size h) (λ o, o = Some (file_length h));
  co_read h : succeeds co_ok room (bs_read h (file_length h))
    (λ o, ∃ bs, o = Some bs ∧ (kernel_handle h → acceptable bs image_size));
  co_close h : succeeds co_ok room (bs_close h) anything;
}.

(** ** What calls return *)
Section yields.
Context {F : Type} {BS : BootServices F} {image_size map_pages : Z} {CO : Cooperative F image_size map_pages}.

(** Wherever [c] returns, given [k] pages of room, its result is in [Q] and at
    most [k] pages are gone. *)
Definition yields {A} (k : Z) (c : M (efi F) A) (Q : A → Prop) : Prop :=
  ∀ s a s', co_ok (fw s) → k ≤ room (fw s) → c s = Ret (a, s') → Q a ∧ co_ok (fw s') ∧ room (fw s) - k ≤ room (fw s').

Lemma yields_ret {A} (a : A) (Q : A → Prop) : Q a → yields 0 (mret a) Q.
Proof. intros Hq s b s' Hok Hr [= <- <-]. split_and!; [done|done|lia]. Qed.
Lemma yields_bind {A B} k1 k2 (c : M (efi F) A) (K : A → M (efi F) B) P Q :
  yields k1 c P → (∀ a, P a → yields k2 (K a) Q) → 0 ≤ k1 → 0 ≤ k2 → yields (k1 + k2) (c ≫= K) Q.
Proof.
  intros Hc HK H1 H2 s b s' Hok Hr Hrun. unfold mbind, M_bind in Hrun. destruct (c s) as [[a s1]| | |] eqn:Hs; try done.
  destruct (Hc s a s1 Hok ltac:(lia) Hs) as (HP & Hok1 & Hr1). destruct (HK a HP s1 b s' Hok1 ltac:(lia) Hrun) as (HQ & Hok2 & Hr2).
  split_and!; [done|done|lia].
Qed.
Lemma yields_0 {A B} k (c : M (efi F) A) (K : A → M (efi F) B) P Q :
  yields 0 c P → (∀ a, P a → yields k (K a) Q) → 0 ≤ k → yields k (c ≫= K) Q.
Proof. intros Hc HK Hk. change k with (0 + k). by eapply yields_bind. Qed.
Lemma yields_weaken {A} k (c : M (efi F) A) (P Q : A → Prop) : yields k c P → (∀ a, P a → Q a) → yields k c Q.
Proof. intros Hc HPQ s a s' Hok Hr Hrun. destruct (Hc s a s' Hok Hr Hrun) as (? & ? & ?). auto. Qed.

Lemma yields_call {A} (f : service F A) post : succeeds co_ok room f post → yields 0 (call f) post.
Proof.
  intros Hf s a s' Hok _. unfold call. destruct (live s); [|done]. specialize (Hf (fw s) (ram s) Hok).
  destruct (f (fw s, ram s)) as [b [g' m']]. intros [= <- <-]. destruct Hf as (? & ? & ?). cbn. split_and!; [done|done|lia].
Qed.
Lemma yields_quiet {A} (c : M (efi F) A) (Q : A → Prop) : (∀ s a s', c s = Ret (a, s') → fw s' = fw s ∧ Q a) → yields 0 c Q.
Proof. intros Hc s a s' Hok _ Hr. destruct (Hc s a s' Hr) as [-> ?]. split_and!; [done|done|lia]. Qed.
Lemma yields_on_ram f : yields 0 (on_ram (F := F) f) anything.
Proof. apply yields_quiet. intros s a s'. unfold on_ram. destruct (f (ram s)); try done. by intros [= <- <-]. Qed.
Lemma yields_modify f : (∀ s, fw (f s) = fw s) → yields 0 (modify (F := F) f) anything.
Proof. intros Hf. apply yields_quiet. intros s a s' [= <- <-]. by rewrite Hf. Qed.
Lemma yields_lift {A} (o : outcome A) (Q : A → Prop) : (∀ a, o = Ret a → Q a) → yields 0 (lift o) Q.
Proof. intros Ho. apply yields_quiet. intros s a s'. unfold lift. destruct o; try done. intros [= <- <-]. auto. Qed.
Lemma yields_buffer {A} p (o : outcome A) (Q : A → Prop) : (∀ a, o = Ret a → Q a) → yields 0 (with_buffer (F := F) p o) Q.
Proof.
  intros Ho. apply yields_quiet. intros s a s'. unfold with_buffer. case_bool_decide; [|done]. destruct o; try done. intros [= <- <-]. auto.
Qed.

Lemma yields_pages policy n : 0 < n → policy = AnyPages ∨ policy = MaxAddress (IDENTITY_MAP_LIMIT - 1) →
  yields n (AllocatePages policy n) (λ o, ∃ p, o = Some p ∧ 0 < p).
Proof.
  intros Hn Hp s a s' Hok Hr. unfold AllocatePages, call. destruct (live s); [|done].
  pose proof (co_allocate policy n (fw s) (ram s) Hok ltac:(lia) Hp) as Hlaw.
  destruct (bs_allocate_pages policy n (fw s, ram s)) as [o [g' m']]. intros [= <- <-]. cbn.
  destruct Hlaw as (? & ? & ?). split_and!; [done|done|lia].
Qed.
Lemma yields_pool n : yields 0 (AllocatePool n) some.
Proof.
  eapply yields_0; [apply yields_call, co_allocate_pool| |lia]. intros o Ho.
  eapply yields_0; [apply yields_modify; intros s; by destruct o| |lia]. intros _ _. by apply yields_ret.
Qed.
Lemma yields_free_pool p : yields 0 (FreePool p) anything.
Proof.
  eapply yields_0; [apply yields_call, co_free_pool| |lia]. intros _ _. apply yields_quiet.
  intros s a s'. unfold drop_pool. destruct (strike p (pools s)); try done. by intros [= <- <-].
Qed.
Lemma yields_output t : yields 0 (OutputString t) anything.
Proof.
  eapply yields_0; [apply yields_call, co_output| |lia]. intros _ _. by apply yields_modify.
Qed.
Lemma yields_opened o (Q : option Z → Prop) : Q o → yields 0 (opened (F := F) o) Q.
Proof.
  intros Ho. eapply yields_0; [apply yields_modify; intros s; by destruct o| |lia]. intros _ _. by apply yields_ret.
Qed.
Lemma yields_open d t : yields 0 (Open d t) (λ o, ∃ h, o = Some h ∧ (t = "\KERNEL.ELF"%string → kernel_handle h)).
Proof. eapply yields_0; [apply yields_call, co_open| |lia]. intros o Ho. by apply yields_opened. Qed.
Lemma yields_open_volume p : yields 0 (OpenVolume p) some.
Proof. eapply yields_0; [apply yields_call, co_open_volume| |lia]. intros o Ho. by apply yields_opened. Qed.
Lemma yields_close h : yields 0 (Close h) anything.
Proof.
  eapply yields_0; [apply yields_call, co_close| |lia]. intros _ _. apply yields_quiet.
  intros s a s'. unfold drop_file. destruct (strike h (files s)); try done. by intros [= <- <-].
Qed.

(** ** The phases *)
Ltac after lem := eapply yields_0; [apply lem|cbn beta|lia].

Lemma yields_print buffer chunk : yields 0 (print_loop (F := F) chunk buffer) anything.
Proof.
  revert chunk. induction buffer as [|b rest IH]; intros chunk; cbn [print_loop]; [by apply yields_ret|].
  eapply yields_0; [by apply yields_lift with (Q := anything)|intros c1 _|lia].
  eapply yields_0; [by apply yields_lift with (Q := anything)|intros c2 _|lia]. case_match; [|apply IH].
  eapply yields_0; [by apply yields_lift with (Q := anything)|intros _ _|lia]. after yields_output. intros _ _. apply IH.
Qed.

Lemma yields_test_file h : yields 0 (read_test_file h) (λ r, r = true).
Proof.
  unfold read_test_file. eapply yields_0; [apply yields_call, co_info_size|intros isz _|lia].
  after yields_pool. intros oi [info ->].
  eapply yields_0 with (P := λ r, r = true); [|intros r ->; after yields_close; intros _ _; by apply yields_ret|lia].
  eapply yields_0; [apply yields_call, co_file_size|intros osz ->|lia].
  eapply yields_0 with (P := λ r, r = true); [|intros r ->; after yields_free_pool; intros _ _; by apply yields_ret|lia].
  after yields_output. intros _ _. eapply yields_0; [apply yields_buffer with (Q := λ n, n = file_length h); by intros ? [= <-]|intros n ->|lia].
  after yields_pool. intros od [data ->]. eapply yields_0; [apply yields_call, co_read|intros o (content & -> & _)|lia].
  eapply yields_0 with (P := λ r, r = true); [|intros r ->; after yields_free_pool; intros _ _; by apply yields_ret|lia].
  after yields_output. intros _ _. after yields_output. intros _ _.
  eapply yields_0; [by apply yields_buffer with (Q := anything)|intros c _|lia].
  eapply yields_0; [apply yields_print|intros _ _|lia]. after yields_output. intros _ _. after yields_output. intros _ _. by apply yields_ret.
Qed.

Lemma yields_open_root ih : yields 0 (open_root ih) some.
Proof.
  unfold open_root. eapply yields_0; [apply yields_call, co_clear|intros _ _|lia]. after yields_output. intros _ _. after yields_output. intros _ _.
  eapply yields_0; [apply yields_call, co_handle_protocol|intros oli [li ->]|lia]. after yields_output. intros _ _.
  eapply yields_0; [apply yields_call, co_device_handle|intros dev _|lia].
  eapply yields_0; [apply yields_call, co_handle_protocol|intros osf [sf ->]|lia]. after yields_output. intros _ _.
  after yields_open_volume. intros orr [root ->]. after yields_output. intros _ _. after yields_open. intros ot (tf & -> & _).
  after yields_output. intros _ _. after yields_test_file. intros r ->. apply yields_ret. by eexists.
Qed.

Lemma yields_read_file d : yields 0 (read_file d "\KERNEL.ELF") (λ o, ∃ buf content, o = Some (buf, content) ∧ acceptable content image_size).
Proof.
  unfold read_file. after yields_open. intros o (h & -> & Hk). specialize (Hk eq_refl).
  eapply yields_0; [apply yields_call, co_info_size|intros isz _|lia]. after yields_pool. intros oi [info ->].
  eapply yields_0; [apply yields_call, co_file_size|intros osz ->|lia].
  eapply yields_0; [apply yields_buffer with (Q := λ n, n = file_length h); by intros ? [= <-]|intros n ->|lia].
  after yields_free_pool. intros _ _. after yields_pool. intros ob [buf ->].
  eapply yields_0; [apply yields_call, co_read|intros o (content & -> & Hc)|lia]. after yields_close. intros _ _.
  apply yields_ret. exists buf, content. auto.
Qed.

Lemma yields_load d : 0 < (image_size + PAGE_SIZE_2M) / PAGE_SIZE_4K →
  yields ((image_size + PAGE_SIZE_2M) / PAGE_SIZE_4K) (LoadKernelElf d "\KERNEL.ELF") (λ o, ∃ k, o = Some k ∧ KernelSizeBytes k = image_size).
Proof.
  intros Hn. unfold LoadKernelElf. eapply yields_0; [apply yields_read_file|intros o (buf & content & -> & Hlen & Hval & lo & Hlay)|lia].
  destruct (Z.ltb_spec (Z.of_nat (length content)) sizeof_Ehdr); [lia|].
  eapply yields_0; [apply yields_buffer with (Q := λ b, b = true); intros b; rewrite Hval; congruence|intros b ->; cbn [negb]|lia].
  eapply yields_0; [apply yields_buffer with (Q := λ l, l = Some (lo, image_size)); intros l; rewrite Hlay; congruence|intros l ->|lia].
  unfold place_kernel. rewrite <- (Z.add_0_r (_ / _)) at 1.
  eapply yields_bind; [apply yields_pages; [done|by right]|intros op (p & -> & _)|lia|lia].
  eapply yields_0; [apply yields_on_ram|intros _ _|lia]. eapply yields_0; [by apply yields_buffer with (Q := anything)|intros _ _|lia].
  eapply yields_0; [apply yields_on_ram|intros _ _|lia]. eapply yields_0; [by apply yields_buffer with (Q := anything)|intros e _|lia].
  after yields_free_pool. intros _ _. apply yields_ret. by eexists.
Qed.

Lemma yields_put_fields p kvs : yields 0 (put_fields (F := F) p kvs) anything.
Proof.
  induction kvs as [|[k v] kvs IH]; cbn [put_fields]; [by apply yields_ret|].
  eapply yields_0; [apply yields_on_ram|intros _ _; exact IH|lia].
Qed.
Lemma yields_info k : yields 1 (make_info k) some.
Proof.
  unfold make_info. change 1 with (1 + 0) at 1. eapply yields_bind; [apply yields_pages; [lia|by right]|intros o (p & -> & _)|lia|lia].
  eapply yields_0; [apply yields_on_ram|intros _ _|lia]. after yields_put_fields. intros _ _. apply yields_ret. by eexists.
Qed.
Lemma yields_stack p : yields 16 (make_stack p) some.
Proof.
  unfold make_stack. change 16 with (KERNEL_STACK_PAGES + 0). eapply yields_bind; [apply yields_pages; [done|by right]|intros o (sp & -> & _)|done|lia].
  after yields_put_fields. intros _ _. after yields_output. intros _ _. after yields_output. intros _ _. apply yields_ret. by eexists.
Qed.

Lemma yields_zeroed : yields 1 AllocateZeroedPage (λ p, 0 < p).
Proof.
  unfold AllocateZeroedPage. change 1 with (1 + 0). eapply yields_bind; [apply yields_pages; [lia|by left]|intros o (p & -> & Hp)|lia|lia].
  eapply yields_0; [apply yields_on_ram|intros _ _|lia]. by apply yields_ret.
Qed.
Lemma yields_identity n g p : yields (Z.of_nat n) (identity_map n g p) (λ b, b = true).
Proof.
  revert g. induction n as [|n IH]; intros g; cbn [identity_map]; [by apply yields_ret|].
  replace (Z.of_nat (S n)) with (1 + Z.of_nat n) by lia. eapply yields_bind; [apply yields_zeroed|intros pd Hpd; cbn beta in Hpd|lia|lia].
  destruct (Z.eqb_spec pd 0); [lia|]. eapply yields_0; [apply yields_on_ram|intros _ _|lia].
  eapply yields_0; [apply yields_on_ram|intros _ _; apply IH|lia].
Qed.
Lemma yields_build base size : kernel_page_count size ≤ 512 → yields 8 (BuildKernelPageTables base size) (λ r, 0 < r).
Proof.
  intros Hc. unfold BuildKernelPageTables. change 8 with (1 + (1 + (4 + (1 + 1)))).
  eapply yields_bind; [apply yields_zeroed|intros p1 H1; cbn beta in H1|lia|lia]. destruct (Z.eqb_spec p1 0); [lia|].
  eapply yields_bind; [apply yields_zeroed|intros p2 H2; cbn beta in H2|lia|lia]. destruct (Z.eqb_spec p2 0); [lia|].
  eapply yields_bind; [apply (yields_identity 4)|intros b ->; cbn [negb]|lia|lia].
  eapply yields_0; [apply yields_on_ram|intros _ _|lia].
  eapply yields_bind; [apply yields_zeroed|intros p3 H3; cbn beta in H3|lia|lia]. destruct (Z.eqb_spec p3 0); [lia|].
  change 1 with (1 + 0). eapply yields_bind; [apply yields_zeroed|intros p4 H4; cbn beta in H4|lia|lia]. destruct (Z.eqb_spec p4 0); [lia|].
  destruct (Z.ltb_spec (Z.of_nat ENTRIES_PER_TABLE) (kernel_page_count size)); [unfold ENTRIES_PER_TABLE in *; lia|].
  do 3 (eapply yields_0; [apply yields_on_ram|intros _ _|lia]). by apply yields_ret.
Qed.

Lemma yields_prepare root : 0 < image_size ≤ KERNEL_MAX_SIZE_BYTES →
  yields ((image_size + PAGE_SIZE_2M) / PAGE_SIZE_4K + 25) (prepare root) some.
Proof.
  intros Hsz. unfold KERNEL_MAX_SIZE_BYTES, PAGE_SIZE_2M in Hsz.
  assert (Hn : 0 < (image_size + PAGE_SIZE_2M) / PAGE_SIZE_4K) by (unfold PAGE_SIZE_2M, PAGE_SIZE_4K; dlia).
  unfold prepare. after yields_output. intros _ _.
  eapply yields_bind; [by apply yields_load|intros o (k & -> & Hk)|lia|lia]. after yields_output. intros _ _. after yields_close. intros _ _.
  change 25 with (1 + (16 + (8 + 0))). eapply yields_bind; [apply yields_info|intros oi [p ->]|lia|lia].
  eapply yields_bind; [apply yields_stack|intros os [top ->]|lia|lia].
  eapply yields_bind; [apply yields_build|intros cr3 Hc; cbn beta in Hc|lia|lia].
  - rewrite Hk. unfold kernel_page_count, PAGE_SIZE_2M. destruct (Z.eqb_spec (image_size / 0x200000) 0); dlia.
  - destruct (Z.eqb_spec cr3 0); [lia|]. after yields_output. intros _ _. apply yields_ret. by eexists.
Qed.

(** The first attempt succeeds. *)
Lemma exit_attempt_yields s a s' : co_ok (fw s) → map_pages ≤ room (fw s) → exit_attempt s = Ret (a, s') →
  (∃ map, a = Exited map) ∧ co_ok (fw s') ∧ room (fw s) - map_pages ≤ room (fw s').
Proof.
  intros Hok Hroom. unfold exit_attempt, AllocatePages, call. unfold mbind at 1, M_bind at 1. destruct (live s) eqn:Hl; [|done].
  pose proof (co_map_size (fw s) (ram s) Hok) as Hsz. pose proof (λ n m1 m2, co_map (fw s) (ram s) n m1 m2 Hok) as Hmap.
  destruct (bs_map_size (fw s, ram s)) as [i0 [g1 m1]]. destruct Hsz as (Hok1 & Hr1 & (Hs0 & Hd0 & _) & Hne & Hfits).
  destruct (Z.eqb_spec (mi_desc i0) 0) as [|_]; [done|]. destruct Hd0 as [|Hd0]; [done|].
  unfold MEMORY_MAP_SLACK_ENTRIES, wrap64. rewrite (Z.mod_small (mi_desc i0 * 8)) by lia. rewrite Z.mod_small by lia.
  replace (mi_size i0 + mi_desc i0 * 8) with (mi_size i0 + 8 * mi_desc i0) by lia. set (n := mi_size i0 + 8 * mi_desc i0) in *.
  assert (Hpg : RoundUpTo n PAGE_SIZE_4K / PAGE_SIZE_4K = div_ceil n PAGE_SIZE_4K).
  { change PAGE_SIZE_4K with (2 ^ 12). rewrite RoundUpTo_exact by lia. apply Z.div_mul. lia. }
  rewrite Hpg. pose proof (div_ceil_spec n PAGE_SIZE_4K ltac:(done)) as Hce.
  assert (Hmono : div_ceil n PAGE_SIZE_4K ≤ map_pages) by (by apply div_ceil_mono).
  set (pg := div_ceil n PAGE_SIZE_4K) in *. unfold mbind at 1, M_bind at 1. cbn [live fw ram].
  specialize (Hmap pg m1). pose proof (co_allocate (MaxAddress (IDENTITY_MAP_LIMIT - 1)) pg g1 m1 Hok1) as Hal.
  destruct (bs_allocate_pages (MaxAddress (IDENTITY_MAP_LIMIT - 1)) pg (g1, m1)) as [o [g2 m2]].
  destruct Hal as (_ & Hr2 & p & -> & _); [unfold PAGE_SIZE_4K in *; lia|by right|].
  specialize (Hmap m2 p eq_refl ltac:(lia)). unfold mbind at 1, M_bind at 1. cbn [live fw ram].
  destruct (bs_get_memory_map p n (g2, m2)) as [oi [g3 m3]]. destruct Hmap as (i & -> & Hr3 & Hexit). specialize (Hexit m3).
  unfold ExitBootServices, call. unfold mbind at 1, M_bind at 1. unfold mbind at 1, M_bind at 1. cbn [live fw ram].
  destruct (bs_exit (mi_key i) (g3, m3)) as [ok [g4 m4]]. destruct Hexit as (-> & Hok4 & Hr4).
  cbn [modify mbind M_bind mret M_ret]. intros [= <- <-]. split; [by eexists|]. cbn [fw]. split; [done|lia].
Qed.
End yields.

(** ** The whole run *)
Section live.
Context {F : Type} {BS : BootServices F} {FL : FirmwareLaws F} {image_size map_pages : Z} {CO : Cooperative F image_size map_pages}.
Context {L : Line} (bound fuel : nat) (Hfuel : (bound + 2 < fuel)%nat).

Lemma on_efi_inv {A} (c : M (efi F) A) s u a s' u' : on_efi c (s, u) = Ret (a, (s', u')) → c s = Ret (a, s') ∧ u' = u.
Proof using Type. clear Hfuel. unfold on_efi. destruct (c s) as [[b s1]| | |]; try done. by intros [= <- <- <-]. Qed.

Lemma on_port_inv {A} (c : M uart A) (s s' : efi F) u a u' : on_port c (s, u) = Ret (a, (s', u')) → s' = s.
Proof using Type. clear Hfuel. unfold on_port. destruct (c u) as [[b u1]| | |]; try done. by intros [= _ <- _]. Qed.

Lemma efi_main_not_halt ih s u e s' u' :
  co_ok (fw s) → 0 < image_size ≤ KERNEL_MAX_SIZE_BYTES → 0 ≤ map_pages →
  (image_size + PAGE_SIZE_2M) / PAGE_SIZE_4K + 25 + map_pages ≤ room (fw s) →
  EfiMain fuel ih (s, u) = Ret (e, (s', u')) →
  e ≠ Halt ∧ room (fw s) - ((image_size + PAGE_SIZE_2M) / PAGE_SIZE_4K + 25 + map_pages) ≤ room (fw s').
Proof using Type.
  clear Hfuel bound. intros Hok Hsz Hmp Hroom. unfold EfiMain. 
  assert (Hn : 0 ≤ (image_size + PAGE_SIZE_2M) / PAGE_SIZE_4K) by (apply Z.div_pos; unfold PAGE_SIZE_2M, PAGE_SIZE_4K; lia).
  intros (orr & [s1 u1] & H1 & Hrun)%M_bind_Ret. apply on_efi_inv in H1 as [H1 ->].
  destruct (yields_open_root ih s orr s1 Hok ltac:(lia) H1) as ([root ->] & Hok1 & Hr1).
  apply M_bind_Ret in Hrun as (oh & [s2 u2] & H2 & Hrun). apply on_efi_inv in H2 as [H2 ->].
  destruct (yields_prepare root Hsz s1 oh s2 Hok1 ltac:(lia) H2) as ([h ->] & Hok2 & Hr2).
  apply M_bind_Ret in Hrun as ([] & [s3 u3] & H3 & Hrun). apply on_efi_inv in H3 as [H3 ->].
  destruct (yields_output _ s2 _ s3 Hok2 ltac:(lia) H3) as (_ & Hok3 & Hr3).
  apply M_bind_Ret in Hrun as ([] & [s4 u4] & H4 & Hrun). apply on_efi_inv in H4 as [H4 ->].
  destruct (yields_output _ s3 _ s4 Hok3 ltac:(lia) H4) as (_ & Hok4 & Hr4).
  apply M_bind_Ret in Hrun as ([] & [s5 u5] & H5 & Hrun). apply on_efi_inv in H5 as [H5 ->].
  destruct (yields_output _ s4 _ s5 Hok4 ltac:(lia) H5) as (_ & Hok5 & Hr5).
  apply M_bind_Ret in Hrun as (om & [s6 u6] & H6 & Hrun). apply on_efi_inv in H6 as [H6 ->].
  unfold ExitBootServicesWithRetry, MAX_EXIT_ATTEMPTS in H6. cbn [exit_loop] in H6.
  apply M_bind_Ret in H6 as (a & s7 & H7 & H6). destruct (exit_attempt_yields s5 a s7 Hok5 ltac:(lia) H7) as ([map ->] & Hok7 & Hr7).
  injection H6 as <- <-. apply M_bind_Ret in Hrun as ([] & [s8 u8] & H8 & Hrun). apply on_efi_inv in H8 as [H8 ->].
  destruct (yields_put_fields _ _ s7 _ s8 Hok7 ltac:(lia) H8) as (_ & Hok8 & Hr8).
  apply M_bind_Ret in Hrun as ([] & [s9 u9] & H9 & Hrun). apply on_port_inv in H9 as ->. injection Hrun as <- <- _.
  split; [done|lia].
Qed.

End live.
