(* ===== verification/DemoFirmware.v ===== *)
(** A firmware that keeps the promises of [FirmwareLaws].

    It hands out the pages of a 48 MiB machine from the bottom up and never
    reuses one, reports what is left as one conventional region, accepts the
    exit when the map key is current, and has one file: a kernel of one
    segment.  The theorems about the bootloader are applied to it here. *)
From Stdlib Require Import String.
From stdpp Require Import base numbers option gmap list_numbers list.
From S2P Require Import Prelude PhysAddr VirtAddr PageTableEntry Memory BootInfo MemoryMap FrameAllocator FrameInit FrameSource Vmm PageWalk VmmSpec VmmCorrect SpinLock Mmu Heap HeapClient Serial Gdt Idt Exceptions SelfTest VmmSelfTest InterruptTest KernelMain BootMachine BootDefs Firmware BootPaging BootTables BootMemoryMap Elf KernelLoader BootSerial Bootloader BootloaderTheorems BootHandoff KernelStub BootChain BootLiveness.

Definition MEM_TOP : Z := 0x3000000.
Record demo_fw : Type := mkDemoFw { d_next : Z; d_held : list pages; d_key : Z }.
Implicit Types (f : demo_fw).

(** ** The services *)
Definition within_policy (policy : page_policy) (last : Z) : bool :=
  match policy with AnyPages => true | MaxAddress limit => last <=? limit end.
Definition demo_allocate (policy : page_policy) (n : Z) : service demo_fw (option Z) := λ '(f, m),
  let stop := d_next f + n * PAGE_SIZE_4K in
  if (0 <? n) && (stop <=? MEM_TOP) && within_policy policy (stop - 1)
  then (Some (d_next f), (mkDemoFw stop ((d_next f, n) :: d_held f) (d_key f + 1), m)) else (None, (f, m)).
Fixpoint give_back (h : pages) (hs : list pages) : list pages :=
  match hs with [] => [] | h' :: hs => if decide (h = h') then hs else h' :: give_back h hs end.
Definition demo_free (p n : Z) : service demo_fw unit := λ '(f, m),
  (tt, (mkDemoFw (d_next f) (give_back (p, n) (d_held f)) (d_key f + 1), m)).

(** One descriptor of 48 bytes: what is left. *)
Definition left_over f : MemoryMapEntry := region_of (d_next f) MEM_TOP.
Definition demo_info f : map_info := mkMapInfo 48 (d_key f) 48 1.
Definition write_entry_at (m : mem) (buf : Z) (e : MemoryMapEntry) : option mem :=
  m1 ← store_le 4 m buf (typ e);
  m2 ← store_le 8 m1 (buf + 8) (PhysAddr.as_u64 (physical_start e));
  store_le 8 m2 (buf + 24) (number_of_pages e).
Definition demo_map (buf n : Z) : service demo_fw (option map_info) := λ '(f, m),
  if n <? 48 then (None, (f, m)) else
  match write_entry_at m buf (left_over f) with
  | Some m' => (Some (demo_info f), (f, m'))
  | None => (Some (demo_info f), (f, m))
  end.

(** A kernel of one segment: [hlt; jmp $-1; nop] at the kernel's base. *)
Definition demo_elf : list Z :=
  [0x7F; 0x45; 0x4C; 0x46; 2; 1; 1; 0; 0; 0; 0; 0; 0; 0; 0; 0] ++
  le_bytes 2 2 ++ le_bytes 2 62 ++ le_bytes 4 1 ++ le_bytes 8 KERNEL_VIRTUAL_BASE ++ le_bytes 8 64 ++ le_bytes 8 0 ++
  le_bytes 4 0 ++ le_bytes 2 64 ++ le_bytes 2 56 ++ le_bytes 2 1 ++ le_bytes 2 0 ++ le_bytes 2 0 ++ le_bytes 2 0 ++
  le_bytes 4 1 ++ le_bytes 4 5 ++ le_bytes 8 120 ++ le_bytes 8 KERNEL_VIRTUAL_BASE ++ le_bytes 8 0 ++
  le_bytes 8 4 ++ le_bytes 8 0x1000 ++ le_bytes 8 0x200000 ++ [0xF4; 0xEB; 0xFD; 0x90].

Definition still {A} (a : A) : service demo_fw A := λ fm, (a, fm).
#[global] Instance demo_services : BootServices demo_fw := {|
  bs_allocate_pages := demo_allocate;
  bs_free_pages := demo_free;
  bs_allocate_pool := λ _, still (Some 0x500);
  bs_free_pool := λ _, still tt;
  bs_output := λ _, still tt;
  bs_clear := still tt;
  bs_handle_protocol := λ h _, still (Some (h + 1));
  bs_device_handle := λ h, still (h + 1);
  bs_open_volume := λ p, still (Some (p + 1));
  bs_open := λ d _, still (Some (d + 1));
  bs_info_size := λ _, still 80;
  bs_file_size := λ _, still (Some (Z.of_nat (length demo_elf)));
  bs_read := λ _ n, still (if Z.of_nat (length demo_elf) <=? n then Some demo_elf else None);
  bs_close := λ _, still tt;
  bs_map_size := λ '(f, m), (demo_info f, (f, m));
  bs_get_memory_map := demo_map;
  bs_exit := λ key '(f, m), (key =? d_key f, (f, m));
|}.

(** ** The promises *)
Record demo_ok f (m : mem) : Prop := {
  do_next : d_next f mod PAGE_SIZE_4K = 0 ∧ 0x1000 ≤ d_next f ≤ MEM_TOP;
  do_held : ∀ a, owned (d_held f) a → 0x1000 ≤ a < d_next f;
  do_mapped : mapped m 0x1000 (MEM_TOP - 0x1000);
}.

Lemma demo_write f m m' : demo_ok f m → (∀ a, is_Some (m' !! a) ↔ is_Some (m !! a)) → demo_ok f m'.
Proof. intros [? ? Hm] Hd. split; [done..|]. by eapply mapped_dom. Qed.

Lemma give_back_perm h hs : h ∈ hs → hs ≡ₚ h :: give_back h hs.
Proof.
  induction hs as [|h' hs IH]; [by intros ?%elem_of_nil|]. cbn [give_back]. case_decide as Hd; [by subst|].
  intros [?|Hin]%elem_of_cons; [done|]. rewrite (IH Hin) at 1. apply perm_swap.
Qed.
Lemma demo_free_ok p n f m : demo_ok f m → (p, n) ∈ d_held f →
  demo_ok (mkDemoFw (d_next f) (give_back (p, n) (d_held f)) (d_key f + 1)) m.
Proof.
  intros [Hn Hh Hm] Hin. split; [done| |done]. intros a Ha. apply Hh.
  rewrite (owned_perm _ _ a (give_back_perm _ _ Hin)). apply owned_cons. by right.
Qed.

Lemma demo_allocate_ok policy n f m : demo_ok f m → 0 < n →
  let '(o, (f', m')) := demo_allocate policy n (f, m) in
  demo_ok f' m' ∧ kept (d_held f) m m' ∧
  match o with
  | None => d_held f' = d_held f
  | Some p =>
    d_held f' = (p, n) :: d_held f ∧ p mod PAGE_SIZE_4K = 0 ∧ 0 < p ∧ p + n * PAGE_SIZE_4K ≤ 2 ^ 52 ∧
    mapped m' p (n * PAGE_SIZE_4K) ∧ (∀ a, owned (d_held f) a → ¬ (p ≤ a < p + n * PAGE_SIZE_4K)) ∧
    match policy with AnyPages => True | MaxAddress limit => p + n * PAGE_SIZE_4K - 1 ≤ limit end
  end.
Proof.
  intros Hok Hn. pose proof Hok as [[Hal Hr] Hh Hm]. unfold demo_allocate.
  destruct (_ && _) eqn:Hc; [|split_and!; [done|apply kept_same|done]].
  apply andb_true_iff in Hc as [[_ Hc]%andb_true_iff Hp]. apply Z.leb_le in Hc. unfold PAGE_SIZE_4K, MEM_TOP in *.
  split; [split; cbn [d_next d_held]|split; [apply kept_same|]].
  - unfold PAGE_SIZE_4K, MEM_TOP. split; [dlia|lia].
  - intros a [Ha|Ha]%owned_cons; [cbn in Ha; unfold PAGE_SIZE_4K in Ha; lia|]. specialize (Hh a Ha). lia.
  - done.
  - split_and!; [done|done|lia|lia| | |].
    + intros i Hi. apply Hm. lia.
    + intros a Ha. specialize (Hh a Ha). lia.
    + destruct policy; [done|]. cbn in Hp. apply Z.leb_le in Hp. lia.
Qed.

Lemma write_entry_at_ok (m : mem) buf e : mapped m buf 32 → 0 ≤ typ e < 2 ^ 32 → u64 (PhysAddr.as_u64 (physical_start e)) → u64 (number_of_pages e) →
  ∃ m', write_entry_at m buf e = Some m' ∧ MemoryMap.read_entry (λ a, m' !! a) buf = Some e ∧
    (∀ a, ¬ (buf ≤ a < buf + 32) → m' !! a = m !! a) ∧ (∀ a, is_Some (m' !! a) ↔ is_Some (m !! a)) ∧ (bytes_ok m → bytes_ok m').
Proof.
  intros Hm Ht Hs Hn. unfold write_entry_at, u64 in *.
  destruct (store_le_Some 4 m buf (typ e)) as [m1 H1]; [intros i Hi; apply Hm; lia|]. rewrite H1. cbn [mbind option_bind].
  destruct (store_le_Some 8 m1 (buf + 8) (PhysAddr.as_u64 (physical_start e))) as [m2 H2];
    [intros i Hi; apply (store_le_dom _ _ _ _ _ _ H1), Hm; lia|]. rewrite H2. cbn [mbind option_bind].
  destruct (store_le_Some 8 m2 (buf + 24) (number_of_pages e)) as [m3 H3];
    [intros i Hi; apply (store_le_dom _ _ _ _ _ _ H2), (store_le_dom _ _ _ _ _ _ H1), Hm; lia|].
  exists m3. split; [done|]. split_and!.
  - unfold MemoryMap.read_entry.
    rewrite (load_le_ext 4 _ (λ a, m1 !! a)) by (intros i Hi; rewrite (store_le_other _ _ _ _ _ _ H3), (store_le_other _ _ _ _ _ _ H2) by lia; done).
    rewrite (load_store_le 4 m _ _ m1) by (exact Ht || exact H1). cbn [mbind option_bind].
    rewrite (load_le_ext 8 _ (λ a, m2 !! a) (buf + 8)) by (intros i Hi; by rewrite (store_le_other _ _ _ _ _ _ H3) by lia).
    rewrite (load_store_le 8 m1 _ _ m2) by (exact Hs || exact H2). cbn [mbind option_bind].
    rewrite (load_store_le 8 m2 _ _ m3) by (exact Hn || exact H3). cbn [mbind option_bind]. by destruct e as [? [] ?].
  - intros a Ha. rewrite (store_le_other _ _ _ _ _ _ H3), (store_le_other _ _ _ _ _ _ H2), (store_le_other _ _ _ _ _ _ H1) by lia. done.
  - intros a. by rewrite (store_le_dom _ _ _ _ _ _ H3), (store_le_dom _ _ _ _ _ _ H2), (store_le_dom _ _ _ _ _ _ H1).
  - intros Hb. eapply store_le_bytes, store_le_bytes, store_le_bytes; eauto.
Qed.

Lemma demo_map_ok buf n f m : demo_ok f m → (∀ a, buf ≤ a < buf + n → owned (d_held f) a) →
  let '(o, (f', m')) := demo_map buf n (f, m) in
  d_held f' = d_held f ∧ demo_ok f' m' ∧ (∀ a, is_Some (m' !! a) ↔ is_Some (m !! a)) ∧ (bytes_ok m → bytes_ok m') ∧
  (∀ a, owned (d_held f) a → ¬ (buf ≤ a < buf + n) → m' !! a = m !! a) ∧
  match o with
  | None => True
  | Some i => map_info_ok i ∧ mi_size i ≤ n ∧ 0 < mi_desc i ∧
      ∃ es, es = [left_over f'] ∧ describes m' buf i es ∧ ∀ e a, e ∈ es → typ e = EFI_CONVENTIONAL_MEMORY → covers e a →
        ¬ owned (d_held f) a ∧ is_Some (m' !! a)
  end.
Proof.
  intros Hok Hbuf. pose proof Hok as [[Hal Hr] Hh Hm]. unfold demo_map. destruct (Z.ltb_spec n 48) as [|Hn]; [by split_and!|].
  destruct (write_entry_at_ok m buf (left_over f)) as (m' & Hw & Hre & Hout & Hd & Hb).
  { intros a Ha. destruct (Hh a (Hbuf a ltac:(lia))). apply Hm. lia. }
  { cbn. unfold EFI_CONVENTIONAL_MEMORY. lia. }
  { cbn. unfold u64, MEM_TOP in *. lia. }
  { cbn. unfold u64, MEM_TOP, FRAME_SIZE, PAGE_SIZE_4K in *. dlia. }
  rewrite Hw. split_and!; [done|by eapply demo_write|done|done|intros a _ Ha; apply Hout; lia| | |done|].
  - split_and!; cbn; lia.
  - cbn. lia.
  - exists [left_over f]. split; [done|]. split; [split; [done|]|].
    + intros [|k] e He; [injection He as <-; by rewrite Z.add_0_r|done].
    + intros e a He _ Hc. apply list_elem_of_singleton in He as ->. unfold covers in Hc. cbn in Hc.
      assert (Ha : d_next f ≤ a < MEM_TOP) by (unfold FRAME_SIZE, PAGE_SIZE_4K, MEM_TOP in *; dlia).
      split; [intros Ho; specialize (Hh a Ho); lia|]. apply Hd, Hm. lia.
Qed.

Lemma demo_still {A} (a : A) (post : A → Prop) : post a → leaves_pages d_held demo_ok (still a) post.
Proof. intros Hp f m Hok. cbn. split_and!; [done|done|apply kept_same|done]. Qed.

Lemma demo_elf_bytes : Forall (λ b, 0 ≤ b < 256) demo_elf.
Proof. vm_compute. repeat (constructor; [split; [discriminate|reflexivity]|]). constructor. Qed.

#[global] Instance demo_laws : FirmwareLaws demo_fw.
Proof.
  refine {| held := d_held; fw_ok := demo_ok; fw_map := λ f es, es = [left_over f]; fl_allocate := demo_allocate_ok; fl_map := demo_map_ok |};
    try (intros; apply demo_still; done).
  - intros f m m' Hok _ Hd _. by eapply demo_write.
  - intros p n f m Hok Hin. cbn. eexists. split; [by apply give_back_perm|]. split; [done|]. split; [by apply demo_free_ok|apply kept_same].
  - intros f m Hok. cbn. split_and!; [done|done|apply kept_same|]. unfold map_info_ok. cbn. lia.
  - intros key f m Hok. cbn. split_and!; [done|done|apply kept_same|done].
  - intros key f m es Hes. exact Hes.
  - intros h. apply demo_still. intros n [= <-]. vm_compute. by split.
  - intros h n. apply demo_still. intros bs. destruct (Z.leb_spec (Z.of_nat (length demo_elf)) n); [|done].
    intros [= <-]. split; [done|apply demo_elf_bytes].
Defined.

(** The file is well formed. *)
Definition demo_headers : list (Z * segment) := [(1, mkSegment KERNEL_VIRTUAL_BASE 120 4 0x1000)].
Lemma demo_elf_ok : elf_ok demo_elf demo_headers.
Proof.
  split; [exact demo_elf_bytes|reflexivity| |by eexists|].
  - exists 64, 56. split; [reflexivity|]. split; [reflexivity|].
    intros [|i] t sg Hi; [|done]. injection Hi as <- <-. vm_compute. by split_and!.
  - constructor; [|constructor]. vm_compute. by split_and!.
Qed.
Lemma demo_file_ok : kernel_file_ok (F := demo_fw).
Proof.
  intros h n g content. cbn. destruct (_ <=? n); [|done]. intros [= <-] _. exists demo_headers. exact demo_elf_ok.
Qed.

(** Nothing taken yet. *)
Definition demo_mem : mem := fill_mem (λ _, 0) 0x1000 (MEM_TOP - 0x1000).
Definition demo_efi : efi demo_fw := mkEfi (mkDemoFw 0x1000 [] 0) demo_mem [] [] [] true.
Lemma demo_efi_ok : fw_ok (fw demo_efi) (ram demo_efi).
Proof.
  split.
  - split; [reflexivity|split; discriminate].
  - intros a (p & n & Hin & _). by apply elem_of_nil in Hin.
  - intros i Hi. cbn [demo_efi ram]. unfold demo_mem. rewrite fill_mem_lookup; [by eexists|unfold MEM_TOP in *; lia].
Qed.
Lemma demo_mem_bytes : bytes_ok demo_mem.
Proof. intros i b. unfold demo_mem. intros [_ ->]%fill_mem_Some. lia. Qed.

(** ** Room for every call the loader makes *)
Definition demo_room f : Z := (MEM_TOP - d_next f) / PAGE_SIZE_4K.
Definition demo_co_ok f : Prop := d_next f mod PAGE_SIZE_4K = 0 ∧ 0x1000 ≤ d_next f ≤ MEM_TOP.

Lemma demo_still_succeeds {A} (a : A) (post : A → Prop) : post a → succeeds demo_co_ok demo_room (still a) post.
Proof. intros Hp f m Hok. by cbn. Qed.

Lemma demo_co_allocate policy n f m : demo_co_ok f → 0 < n ≤ demo_room f →
  policy = AnyPages ∨ policy = MaxAddress (IDENTITY_MAP_LIMIT - 1) →
  let '(o, (f', _)) := demo_allocate policy n (f, m) in
  demo_co_ok f' ∧ demo_room f' = demo_room f - n ∧ ∃ p, o = Some p ∧ 0 < p.
Proof.
  unfold demo_allocate, demo_co_ok, demo_room, MEM_TOP, PAGE_SIZE_4K. intros [Hal Hr] [Hn Hroom] Hp.
  assert (Hs : d_next f + n * 0x1000 ≤ 0x3000000) by dlia.
  assert (Hpol : within_policy policy (d_next f + n * 0x1000 - 1) = true)
    by (destruct Hp as [-> | ->]; [done|apply Z.leb_le; unfold IDENTITY_MAP_LIMIT; lia]).
  rewrite (proj2 (Z.ltb_lt _ _)), (proj2 (Z.leb_le _ _)), Hpol by lia. cbn [andb d_next].
  split; [split; [dlia|lia]|]. split; [dlia|]. eexists. split; [done|lia].
Qed.

Lemma demo_co_allocated policy n f m : demo_co_ok f → demo_co_ok (demo_allocate policy n (f, m)).2.1.
Proof.
  intros [Hal Hr]. unfold demo_allocate. destruct (_ && _) eqn:Hc; [|done].
  apply andb_true_iff in Hc as [[Hn Hs]%andb_true_iff _]. apply Z.ltb_lt in Hn. apply Z.leb_le in Hs.
  unfold demo_co_ok, MEM_TOP, PAGE_SIZE_4K in *. cbn [fst snd d_next]. split; [dlia|lia].
Qed.
Lemma demo_acceptable : acceptable demo_elf PAGE_SIZE_2M.
Proof.
  split; [vm_compute; discriminate|]. split; [vm_compute; reflexivity|]. exists KERNEL_VIRTUAL_BASE. vm_compute. reflexivity.
Qed.

Lemma demo_map_key buf n f m : 48 ≤ n → ∃ m', demo_map buf n (f, m) = (Some (demo_info f), (f, m')).
Proof.
  intros Hn. unfold demo_map. destruct (Z.ltb_spec n 48); [lia|].
  destruct (write_entry_at m buf (left_over f)) as [m'|]; [by exists m'|by exists m].
Qed.
Lemma demo_co_map f (m0 : mem) n (m1 m2 : mem) : demo_co_ok f →
  let '(i0, (f1, _)) := bs_map_size (f, m0) in
  let '(o, (f2, _)) := bs_allocate_pages (MaxAddress (IDENTITY_MAP_LIMIT - 1)) n (f1, m1) in
  ∀ p, o = Some p → mi_size i0 + 8 * mi_desc i0 ≤ n * PAGE_SIZE_4K →
  let '(oi, (f3, _)) := bs_get_memory_map p (mi_size i0 + 8 * mi_desc i0) (f2, m2) in
  ∃ i, oi = Some i ∧ demo_room f3 = demo_room f2 ∧ ∀ m3 : mem, let '(ok, (f4, _)) := bs_exit (mi_key i) (f3, m3) in
    ok = true ∧ demo_co_ok f4 ∧ demo_room f4 = demo_room f3.
Proof.
  intros Hok. pose proof (demo_co_allocated (MaxAddress (IDENTITY_MAP_LIMIT - 1)) n f m1 Hok) as Hok2. cbn [bs_map_size bs_allocate_pages bs_get_memory_map bs_exit demo_services].
  destruct (demo_allocate _ n (f, m1)) as [o [f2 m]]. cbn [fst snd] in Hok2. intros p _ _.
  destruct (demo_map_key p (mi_size (demo_info f) + 8 * mi_desc (demo_info f)) f2 m2) as [m' ->]; [cbn; lia|].
  eexists. split; [done|]. split; [done|]. intros m3. split; [apply Z.eqb_refl|done].
Qed.

#[global] Instance demo_cooperative : Cooperative demo_fw PAGE_SIZE_2M 1.
Proof.
  refine {| co_ok := demo_co_ok; room := demo_room; kernel_handle := λ _, True; file_length := λ _, Z.of_nat (length demo_elf);
            co_allocate := demo_co_allocate |};
    try (intros; apply demo_still_succeeds; first [done | by eexists]).
  - intros p n f m Hok. by split.
  - intros f m Hok. cbn. split_and!; [done|done| |done|done]. unfold map_info_ok. cbn. lia.
  - exact demo_co_map.
  - intros h. cbn beta. apply demo_still_succeeds. rewrite Z.leb_refl. exists demo_elf. split; [done|]. intros _. exact demo_acceptable.
Defined.

Lemma demo_co_start : co_ok (fw demo_efi).
Proof. split; [reflexivity|split; discriminate]. Qed.
Lemma demo_room_start : (PAGE_SIZE_2M + PAGE_SIZE_2M) / PAGE_SIZE_4K + 25 + 1 ≤ room (fw demo_efi).
Proof. change (room (fw demo_efi)) with ((MEM_TOP - 0x1000) / PAGE_SIZE_4K). vm_compute. discriminate. Qed.
Lemma demo_room_left : 11000 ≤ room (fw demo_efi) - ((PAGE_SIZE_2M + PAGE_SIZE_2M) / PAGE_SIZE_4K + 25 + 1).
Proof. change (room (fw demo_efi)) with ((MEM_TOP - 0x1000) / PAGE_SIZE_4K). vm_compute. discriminate. Qed.

(** ** Witnesses *)
Lemma build_page_tables_correct_witness :
  ∃ cr3 s', BuildKernelPageTables 0x200000 0x400000 demo_efi = Ret (cr3, s') ∧
    (cr3 ≠ 0 → resolve (walk (ram s') cr3 (indices (VirtAddr.new 0xFFFFFFFF80200123))) (VirtAddr.new 0xFFFFFFFF80200123) =
               Some (PhysAddr.new 0x400123)).
Proof.
  destruct (build_page_tables_correct demo_efi 0x200000 0x400000 demo_efi_ok eq_refl eq_refl ltac:(lia) ltac:(lia)
    ltac:(unfold PAGE_SIZE_2M; lia)) as (cr3 & s' & Hr & _ & _ & _ & Hw).
  exists cr3, s'. split; [exact Hr|]. intros Hne. exact (Hw Hne 0xFFFFFFFF80200123 ltac:(right; lia)).
Defined.

Lemma exit_boot_services_correct_witness :
  ∃ o s', ExitBootServicesWithRetry demo_efi = Ret (o, s') ∧
    match o with None => live s' = true | Some map => live s' = false end.
Proof.
  destruct (exit_boot_services_correct demo_efi demo_efi_ok eq_refl) as (o & s' & Hr & _ & Ho).
  exists o, s'. split; [exact Hr|]. destruct o; exact (proj1 Ho).
Defined.


(** The kernel's state at its entry. *)
Definition entered (m : mem) (cr3 : Z) : system FrameAllocator :=
  mkSystem (mkKernel new_heap (mkGlobals (SpinLock.new None) (SpinLock.new None) (mkMachine m tt ∅ 0xD01 cr3)))
    (mkSeg TSS_static GDT_static (mkPointer 0 0) 0x38 [] 0 (0, 0)) IDT_static (mkPointer 0 0).
Lemma entered_at_entry m cr3 : at_entry m cr3 (entered m cr3).
Proof. by split. Qed.

(** What the loader left of the machine is enough for the kernel. *)
Lemma demo_fits {P : BuildProfile} f m cr3 entry info stack bi row content hds :
  demo_ok f m → 11000 ≤ demo_room f → handover m (d_held f) cr3 entry info stack bi [left_over f] row content hds →
  machine_fits [left_over f] row ∧
  ∃ fa, FrameInit.init (λ a, m !! a) bi = Ret (Ok fa) ∧ 9353 ≤ Z.of_nat (size (low_pool fa)).
Proof.
  intros [[Hal Hr] Hh _] Hroom Hho. unfold demo_room, MEM_TOP, PAGE_SIZE_4K in *.
  assert (Hnn : ∀ e, e ∈ [left_over f] → conventional e → PhysAddr.as_u64 (physical_start e) ≠ 0)
    by (intros e He _; apply list_elem_of_singleton in He as ->; cbn; lia).
  destruct (region_frames (d_next f) MEM_TOP ltac:(lia) Hal eq_refl ltac:(unfold FRAME_SIZE, MEM_TOP; dlia) ltac:(unfold MEM_TOP; lia)
    (λ a, m !! a) bi (hd_map _ _ _ _ _ _ _ _ _ _ _ Hho Hnn)) as (fa & Hinit & _ & _ & Hfree).
  split.
  - split; [done|]. intros t Ht. destruct (hd_tables _ _ _ _ _ _ _ _ _ _ _ Hho) as [Hown _].
    destruct (Hh t (Hown t Ht t ltac:(unfold FRAME_SIZE; lia))). unfold IDENTITY_MAP_LIMIT. lia.
  - exists fa. split; [done|]. assert (Hsub : list_to_set (seqZ (d_next f / FRAME_SIZE + 1) 9353) ⊆ low_pool fa).
    { intros k Hk%elem_of_list_to_set%elem_of_seqZ. apply elem_of_filter. unfold MEM_TOP, FRAME_SIZE, IDENTITY_MAP_LIMIT in *.
      split; [dlia|]. apply Hfree. dlia. }
    apply subseteq_size in Hsub. rewrite size_list_to_set in Hsub by apply NoDup_seqZ. rewrite length_seqZ in Hsub. lia.
Qed.


(** A machine whose tables are at 4 GiB. *)
Definition high_system : system FrameAllocator := entered ∅ 0x100000000.
Definition no_frames : FrameAllocator := mkFrameAllocator 0 [] 0 0 0.
Lemma high_tables_stop_kernel_witness :
  ∃ s' u' log, start_vmm (P := release_profile) (L := demo_line) (I := demo_image) (H := demo_code) (C := boot_cpu true)
      5 code_page boot_info no_frames (high_system, demo_uart) = Ret (Halted, (s', u')) ∧
    sent u' = log ++ expand (line "FATAL: virtual memory manager boot self-test failed.").
Proof.
  exact (proj2 (proj2 (proj2 (high_tables_stop_kernel (P := release_profile) (L := demo_line) (I := demo_image) (H := demo_code)
    (C := boot_cpu true) 2 5 ltac:(lia) high_system demo_uart no_frames code_page boot_info (VirtAddr.new 0) (PhysAddr.new 0) read_write
    ltac:(vm_compute; discriminate) demo_sending eq_refl eq_refl)))).
Defined.

Lemma demo_laid_out : laid_out demo_elf demo_headers KERNEL_VIRTUAL_BASE PAGE_SIZE_2M.
Proof.
  destruct (layout_ok demo_elf demo_headers demo_elf_ok) as (o & Hr & Ho).
  assert (Hl : layout demo_elf = Ret (Some (KERNEL_VIRTUAL_BASE, PAGE_SIZE_2M))) by (vm_compute; reflexivity).
  rewrite Hl in Hr. injection Hr as <-. exact Ho.
Qed.
Lemma image_mapped_iff_based_witness :
  ∃ cr3 s', BuildKernelPageTables 0x400000 PAGE_SIZE_2M demo_efi = Ret (cr3, s') ∧
    (cr3 ≠ 0 → resolve (walk (ram s') cr3 (indices (VirtAddr.new 0xFFFFFFFF80000ABC))) (VirtAddr.new 0xFFFFFFFF80000ABC) =
               Some (PhysAddr.new 0x400ABC)).
Proof.
  destruct (image_mapped_iff_based demo_efi 0x400000 demo_elf demo_headers KERNEL_VIRTUAL_BASE PAGE_SIZE_2M demo_efi_ok eq_refl
    demo_laid_out eq_refl ltac:(lia) ltac:(unfold PAGE_SIZE_2M; lia)) as (cr3 & s' & Hr & Hw).
  exists cr3, s'. split; [exact Hr|]. intros Hne.
  refine (proj2 (Hw Hne) eq_refl 0xFFFFFFFF80000ABC _). vm_compute. split; [discriminate|reflexivity].
Defined.


(** The bootloader's test on this machine. *)
Lemma stub_test_passes_witness :
  ∃ cr3 entry info stack s' u' v log,
    EfiMain (L := demo_line) boot_fuel 7 (demo_efi, demo_uart) = Ret (Jump cr3 entry info stack, (s', u')) ∧
    KernelEntry (L := demo_line) boot_fuel (through (ram s') cr3) info u' = Ret (tt, v) ∧
    sent v = log ++ expand stub_complete.
Proof.
  destruct (stub_test_passes (L := demo_line) 2 boot_fuel (proj1 boot_fuel_ok) 7 demo_efi demo_uart demo_efi_ok eq_refl eq_refl
    eq_refl demo_mem_bytes demo_file_ok ltac:(cbn; lia) ltac:(intros n; cbn; lia)) as (e & s' & u' & Hr & He).
  destruct (efi_main_not_halt boot_fuel 7 demo_efi demo_uart e s' u' demo_co_start ltac:(unfold KERNEL_MAX_SIZE_BYTES, PAGE_SIZE_2M; lia)
    ltac:(lia) demo_room_start Hr) as [Hne _].
  destruct e as [|cr3 entry info stack]; [destruct (Hne eq_refl)|].
  destruct He as (bi & es & row & content & hds & v & _ & Hk & Hv).
  eexists cr3, entry, info, stack, s', u', v, _. split; [exact Hr|]. split; [exact Hk|].
  rewrite Hv, !expand_app, !app_assoc. reflexivity.
Defined.
